(* ===== verification/_CoqProject ===== *)
-Q . S2P
Prelude.v
GoStrings.v
GoFloat.v
GoFormat.v
GoRegexp.v
GoFiles.v
Host.v
ReleasePackage.v
ReleaseArtifacts.v
ReleasePipeline.v
ReleaseWorkflow.v
Credits.v
Quota.v
Config.v
Accounts.v
Windows.v
Health.v
Failures.v
SecureStore.v
SecureDir.v
SecureRun.v
Settings.v
SettingsDisk.v
Runtime.v
RuntimeSteps.v
Lifecycle.v
Scheduler.v
Management.v
OpenCodeUsage.v
OpenCodeGo.v
ProviderModule.v
ZaiModule.v
ZaiHost.v
OpenCodeModule.v
Coordinator.v
Plugin.v
Resource.v
Dispatch.v
Interleaving.v
CInterface.v
Poller.v
HostIntegration.v
Manifest.v
SnapshotCopy.v
