(* ===== verification/Prelude.v ===== *)
(** * subscription-pool: a verification library for the CLIProxyAPI plugin

    The plugin sits between the CLIProxyAPI host and the subscriptions of its
    users. The host calls it for every request it has to place (which credential
    serves it), for every finished request (what it used), for management, and
    to configure and stop it. A coordinator owns these entry points; two provider
    modules behind it, Z.ai and OpenCode Go, own the accounts, their quota and
    their health. Programs under src/.github/scripts package a release of it, check the
    release and the workflows that make it, and try the built plugin in a host.

    ** Parts and files

    Sources are under src/internal unless they start with src/.

    - Foundations. [Prelude]: machine integers with their wrap-around ([wrap64],
      [wrapu64], the operators [+] [-] [*] [/] [%] in brackets), time as
      nanoseconds since Go's zero time, errors and results, list lemmas.
      [GoStrings]: the functions of strings, strconv and net/http the code calls.
      [GoFloat]: float64 on the standard library's SpecFloat. [GoFormat]: the text
      that fmt, time and html write, and readers of it. [GoRegexp]: regular
      expressions as languages, and a matcher by derivatives. [GoFiles]: paths,
      lines and files of the standard library. [Host]: the
      pluginapi records and [GoStd], the class of the library functions that are
      used only through documented results (hashes, time, duration and URL
      syntaxes, JSON into [any]), with its laws [GoStdLaws] and an executable
      instance [DemoStd] on which the witnesses evaluate.

    - The Z.ai module (providers/zai). [Credits]: credits.go. [Quota]: quota.go.
      [Config]: config.go. [Accounts]: accounts.go and snapshot.go. [Windows]:
      windows.go. [Health]: health.go and the request-rate ladder of failures.go.
      [Failures]: the hints of failures.go. [Settings]: settings.go, over
      [SecureStore], the contract of securestore/, and [SecureDir], securestore.go
      and securestore_linux.go over system calls; [SecureRun] runs a whole program
      over system calls and [SettingsDisk] is Settings on them. [ZaiHost]: the
      host's file and paths in config.go, and the reconfiguration of runtime.go
      that starts from them. [Runtime]: runtime.go, each
      function the part that runs under the mutex. [RuntimeSteps]: the
      interleavings of those parts as events. [Lifecycle]: theorems on single
      operations of the runtime. [Poller]: the loop of pollAccount among those events.
      [SnapshotCopy]: cloneRuntimeSnapshot in a memory with pointers. [Scheduler]: scheduler.go and the wire errors of
      plugin.go. [Management]: management.go and the status of runtime.go.

    - The OpenCode Go module (providers/opencodego). [OpenCodeUsage]: quota.go and
      the signals of module.go. [OpenCodeGo]: the rest of module.go.

    - The composition. [ProviderModule]: providermodule/interface.go as a class of
      operations, [ProviderModule], and a class of the laws the coordinator relies
      on, [ProviderModuleLaws], with the instance for the sum of two kinds of
      modules. [ZaiModule] and [OpenCodeModule]: the two instances and their laws.
      [Coordinator]: coordinator.go, registry.go, config.go and management.go of
      coordinator/. [Plugin]: src/src/plugin.go, plugin_linux.go and
      runtime_state.go. [Resource]: resource.go, the page that shows the statuses
      of the two modules. [Dispatch]: the theorems of the composition, proved
      against the laws and evaluated on the two real modules. [Interleaving]: the
      calls of coordinator.go as threads that run at the same time. [Manifest]:
      manifest.go over [SecureDir]. [CInterface]: the C functions of plugin_linux.go
      with the buffers of a call, and their client, abiclient/abiclient_linux.go, over
      the memory of C.

    - The release tools (src/.github/scripts). [ReleasePackage]: package-release.go.
      [ReleaseArtifacts]: the checks of a release in release-validation/main.go.
      [ReleasePipeline]: the first against the second. [ReleaseWorkflow]: the checks
      of the workflows in main.go and workflow.go. [HostIntegration]: host-integration,
      main.go and stub.go, as a script of actions on the system ([script]) that runs
      against any environment that answers them ([run]).

    ** How the code is represented

    State is passed explicitly: a method that changes its receiver is a function
    that returns the changed record next to its result, and a Go map is a [gmap]
    where the order of iteration does not matter and an association list in
    iteration order where it does. A pointer that is shared (the accounts of a
    snapshot, the account states of OpenCode Go) is the entry of the map it is
    reached through, and a store is identified by [ss_id]. Errors are values of
    [error], which keeps what the code inspects: the text, the wrapping, the
    coded errors and the outcome of a write. Whatever the code is answered by the
    network, the file system, the clock or a decoder is an argument, so that the
    theorems hold for every answer. In [SnapshotCopy] and [CInterface], which are about
    sharing and about release, pointers are places in an explicit memory. The release tools run on a file system without
    links whose directories are implicit ([FS]), where an oracle may fail any call
    ([GoOS]); the zip format, YAML and JSON are classes ([GoZip] with its law
    [GoZipLaws], [ReleaseYAML], [ReleaseJSON]).

    Mostly a function of the model is one critical section. Where the Z.ai runtime
    releases its mutex between two of them, before the write of state.json after a
    record or a poll and during the network request of a poll, they are separate events
    of [RuntimeSteps], whose theorems are about every sequence of events, failing writes
    included. The poll of OpenCode Go is two steps, [poll_begin] and [poll_end]. A call
    of the coordinator is one step of [Dispatch], and so is one of the modules' own
    goroutines. In [Interleaving] it takes one step for each critical section of
    its mutex and each call of a module, and the steps of several calls mix in any
    order; not interrupted, it is the step of [Dispatch] ([run_alone]).

    In four places a step of the model is coarser than the code, which releases a lock
    on the way. [updateAccountConfig] of Management is one function, although the code
    copies the snapshot, writes settings.json and publishes in turn; [SnapshotCopy] is
    about the copy and [SettingsDisk] about the write. In [Interleaving] a module is
    asked in one step about all candidates of a request, where the code takes the
    module's lock for each. To the coordinator the status of OpenCode Go is one call,
    although it polls with its lock released. And [reconfigure] of Coordinator leaves
    out the write of manifest.json, whose failure the code ignores: it is [Manifest].

    Loops are structural recursions over the lists they visit. Those that are not
    carry fuel: [backoff_loop] of Health (8, four iterations suffice:
    [requestRateBackoff_terminates]), [sort_Search_loop] of Windows (the length
    of the list: [sort_Search_loop_spec]), [create_temp] of SecureDir (100, the
    attempts of the code), [digits_of] of GoStrings (the binary
    logarithm: [digits_of_val]), [replace_list] (the length of the text),
    [waitForRegistered] (121 turns of 250 milliseconds in 30 seconds:
    [waitForRegistered_ends]) and the reader of the example archive format (the length
    of the archive). [pollAccount] goes over the turns it is given: its loop has no end
    of its own, and [poller_ends] states what ends it.

    ** What the theorems show

    - Composition (Dispatch): a request one of the modules recognises is answered with
      the choice of that module, which may be a handled delegation to the host's
      round-robin, or refused when two modules recognise it, and never passed on as
      unhandled because it failed ([plugin_never_falls_back],
      [coordinator_pick_dispatch]); the registry is exact after a successful
      reconfiguration and while anything is served ([registry_stays_exact]), so
      that dispatching usage through it then equals telling every module
      ([usage_dispatch_broadcast]) and credentials reach their module
      ([owned_candidates_dispatched]); a reconfiguration that fails on a later module
      leaves the earlier ones reconfigured under the old registry, so that usage of
      their new credentials is lost ([failed_reconfigure_drops_usage]); registered and answered management
      routes are the same ([registered_routes_answered]); shutdown is final
      ([coordinator_shutdown_final]).
    - Calls at the same time (Interleaving): reconfigurations made one at a time
      publish an exact registry whatever else runs ([serialised_registry_exact]),
      two that overlap may not ([overlapping_reconfigures_stale]); a shutdown waits
      for those in flight and lets no other start
      ([shutdown_excludes_reconfigure]); picks and usage records behave as at one
      moment ([calls_take_effect_at_once]).
    - The C interface (CInterface): a session of the client through the memory of C
      answers as the plugin does, and frees everything once ([session_refines],
      [Open_balanced]); lengths that do not fit an int ([long_requests]) and a call
      after Close ([call_after_close]) are where it does not.
    - Z.ai choice: [pick_refines_spec] against a specification in terms of the
      health of the managed candidates, fairness of the rotation, stability and
      purity of the sticky choice.
    - Z.ai state: in any order of records, polls, writes and failures, no update is lost
      without a warning or written out of order ([no_update_lost],
      [writes_only_advance]), every written state passes the check of the next
      load ([saved_states_valid]), a record is charged once
      ([usage_charged_once]), a reconfiguration carries the state over
      ([publish_carries_state]), concurrent refreshes are shared
      ([refresh_single_flight]), a poller ends with its snapshot ([poller_ends]), a copy
      of the snapshot is the same and separate ([snapshot_copy_separate]), so that an
      update prepared in one is not seen ([update_in_copy]), settings survive a crash at any point
      ([saveSettings_crash_consistent]), shutdown flushes and stops
      ([shutdown_final]); a runtime configured from the host's file does what the
      module does behind the contract ([reconfigure_is_module]).
    - The store over system calls: whatever the system answers, a call
      returns and leaves what its contract does, and a crash at any system call of
      it is a crash of the contract ([store_refines]); so it is for whole programs
      ([run_dir_refines]), and so for the settings on disk ([settings_survive_crashes])
      and the manifest, whose write touches nothing else ([manifest_written_alone]).
    - Z.ai quota, credits and accounts: parsing is sound and bounded, estimated
      resets are the true ones, compaction by binary search is filtering, prices
      are exact integers, the account index is exact, statuses are redacted.
    - OpenCode Go: the choice agrees with recognition and rotates fairly
      ([opencode_pick_sound], [pick_round_robin]), the index is exact in every
      reachable state ([opencode_invariant]), a block that a 429 response with a reset
      has set lasts until the latest reset named ([signals_extend_block]), a poll accepts
      exactly the answers it describes ([fetchUsage_sound]), hints are read back from their text
      ([parse_reset_roundtrip]); [weaker_signal_unblocks] and [reset_wraps] state
      where the code departs from its comments.
    - The quota page (Resource): a reader of the page finds the template's tags and
      the accounts' texts exactly ([page_reads_back]), the shown reset times are the
      true ones and the countdown is within 30 seconds ([reset_shown]), the health
      badge agrees with the choice ([page_badge_agrees]).
    - The release: what the packaging writes the validation accepts exactly when its
      contents are those of a release ([packaged_release_accepted]); an accepted bundle is the staged release
      ([validateOperatorBundle_exact]) and accepted checksums are those of its files
      ([validateChecksums_exact]); the accepted tags are given by a grammar
      ([versionFromTag_semver]). An accepted release workflow reads as the canonical
      one ([release_workflow_canonical]) up to the layout of its commands, which is
      not looked at ([one_line_accepted]), and accepted actions are pinned
      ([workflow_actions_pinned]).
    - The check in a host (HostIntegration): it succeeds only when it has seen what it
      reports ([harness_accepts], with [assertRequests_once] for the stub's counts),
      releases what it has acquired wherever it stops ([harness_tidy]), waits for a
      bounded time ([waitForRegistered_ends]), and its filter of the environment, within
      one array, is a filter ([cleanProxyEnvironment_filter]).

    ** Not modelled

    JSON and YAML encoding and the host's configuration parser (arguments), other
    processes that change the store's directory between two of its system calls, case
    mapping beyond ASCII, the hooks for tests and the fixtures of the tests, the stubs
    of the store for other systems than Linux, and what stands behind the actions of
    [HostIntegration]: keys and certificates, sockets and processes. A pattern of
    filepath.Glob is taken in a directory whose path has no pattern characters. *)

From stdpp Require Export prelude gmap strings pretty.
From Stdlib Require Export ZArith Lia Ascii.

#[global] Open Scope Z_scope.

(** ** Machine integers

    Go's [int64], [int] (64 bits on linux/amd64) and [uint64] are [Z] with the
    wrap-around written out at every arithmetic operator. *)

Definition int64_min : Z := -9223372036854775808.
Definition int64_max : Z := 9223372036854775807.

Definition wrap64 (z : Z) : Z :=
  (z + 9223372036854775808) mod 18446744073709551616 - 9223372036854775808.

Definition wrapu64 (z : Z) : Z := z mod 18446744073709551616.

Arguments wrap64 : simpl never.
Arguments wrapu64 : simpl never.

Definition in_int64 (z : Z) : Prop := int64_min <= z <= int64_max.

#[global] Instance in_int64_decision z : Decision (in_int64 z).
Proof. unfold in_int64. apply _. Defined.

Declare Scope go_scope.
Delimit Scope go_scope with go.
Notation "x [+] y" := (wrap64 (x + y)) (at level 50, left associativity) : go_scope.
Notation "x [-] y" := (wrap64 (x - y)) (at level 50, left associativity) : go_scope.
Notation "x [*] y" := (wrap64 (x * y)) (at level 40, left associativity) : go_scope.
(** Go's integer division and remainder truncate toward zero. *)
Notation "x [/] y" := (wrap64 (Z.quot x y)) (at level 40, left associativity) : go_scope.
Notation "x [%] y" := (Z.rem x y) (at level 40, left associativity) : go_scope.
#[global] Open Scope go_scope.

(** ** Time

    A [time.Time] is the number of nanoseconds since Go's zero time,
    0001-01-01T00:00:00Z, so that [IsZero] is a comparison with [0]. Locations
    and monotonic clock readings are not part of the model: the code calls
    [UTC()] on every value it keeps, which strips both, and [UTC()] is then the
    identity. A [time.Duration] is an [int64] count of nanoseconds. *)

Abbreviation Time := Z (only parsing).
Abbreviation Duration := Z (only parsing).

Definition microsecond : Z := 1000.
Definition millisecond : Z := 1000000.
Definition second : Z := 1000000000.
Definition minute : Z := 60 * second.
Definition hour : Z := 60 * minute.
Definition day : Z := 24 * hour.

(** 1970-01-01T00:00:00Z on the scale of the model. *)
Definition unix_epoch : Time := 62135596800 * second.

Definition time_IsZero (t : Time) : bool := t =? 0.
Definition time_After (t u : Time) : bool := u <? t.
Definition time_Before (t u : Time) : bool := t <? u.
Definition time_Add (t : Time) (d : Duration) : Time := t + d.
(** [Time.Sub] saturates at the ends of [time.Duration]. *)
Definition time_Sub (t u : Time) : Duration := Z.max int64_min (Z.min int64_max (t - u)).
Definition time_Unix (s : Z) : Time := unix_epoch + s * second.
Definition time_UnixMilli (ms : Z) : Time := unix_epoch + ms * millisecond.
Definition time_UnixNano (t : Time) : Z := wrap64 (t - unix_epoch).

(** The proleptic Gregorian year, by the 400, 100, 4 and 1 year cycles. *)
Definition time_Year (t : Time) : Z :=
  let d := t / day in
  let r400 := d mod 146097 in
  let n100 := Z.min 3 (r400 / 36524) in
  let r100 := r400 - n100 * 36524 in
  let r4 := r100 mod 1461 in
  let n1 := Z.min 3 (r4 / 365) in
  400 * (d / 146097) + 100 * n100 + 4 * (r100 / 1461) + n1 + 1.

(** [time.Sunday] is 0; the zero time is a Monday. *)
Definition time_Weekday (t : Time) : Z := (t / day + 1) mod 7.
Definition time_Hour (t : Time) : Z := (t mod day) / hour.

(** ** Errors

    A Go [error] as far as the program inspects it: its text, the wrapping that
    [%w] keeps visible to [errors.Is] and [errors.As], and the coded errors that
    cross the plugin boundary. *)

(** [providermodule.WireError] *)
Record WireError := {
  we_Code : string;
  we_Message : string;
  we_Retryable : bool;
  we_HTTPStatus : Z;
}.

(** [securestore.WriteOutcome] *)
Inductive WriteOutcome := WriteNotCommitted | WriteCommitted | WriteNeedsRecovery.

Inductive error :=
| EText (msg : string)
| EWrap (prefix : string) (inner : error)
| ECanceled
| EDeadlineExceeded
| EWire (w : WireError)
| EWrite (o : WriteOutcome) (inner : error)
| EPending (inner : error).

#[global] Instance WireError_eq_dec : EqDecision WireError.
Proof. solve_decision. Defined.
#[global] Instance WriteOutcome_eq_dec : EqDecision WriteOutcome.
Proof. solve_decision. Defined.
#[global] Instance error_eq_dec : EqDecision error.
Proof. solve_decision. Defined.

(** The [Error()] method. *)
Fixpoint error_text (e : error) : string :=
  match e with
  | EText msg => msg
  | EWrap prefix inner => prefix +:+ error_text inner
  | ECanceled => "context canceled"
  | EDeadlineExceeded => "context deadline exceeded"
  | EWire w => we_Code w +:+ ": " +:+ we_Message w
  | EWrite _ inner => error_text inner
  | EPending inner => error_text inner
  end.

(** [errors.Is(err, context.Canceled)] *)
Fixpoint error_is_canceled (e : error) : bool :=
  match e with
  | ECanceled => true
  | EWrap _ inner | EWrite _ inner | EPending inner => error_is_canceled inner
  | _ => false
  end.

(** [errors.Is(err, context.Canceled) || errors.Is(err, context.DeadlineExceeded)] *)
Fixpoint error_is_context (e : error) : bool :=
  match e with
  | ECanceled | EDeadlineExceeded => true
  | EWrap _ inner | EWrite _ inner | EPending inner => error_is_context inner
  | _ => false
  end.

(** A call that returns [(T, error)]. *)
Inductive res (A : Type) :=
| Ok (a : A)
| Err (e : error).
Arguments Ok {A} a.
Arguments Err {A} e.

#[global] Instance res_eq_dec {A} `{EqDecision A} : EqDecision (res A).
Proof. solve_decision. Defined.

#[global] Instance res_ret : MRet res := @Ok.
#[global] Instance res_bind : MBind res := λ A B f r,
  match r with Ok a => f a | Err e => Err e end.
#[global] Instance res_fmap : FMap res := λ A B f r,
  match r with Ok a => Ok (f a) | Err e => Err e end.

Definition is_Ok {A} (r : res A) : bool :=
  match r with Ok _ => true | Err _ => false end.

(** [fmt.Errorf] with a plain text. *)
Definition errorf {A} (msg : string) : res A := Err (EText msg).

(** [if err != nil { return fmt.Errorf(prefix+"%w", err) }] *)
Definition wrap_err {A} (prefix : string) (r : res A) : res A :=
  match r with Ok a => Ok a | Err e => Err (EWrap prefix e) end.

(** ** Automation *)

Create HintDb go discriminated.
Create Rewrite HintDb go.
#[export] Hint Constants Transparent : go.

(** Case analysis on a boolean test of the code, with the proposition it
    decides; [crush_bool] turns the tests in the context into propositions. *)
Ltac crush_bool :=
  repeat match goal with
  | H : _ && _ = true |- _ => apply andb_true_iff in H; destruct H
  | H : _ || _ = false |- _ => apply orb_false_iff in H; destruct H
  | H : _ || _ = true |- _ => apply orb_true_iff in H
  | H : _ && _ = false |- _ => apply andb_false_iff in H
  | H : negb _ = true |- _ => apply negb_true_iff in H
  | H : negb _ = false |- _ => apply negb_false_iff in H
  | H : (_ <? _) = true |- _ => apply Z.ltb_lt in H
  | H : (_ <? _) = false |- _ => apply Z.ltb_ge in H
  | H : (_ <=? _) = true |- _ => apply Z.leb_le in H
  | H : (_ <=? _) = false |- _ => apply Z.leb_gt in H
  | H : (_ =? _) = true |- _ => apply Z.eqb_eq in H
  | H : (_ =? _) = false |- _ => apply Z.eqb_neq in H
  | H : time_After _ _ = _ |- _ => unfold time_After in H
  | H : time_Before _ _ = _ |- _ => unfold time_Before in H
  | H : time_IsZero _ = _ |- _ => unfold time_IsZero in H
  | H : bool_decide _ = true |- _ => apply bool_decide_eq_true_1 in H
  | H : bool_decide _ = false |- _ => apply bool_decide_eq_false_1 in H
  end.

(** Reduce an equation [f x = Ok y] (or [Err e]) by following the branches the
    code takes. *)
Ltac follow H :=
  repeat (first
    [ progress simplify_eq/=
    | match type of H with
      | context [match ?x with _ => _ end] => destruct x eqn:?
      end ]).

(** The next check of a function of [res] that returns [Ok] has passed, with the value
    [p], for the reason [H]. *)
Tactic Notation "passes" simple_intropattern(p) "as" ident(H) :=
  match goal with
  | |- context [@mbind res res_bind _ _ _ ?r] =>
      destruct r as [p|] eqn:H; [|try done]; cbn [mbind res_bind negb orb]
  end.

(** Decide a closed proposition by evaluation. *)
Ltac by_decision :=
  match goal with |- ?P => refine (bool_decide_eq_true_1 P _); vm_compute; reflexivity end.

(** Case analysis on the comparisons of the goal. *)
Ltac ltb_cases :=
  repeat match goal with
  | |- context [?x <? ?y] => destruct (Z.ltb_spec x y)
  | |- context [?x <=? ?y] => destruct (Z.leb_spec x y)
  | |- context [?x =? ?y] => destruct (Z.eqb_spec x y)
  end.

Ltac unfold_time :=
  unfold time_After, time_Before, time_Add, time_IsZero in *.

(** ** Integer lemmas *)

Lemma wrap64_id z : in_int64 z → wrap64 z = z.
Proof.
  unfold in_int64, int64_min, int64_max, wrap64. intros H.
  rewrite Z.mod_small; lia.
Qed.

Lemma wrap64_range z : in_int64 (wrap64 z).
Proof.
  unfold in_int64, int64_min, int64_max, wrap64.
  pose proof (Z.mod_pos_bound (z + 9223372036854775808) 18446744073709551616). lia.
Qed.

Lemma wrap64_idemp z : wrap64 (wrap64 z) = wrap64 z.
Proof. apply wrap64_id, wrap64_range. Qed.

Lemma wrapu64_range z : 0 <= wrapu64 z < 18446744073709551616.
Proof. apply Z.mod_pos_bound. lia. Qed.

Lemma wrapu64_id z : 0 <= z < 18446744073709551616 → wrapu64 z = z.
Proof. intros. apply Z.mod_small. lia. Qed.

(** Reinterpreting an [int64] as [uint64] loses nothing. *)
Lemma wrapu64_int64_inj x y :
  in_int64 x → in_int64 y → wrapu64 x = wrapu64 y → x = y.
Proof.
  unfold in_int64, int64_min, int64_max, wrapu64. intros Hx Hy H.
  pose proof (Z.div_mod x 18446744073709551616).
  pose proof (Z.div_mod y 18446744073709551616).
  pose proof (Z.mod_pos_bound x 18446744073709551616).
  pose proof (Z.mod_pos_bound y 18446744073709551616). lia.
Qed.

#[export] Hint Resolve wrap64_range wrapu64_range : go.
#[export] Hint Rewrite wrap64_idemp : go.

Lemma time_Sub_small t u :
  int64_min <= t - u <= int64_max → time_Sub t u = t - u.
Proof. unfold time_Sub. lia. Qed.

(** ** Generic list lemmas *)

Lemma Forall_take_drop {A} (P : A → Prop) n (l : list A) :
  Forall P (take n l) → Forall P (drop n l) → Forall P l.
Proof. intros. rewrite <- (take_drop n l). by apply Forall_app. Qed.

Lemma NoDup_fmap_filter {A B} (f : A → B) (P : A → Prop) `{∀ x, Decision (P x)} l :
  NoDup (f <$> l) → NoDup (f <$> filter P l).
Proof.
  induction l as [|x l IH]; [done|]. csimpl. rewrite NoDup_cons. intros [Hx Hl].
  rewrite filter_cons. case_decide; [|by apply IH].
  csimpl. rewrite NoDup_cons. split; [|by apply IH].
  intros (y & Heq & Hy)%list_elem_of_fmap. apply Hx.
  apply list_elem_of_fmap. exists y. split; [done|].
  by apply list_elem_of_filter in Hy as [_ ?].
Qed.

(** What precedes the first element outside [p] is determined by the list. *)
Lemma span_unique {A} (p : A → Prop) l1 c1 r1 l2 c2 r2 :
  Forall p l1 → Forall p l2 → ¬ p c1 → ¬ p c2 →
  l1 ++ c1 :: r1 = l2 ++ c2 :: r2 → l1 = l2 ∧ c1 = c2 ∧ r1 = r2.
Proof.
  intros H1 H2 Hc1 Hc2. revert l2 H2.
  induction H1 as [|x l1 Hx H1 IH]; intros l2 H2 H; destruct H2 as [|y l2 Hy H2];
    simplify_eq/=; try done.
  by destruct (IH l2 H2) as (-> & -> & ->).
Qed.

(** The same, counted from the end. *)
Lemma span_end_unique {A} (p : A → Prop) l1 c1 r1 l2 c2 r2 :
  Forall p l1 → Forall p l2 → ¬ p c1 → ¬ p c2 →
  r1 ++ c1 :: l1 = r2 ++ c2 :: l2 → l1 = l2 ∧ c1 = c2 ∧ r1 = r2.
Proof.
  intros H1 H2 Hc1 Hc2 H. apply (f_equal reverse) in H.
  rewrite !reverse_app, !reverse_cons, <- !app_assoc in H. simpl in H.
  apply (span_unique p) in H as (Hl & -> & Hr); try done; [|by apply Forall_reverse..].
  apply (f_equal reverse) in Hl, Hr. by rewrite !reverse_involutive in Hl, Hr.
Qed.

(** How often [x] occurs in [l]. *)
Definition occurrences {A} `{EqDecision A} (x : A) (l : list A) : nat :=
  length (filter (eq x) l).

Lemma occurrences_app {A} `{EqDecision A} (x : A) l k :
  occurrences x (l ++ k) = (occurrences x l + occurrences x k)%nat.
Proof. unfold occurrences. by rewrite filter_app, length_app. Qed.

Lemma occurrences_single {A} `{EqDecision A} (x y : A) :
  occurrences x [y] = if decide (x = y) then 1%nat else 0%nat.
Proof. unfold occurrences. rewrite filter_cons, filter_nil. by case_decide. Qed.

Lemma occurrences_cons {A} `{EqDecision A} (x y : A) l :
  occurrences x (y :: l) = ((if decide (x = y) then 1 else 0) + occurrences x l)%nat.
Proof. change (y :: l) with ([y] ++ l). by rewrite occurrences_app, occurrences_single. Qed.

Lemma occurrences_pos {A} `{EqDecision A} (x : A) l :
  occurrences x l ≠ 0%nat ↔ x ∈ l.
Proof.
  unfold occurrences. split.
  - intros H. destruct (filter (eq x) l) as [|y k] eqn:E; [done|].
    assert (y ∈ filter (eq x) l) as Hy by (rewrite E; left).
    by apply list_elem_of_filter in Hy as [-> ?].
  - intros Hx Hn%length_zero_iff_nil. assert (x ∈ filter (eq x) l) as Hin.
    { by apply list_elem_of_filter. }
    rewrite Hn in Hin. by apply elem_of_nil in Hin.
Qed.

Lemma occurrences_le {A} `{EqDecision A} (x : A) l : (occurrences x l ≤ length l)%nat.
Proof. apply length_filter. Qed.

Lemma occurrences_NoDup {A} `{EqDecision A} (l : list A) :
  (∀ x, (occurrences x l ≤ 1)%nat) → NoDup l.
Proof.
  induction l as [|y l IH]; intros H; [constructor|]. constructor.
  - intros Hin%occurrences_pos. specialize (H y). unfold occurrences in *.
    rewrite filter_cons_True in H by done. simpl in H. lia.
  - apply IH. intros x. specialize (H x). rewrite occurrences_cons in H. lia.
Qed.

(** A loop that stops at the first error. *)
Fixpoint foldl_res {A B} (f : A → B → res A) (a : A) (l : list B) : res A :=
  match l with
  | [] => Ok a
  | b :: l' => a' ← f a b; foldl_res f a' l'
  end.

Lemma wrap_err_ok {A} prefix (r : res A) a : wrap_err prefix r = Ok a ↔ r = Ok a.
Proof. by destruct r. Qed.

(** A property of the prefix visited so far and the state, kept by every step. *)
Lemma foldl_res_ind {A B} (P : list B → A → Prop) f a l a' :
  P [] a →
  (∀ k a b a', P k a → f a b = Ok a' → P (k ++ [b]) a') →
  foldl_res f a l = Ok a' → P l a'.
Proof.
  intros H0 Hstep.
  assert (∀ k a0, P k a0 → foldl_res f a0 l = Ok a' → P (k ++ l) a') as H.
  { induction l as [|b l IH]; simpl; intros k a0 Hk H.
    - simplify_eq. by rewrite app_nil_r.
    - destruct (f a0 b) as [a1|] eqn:Hf; [|done]. simpl in H.
      rewrite (cons_middle b k l), app_assoc. eauto. }
  by apply (H []).
Qed.

(** The loop over a list of checks. *)
Lemma foldl_res_check {B} (f : B → res unit) l u :
  foldl_res (λ _, f) () l = Ok u → ∀ b, b ∈ l → f b = Ok ().
Proof.
  induction l as [|b l IH]; simpl; intros H b' Hb; [by apply elem_of_nil in Hb|].
  destruct (f b) as [[]|] eqn:Hf; [|done]. apply elem_of_cons in Hb as [->|Hb]; eauto.
Qed.

Lemma list_filter_all {A} (P : A → Prop) `{∀ x, Decision (P x)} l :
  Forall P l → filter P l = l.
Proof. induction 1; [done|]. rewrite filter_cons_True by done. by f_equal. Qed.

Lemma list_filter_none {A} (P : A → Prop) `{∀ x, Decision (P x)} l :
  Forall (λ x, ¬ P x) l → filter P l = [].
Proof. induction 1; [done|]. by rewrite filter_cons_False. Qed.

Lemma list_filter_ext_in {A} (P Q : A → Prop) `{∀ x, Decision (P x)} `{∀ x, Decision (Q x)}
    (l : list A) :
  (∀ x, x ∈ l → P x ↔ Q x) → filter P l = filter Q l.
Proof.
  induction l as [|x l IH]; intros Hpq; [done|]. rewrite !filter_cons.
  rewrite IH by (intros; apply Hpq; by right). pose proof (Hpq x ltac:(left)) as Hx.
  destruct (decide (P x)), (decide (Q x)); tauto.
Qed.

Lemma Forall_list_filter {A} (Q P : A → Prop) `{∀ x, Decision (P x)} l :
  Forall Q l → Forall Q (filter P l).
Proof. induction 1; [constructor|]. rewrite filter_cons. case_decide; by try constructor. Qed.

Lemma existsb_elem {A} (f : A → bool) l : existsb f l = true ↔ ∃ x, x ∈ l ∧ f x = true.
Proof. rewrite existsb_exists. by setoid_rewrite list_elem_of_In. Qed.

Lemma existsb_none {A} (f : A → bool) l : existsb f l = false ↔ ∀ x, x ∈ l → f x = false.
Proof.
  rewrite <- not_true_iff_false, existsb_elem. split.
  - intros Hno x Hx. destruct (f x) eqn:E; [|done]. exfalso. eauto.
  - intros Hall (x & Hx & Hf). by rewrite Hall in Hf.
Qed.
