(* ===== verification/GoStrings.v ===== *)
(** * The functions of Go's [strings], [strconv] and [net/http] on strings

    A Go string is a sequence of bytes, here a [string] of 8-bit characters.
    Case mapping and white space are the ASCII ones: bytes above 127 are letters
    without case and never white space. Every key, model name, plan, header name
    and selector the program compares is an ASCII string, and on ASCII input the
    definitions below and Go's functions agree. *)

From S2P Require Import Prelude.

Abbreviation chars := String.list_ascii_of_string (only parsing).
Abbreviation str := String.string_of_list_ascii (only parsing).

(** ** Character classes *)

Definition ascii_code (c : ascii) : Z := Z.of_N (Ascii.N_of_ascii c).

(** ['\t'], ['\n'], ['\v'], ['\f'], ['\r'] and the space. *)
Definition is_space (c : ascii) : bool :=
  let n := ascii_code c in ((9 <=? n) && (n <=? 13)) || (n =? 32).

Definition lower_char (c : ascii) : ascii :=
  let n := ascii_code c in
  if (65 <=? n) && (n <=? 90) then Ascii.ascii_of_N (Z.to_N (n + 32)) else c.

Definition upper_char (c : ascii) : ascii :=
  let n := ascii_code c in
  if (97 <=? n) && (n <=? 122) then Ascii.ascii_of_N (Z.to_N (n - 32)) else c.

(** ** Trimming and case *)

Fixpoint trim_left (p : ascii → bool) (l : list ascii) : list ascii :=
  match l with
  | c :: l' => if p c then trim_left p l' else l
  | [] => []
  end.

Definition trim_right (p : ascii → bool) (l : list ascii) : list ascii :=
  rev (trim_left p (rev l)).

(** [strings.TrimSpace] *)
Definition TrimSpace (s : string) : string :=
  str (trim_right is_space (trim_left is_space (chars s))).

(** [strings.TrimRight(s, "/")] *)
Definition TrimRightSlash (s : string) : string :=
  str (trim_right (λ c, bool_decide (c = "/"%char)) (chars s)).

(** [strings.ToLower] and [strings.ToUpper] *)
Definition ToLower (s : string) : string := str (lower_char <$> chars s).
Definition ToUpper (s : string) : string := str (upper_char <$> chars s).

(** [strings.EqualFold] *)
Definition EqualFold (s t : string) : bool := bool_decide (ToLower s = ToLower t).

(** ** Prefixes, suffixes and substrings *)

Fixpoint strip_prefix (p l : list ascii) : option (list ascii) :=
  match p, l with
  | [], _ => Some l
  | c :: p', d :: l' => if decide (c = d) then strip_prefix p' l' else None
  | _ :: _, [] => None
  end.

(** [strings.HasPrefix], [strings.HasSuffix] *)
Definition HasPrefix (s p : string) : bool :=
  bool_decide (is_Some (strip_prefix (chars p) (chars s))).
Definition HasSuffix (s p : string) : bool :=
  bool_decide (is_Some (strip_prefix (rev (chars p)) (rev (chars s)))).

(** [strings.TrimPrefix], [strings.TrimSuffix] *)
Definition TrimPrefix (s p : string) : string :=
  match strip_prefix (chars p) (chars s) with Some l => str l | None => s end.
Definition TrimSuffix (s p : string) : string :=
  match strip_prefix (rev (chars p)) (rev (chars s)) with
  | Some l => str (rev l) | None => s end.

Fixpoint contains_list (l p : list ascii) : bool :=
  bool_decide (is_Some (strip_prefix p l)) ||
  match l with [] => false | _ :: l' => contains_list l' p end.

(** [strings.Contains] *)
Definition Contains (s sub : string) : bool := contains_list (chars s) (chars sub).

(** [strings.ReplaceAll] for a non-empty [old], the only use of the program. *)
Fixpoint replace_list (fuel : nat) (l old new : list ascii) : list ascii :=
  match fuel, l with
  | S fuel', c :: l' =>
      match strip_prefix old l with
      | Some rest => new ++ replace_list fuel' rest old new
      | None => c :: replace_list fuel' l' old new
      end
  | _, _ => l
  end.

Definition ReplaceAll (s old new : string) : string :=
  str (replace_list (String.length s) (chars s) (chars old) (chars new)).

(** What follows the last ['/'] of [s], all of [s] when it has none: the
    [strings.LastIndexByte] idiom of [normalizeModelName]. *)
Fixpoint after_last (sep : ascii) (l : list ascii) : list ascii :=
  match l with
  | [] => []
  | c :: l' =>
      if decide (sep ∈ l') then after_last sep l'
      else if decide (c = sep) then l' else l
  end.

(** [strings.Fields], [strings.Join] *)
Fixpoint fields_list (word : list ascii) (l : list ascii) : list (list ascii) :=
  match l with
  | [] => match word with [] => [] | _ => [rev word] end
  | c :: l' =>
      if is_space c
      then match word with [] => fields_list [] l' | _ => rev word :: fields_list [] l' end
      else fields_list (c :: word) l'
  end.

Definition Fields (s : string) : list string := str <$> fields_list [] (chars s).

Fixpoint Join (l : list string) (sep : string) : string :=
  match l with
  | [] => ""
  | [s] => s
  | s :: l' => s +:+ sep +:+ Join l' sep
  end.

(** The slice [s[:n]], for [n] at most the length. *)
Definition prefix_bytes (n : nat) (s : string) : string := str (take n (chars s)).

(** The slice [s[len(s)-n:]]. *)
Definition suffix_bytes (n : nat) (s : string) : string :=
  str (drop (length (chars s) - n) (chars s)).

Definition len (s : string) : Z := Z.of_nat (String.length s).

(** ** Sorting

    [sort.Strings], and [sort.SliceStable] by a string key: elements of equal keys
    keep their order, and strings are compared byte by byte. *)
Fixpoint insert_by {A} (key : A → string) (x : A) (l : list A) : list A :=
  match l with
  | [] => [x]
  | y :: l' => if String.leb (key x) (key y) then x :: l else y :: insert_by key x l'
  end.

Definition sort_by {A} (key : A → string) (l : list A) : list A := foldr (insert_by key) [] l.

(** ** Numbers *)

Definition digit_val (c : ascii) : option Z :=
  let n := ascii_code c in
  if (48 <=? n) && (n <=? 57) then Some (n - 48) else None.

Fixpoint digits_val (acc : Z) (l : list ascii) : option Z :=
  match l with
  | [] => Some acc
  | c :: l' => d ← digit_val c; digits_val (10 * acc + d) l'
  end.

Definition parse_digits (l : list ascii) : option Z :=
  match l with [] => None | _ => digits_val 0 l end.

(** [strconv.ParseInt(s, 10, 64)]; [None] is a syntax or a range error. *)
Definition split_sign (l : list ascii) : bool * list ascii :=
  match l with
  | "-"%char :: l' => (true, l')
  | "+"%char :: l' => (false, l')
  | _ => (false, l)
  end.

Definition ParseInt (s : string) : option Z :=
  let '(neg, l) := split_sign (chars s) in
  n ← parse_digits l;
  let z := if neg then - n else n in
  if decide (in_int64 z) then Some z else None.

(** [%d] *)
Definition digit_char (d : Z) : ascii := Ascii.ascii_of_N (Z.to_N (48 + d)).

Fixpoint digits_of (fuel : nat) (n : Z) (acc : list ascii) : list ascii :=
  match fuel with
  | O => acc
  | S fuel' =>
      let acc' := digit_char (n mod 10) :: acc in
      if n <? 10 then acc' else digits_of fuel' (n / 10) acc'
  end.

Definition itoa (z : Z) : string :=
  str ((if z <? 0 then ["-"%char] else [])
       ++ digits_of (S (Z.to_nat (Z.log2 (Z.abs z)))) (Z.abs z) []).

(** ** Header names

    [http.CanonicalHeaderKey] on names made of token characters. *)
Fixpoint canonical_chars (start : bool) (l : list ascii) : list ascii :=
  match l with
  | [] => []
  | c :: l' =>
      (if start then upper_char c else lower_char c)
        :: canonical_chars (bool_decide (c = "-"%char)) l'
  end.

Definition CanonicalHeaderKey (name : string) : string :=
  str (canonical_chars true (chars name)).

(** A [http.Header], or any [map[string][]string]: its entries, in the order an
    iteration visits them. Go leaves that order open, so a statement about every
    list is a statement about every order. *)
Definition Header := list (string * list string).

(** [Header.Values] *)
Definition header_Values (h : Header) (name : string) : list string :=
  match list_find (λ e, e.1 = CanonicalHeaderKey name) h with
  | Some (_, (_, vs)) => vs
  | None => []
  end.

(** ** Bounded texts (zai/runtime.go [boundedText], [boundedStatus];
    zai/health.go [boundedHealthReason]) *)

Definition boundedText (message : string) (limit : nat) : string :=
  let clean := Join (Fields message) " " in
  if Z.of_nat limit <? len clean then prefix_bytes limit clean else clean.

Definition boundedStatus (message : string) : string := boundedText message 240.

Definition boundedHealthReason (reason : string) : string := boundedText reason 96.

(** ** Lemmas *)

Lemma insert_by_perm {A} (key : A → string) x l : insert_by key x l ≡ₚ x :: l.
Proof.
  induction l as [|y l IH]; simpl; [done|]. destruct (String.leb _ _); [done|].
  rewrite IH. constructor.
Qed.

Lemma sort_by_perm {A} (key : A → string) l : sort_by key l ≡ₚ l.
Proof. induction l as [|x l IH]; simpl; [done|]. by rewrite insert_by_perm, IH. Qed.

Lemma chars_str l : chars (str l) = l.
Proof. apply String.list_ascii_of_string_of_list_ascii. Qed.

Lemma str_chars s : str (chars s) = s.
Proof. apply String.string_of_list_ascii_of_string. Qed.

Lemma length_chars s : length (chars s) = String.length s.
Proof. induction s; simpl; congruence. Qed.

Lemma length_str l : String.length (str l) = length l.
Proof. induction l; simpl; congruence. Qed.

#[export] Hint Rewrite chars_str str_chars length_chars length_str : go.

Lemma chars_inj s t : chars s = chars t → s = t.
Proof. intros H. rewrite <- (str_chars s), H. apply str_chars. Qed.

Lemma chars_app s t : chars (s +:+ t) = chars s ++ chars t.
Proof. induction s as [|c s IH]; simpl; [done|]. by rewrite IH. Qed.

Lemma trim_left_fix p l : (∀ c, head l = Some c → p c = false) → trim_left p l = l.
Proof. destruct l as [|c l]; simpl; [done|]. intros H. by rewrite H. Qed.

Lemma trim_left_head p l c : head (trim_left p l) = Some c → p c = false.
Proof.
  induction l as [|d l IH]; simpl; [done|]. destruct (p d) eqn:E; [done|].
  simpl. by intros [= <-].
Qed.

Lemma trim_left_idemp p l : trim_left p (trim_left p l) = trim_left p l.
Proof. apply trim_left_fix, trim_left_head. Qed.

Lemma trim_left_suffix p l : ∃ k, l = k ++ trim_left p l.
Proof.
  induction l as [|c l [k IH]]; simpl; [by exists []|].
  destruct (p c); [|by exists []]. exists (c :: k). simpl. by f_equal.
Qed.

Lemma trim_right_prefix p l : ∃ k, l = trim_right p l ++ k.
Proof.
  unfold trim_right. destruct (trim_left_suffix p (rev l)) as [k Hk].
  exists (rev k). rewrite <- rev_app_distr, <- Hk. by rewrite rev_involutive.
Qed.

Lemma trim_both_idemp p l :
  trim_right p (trim_left p (trim_right p (trim_left p l)))
  = trim_right p (trim_left p l).
Proof.
  rewrite (trim_left_fix p (trim_right p (trim_left p l))).
  - unfold trim_right. by rewrite rev_involutive, trim_left_idemp.
  - intros c Hc. apply (trim_left_head p l).
    destruct (trim_right_prefix p (trim_left p l)) as [k Hk].
    rewrite Hk. by destruct (trim_right p (trim_left p l)).
Qed.

Lemma TrimSpace_idemp s : TrimSpace (TrimSpace s) = TrimSpace s.
Proof. unfold TrimSpace. by rewrite chars_str, trim_both_idemp. Qed.

Lemma lower_char_idemp c : lower_char (lower_char c) = lower_char c.
Proof. by destruct c as [[] [] [] [] [] [] [] []]. Qed.

Lemma ToLower_idemp s : ToLower (ToLower s) = ToLower s.
Proof.
  unfold ToLower. rewrite chars_str. f_equal. rewrite <- list_fmap_compose.
  apply list_fmap_ext. intros ? c _. apply lower_char_idemp.
Qed.

#[export] Hint Rewrite TrimSpace_idemp ToLower_idemp : go.

Lemma EqualFold_refl s : EqualFold s s = true.
Proof. by apply bool_decide_eq_true_2. Qed.

Lemma strip_prefix_Some p l r : strip_prefix p l = Some r ↔ l = p ++ r.
Proof.
  revert l. induction p as [|c p IH]; intros l; [simpl; clear; naive_solver|].
  destruct l as [|d l]; simpl; [clear; naive_solver|].
  case_decide; [subst; rewrite IH; clear; naive_solver|clear IH; naive_solver].
Qed.

Lemma HasSuffix_spec s p : HasSuffix s p = true ↔ ∃ r, s = r +:+ p.
Proof.
  unfold HasSuffix. rewrite bool_decide_eq_true. split.
  - intros [l Hl]. apply strip_prefix_Some in Hl. exists (str (rev l)).
    apply chars_inj. rewrite chars_app, chars_str.
    rewrite <- (rev_involutive (chars s)), Hl, rev_app_distr. by rewrite rev_involutive.
  - intros [r ->]. exists (rev (chars r)). apply strip_prefix_Some.
    by rewrite chars_app, rev_app_distr.
Qed.

Lemma prefix_bytes_length n s : (String.length (prefix_bytes n s) ≤ n)%nat.
Proof. unfold prefix_bytes. rewrite length_str, length_take. lia. Qed.

Lemma boundedText_length m limit : len (boundedText m limit) <= Z.of_nat limit.
Proof.
  unfold boundedText, len. case_match; crush_bool; [|done].
  pose proof (prefix_bytes_length limit (Join (Fields m) " ")). lia.
Qed.

#[export] Hint Resolve boundedText_length : go.

Lemma parse_int_range s z : ParseInt s = Some z → in_int64 z.
Proof.
  unfold ParseInt. destruct (split_sign _). intros (x & _ & H)%bind_Some.
  simpl in H. case_decide; naive_solver.
Qed.

(** Printing in decimal and parsing back. *)
Lemma digit_cases d : 0 <= d < 10 →
  d = 0 ∨ d = 1 ∨ d = 2 ∨ d = 3 ∨ d = 4 ∨ d = 5 ∨ d = 6 ∨ d = 7 ∨ d = 8 ∨ d = 9.
Proof. lia. Qed.

Lemma digit_val_char d : 0 <= d < 10 → digit_val (digit_char d) = Some d.
Proof. intros H%digit_cases. destruct_or! H; subst; done. Qed.

Lemma split_sign_digit d l :
  0 <= d < 10 → split_sign (digit_char d :: l) = (false, digit_char d :: l).
Proof. intros H%digit_cases. destruct_or! H; subst; done. Qed.

Lemma digits_of_val fuel n acc :
  0 <= n < 10 ^ Z.of_nat fuel →
  ∃ k, ∀ a, digits_val a (digits_of fuel n acc) = digits_val (a * k + n) acc.
Proof.
  revert n acc. induction fuel as [|fuel IH]; intros n acc Hn.
  { exists 1. intros a. simpl in *. f_equal. lia. }
  rewrite Nat2Z.inj_succ, Z.pow_succ_r in Hn by lia.
  pose proof (Z.div_mod n 10). pose proof (Z.mod_pos_bound n 10).
  cbn [digits_of]. destruct (Z.ltb_spec n 10).
  - exists 10. intros a. cbn [digits_val]. rewrite digit_val_char by lia.
    simpl. f_equal. rewrite Z.mod_small by lia. lia.
  - destruct (IH (n / 10) (digit_char (n mod 10) :: acc)) as [k Hk].
    { split; [apply Z.div_pos; lia|apply Z.div_lt_upper_bound; lia]. }
    exists (k * 10). intros a. rewrite Hk. cbn [digits_val].
    rewrite digit_val_char by lia. simpl. f_equal. lia.
Qed.

Lemma digits_of_cons fuel n acc :
  ∃ d l, 0 <= d < 10 ∧ digits_of (S fuel) n acc = digit_char d :: l.
Proof.
  revert n acc. induction fuel as [|fuel IH]; intros n acc;
    pose proof (Z.mod_pos_bound n 10).
  - exists (n mod 10), acc. split; [lia|]. simpl. by case_match.
  - cbn [digits_of]. case_match; [|apply IH].
    exists (n mod 10), acc. split; [lia|done].
Qed.

(** The digits [itoa] writes for the absolute value. *)
Lemma abs_digits z :
  ∃ d l, 0 <= d < 10 ∧ digits_of (S (Z.to_nat (Z.log2 (Z.abs z)))) (Z.abs z) [] = digit_char d :: l
  ∧ digits_val 0 (digit_char d :: l) = Some (Z.abs z).
Proof.
  set (fuel := Z.to_nat (Z.log2 (Z.abs z))).
  destruct (digits_of_cons fuel (Z.abs z) []) as (d & l & Hd & Hc).
  destruct (digits_of_val (S fuel) (Z.abs z) []) as [k Hk].
  { split; [lia|]. unfold fuel. rewrite Nat2Z.inj_succ, Z2Nat.id by apply Z.log2_nonneg.
    destruct (decide (z = 0)) as [->|]; [done|].
    apply Z.lt_le_trans with (2 ^ (Z.succ (Z.log2 (Z.abs z)))).
    - apply Z.log2_spec. lia.
    - apply Z.pow_le_mono_l. lia. }
  exists d, l. split; [done|]. split; [done|]. by rewrite <- Hc, Hk.
Qed.

Lemma itoa_digits n : 0 <= n → chars (itoa n) ≠ [] ∧ digits_val 0 (chars (itoa n)) = Some n.
Proof.
  intros Hn. unfold itoa. rewrite chars_str. destruct (abs_digits n) as (d & l & _ & -> & Hv).
  destruct (Z.ltb_spec n 0); [lia|]. split; [done|]. rewrite Z.abs_eq in Hv by done. exact Hv.
Qed.

Lemma digits_val_digits acc l n :
  digits_val acc l = Some n → Forall (λ c, is_Some (digit_val c)) l.
Proof.
  revert acc. induction l as [|c l IH]; simpl; intros acc Hl; [constructor|].
  destruct (digit_val c) as [d|] eqn:Hd; [|done]. constructor; [by rewrite Hd|by eapply IH].
Qed.

Lemma ParseInt_itoa z : in_int64 z → ParseInt (itoa z) = Some z.
Proof.
  intros Hz. unfold ParseInt, itoa. rewrite chars_str.
  destruct (abs_digits z) as (d & l & Hd & -> & Hv).
  assert (∃ neg, split_sign ((if z <? 0 then ["-"%char] else []) ++ digit_char d :: l)
    = (neg, digit_char d :: l) ∧ (if neg : bool then - Z.abs z else Z.abs z) = z)
    as (neg & -> & Hneg).
  { destruct (Z.ltb_spec z 0); simpl app.
    - exists true. split; [done|lia].
    - exists false. rewrite split_sign_digit by done. split; [done|lia]. }
  unfold parse_digits. rewrite Hv. simpl. rewrite Hneg. by rewrite decide_True.
Qed.

Lemma digits_of_graphic fuel n acc :
  0 <= n → Forall (λ c, is_space c = false) acc →
  Forall (λ c, is_space c = false) (digits_of fuel n acc).
Proof.
  revert n acc. induction fuel as [|fuel IH]; intros n acc Hn Hacc; [done|]. cbn [digits_of].
  assert (Forall (λ c, is_space c = false) (digit_char (n mod 10) :: acc)).
  { constructor; [|done]. pose proof (Z.mod_pos_bound n 10) as Hd.
    assert (0 <= n mod 10 < 10) as Hd' by lia. apply digit_cases in Hd'.
    destruct_or! Hd'; rewrite Hd'; done. }
  case_match; [done|]. apply IH; [apply Z.div_pos; lia|done].
Qed.

Lemma TrimSpace_graphic s : Forall (λ c, is_space c = false) (chars s) → TrimSpace s = s.
Proof.
  intros Hs. unfold TrimSpace.
  assert (∀ l, Forall (λ c, is_space c = false) l → trim_left is_space l = l) as Hfix.
  { intros l Hl. apply trim_left_fix. intros c Hc.
    destruct l as [|d l]; [done|]. injection Hc as ->. by apply Forall_cons in Hl as [? _]. }
  unfold trim_right. rewrite (Hfix (chars s)) by done.
  rewrite (Hfix (rev (chars s))) by by apply Forall_rev.
  by rewrite rev_involutive, str_chars.
Qed.

(** Text that begins and ends with something else than space is not trimmed. *)
Lemma TrimSpace_ends s c l l' d :
  chars s = c :: l → chars s = l' ++ [d] → is_space c = false → is_space d = false →
  TrimSpace s = s.
Proof.
  intros Hc Hd Hsc Hsd. unfold TrimSpace. rewrite trim_left_fix.
  2: { rewrite Hc. intros x Hx. by injection Hx as <-. }
  unfold trim_right. rewrite trim_left_fix.
  2: { rewrite Hd, rev_app_distr. intros x Hx. by injection Hx as <-. }
  by rewrite rev_involutive, str_chars.
Qed.

Lemma TrimSpace_itoa z : TrimSpace (itoa z) = itoa z ∧ itoa z ≠ "".
Proof.
  unfold itoa. split.
  - apply TrimSpace_graphic. rewrite chars_str. apply Forall_app. split.
    + case_match; [by constructor|constructor].
    + apply digits_of_graphic; [lia|constructor].
  - destruct (digits_of_cons (Z.to_nat (Z.log2 (Z.abs z))) (Z.abs z) []) as (d & l & _ & ->).
    by case_match.
Qed.
