(* ===== verification/GoFloat.v ===== *)
(** * float64

    Go's [float64] is IEEE 754 binary64 with round to nearest even, which the
    kernel-computable [SpecFloat] of the standard library defines. Decimal
    literals are rounded once, from the exact rational, as [strconv.ParseFloat]
    does. *)

From S2P Require Import Prelude GoStrings.
From Stdlib Require Export SpecFloat.

Definition float64 := spec_float.

Definition float_prec : Z := 53.
Definition float_emax : Z := 1024.

(** [float64(n)] for an integer [n]. *)
Definition float_of_Z (n : Z) : float64 := binary_normalize float_prec float_emax n 0 false.

Definition fdiv (x y : float64) : float64 := SFdiv float_prec float_emax x y.
Definition fmul (x y : float64) : float64 := SFmul float_prec float_emax x y.
Definition fle (x y : float64) : bool := SFleb x y.
Definition flt (x y : float64) : bool := SFltb x y.
Definition feq (x y : float64) : bool := SFeqb x y.

(** The correctly rounded [m * 10^e], for [m >= 0]. *)
Definition float_of_decimal (neg : bool) (m e : Z) : float64 :=
  match m with
  | Zpos p =>
      if 0 <=? e
      then binary_normalize float_prec float_emax ((if neg then -1 else 1) * m * 10 ^ e) 0 neg
      else SFdiv float_prec float_emax (S754_finite neg p 0)
             (S754_finite false (Z.to_pos (10 ^ (- e))) 0)
  | _ => S754_zero neg
  end.

(** ** JSON number literals

    [-? digits (. digits)? ([eE] [+-]? digits)?], the syntax of a
    [json.Number] the decoder accepted. *)

Fixpoint take_digits (l : list ascii) : list ascii * list ascii :=
  match l with
  | c :: l' =>
      match digit_val c with
      | Some _ => let '(ds, r) := take_digits l' in (c :: ds, r)
      | None => ([], l)
      end
  | [] => ([], [])
  end.

Definition parse_exponent (l : list ascii) : option Z :=
  match l with
  | [] => Some 0
  | c :: l' =>
      if bool_decide (c = "e"%char ∨ c = "E"%char)
      then match l' with
           | "-"%char :: ds => Z.opp <$> parse_digits ds
           | "+"%char :: ds => parse_digits ds
           | ds => parse_digits ds
           end
      else None
  end.

(** The sign, the integer of the digits and the power of ten it is scaled by. *)
Definition parse_decimal (s : string) : option (bool * Z * Z) :=
  let '(neg, l) := match chars s with "-"%char :: l => (true, l) | l => (false, l) end in
  let '(ip, r) := take_digits l in
  let '(fp, r') := match r with "."%char :: r0 => take_digits r0 | _ => ([], r) end in
  match ip with
  | [] => None
  | _ =>
      m ← parse_digits (ip ++ fp);
      e ← parse_exponent r';
      Some (neg, m, e - Z.of_nat (length fp))
  end.

(** [json.Number.Float64]: a syntax error or an overflow to an infinity is an
    error. *)
Definition number_Float64 (s : string) : option float64 :=
  '(neg, m, e) ← parse_decimal s;
  match float_of_decimal neg m e with
  | S754_infinity _ | S754_nan => None
  | f => Some f
  end.

(** [math.Trunc(f) == f], and the integer [f] then is. *)
Definition float_to_integer (f : float64) : option Z :=
  match f with
  | S754_zero _ => Some 0
  | S754_finite s m e =>
      let sign (z : Z) := if s then - z else z in
      if 0 <=? e then Some (sign (Zpos m * 2 ^ e))
      else if Zpos m mod 2 ^ (- e) =? 0 then Some (sign (Zpos m / 2 ^ (- e)))
      else None
  | _ => None
  end.

Example float_whole : (number_Float64 "1767225600000.0" ≫= float_to_integer) = Some 1767225600000.
Proof. vm_compute. reflexivity. Qed.
Example float_fraction : (number_Float64 "12.5" ≫= float_to_integer) = None.
Proof. vm_compute. reflexivity. Qed.
Example float_exponent : (number_Float64 "-15e-1" ≫= float_to_integer) = None.
Proof. vm_compute. reflexivity. Qed.
Example float_overflow : number_Float64 "1e400" = None.
Proof. vm_compute. reflexivity. Qed.
Example float_rounds : (number_Float64 "9007199254740993.0" ≫= float_to_integer) = Some 9007199254740992.
Proof. vm_compute. reflexivity. Qed.
Example float_percent : fdiv (float_of_Z 97) (float_of_Z 100) = float_of_decimal false 97 (-2).
Proof. vm_compute. reflexivity. Qed.
