(* ===== verification/GoFormat.v ===== *)
(** * The functions of Go's [fmt], [html] and [time] that write text

    Fixed-point and zero-padded numbers, escaping of HTML text, calendar dates and
    rounded durations, with what can be read back from the text each writes. *)

From S2P Require Import Prelude GoStrings GoFloat.

(** A literal written between backquotes in the source, with a backquote here for
    each of its double quotes. *)
Definition raw (s : string) : string :=
  str ((λ c, if decide (c = "`"%char) then "034"%char else c) <$> chars s).

(** ** Numbers *)

(** [%0wd] for a number that is not negative, and the [appendInt] of [time]. *)
Definition zero_pad (w : nat) (n : Z) : list ascii :=
  let ds := chars (itoa n) in replicate (w - length ds) "0"%char ++ ds.

(** The multiple of [1 / 10^prec] nearest to [m * 2^e], the even one of two. *)
Definition round_decimal (prec m e : Z) : Z :=
  if 0 <=? e then m * 2 ^ e * 10 ^ prec else
  let num := m * 10 ^ prec in
  let den := 2 ^ (- e) in
  let q := num / den in
  let r := num mod den in
  if 2 * r <? den then q else if den <? 2 * r then q + 1 else if Z.even q then q else q + 1.

Definition decimal_text (prec : nat) (n : Z) : list ascii :=
  let scale := 10 ^ Z.of_nat prec in
  chars (itoa (n / scale))
  ++ match prec with O => [] | _ => "."%char :: zero_pad prec (n mod scale) end.

(** [%.<prec>f] *)
Definition format_fixed (prec : nat) (f : float64) : string :=
  let sign (s : bool) := if s then ["-"%char] else [] in
  match f with
  | S754_zero s => str (sign s ++ decimal_text prec 0)
  | S754_finite s m e =>
      str (sign s ++ decimal_text prec (round_decimal (Z.of_nat prec) (Zpos m) e))
  | S754_infinity s => if s then "-Inf" else "+Inf"
  | S754_nan => "NaN"
  end.

(** ** Durations *)

(** [Duration.Round(m)], for a positive [m]; halves are rounded away from zero and
    the result saturates. *)
Definition duration_Round (d m : Duration) : Duration :=
  let r := d [%] m in
  if d <? 0 then
    let r := wrap64 (- r) in
    if wrapu64 (r + r) <? wrapu64 m then d [+] r else
    let d1 := d [-] m [+] r in if d1 <? d then d1 else int64_min
  else
    if wrapu64 (r + r) <? wrapu64 m then d [-] r else
    let d1 := d [+] m [-] r in if d <? d1 then d1 else int64_max.

(** ** Dates *)

Definition is_leap (year : Z) : bool :=
  (year mod 4 =? 0) && (negb (year mod 100 =? 0) || (year mod 400 =? 0)).

Definition month_lengths (year : Z) : list Z :=
  [31; if is_leap year then 29 else 28; 31; 30; 31; 30; 31; 31; 30; 31; 30; 31].

(** The days before [year], since January 1 of year 1. *)
Definition days_before (year : Z) : Z :=
  let y := year - 1 in 365 * y + y / 4 - y / 100 + y / 400.

(** The month and the day of a day of the year that starts at 0. *)
Fixpoint month_day (month : Z) (lengths : list Z) (d : Z) : Z * Z :=
  match lengths with
  | [] => (month, d + 1)
  | n :: lengths' => if d <? n then (month, d + 1) else month_day (month + 1) lengths' (d - n)
  end.

Definition time_Date (t : Time) : Z * (Z * Z) :=
  let year := time_Year t in
  (year, month_day 1 (month_lengths year) (t / day - days_before year)).

(** [Time.Format("2006-01-02 15:04:05 UTC")], in UTC *)
Definition format_UTC (t : Time) : string :=
  let '(year, (month, d)) := time_Date t in
  let s := (t mod day) / second in
  str ((if year <? 0 then ["-"%char] else []) ++ zero_pad 4 (Z.abs year)
       ++ "-"%char :: zero_pad 2 month ++ "-"%char :: zero_pad 2 d
       ++ " "%char :: zero_pad 2 (s / 3600) ++ ":"%char :: zero_pad 2 (s / 60 mod 60)
       ++ ":"%char :: zero_pad 2 (s mod 60) ++ chars " UTC").

(** ** HTML text *)

Definition html_entities : list (string * ascii) :=
  [("&amp;", "&"%char); ("&#39;", "'"%char); ("&lt;", "<"%char); ("&gt;", ">"%char);
   ("&#34;", "034"%char)].

Definition escape_char (c : ascii) : list ascii :=
  default [c] (chars ∘ fst <$> head (filter (λ e, e.2 = c) html_entities)).

Definition escape_list (l : list ascii) : list ascii := l ≫= escape_char.

(** [html.EscapeString] *)
Definition EscapeString (s : string) : string := str (escape_list (chars s)).

(** ** Reading the text back

    A reader of pages: the tags as they are written between angle brackets, and
    the text between them with its entities replaced; adjacent text is one token
    and empty text is none. *)

Inductive token := Tag (s : string) | Text (s : string).

Definition entity_at (l : list ascii) : option (ascii * nat) :=
  (λ e, (e.2, (String.length e.1 - 1)%nat))
    <$> head (filter (λ e, is_Some (strip_prefix (chars e.1) l)) html_entities).

(** [skip] characters belong to an entity that was replaced. *)
Fixpoint unescape (skip : nat) (l : list ascii) : list ascii :=
  match l, skip with
  | [], _ => []
  | _ :: l', S skip' => unescape skip' l'
  | c :: l', O => match entity_at l with Some (d, n) => d :: unescape n l' | None => c :: unescape 0 l' end
  end.

Definition text_token (l : list ascii) : list token :=
  match l with [] => [] | _ => [Text (str l)] end.

Fixpoint read_html (in_tag : bool) (acc l : list ascii) : list token :=
  match l with
  | [] => if in_tag then [] else text_token (unescape 0 (rev acc))
  | c :: l' =>
      if in_tag then
        if decide (c = ">"%char) then Tag (str (rev acc)) :: read_html false [] l'
        else read_html true (c :: acc) l'
      else
        if decide (c = "<"%char) then text_token (unescape 0 (rev acc)) ++ read_html true [] l'
        else read_html false (c :: acc) l'
  end.

Definition html_tokens (page : string) : list token := read_html false [] (chars page).

(** A sequence of tokens as a reader sees it. *)
Fixpoint merge (acc : list ascii) (tokens : list token) : list token :=
  match tokens with
  | [] => text_token acc
  | Tag s :: tokens' => text_token acc ++ Tag s :: merge [] tokens'
  | Text s :: tokens' => merge (acc ++ chars s) tokens'
  end.

(** How a token is written. *)
Definition token_chars (t : token) : list ascii :=
  match t with
  | Tag s => "<"%char :: chars s ++ [">"%char]
  | Text s => escape_list (chars s)
  end.

Definition tag_ok (t : token) : Prop :=
  match t with Tag s => ">"%char ∉ chars s | Text _ => True end.

(** A reader of dates: the seconds since Go's zero time that the text shows. *)
Definition read_number (l : list ascii) : option (Z * list ascii) :=
  let '(ds, r) := take_digits l in n ← parse_digits ds; Some (n, r).

Definition read_char (c : ascii) (l : list ascii) : option (list ascii) := strip_prefix [c] l.

Definition read_date (s : string) : option Z :=
  '(year, l) ← read_number (chars s); l ← read_char "-"%char l;
  '(month, l) ← read_number l; l ← read_char "-"%char l;
  '(d, l) ← read_number l; l ← read_char " "%char l;
  '(h, l) ← read_number l; l ← read_char ":"%char l;
  '(m, l) ← read_number l; l ← read_char ":"%char l;
  '(s, l) ← read_number l;
  if decide (l = chars " UTC") then
    Some (86400 * (days_before year + foldl Z.add 0 (take (Z.to_nat (month - 1)) (month_lengths year))
                   + d - 1) + 3600 * h + 60 * m + s)
  else None.

(** [lia] with the quotients and remainders of the goal. *)
Ltac divlia := Z.to_euclidean_division_equations; lia.

(** ** Numbers read back *)

Lemma digits_val_zeros k l : digits_val 0 (replicate k "0"%char ++ l) = digits_val 0 l.
Proof. induction k as [|k IH]; [done|]. cbn. exact IH. Qed.

Lemma zero_pad_val w n : 0 <= n → zero_pad w n ≠ [] ∧ digits_val 0 (zero_pad w n) = Some n.
Proof.
  intros Hn. destruct (itoa_digits n Hn) as [Hne Hv]. unfold zero_pad.
  rewrite digits_val_zeros. split; [|done]. intros [_ Hd]%app_eq_nil. done.
Qed.

Lemma take_digits_app l c r :
  Forall (λ c, is_Some (digit_val c)) l → digit_val c = None →
  take_digits (l ++ c :: r) = (l, c :: r).
Proof.
  intros Hl Hc. induction Hl as [|d l [x Hd] Hl IH]; cbn [app take_digits].
  - by rewrite Hc.
  - by rewrite Hd, IH.
Qed.

Lemma read_number_pad w n c r :
  0 <= n → digit_val c = None → read_number (zero_pad w n ++ c :: r) = Some (n, c :: r).
Proof.
  intros Hn Hc. destruct (zero_pad_val w n Hn) as [Hne Hv]. unfold read_number.
  rewrite take_digits_app by eauto using digits_val_digits. unfold parse_digits.
  destruct (zero_pad w n); [done|]. by rewrite Hv.
Qed.

Lemma read_char_cons c r : read_char c (c :: r) = Some r.
Proof. unfold read_char. cbn. by rewrite decide_True. Qed.

(** ** Dates read back *)

(** The year of a time is the one whose days it is among. *)
Lemma time_Year_days t :
  let y := time_Year t in
  days_before y <= t / day < days_before y + 365 + (if is_leap y then 1 else 0).
Proof.
  unfold time_Year, days_before, is_leap. cbv zeta. set (d := t / day).
  set (q := d / 146097). set (r := d mod 146097).
  assert (d = 146097 * q + r ∧ 0 <= r < 146097) as [Hd Hr] by (subst q r; clearbody d; divlia).
  set (n100 := Z.min 3 (r / 36524)).
  assert (0 <= n100 <= 3 ∧ 36524 * n100 <= r ∧ (n100 < 3 → r < 36524 * n100 + 36524)) as (H1 & H2 & H3)
    by (unfold n100; clearbody q r; divlia).
  set (r100 := r - n100 * 36524). assert (0 <= r100 <= 36524) as H4 by lia.
  set (n4 := r100 / 1461). set (r4 := r100 mod 1461).
  assert (r100 = 1461 * n4 + r4 ∧ 0 <= r4 < 1461) as [H5 H6] by (subst n4 r4; clearbody r100; divlia).
  set (n1 := Z.min 3 (r4 / 365)).
  assert (0 <= n1 <= 3 ∧ 365 * n1 <= r4 ∧ (n1 < 3 → r4 < 365 * n1 + 365)) as (H7 & H8 & H9)
    by (unfold n1; clearbody n4 r4; divlia).
  clearbody d q r n100 n4 r4 n1. unfold r100 in *. clear r100.
  assert (0 <= n4 <= 24) by lia.
  set (y := 400 * q + 100 * n100 + 4 * n4 + n1 + 1).
  assert ((y - 1) / 4 = 100 * q + 25 * n100 + n4) as -> by (unfold y; divlia).
  assert ((y - 1) / 100 = 4 * q + n100) as -> by (unfold y; divlia).
  assert ((y - 1) / 400 = q) as -> by (unfold y; divlia).
  split; [unfold y; lia|].
  destruct (Z.eqb_spec (y mod 4) 0), (Z.eqb_spec (y mod 100) 0), (Z.eqb_spec (y mod 400) 0);
    cbn [negb andb orb]; unfold y in *; divlia.
Qed.

Definition sum_Z (l : list Z) : Z := foldr Z.add 0 l.

Lemma sum_Z_cons x l : sum_Z (x :: l) = x + sum_Z l.
Proof. reflexivity. Qed.

Lemma foldl_sum acc l : foldl Z.add acc l = acc + sum_Z l.
Proof.
  revert acc. induction l as [|x l IH]; intros acc; [by rewrite Z.add_0_r|].
  rewrite sum_Z_cons. etransitivity; [apply IH|lia].
Qed.

Lemma month_day_spec month lengths d :
  0 <= d < sum_Z lengths →
  let '(m, x) := month_day month lengths d in
  month <= m ∧ 1 <= x ∧ d = sum_Z (take (Z.to_nat (m - month)) lengths) + x - 1.
Proof.
  revert month d. induction lengths as [|n lengths IH]; intros month d.
  { change (sum_Z []) with 0. lia. }
  rewrite sum_Z_cons. intros Hd. cbn [month_day]. destruct (Z.ltb_spec d n).
  - rewrite Z.sub_diag. change (sum_Z (take (Z.to_nat 0) (n :: lengths))) with 0. lia.
  - specialize (IH (month + 1) (d - n) ltac:(lia)).
    destruct (month_day (month + 1) lengths (d - n)) as [m x]. destruct IH as (Hm & Hx & Heq).
    split; [lia|]. split; [lia|].
    replace (Z.to_nat (m - month)) with (S (Z.to_nat (m - (month + 1)))) by lia.
    cbn [take]. rewrite sum_Z_cons. lia.
Qed.

Lemma sum_month_lengths y : sum_Z (month_lengths y) = 365 + (if is_leap y then 1 else 0).
Proof. unfold month_lengths. destruct (is_leap y); reflexivity. Qed.

Lemma time_Year_pos t : 0 <= t → 1 <= time_Year t.
Proof.
  intros Ht. assert (0 <= t / day) by (apply Z.div_pos; [lia|done]). unfold time_Year.
  cbv zeta. generalize dependent (t / day). intros d Hd. divlia.
Qed.

(** The seconds of the day. *)
Lemma time_seconds t :
  0 <= (t mod day) / second < 86400 ∧ t / second = 86400 * (t / day) + (t mod day) / second.
Proof.
  change day with 86400000000000. change second with 1000000000. divlia.
Qed.

(** A shown time is the time, to the second. *)
Lemma read_date_format t : 0 <= t → read_date (format_UTC t) = Some (t / second).
Proof.
  intros Ht. unfold format_UTC, time_Date. pose proof (time_Year_days t) as Hy.
  pose proof (time_Year_pos t Ht) as Hp. cbv zeta in *. set (y := time_Year t) in *. clearbody y.
  pose proof (month_day_spec 1 (month_lengths y) (t / day - days_before y)) as Hm.
  rewrite sum_month_lengths in Hm. set (b := if is_leap y then 1 else 0) in *. clearbody b.
  specialize (Hm ltac:(lia)).
  destruct (month_day 1 (month_lengths y) (t / day - days_before y)) as [m d] eqn:Hmd.
  destruct Hm as (Hm & Hd & Heq). destruct (Z.ltb_spec y 0); [lia|]. cbn [app].
  destruct (time_seconds t) as [Hs ->]. set (s := (t mod day) / second) in *. clearbody s.
  clear Hmd. set (days := t / day) in *. clearbody days.
  unfold read_date. rewrite chars_str, Z.abs_eq by lia.
  do 5 (rewrite read_number_pad by (done || lia || divlia); cbn [mbind option_bind];
        rewrite read_char_cons; cbn [mbind option_bind]).
  pose proof (read_number_pad 2 (s mod 60) " "%char (chars "UTC") ltac:(divlia) eq_refl) as Hr.
  change (" "%char :: chars "UTC") with (chars " UTC") in Hr. rewrite Hr. cbn [mbind option_bind].
  rewrite decide_True by done. f_equal. rewrite foldl_sum.
  divlia.
Qed.

(** ** Pages read back *)

Lemma entity_at_other c l : c ≠ "&"%char → entity_at (c :: l) = None.
Proof.
  intros Hc. unfold entity_at, html_entities. cbn [filter list_filter fst snd].
  repeat (rewrite decide_False; [|cbn; rewrite decide_False by done; by intros [? ?]]). done.
Qed.

Lemma unescape_char c l : unescape 0 (escape_char c ++ l) = c :: unescape 0 l.
Proof.
  destruct (decide (c = "&"%char)) as [->|Ha]; [reflexivity|].
  destruct (decide (c = "'"%char)) as [->|Hb]; [reflexivity|].
  destruct (decide (c = "<"%char)) as [->|Hlt]; [reflexivity|].
  destruct (decide (c = ">"%char)) as [->|Hgt]; [reflexivity|].
  destruct (decide (c = "034"%char)) as [->|Hq]; [reflexivity|].
  assert (escape_char c = [c]) as ->.
  { unfold escape_char, html_entities. cbn [filter list_filter fst snd].
    by rewrite !decide_False by (cbn; congruence). }
  cbn [app unescape]. by rewrite entity_at_other.
Qed.

Lemma unescape_escape l r : unescape 0 (escape_list l ++ r) = l ++ unescape 0 r.
Proof.
  induction l as [|c l IH]; [done|].
  change (escape_list (c :: l)) with (escape_char c ++ escape_list l).
  by rewrite <- app_assoc, unescape_char, IH.
Qed.

Lemma escape_no_tag l : "<"%char ∉ escape_list l.
Proof.
  unfold escape_list. intros (c & Hin & Hc)%list_elem_of_bind. revert Hin.
  unfold escape_char, html_entities. cbn [filter list_filter fst snd].
  repeat case_decide; cbn; intros Hin;
    repeat (apply elem_of_cons in Hin as [Hin|Hin]; [congruence|]); by apply elem_of_nil in Hin.
Qed.

Lemma read_text acc l r :
  "<"%char ∉ l → read_html false acc (l ++ r) = read_html false (rev l ++ acc) r.
Proof.
  revert acc. induction l as [|c l IH]; intros acc Hl; [done|].
  apply not_elem_of_cons in Hl as [Hc Hl]. cbn [app read_html rev].
  rewrite decide_False by congruence. rewrite IH by done. by rewrite <- app_assoc.
Qed.

Lemma read_tag acc l r :
  ">"%char ∉ l →
  read_html true acc (l ++ ">"%char :: r) = Tag (str (rev acc ++ l)) :: read_html false [] r.
Proof.
  revert acc. induction l as [|c l IH]; intros acc Hl; cbn [app read_html].
  - by rewrite decide_True, app_nil_r.
  - apply not_elem_of_cons in Hl as [Hc Hl]. rewrite decide_False by congruence.
    rewrite IH by done. cbn [rev]. by rewrite <- app_assoc.
Qed.

Lemma text_read T : text_token (unescape 0 (rev (rev (escape_list T)))) = text_token T.
Proof.
  rewrite rev_involutive. pose proof (unescape_escape T []) as Hu.
  rewrite !app_nil_r in Hu. by rewrite Hu.
Qed.

Lemma escape_app l r : escape_list (l ++ r) = escape_list l ++ escape_list r.
Proof. apply bind_app. Qed.

(** What a reader sees of a page is what was written to it. *)
Lemma read_tokens T ps :
  Forall tag_ok ps → read_html false (rev (escape_list T)) (ps ≫= token_chars) = merge T ps.
Proof.
  intros Hps. revert T. induction Hps as [|[s|s] ps Hp Hps IH]; intros T.
  - cbn [mbind list_bind read_html merge]. apply text_read.
  - cbn [mbind list_bind token_chars merge]. rewrite <- app_comm_cons, <- app_assoc.
    cbn [read_html]. rewrite decide_True by done. rewrite text_read. f_equal.
    cbn [app]. rewrite read_tag by done. cbn [rev app]. rewrite str_chars. f_equal.
    exact (IH []).
  - cbn [mbind list_bind token_chars merge]. rewrite read_text by apply escape_no_tag.
    rewrite <- rev_app_distr, <- escape_app. apply IH.
Qed.

Lemma html_tokens_written ps :
  Forall tag_ok ps → html_tokens (str (ps ≫= token_chars)) = merge [] ps.
Proof. intros Hps. unfold html_tokens. rewrite chars_str. exact (read_tokens [] ps Hps). Qed.

(** ** Numbers are no markup *)

(** Text that is written as it is. *)
Definition plain (l : list ascii) : Prop := Forall (λ c, escape_char c = [c]) l.

Lemma plain_escape l : plain l → escape_list l = l.
Proof.
  intros Hl. induction Hl as [|c l Hc _ IH]; [done|].
  change (escape_list (c :: l)) with (escape_char c ++ escape_list l). by rewrite Hc, IH.
Qed.

Lemma plain_tag l : plain l → ">"%char ∉ l.
Proof. intros Hl Hin. by apply (proj1 (Forall_forall _ _) Hl) in Hin. Qed.

Lemma digits_plain l : Forall (λ c, is_Some (digit_val c)) l → plain l.
Proof.
  intros Hl. eapply Forall_impl; [exact Hl|]. intros c [x Hx]. unfold escape_char, html_entities.
  cbn [filter list_filter fst snd]. by rewrite !decide_False by (intros <-; done).
Qed.

Lemma itoa_plain n : 0 <= n → plain (chars (itoa n)).
Proof. intros Hn. apply digits_plain. eapply digits_val_digits, itoa_digits, Hn. Qed.

Lemma zero_pad_plain w n : 0 <= n → plain (zero_pad w n).
Proof. intros Hn. apply digits_plain. eapply digits_val_digits, zero_pad_val, Hn. Qed.

Lemma decimal_plain prec n : 0 <= n → plain (decimal_text prec n).
Proof.
  intros Hn. unfold decimal_text. cbv zeta.
  assert (0 < 10 ^ Z.of_nat prec) by (apply Z.pow_pos_nonneg; lia).
  apply Forall_app. split; [apply itoa_plain, Z.div_pos; lia|].
  destruct prec; [constructor|]. constructor; [done|].
  apply zero_pad_plain, Z.mod_pos_bound. lia.
Qed.

Lemma round_decimal_pos prec m e : 0 <= prec → 0 <= m → 0 <= round_decimal prec m e.
Proof.
  intros Hp Hm. unfold round_decimal. assert (0 < 10 ^ prec) by (apply Z.pow_pos_nonneg; lia).
  destruct (Z.leb_spec 0 e); [pose proof (Z.pow_nonneg 2 e); nia|].
  assert (0 < 2 ^ (- e)) by (apply Z.pow_pos_nonneg; lia).
  assert (0 <= m * 10 ^ prec / 2 ^ (- e)) by (apply Z.div_pos; nia).
  repeat case_match; lia.
Qed.

Lemma format_fixed_plain prec f : plain (chars (format_fixed prec f)).
Proof.
  assert (∀ (s : bool) n, 0 <= n →
    plain (chars (str ((if s then ["-"%char] else []) ++ decimal_text prec n)))) as Hs.
  { intros s n Hn. rewrite chars_str. apply Forall_app. split; [|by apply decimal_plain].
    destruct s; repeat constructor. }
  destruct f as [s|s| |s m e]; cbn [format_fixed].
  - by apply Hs.
  - destruct s; repeat constructor.
  - repeat constructor.
  - apply Hs, round_decimal_pos; lia.
Qed.

(** ** Rounded durations *)

Lemma wrap64_sub_l x y : wrap64 (wrap64 x - y) = wrap64 (x - y).
Proof. unfold wrap64. divlia. Qed.

(** No duration is so long that the rounding to a minute saturates. *)
Lemma duration_Round_minute d :
  0 <= d <= int64_max →
  ∃ k, duration_Round d minute = k * minute ∧ 0 <= k
       ∧ - (30 * second) <= d - k * minute < 30 * second.
Proof.
  unfold int64_max. intros Hd. unfold duration_Round. cbv zeta.
  change minute with 60000000000. change second with 1000000000.
  destruct (Z.ltb_spec d 0); [lia|]. rewrite Z.rem_mod_nonneg by lia.
  set (r := d mod 60000000000). set (k := d / 60000000000).
  assert (d = 60000000000 * k + r ∧ 0 <= r < 60000000000) as [Hk Hr]
    by (unfold k, r; clear; divlia).
  clearbody k r. unfold wrapu64, int64_max.
  rewrite (Z.mod_small (r + r)), (Z.mod_small 60000000000) by lia.
  destruct (Z.ltb_spec (r + r) 60000000000).
  - exists k. rewrite wrap64_id by (unfold in_int64, int64_min, int64_max; lia). lia.
  - exists (k + 1).
    assert (k < 153722867) by lia.
    rewrite wrap64_sub_l, wrap64_id by (unfold in_int64, int64_min, int64_max; lia).
    destruct (Z.ltb_spec d (d + 60000000000 - r)); lia.
Qed.
