(* ===== verification/GoRegexp.v ===== *)
(** * Go's [regexp] on the patterns of the release scripts

    A pattern is a regular expression over bytes. [MatchString] of a pattern written
    [^...$] is membership, decided by derivatives; with the flag [(?m)] the anchors
    match at the ends of lines. The classes the patterns use hold ASCII characters
    only, so that bytes and Go's runes agree on them. *)

From S2P Require Import Prelude GoStrings.

Inductive regexp :=
| RNone
| REmpty
| RClass (p : ascii → bool)
| RSeq (r s : regexp)
| RAlt (r s : regexp)
| RStar (r : regexp).

(** The texts a pattern matches. *)
Inductive lang : regexp → list ascii → Prop :=
| lang_empty : lang REmpty []
| lang_class p c : p c = true → lang (RClass p) [c]
| lang_seq r s l k : lang r l → lang s k → lang (RSeq r s) (l ++ k)
| lang_alt_l r s l : lang r l → lang (RAlt r s) l
| lang_alt_r r s l : lang s l → lang (RAlt r s) l
| lang_star_nil r : lang (RStar r) []
| lang_star_app r l k : lang r l → lang (RStar r) k → lang (RStar r) (l ++ k).

Fixpoint nullable (r : regexp) : bool :=
  match r with
  | RNone | RClass _ => false
  | REmpty | RStar _ => true
  | RSeq r s => nullable r && nullable s
  | RAlt r s => nullable r || nullable s
  end.

(** What is left of [r] after [c]; the patterns that match nothing are dropped. *)
Definition seq (r s : regexp) : regexp :=
  match r with RNone => RNone | REmpty => s | _ => RSeq r s end.

Definition alt (r s : regexp) : regexp :=
  match r, s with RNone, _ => s | _, RNone => r | _, _ => RAlt r s end.

Fixpoint deriv (c : ascii) (r : regexp) : regexp :=
  match r with
  | RNone | REmpty => RNone
  | RClass p => if p c then REmpty else RNone
  | RSeq r s => if nullable r then alt (seq (deriv c r) s) (deriv c s) else seq (deriv c r) s
  | RAlt r s => alt (deriv c r) (deriv c s)
  | RStar r => seq (deriv c r) (RStar r)
  end.

Definition rmatch (r : regexp) (l : list ascii) : bool := nullable (foldl (λ r c, deriv c r) r l).

(** [MatchString] of [^r$] *)
Definition MatchString (r : regexp) (s : string) : bool := rmatch r (chars s).

(** ** The syntax of the patterns *)

Definition char_in (p : ascii → bool) : regexp := RClass p.
Fixpoint rlit (l : list ascii) : regexp :=
  match l with [] => REmpty | c :: l => RSeq (RClass (λ d, bool_decide (d = c))) (rlit l) end.
Definition lit (s : string) : regexp := rlit (chars s).
Definition ropt (r : regexp) : regexp := RAlt REmpty r.
Definition rplus (r : regexp) : regexp := RSeq r (RStar r).
Fixpoint rtimes (n : nat) (r : regexp) : regexp :=
  match n with O => REmpty | S n => RSeq r (rtimes n r) end.

Definition code_in (lo hi : Z) (c : ascii) : bool := (lo <=? ascii_code c) && (ascii_code c <=? hi).
Definition is_digit : ascii → bool := code_in 48 57.
Definition is_lower_hex (c : ascii) : bool := code_in 48 57 c || code_in 97 102 c.

(** ** [(?m)^r$] anywhere in a text *)

Definition at_line_end (l : list ascii) : bool :=
  match l with [] => true | c :: _ => bool_decide (c = "010"%char) end.

Fixpoint match_line (r : regexp) (l : list ascii) : bool :=
  (nullable r && at_line_end l)
  || match l with [] => false | c :: l => match_line (deriv c r) l end.

Fixpoint search_line (r : regexp) (at_start : bool) (l : list ascii) : bool :=
  (at_start && match_line r l)
  || match l with [] => false | c :: l => search_line r (bool_decide (c = "010"%char)) l end.

Definition MatchLine (r : regexp) (s : string) : bool := search_line r true (chars s).

(** ** Correctness of the matcher *)

Lemma lang_none l : lang RNone l ↔ False.
Proof. split; [by inversion 1|done]. Qed.

Lemma lang_eps l : lang REmpty l ↔ l = [].
Proof. split; [by inversion 1|intros ->; constructor]. Qed.

Lemma lang_RClass p l : lang (RClass p) l ↔ ∃ c, p c = true ∧ l = [c].
Proof. split; [inversion 1; eauto|]. intros (c & Hc & ->). by constructor. Qed.

Lemma lang_RSeq r s l : lang (RSeq r s) l ↔ ∃ l1 l2, l = l1 ++ l2 ∧ lang r l1 ∧ lang s l2.
Proof. split; [inversion 1; eauto|]. intros (l1 & l2 & -> & ? & ?). by constructor. Qed.

Lemma lang_RAlt r s l : lang (RAlt r s) l ↔ lang r l ∨ lang s l.
Proof. split; [inversion 1; eauto|]. intros [?|?]; by constructor. Qed.

Lemma seq_ok r s l : lang (seq r s) l ↔ lang (RSeq r s) l.
Proof.
  destruct r; try done; cbn [seq]; rewrite lang_RSeq.
  - rewrite lang_none. split; [done|]. by intros (l1 & l2 & _ & Hl%lang_none & _).
  - split; [by exists [], l; rewrite lang_eps|]. by intros (l1 & l2 & -> & ->%lang_eps & ?).
Qed.

Lemma alt_ok r s l : lang (alt r s) l ↔ lang (RAlt r s) l.
Proof.
  rewrite lang_RAlt. destruct r; cbn [alt]; try (rewrite lang_none; naive_solver);
    destruct s; rewrite ?lang_RAlt, ?lang_none; naive_solver.
Qed.

Lemma nullable_ok r : nullable r = true ↔ lang r [].
Proof.
  induction r as [| |p|r IHr s IHs|r IHr s IHs|r IHr]; cbn [nullable].
  - by rewrite lang_none.
  - by rewrite lang_eps.
  - rewrite lang_RClass. naive_solver.
  - rewrite andb_true_iff, IHr, IHs, lang_RSeq. split; [by exists [], []|].
    intros (l1 & l2 & H & H1 & H2). symmetry in H. by apply app_nil in H as [-> ->].
  - by rewrite orb_true_iff, IHr, IHs, lang_RAlt.
  - split; [constructor|done].
Qed.

(** The first character of an iteration comes from a non-empty round. *)
Lemma lang_star_cons r c l :
  lang (RStar r) (c :: l) → ∃ l1 l2, l = l1 ++ l2 ∧ lang r (c :: l1) ∧ lang (RStar r) l2.
Proof.
  remember (RStar r) as s eqn:Hs. remember (c :: l) as k eqn:Hk. intros H. revert c l Hk.
  induction H as [| | | | | |r0 l0 k0 Hl _ Hk0 IH]; intros d l1 Hk; simplify_eq.
  destruct l0 as [|e l0]; cbn [app] in Hk; [by apply IH|]. simplify_eq. eauto.
Qed.

Lemma deriv_ok c r l : lang (deriv c r) l ↔ lang r (c :: l).
Proof.
  revert l. induction r as [| |p|r IHr s IHs|r IHr s IHs|r IHr]; intros l; cbn [deriv].
  - by rewrite !lang_none.
  - rewrite lang_none, lang_eps. done.
  - rewrite lang_RClass. destruct (p c) eqn:Hp; rewrite ?lang_none, ?lang_eps.
    + split; [intros ->; eauto|]. by intros (d & _ & [= _ ->]).
    + split; [done|]. intros (d & Hd & [= -> _]). congruence.
  - assert (lang (RSeq (deriv c r) s) l ↔ ∃ l1 l2, l = l1 ++ l2 ∧ lang r (c :: l1) ∧ lang s l2) as H1.
    { rewrite lang_RSeq. by setoid_rewrite IHr. }
    assert (lang (RSeq r s) (c :: l) ↔ lang (RSeq (deriv c r) s) l ∨ lang r [] ∧ lang s (c :: l)) as H2.
    { rewrite H1, lang_RSeq. split.
      - intros (l1 & l2 & Hl & Hr & Hs). destruct l1 as [|d l1]; cbn [app] in Hl; simplify_eq; eauto 6.
      - intros [(l1 & l2 & -> & ? & ?)|[? ?]]; [by exists (c :: l1), l2|by exists [], (c :: l)]. }
    rewrite H2, <- nullable_ok. destruct (nullable r).
    + rewrite alt_ok, lang_RAlt, seq_ok, IHs. naive_solver.
    + rewrite seq_ok. naive_solver.
  - by rewrite alt_ok, !lang_RAlt, IHr, IHs.
  - rewrite seq_ok, lang_RSeq. setoid_rewrite IHr. split.
    + intros (l1 & l2 & -> & ? & ?). rewrite app_comm_cons. by constructor.
    + apply lang_star_cons.
Qed.

Lemma rmatch_ok r l : rmatch r l = true ↔ lang r l.
Proof.
  unfold rmatch. revert r. induction l as [|c l IH]; intros r; cbn [foldl]; [apply nullable_ok|].
  by rewrite IH, deriv_ok.
Qed.

Lemma MatchString_ok r s : MatchString r s = true ↔ lang r (chars s).
Proof. apply rmatch_ok. Qed.

(** ** What the syntax means *)

Lemma lang_rlit k l : lang (rlit k) l ↔ l = k.
Proof.
  revert l. induction k as [|c k IH]; intros l; cbn [rlit]; [apply lang_eps|].
  rewrite lang_RSeq. setoid_rewrite lang_RClass. setoid_rewrite IH. split.
  - intros (l1 & l2 & -> & (d & Hd & ->) & ->). apply bool_decide_eq_true_1 in Hd. by subst.
  - intros ->. exists [c], k. split; [done|]. split; [|done]. exists c. by rewrite bool_decide_eq_true_2.
Qed.

Lemma lang_star_class p l : lang (RStar (RClass p)) l ↔ Forall (λ c, p c = true) l.
Proof.
  split.
  - remember (RStar (RClass p)) as s eqn:Hs. intros H. induction H as [| | | | | |r l k Hl _ _ IH]; simplify_eq.
    + constructor.
    + apply lang_RClass in Hl as (c & Hc & ->). constructor; auto.
  - induction 1 as [|c l Hc Hl IH]; [constructor|]. change (c :: l) with ([c] ++ l).
    by apply lang_star_app; [constructor|].
Qed.

Lemma lang_plus_class p l : lang (rplus (RClass p)) l ↔ l ≠ [] ∧ Forall (λ c, p c = true) l.
Proof.
  unfold rplus. rewrite lang_RSeq. setoid_rewrite lang_RClass. setoid_rewrite lang_star_class. split.
  - intros (l1 & l2 & -> & (c & Hc & ->) & Hl). split; [done|by constructor].
  - intros [Hne Hall]. destruct l as [|c l]; [done|]. inversion_clear Hall. exists [c], l. eauto 6.
Qed.

Lemma lang_times_class n p l :
  lang (rtimes n (RClass p)) l ↔ length l = n ∧ Forall (λ c, p c = true) l.
Proof.
  revert l. induction n as [|n IH]; intros l; cbn [rtimes].
  - rewrite lang_eps. split; [by intros ->; split|]. intros [Hl _]. by destruct l.
  - rewrite lang_RSeq. setoid_rewrite lang_RClass. setoid_rewrite IH. split.
    + intros (l1 & l2 & -> & (c & Hc & ->) & Hl & Hall). split; [cbn; lia|by constructor].
    + intros [Hl Hall]. destruct l as [|c l]; [done|]. inversion_clear Hall. exists [c], l.
      cbn in Hl. split; [done|]. split; [by exists c|]. split; [lia|done].
Qed.

Lemma lang_opt r l : lang (ropt r) l ↔ l = [] ∨ lang r l.
Proof. unfold ropt. by rewrite lang_RAlt, lang_eps. Qed.

(** Every character a pattern matches belongs to one of its classes. *)
Fixpoint uses_chars (p : ascii → bool) (r : regexp) : Prop :=
  match r with
  | RNone | REmpty => True
  | RClass q => ∀ c, q c = true → p c = true
  | RSeq r s | RAlt r s => uses_chars p r ∧ uses_chars p s
  | RStar r => uses_chars p r
  end.

Lemma lang_uses p r l : uses_chars p r → lang r l → Forall (λ c, p c = true) l.
Proof.
  intros Hp H. induction H as [|q c Hc|r s l k _ IHl _ IHk|r s l _ IH|r s l _ IH|r|r l k _ IHl _ IHk];
    cbn [uses_chars] in Hp; try (by constructor).
  - constructor; auto.
  - destruct Hp. apply Forall_app; auto.
  - apply IH, Hp.
  - apply IH, Hp.
  - apply Forall_app; auto.
Qed.

(** The search of a line finds it exactly. *)
Lemma match_line_ok r l :
  match_line r l = true ↔ ∃ l1 l2, l = l1 ++ l2 ∧ lang r l1 ∧ at_line_end l2 = true.
Proof.
  revert r. induction l as [|c l IH]; intros r; cbn [match_line].
  - rewrite orb_false_r, andb_true_iff, nullable_ok. split.
    + intros [? ?]. by exists [], [].
    + intros (l1 & l2 & H & ? & ?). symmetry in H. apply app_nil in H as [-> ->]. done.
  - rewrite orb_true_iff, andb_true_iff, IH, nullable_ok. setoid_rewrite deriv_ok. split.
    + intros [[? ?]|(l1 & l2 & -> & ? & ?)]; [by exists [], (c :: l)|by exists (c :: l1), l2].
    + intros (l1 & l2 & H & ? & ?). destruct l1 as [|d l1]; cbn [app] in H; simplify_eq; eauto 6.
Qed.

Lemma search_line_ok r b l :
  search_line r b l = true ↔
  ∃ l1 l2 l3, l = l1 ++ l2 ++ l3 ∧ lang r l2 ∧ at_line_end l3 = true
    ∧ (l1 = [] ∧ b = true ∨ last l1 = Some "010"%char).
Proof.
  revert b. induction l as [|c l IH]; intros b; cbn [search_line];
    rewrite orb_true_iff, andb_true_iff, match_line_ok; [|rewrite IH; clear IH].
  - split; [intros [(-> & l2 & l3 & H & ? & ?)|]; [|done]; exists [], l2, l3; split_and!; auto|].
    intros (l1 & l2 & l3 & H & ? & ? & Hb). symmetry in H. apply app_nil in H as [-> H].
    left. destruct Hb as [[_ ->]|]; [|done]. eauto 6.
  - split.
    + intros [(-> & l2 & l3 & H & ? & ?)|(l1 & l2 & l3 & -> & ? & ? & Hb)].
      * exists [], l2, l3. split_and!; auto.
      * exists (c :: l1), l2, l3. do 3 (split; [done|]). right.
        destruct Hb as [[-> Hc]|Hb]; [apply bool_decide_eq_true_1 in Hc; by subst|].
        destruct l1; [done|exact Hb].
    + intros (l1 & l2 & l3 & H & ? & ? & Hb). destruct l1 as [|d l1].
      * left. destruct Hb as [[_ ->]|]; [|done]. cbn [app] in H. eauto 6.
      * cbn [app] in H. simplify_eq. right. exists l1, l2, l3. do 3 (split; [done|]).
        destruct Hb as [[? _]|Hb]; [done|]. destruct l1 as [|e l1]; [left|by right].
        cbn in Hb. simplify_eq. split; [done|by apply bool_decide_eq_true_2].
Qed.
