(* ===== verification/GoFiles.v ===== *)
(** * Lines, paths and files (Go's [strings], [bufio], [path/filepath] and [os])

    What the release scripts use of them, on Linux: splitting and cutting, the line
    scanner with its limit, lexical path cleaning, and a tree of files in which every
    call may fail. *)

From S2P Require Import Prelude GoStrings.

(** ** Splitting *)

Fixpoint split_list (sep : ascii) (l : list ascii) : list (list ascii) :=
  match l with
  | [] => [[]]
  | c :: l' =>
      if decide (c = sep) then [] :: split_list sep l'
      else match split_list sep l' with w :: ws => (c :: w) :: ws | [] => [[c]] end
  end.

(** [strings.Split] at one character *)
Definition Split (s : string) (sep : ascii) : list string := str <$> split_list sep (chars s).

(** [strings.Cut] at one character; [None] when it is not found. *)
Definition Cut (s : string) (sep : ascii) : option (string * string) :=
  match split_list sep (chars s) with
  | w :: (_ :: _) => Some (str w, str (drop (S (length w)) (chars s)))
  | _ => None
  end.

Definition newline_char : ascii := "010"%char.
Definition newline : string := str [newline_char].

(** ** Lines

    [bufio.Scanner] with its default split function: a line ends at a newline or at
    the end of the data, a carriage return before the newline is dropped, and a line
    of 65536 bytes or more stops the scan. *)

Definition maxScanTokenSize : Z := 65536.

Definition raw_lines (data : string) : list (list ascii) :=
  let l := split_list newline_char (chars data) in
  match last l with Some [] => removelast l | _ => l end.

Definition drop_cr (l : list ascii) : list ascii :=
  match rev l with c :: l' => if decide (c = "013"%char) then rev l' else l | [] => l end.

Fixpoint scan_loop (l : list (list ascii)) : list string * option error :=
  match l with
  | [] => ([], None)
  | w :: l' =>
      if maxScanTokenSize <=? Z.of_nat (length w) then ([], Some (EText "bufio.Scanner: token too long"))
      else let '(lines, e) := scan_loop l' in (str (drop_cr w) :: lines, e)
  end.

Definition scan_lines (data : string) : list string * option error := scan_loop (raw_lines data).

(** ** Paths *)

Definition rooted (path : string) : bool := HasPrefix path "/".

(** One element of a path, on the stack of the elements so far. *)
Definition path_step (root : bool) (st : list string) (e : string) : list string :=
  if bool_decide (e = "") || bool_decide (e = ".") then st
  else if bool_decide (e = "..") then
    match st with
    | top :: rest => if bool_decide (top = "..") then e :: st else rest
    | [] => if root then [] else [e]
    end
  else e :: st.

Definition path_elements (root : bool) (path : string) : list string :=
  rev (foldl (path_step root) [] (Split path "/"%char)).

(** [filepath.Clean] *)
Definition path_Clean (path : string) : string :=
  if bool_decide (path = "") then "." else
  let l := path_elements (rooted path) path in
  if rooted path then "/" +:+ Join l "/"
  else if bool_decide (l = []) then "." else Join l "/".

(** [filepath.Join] *)
Fixpoint path_Join (elems : list string) : string :=
  match elems with
  | [] => ""
  | e :: rest => if bool_decide (e = "") then path_Join rest else path_Clean (Join elems "/")
  end.

(** [filepath.Base] *)
Definition path_Base (path : string) : string :=
  if bool_decide (path = "") then "." else
  let stripped := TrimRightSlash path in
  if bool_decide (stripped = "") then "/" else default "" (last (Split stripped "/"%char)).

(** [filepath.Dir] *)
Definition path_Dir (path : string) : string :=
  path_Clean (Join (removelast (Split path "/"%char) ++ [""]) "/").

(** ** Files *)

Inductive file_type := FRegular | FDirectory | FOther.

#[global] Instance file_type_eq_dec : EqDecision file_type.
Proof. solve_decision. Defined.

Record fs_file := { ff_type : file_type; ff_perm : Z; ff_data : string }.

#[global] Instance fs_file_eq_dec : EqDecision fs_file.
Proof. solve_decision. Defined.

(** The files by the elements of their absolute paths, without links; [fs_cwd] is
    the current directory. *)
Record FS := { fs_cwd : list string; fs_files : gmap (list string) fs_file }.

Definition locate (fs : FS) (path : string) : list string :=
  rev (foldl (path_step true) (if rooted path then [] else rev (fs_cwd fs)) (Split path "/"%char)).

Definition file_of (fs : FS) (path : string) : option fs_file := fs_files fs !! locate fs path.

Definition put_file (path : string) (f : fs_file) (fs : FS) : FS :=
  {| fs_cwd := fs_cwd fs; fs_files := <[locate fs path := f]> (fs_files fs) |}.

(** What a call on a path fails with, for a reason outside the files, given the
    operation and the path; and what a failed write has left in the file. *)
Class GoOS := { os_fault : string → string → option string; os_partial : string → string }.

(** A file system on which no call fails. *)
Definition calm `{GoOS} : Prop := ∀ op path, os_fault op path = None.

Definition path_error {A} (op path msg : string) : res A :=
  Err (EText (op +:+ " " +:+ path +:+ ": " +:+ msg)).

(** A loop that appends what its body gives, and stops at the first error. *)
Fixpoint map_res {A B} (f : A → res B) (l : list A) : res (list B) :=
  match l with
  | [] => Ok []
  | x :: l => y ← f x; ys ← map_res f l; Ok (y :: ys)
  end.

Lemma foldl_res_all {B} (f : B → res unit) l :
  Forall (λ b, f b = Ok ()) l → foldl_res (λ _, f) () l = Ok ().
Proof. induction 1 as [|b l Hb _ IH]; [done|]. cbn [foldl_res]. by rewrite Hb. Qed.

Section OS.
Context `{GoOS}.

(** [os.Stat] and [os.Open] *)
Definition os_lookup (op path : string) (fs : FS) : res fs_file :=
  match os_fault op path, file_of fs path with
  | Some msg, _ => path_error op path msg
  | None, None => path_error op path "no such file or directory"
  | None, Some f => Ok f
  end.

Definition os_Stat := os_lookup "stat".
Definition os_Open := os_lookup "open".

(** All that an opened file holds. *)
Definition read_all (path : string) (f : fs_file) : res string :=
  match os_fault "read" path with
  | Some msg => path_error "read" path msg
  | None => if bool_decide (ff_type f = FDirectory) then path_error "read" path "is a directory"
            else Ok (ff_data f)
  end.

Definition os_ReadFile (path : string) (fs : FS) : res string :=
  f ← os_Open path fs; read_all path f.

(** A call without a result of its own. *)
Definition os_call (op path : string) : res unit :=
  match os_fault op path with Some msg => path_error op path msg | None => Ok () end.

(** [os.Create] and the file it leaves, and a write to it. *)
Definition created (path data : string) (fs : FS) : FS :=
  put_file path {| ff_type := FRegular; ff_perm := 420; ff_data := data |} fs.

Definition os_Create (path : string) (fs : FS) : res FS :=
  match os_fault "create" path, file_of fs path with
  | Some msg, _ => path_error "open" path msg
  | None, Some f =>
      if bool_decide (ff_type f = FDirectory) then path_error "open" path "is a directory"
      else Ok (put_file path {| ff_type := ff_type f; ff_perm := ff_perm f; ff_data := "" |} fs)
  | None, None => Ok (created path "" fs)
  end.

Definition fill (path data : string) (fs : FS) : FS :=
  match file_of fs path with
  | Some f => put_file path {| ff_type := ff_type f; ff_perm := ff_perm f; ff_data := data |} fs
  | None => fs
  end.

End OS.

(** ** Lemmas on splitting *)

Lemma split_list_nonempty sep l : split_list sep l ≠ [].
Proof. destruct l; cbn [split_list]; [done|]. case_decide; [done|]. by destruct (split_list sep l). Qed.

Lemma split_list_none sep l : sep ∉ l → split_list sep l = [l].
Proof.
  induction l as [|c l IH]; intros Hl; [done|]. apply not_elem_of_cons in Hl as [Hc Hl].
  cbn [split_list]. by rewrite decide_False, IH by done.
Qed.

Lemma split_list_app sep l k : sep ∉ l → split_list sep (l ++ sep :: k) = l :: split_list sep k.
Proof.
  induction l as [|c l IH]; intros Hl; cbn [app split_list]; [by rewrite decide_True|].
  apply not_elem_of_cons in Hl as [Hc Hl]. by rewrite decide_False, IH by done.
Qed.

Lemma split_list_snoc sep l k : sep ∉ k → split_list sep (l ++ sep :: k) = split_list sep l ++ [k].
Proof.
  intros Hk. induction l as [|c l IH]; cbn [app split_list].
  - by rewrite decide_True, split_list_none by done.
  - rewrite IH. case_decide; [done|]. pose proof (split_list_nonempty sep l).
    by destruct (split_list sep l).
Qed.

Lemma split_list_cons sep l w ws :
  split_list sep l = w :: ws →
  l = w ∧ ws = [] ∨ ∃ k, l = w ++ sep :: k ∧ split_list sep k = ws.
Proof.
  revert w. induction l as [|c l IH]; intros w; cbn [split_list]; [intros [= <- <-]; by left|].
  case_decide as Hc; [intros [= <- <-]; right; subst; by exists l|].
  destruct (split_list sep l) as [|v vs] eqn:Hl; [by apply split_list_nonempty in Hl|].
  intros [= <- <-]. destruct (IH v eq_refl) as [[-> ->]|(k & -> & Hk)]; [by left|right; by exists k].
Qed.

Lemma split_list_free sep l : Forall (λ w, sep ∉ w) (split_list sep l).
Proof.
  induction l as [|c l IH]; cbn [split_list]; [by repeat constructor; apply not_elem_of_nil|].
  case_decide; [constructor; [apply not_elem_of_nil|done]|].
  destruct (split_list sep l) as [|w ws]; [by repeat constructor; apply not_elem_of_cons; split; [|apply not_elem_of_nil]|].
  inversion_clear IH. constructor; [|done]. by apply not_elem_of_cons.
Qed.

Lemma Split_free s sep : Forall (λ w, sep ∉ chars w) (Split s sep).
Proof.
  unfold Split. apply Forall_fmap. eapply Forall_impl; [apply split_list_free|].
  intros w Hw. cbn. by rewrite chars_str.
Qed.

Lemma Split_snoc s k sep : sep ∉ chars k → Split (s +:+ str [sep] +:+ k) sep = Split s sep ++ [k].
Proof.
  intros Hk. unfold Split. rewrite !chars_app, chars_str. cbn [app].
  rewrite split_list_snoc, fmap_app by done. cbn. by rewrite str_chars.
Qed.

(** Joining and splitting at the same character. *)
Lemma Split_Join l sep :
  l ≠ [] → Forall (λ w, sep ∉ chars w) l → Split (Join l (str [sep])) sep = l.
Proof.
  intros Hne Hl. induction Hl as [|w l Hw Hl IH]; [done|]. destruct l as [|v l].
  - cbn [Join]. unfold Split. rewrite split_list_none by done. cbn. by rewrite str_chars.
  - change (Join (w :: v :: l) (str [sep])) with (w +:+ str [sep] +:+ Join (v :: l) (str [sep])).
    unfold Split in *. rewrite !chars_app, chars_str. cbn [app].
    rewrite split_list_app by done. cbn [fmap list_fmap]. by rewrite str_chars, IH.
Qed.

(** ** Lemmas on paths *)

(** A name that is one element of a path. *)
Definition plain_name (n : string) : Prop :=
  n ≠ "" ∧ n ≠ "." ∧ n ≠ ".." ∧ "/"%char ∉ chars n.

#[global] Instance plain_name_dec n : Decision (plain_name n).
Proof. unfold plain_name. apply _. Defined.

Lemma path_step_plain root st n : n ≠ "" → n ≠ "." → n ≠ ".." → path_step root st n = n :: st.
Proof. intros. unfold path_step. by rewrite !bool_decide_eq_false_2. Qed.

(** The elements on the stack are not empty and not dots. *)
Definition elements_ok (st : list string) : Prop := Forall (λ e, e ≠ "" ∧ e ≠ ".") st.

Lemma path_step_ok root st e : elements_ok st → elements_ok (path_step root st e).
Proof.
  intros Hst. unfold path_step. destruct (bool_decide (e = "")) eqn:H1; [done|].
  destruct (bool_decide (e = ".")) eqn:H2; [done|]. crush_bool. cbn [orb].
  assert (elements_ok (e :: st)) by (by constructor).
  case_bool_decide; [|done]. destruct st as [|top rest]; [destruct root; [constructor|by constructor]|].
  case_bool_decide; [done|]. by inversion Hst.
Qed.

Lemma path_fold_ok root st l : elements_ok st → elements_ok (foldl (path_step root) st l).
Proof. revert st. induction l as [|e l IH]; intros st Hst; [done|]. by apply IH, path_step_ok. Qed.

(** Cleaned elements lead where the elements lead, from the directory [s]. *)
Lemma path_step_clean root s st e :
  (root = true → s = []) → elements_ok st →
  foldl (path_step true) s (rev (path_step root st e))
  = path_step true (foldl (path_step true) s (rev st)) e.
Proof.
  intros Hroot Hst. unfold path_step at 2 3.
  destruct (bool_decide (e = "") || bool_decide (e = ".")) eqn:Hskip; [done|]. crush_bool.
  case_bool_decide as Hdots.
  - destruct st as [|top rest].
    + destruct root; cbn [rev app foldl]; [by rewrite Hroot|]. unfold path_step.
      by rewrite !bool_decide_eq_false_2, bool_decide_eq_true_2 by (done || by subst).
    + case_bool_decide as Htop; cbn [rev]; rewrite ?foldl_snoc.
      * unfold path_step at 1.
        by rewrite !(bool_decide_eq_false_2 (e = _)), (bool_decide_eq_true_2 (e = "..")) by (done || by subst).
      * inversion_clear Hst as [|? ? [? ?] _]. rewrite (path_step_plain true _ top) by done.
        by rewrite bool_decide_eq_false_2.
  - cbn [rev]. rewrite foldl_snoc. unfold path_step at 1.
    by rewrite !(bool_decide_eq_false_2 (e = _)) by done.
Qed.

Lemma path_fold_clean root s l st :
  (root = true → s = []) → elements_ok st →
  foldl (path_step true) s (rev (foldl (path_step root) st l))
  = foldl (path_step true) (foldl (path_step true) s (rev st)) l.
Proof.
  intros Hroot. revert st. induction l as [|e l IH]; intros st Hst; [done|]. cbn [foldl].
  rewrite IH by by apply path_step_ok. f_equal. by apply path_step_clean.
Qed.

Lemma path_elements_free root path : Forall (λ w, "/"%char ∉ chars w) (path_elements root path).
Proof.
  unfold path_elements. apply Forall_rev.
  assert (∀ l st, Forall (λ w, "/"%char ∉ chars w) l → Forall (λ w, "/"%char ∉ chars w) st →
    Forall (λ w, "/"%char ∉ chars w) (foldl (path_step root) st l)) as Hfold.
  { induction l as [|e l IH]; intros st Hl Hst; [done|]. inversion_clear Hl. apply IH; [done|].
    unfold path_step. destruct (_ || _); [done|].
    assert (Forall (λ w, "/"%char ∉ chars w) (e :: st)) by (by constructor).
    case_bool_decide; [|done]. destruct st as [|top rest]; [destruct root; [constructor|by constructor]|].
    case_bool_decide; [done|]. by inversion_clear Hst. }
  apply Hfold; [apply Split_free|constructor].
Qed.

Lemma rooted_Join e l : e ≠ "" → "/"%char ∉ chars e → rooted (Join (e :: l) "/") = false.
Proof.
  intros Hne Hfree. unfold rooted, HasPrefix. apply bool_decide_eq_false_2.
  intros [k Hk%strip_prefix_Some].
  assert (∃ r, chars (Join (e :: l) "/") = chars e ++ r) as [r Hr].
  { destruct l; cbn [Join]; [exists []; by rewrite app_nil_r|]. rewrite chars_app. eauto. }
  rewrite Hr in Hk. destruct (chars e) as [|c w] eqn:He.
  - by apply Hne, chars_inj.
  - cbn in Hk. simplify_eq. apply Hfree. left.
Qed.

Lemma rooted_cons s : rooted ("/" +:+ s) = true.
Proof. unfold rooted, HasPrefix. apply bool_decide_eq_true_2. rewrite chars_app. cbn. by eexists. Qed.

(** [filepath.Clean] changes no location. *)
Lemma locate_Clean fs path : path ≠ "" → locate fs (path_Clean path) = locate fs path.
Proof.
  intros Hne. unfold path_Clean. rewrite (bool_decide_eq_false_2 (path = "")) by done.
  unfold locate. f_equal. pose proof (path_elements_free (rooted path) path) as Hfree.
  pose proof (path_fold_ok (rooted path) [] (Split path "/"%char) (Forall_nil_2 _)) as Hok.
  destruct (rooted path) eqn:Hr.
  - rewrite rooted_cons. transitivity (foldl (path_step true) [] (path_elements true path)).
    + destruct (path_elements true path) as [|e l] eqn:He; [done|].
      replace (Split ("/" +:+ Join (e :: l) "/") "/"%char) with ("" :: e :: l); [done|].
      change ("/" +:+ Join (e :: l) "/") with (Join ("" :: e :: l) (str ["/"%char])).
      symmetry. apply Split_Join; [done|]. constructor; [apply not_elem_of_nil|done].
    + unfold path_elements. by rewrite path_fold_clean by (done || constructor).
  - case_bool_decide as Hnil.
    + change (rooted ".") with false. transitivity (foldl (path_step true) (rev (fs_cwd fs)) (path_elements false path)).
      { by rewrite Hnil. }
      unfold path_elements. by rewrite path_fold_clean by (done || constructor).
    + destruct (path_elements false path) as [|e l] eqn:He; [done|].
      assert (e ≠ "") as Hene.
      { apply Forall_rev in Hok. fold (path_elements false path) in Hok. rewrite He in Hok.
        by inversion_clear Hok as [|? ? [? _]]. }
      inversion_clear Hfree as [|? ? Hef Hlf]. rewrite (rooted_Join e l) by done.
      assert (Split (Join (e :: l) "/") "/"%char = e :: l) as ->
        by (apply (Split_Join (e :: l) "/"%char); [done|by constructor]).
      rewrite <- He. unfold path_elements. by rewrite path_fold_clean by (done || constructor).
Qed.

Lemma rooted_app d s : d ≠ "" → rooted (d +:+ s) = rooted d.
Proof.
  intros Hne. unfold rooted, HasPrefix. apply bool_decide_ext. rewrite chars_app.
  destruct (chars d) as [|c l] eqn:Hd; [by destruct Hne; apply chars_inj|]. cbn.
  case_decide; [|done]. split; by eexists.
Qed.

Lemma Join_two d n : path_Join [d; n] = if bool_decide (d = "") then path_Join [n] else path_Clean (d +:+ "/" +:+ n).
Proof. cbn [path_Join Join]. done. Qed.

(** A plain name under a directory. *)
Lemma locate_Join fs d n : d ≠ "" → plain_name n → locate fs (path_Join [d; n]) = locate fs d ++ [n].
Proof.
  intros Hd (Hn & Hdot & Hdots & Hfree). rewrite Join_two, bool_decide_eq_false_2 by done.
  rewrite locate_Clean by (by destruct d). unfold locate.
  rewrite rooted_app by done. assert (Split (d +:+ "/" +:+ n) "/"%char = Split d "/"%char ++ [n]) as ->
    by by apply (Split_snoc d n "/"%char).
  rewrite foldl_snoc, path_step_plain by done. done.
Qed.

Lemma elements_Join d n :
  d ≠ "" → plain_name n →
  ∃ l, path_elements (rooted (d +:+ "/" +:+ n)) (d +:+ "/" +:+ n) = l ++ [n].
Proof.
  intros Hd (Hn & Hdot & Hdots & Hfree). unfold path_elements.
  assert (Split (d +:+ "/" +:+ n) "/"%char = Split d "/"%char ++ [n]) as ->
    by by apply (Split_snoc d n "/"%char).
  rewrite foldl_snoc, path_step_plain by done.
  cbn [rev]. by eexists.
Qed.

Lemma TrimRightSlash_fix s n :
  n ≠ "" → "/"%char ∉ chars n → TrimRightSlash (s +:+ n) = s +:+ n.
Proof.
  intros Hn Hfree. unfold TrimRightSlash. apply chars_inj. rewrite chars_str. unfold trim_right.
  rewrite trim_left_fix, rev_involutive; [done|]. intros c. rewrite chars_app, rev_app_distr.
  destruct (rev (chars n)) as [|d l] eqn:He.
  { destruct Hn. apply chars_inj. by rewrite <- (rev_involutive (chars n)), He. }
  cbn. intros [= <-]. apply bool_decide_eq_false_2. intros ->. apply Hfree.
  rewrite <- (rev_involutive (chars n)), He. cbn. apply elem_of_app. right. left.
Qed.

Lemma string_app_assoc s t u : (s +:+ t) +:+ u = s +:+ t +:+ u.
Proof. apply chars_inj. by rewrite !chars_app, app_assoc. Qed.

Lemma app_empty_r s n : n ≠ "" → s +:+ n ≠ "".
Proof. intros Hn H. destruct s; [by apply Hn|done]. Qed.

Lemma Base_slash q n : n ≠ "" → "/"%char ∉ chars n → path_Base (q +:+ "/" +:+ n) = n.
Proof.
  intros Hn Hfree. unfold path_Base.
  assert (q +:+ "/" +:+ n ≠ "") as Hne by by apply app_empty_r.
  rewrite (bool_decide_eq_false_2 (_ = "")) by done.
  assert (TrimRightSlash (q +:+ "/" +:+ n) = q +:+ "/" +:+ n) as ->.
  { rewrite <- string_app_assoc. by apply TrimRightSlash_fix. }
  rewrite (bool_decide_eq_false_2 (_ = "")) by done.
  assert (Split (q +:+ "/" +:+ n) "/"%char = Split q "/"%char ++ [n]) as ->
    by by apply (Split_snoc q n "/"%char).
  by rewrite last_snoc.
Qed.

Lemma Base_name n : n ≠ "" → "/"%char ∉ chars n → path_Base n = n.
Proof.
  intros Hn Hfree. unfold path_Base. rewrite (bool_decide_eq_false_2 (n = "")) by done.
  assert (TrimRightSlash n = n) as -> by by apply (TrimRightSlash_fix "" n).
  rewrite (bool_decide_eq_false_2 (n = "")) by done.
  unfold Split. rewrite split_list_none by done. cbn. by rewrite str_chars.
Qed.

Lemma plain_Base n : plain_name n → path_Base n = n.
Proof. intros (? & _ & _ & ?). by apply Base_name. Qed.

Lemma Join_snoc l n : l ≠ [] → Join (l ++ [n]) "/" = Join l "/" +:+ "/" +:+ n.
Proof.
  intros Hl. induction l as [|w l IH]; [done|]. destruct l as [|v l]; [done|].
  change (Join ((w :: v :: l) ++ [n]) "/") with (w +:+ "/" +:+ Join ((v :: l) ++ [n]) "/").
  rewrite IH by done. change (Join (w :: v :: l) "/") with (w +:+ "/" +:+ Join (v :: l) "/").
  by rewrite !string_app_assoc.
Qed.

Lemma Base_Join d n : d ≠ "" → plain_name n → path_Base (path_Join [d; n]) = n.
Proof.
  intros Hd Hn. pose proof Hn as (Hne & _ & _ & Hfree). rewrite Join_two, bool_decide_eq_false_2 by done.
  unfold path_Clean. rewrite bool_decide_eq_false_2 by (by destruct d).
  destruct (elements_Join d n Hd Hn) as [l ->].
  rewrite (bool_decide_eq_false_2 (l ++ [n] = [])) by (by destruct l).
  destruct (decide (l = [])) as [->|Hl].
  - cbn [app Join]. destruct (rooted _); [|by apply Base_name]. by apply (Base_slash "").
  - rewrite Join_snoc by done. destruct (rooted _); [|by apply Base_slash].
    rewrite <- string_app_assoc. by apply Base_slash.
Qed.

(** A name that [filepath.Base] keeps is one element, or the root, or dots. *)
Lemma Base_fixed n : path_Base n = n → n = "/" ∨ n ≠ "" ∧ "/"%char ∉ chars n.
Proof.
  unfold path_Base. case_bool_decide as He; [by intros <-|]. case_bool_decide as Hs; [by left|].
  intros Hn. right. split; [done|]. rewrite <- Hn.
  pose proof (Split_free (TrimRightSlash n) "/"%char) as Hfree.
  destruct (last (Split (TrimRightSlash n) "/"%char)) as [w|] eqn:Hw; [|apply not_elem_of_nil].
  cbn. apply last_Some in Hw as [l Hw]. rewrite Hw in Hfree. apply Forall_app in Hfree as [_ Hfree].
  by inversion_clear Hfree.
Qed.

(** ** Lemmas on files *)

Lemma file_of_put fs path f path' :
  file_of (put_file path f fs) path' = if decide (locate fs path = locate fs path') then Some f else file_of fs path'.
Proof.
  unfold file_of. change (locate (put_file path f fs)) with (locate fs). cbn [put_file fs_files].
  case_decide as Heq; [rewrite Heq; apply lookup_insert_eq|by apply lookup_insert_ne].
Qed.

Lemma locate_put fs path f path' : locate (put_file path f fs) path' = locate fs path'.
Proof. done. Qed.

(** ** Lemmas on lines *)

(** Lines without newlines or carriage returns, written one after the other, are
    scanned back. *)
Definition line_ok (s : string) : Prop :=
  newline_char ∉ chars s ∧ "013"%char ∉ chars s ∧ len s < maxScanTokenSize.

#[global] Instance line_ok_dec s : Decision (line_ok s).
Proof. unfold line_ok. apply _. Defined.

Definition lines_text (lines : list string) : string := foldr (λ l r, l +:+ newline +:+ r) "" lines.

Lemma raw_lines_text lines :
  Forall line_ok lines → raw_lines (lines_text lines) = (λ s, chars s) <$> lines.
Proof.
  intros Hl. unfold raw_lines.
  assert (split_list newline_char (chars (lines_text lines)) = ((λ s, chars s) <$> lines) ++ [[]]) as ->.
  { induction Hl as [|s lines (Hnl & _) _ IH]; [done|].
    change (lines_text (s :: lines)) with (s +:+ newline +:+ lines_text lines).
    rewrite !chars_app. change (chars newline) with [newline_char]. cbn [app].
    rewrite split_list_app, IH by done. done. }
  rewrite last_snoc, removelast_last. done.
Qed.

Lemma drop_cr_fix l : "013"%char ∉ l → drop_cr l = l.
Proof.
  intros Hl. unfold drop_cr. destruct (rev l) as [|c k] eqn:Hr; [done|].
  rewrite decide_False; [done|]. intros ->. apply Hl. rewrite <- (rev_involutive l), Hr. cbn.
  apply elem_of_app. right. left.
Qed.

Lemma scan_lines_text lines : Forall line_ok lines → scan_lines (lines_text lines) = (lines, None).
Proof.
  intros Hl. unfold scan_lines. rewrite raw_lines_text by done.
  induction Hl as [|s lines (_ & Hcr & Hlen) _ IH]; [done|]. cbn [fmap list_fmap scan_loop].
  rewrite length_chars, (proj2 (Z.leb_gt _ _)) by done. fold ((λ s, chars s) <$> lines).
  rewrite IH, drop_cr_fix, str_chars by done. done.
Qed.
