(* ===== verification/Host.v ===== *)
(** * The host's plugin API and the library functions the program is built on

    The [pluginapi] records of the CLIProxyAPI SDK with the fields the program
    reads, and [GoStd], the interface to the parts of Go's library whose inner
    working the program relies on only through their documented results: hash
    functions, the time and duration syntaxes, quoting, URL parsing and JSON
    decoding. *)

From S2P Require Import Prelude GoStrings GoFloat.

(** ** pluginapi *)

Record UsageDetail := {
  ud_InputTokens : Z;
  ud_OutputTokens : Z;
  ud_ReasoningTokens : Z;
  ud_CacheReadTokens : Z;
  ud_CacheCreationTokens : Z;
  ud_TotalTokens : Z;
}.

Record UsageFailure := {
  uf_StatusCode : Z;
  uf_Body : string;
}.

Record UsageRecord := {
  ur_Provider : string;
  ur_Model : string;
  ur_Alias : string;
  ur_AuthID : string;
  ur_RequestedAt : Time;
  ur_Latency : Duration;
  ur_Failed : bool;
  ur_Failure : UsageFailure;
  ur_Detail : UsageDetail;
  ur_ResponseHeaders : Header;
}.

Record SchedulerAuthCandidate := {
  sc_ID : string;
  sc_Provider : string;
  sc_Attributes : gmap string string;
}.

(** A Go map read of a missing key gives the zero value. *)
Definition attribute (c : SchedulerAuthCandidate) (k : string) : string :=
  default "" (sc_Attributes c !! k).

(** [Options.Metadata["now"]], the one entry the program reads. *)
Inductive metadata_now :=
| NowTime (t : Time)
| NowString (s : string)
| NowOther.

Record SchedulerPickRequest := {
  sp_Provider : string;
  sp_Providers : list string;
  sp_Model : string;
  sp_Candidates : list SchedulerAuthCandidate;
  sp_Headers : Header;
  sp_Now : option metadata_now;
}.

Record SchedulerPickResponse := {
  pr_Handled : bool;
  pr_AuthID : string;
  pr_DelegateBuiltin : string;
}.

(** [pluginapi.SchedulerBuiltinRoundRobin] *)
Definition SchedulerBuiltinRoundRobin : string := "round-robin".

Definition not_handled : SchedulerPickResponse :=
  {| pr_Handled := false; pr_AuthID := ""; pr_DelegateBuiltin := "" |}.
Definition delegate_round_robin : SchedulerPickResponse :=
  {| pr_Handled := true; pr_AuthID := ""; pr_DelegateBuiltin := SchedulerBuiltinRoundRobin |}.
Definition selected_auth (id : string) : SchedulerPickResponse :=
  {| pr_Handled := true; pr_AuthID := id; pr_DelegateBuiltin := "" |}.

(** The method, the path and the body of a request. *)
Record ManagementRequest := { mq_Method : string; mq_Path : string; mq_Body : string }.

(** ** Rotation

    The choices of a cursor that starts at some position and advances by one each
    time, around a list of candidates. *)
Definition rotation (cursor : Z) (candidates : list SchedulerAuthCandidate) (n : nat)
    : list (option string) :=
  (λ k, sc_ID <$> candidates !! Z.to_nat ((cursor + Z.of_nat k) mod Z.of_nat (length candidates)))
  <$> seq 0 n.

Lemma rotation_S cursor candidates n :
  rotation cursor candidates (S n) =
    (sc_ID <$> candidates !! Z.to_nat (cursor mod Z.of_nat (length candidates)))
      :: rotation (cursor + 1) candidates n.
Proof.
  unfold rotation. cbn [seq fmap list_fmap]. change (Z.of_nat 0) with 0. rewrite Z.add_0_r. f_equal.
  rewrite <- seq_shift. rewrite <- list_fmap_compose. apply list_fmap_ext. intros i k _. unfold compose.
  by replace (cursor + Z.of_nat (S k)) with (cursor + 1 + Z.of_nat k) by lia.
Qed.

Lemma rotation_full cursor candidates :
  0 <= cursor → candidates ≠ [] →
  rotation cursor candidates (length candidates) ≡ₚ (λ c, Some (sc_ID c)) <$> candidates.
Proof.
  intros Hc Hne. assert (0 < length candidates)%nat as Hlen by (destruct candidates; simpl; [done|lia]).
  pose proof (Z.mod_pos_bound cursor (Z.of_nat (length candidates)) ltac:(lia)) as Hm.
  set (j := Z.to_nat (cursor mod Z.of_nat (length candidates))).
  transitivity ((λ c, Some (sc_ID c)) <$> (drop j candidates ++ take j candidates)).
  2: { apply fmap_Permutation. rewrite Permutation_app_comm. by rewrite take_drop. }
  apply eq_subrelation; [apply _|]. apply list_eq. intros i. unfold rotation.
  rewrite !list_lookup_fmap.
  destruct (decide (i < length candidates)%nat) as [Hi|Hi].
  2: { rewrite !lookup_ge_None_2; [done|rewrite length_app, length_drop, length_take; lia|
       rewrite length_seq; lia]. }
  rewrite lookup_seq_lt by done. simpl.
  assert (candidates !! Z.to_nat ((cursor + Z.of_nat i) mod Z.of_nat (length candidates))
    = (drop j candidates ++ take j candidates) !! i) as ->.
  { destruct (decide (i < length candidates - j)%nat).
    - rewrite lookup_app_l by (rewrite length_drop; lia). rewrite lookup_drop. f_equal.
      rewrite Z.add_mod by lia. rewrite (Z.mod_small (Z.of_nat i)) by lia.
      rewrite Z.mod_small; unfold j; lia.
    - rewrite lookup_app_r by (rewrite length_drop; lia). rewrite length_drop.
      rewrite lookup_take_lt by lia. f_equal.
      rewrite Z.add_mod by lia. rewrite (Z.mod_small (Z.of_nat i)) by lia.
      rewrite <- (Z_mod_plus_full _ (-1)), Z.mod_small; unfold j in *; lia. }
  destruct (lookup_lt_is_Some_2 (drop j candidates ++ take j candidates) i) as [c ->]; [|done].
  rewrite length_app, length_drop, length_take. lia.
Qed.

(** ** HTTP requests

    A request as the modules send one: its method, URL and the two headers they
    set. *)

Record http_request := {
  hr_Method : string;
  hr_URL : string;
  hr_Authorization : string;
  hr_Accept : string;
}.

(** What [client.Do] and the bounded read of the body give. *)
Inductive http_result :=
| HttpError (e : error)
| HttpResponse (status : Z) (body : res string).

(** ** The library interface *)

(** A JSON value decoded into [any] with [UseNumber]. A JSON object becomes a
    Go map: its entries are listed in the order an iteration visits them. *)
Inductive any :=
| ANil
| ABool (b : bool)
| ANumber (literal : string)
| AFloat64 (f : float64)
| AString (s : string)
| ASlice (items : list any)
| AMap (entries : list (string * any)).

(** The parts of a [url.URL] the program looks at. *)
Record URL := {
  url_Scheme : string;
  url_HasUser : bool;
  url_Host : string;
  url_Hostname : string;
  url_Path : string;
  url_RawPath : string;
  url_RawQuery : string;
  url_Fragment : string;
}.

Class GoStd := {
  (** [hex.EncodeToString(sha256.Sum256(s))] *)
  sha256_hex : string → string;
  (** [hex.EncodeToString] of HMAC-SHA256 of the message under the key *)
  hmac_sha256_hex : string → string → string;
  (** [time.Parse(time.RFC3339Nano, s)], which also reads RFC 3339 *)
  parse_rfc3339 : string → option Time;
  (** [http.ParseTime] *)
  parse_http_time : string → option Time;
  (** [time.ParseDuration] and [Duration.String] *)
  parse_duration : string → option Duration;
  duration_string : Duration → string;
  (** [strconv.FormatFloat(f, 'f', -1, 64)] *)
  format_float : float64 → string;
  (** [url.Parse] and [URL.String] *)
  url_Parse : string → option URL;
  url_String : URL → string;
  (** [strconv.Quote], the [%q] verb *)
  quote : string → string;
  (** One JSON value decoded into [any] with [UseNumber], and nothing after it *)
  decode_any : string → option any;
  (** The same, decoded into [struct{Error struct{Code any}}]: the code *)
  decode_error_code : string → option any;
}.

(** The documented behaviour of the library that some theorems rely on. *)
Definition is_hex_char (c : ascii) : bool :=
  let n := ascii_code c in
  ((48 <=? n) && (n <=? 57)) || ((65 <=? n) && (n <=? 70)) || ((97 <=? n) && (n <=? 102)).

(** [hex.DecodeString(s)] succeeds *)
Definition hex_decodes (s : string) : bool :=
  Nat.even (String.length s) && forallb is_hex_char (chars s).

Class GoStdLaws `{GoStd} := {
  sha256_hex_length s : String.length (sha256_hex s) = 64%nat;
  sha256_hex_decodes s : hex_decodes (sha256_hex s) = true;
  sha256_hex_lower s : ToLower (sha256_hex s) = sha256_hex s;
  hmac_sha256_hex_length k s : String.length (hmac_sha256_hex k s) = 64%nat;
  hmac_sha256_hex_decodes k s : hex_decodes (hmac_sha256_hex k s) = true;
  parse_duration_string d : in_int64 d → parse_duration (duration_string d) = Some d;
  parse_duration_range s d : parse_duration s = Some d → in_int64 d;
  duration_string_text d :
    TrimSpace (duration_string d) = duration_string d ∧ duration_string d ≠ "";
}.

(** ** A concrete instance

    A small executable instance of the interface, on which the witnesses
    evaluate: a digest is the padded hexadecimal form of the reversed input,
    durations are written as nanoseconds, URLs are [https://host/path], and the
    JSON decoders know a few bodies. It satisfies [GoStdLaws]. *)
Module DemoStd.

Definition hex_digit (n : N) : ascii :=
  Ascii.ascii_of_N (if (n <? 10)%N then n + 48 else n + 87)%N.

Definition hex_of_chars (l : list ascii) : list ascii :=
  c ← l; let n := Ascii.N_of_ascii c in [hex_digit (n / 16)%N; hex_digit (n mod 16)%N].

Definition digest (s : string) : string :=
  str (take 64 (hex_of_chars (rev (chars s)) ++ replicate 64 "0"%char)).

Fixpoint take_until (p : ascii → bool) (l : list ascii) : list ascii :=
  match l with
  | c :: l' => if p c then [] else c :: take_until p l'
  | [] => []
  end.

Definition split_url (s : string) : option URL :=
  match strip_prefix (chars "https://") (chars s) with
  | Some l =>
      let host := take_until (λ c, bool_decide (c = "/"%char)) l in
      Some {| url_Scheme := "https"; url_HasUser := false; url_Host := str host;
              url_Hostname := str host; url_Path := str (drop (length host) l);
              url_RawPath := ""; url_RawQuery := ""; url_Fragment := "" |}
  | None => None
  end.

Definition demo_any (s : string) : option any :=
  if decide (s = "retry") then Some (AMap [("retry_after", ANumber "30")])
  else if decide (s = "nested") then
    Some (AMap [("error", AMap [("details", ASlice [AMap [("reset-at", AString "never")];
                                                    AMap [("resetTime", ANumber "120")]])])])
  else None.

Definition demo_code (s : string) : option any :=
  if decide (s = "1302") then Some (AString "1302")
  else if decide (s = "1305") then Some (ANumber "1305")
  else if decide (s = "1308") then Some (AString "1308") else None.

#[export] Instance demo_std : GoStd := {|
  sha256_hex := digest;
  hmac_sha256_hex k s := digest s;
  parse_rfc3339 _ := None;
  parse_http_time _ := None;
  parse_duration := ParseInt;
  duration_string := itoa;
  format_float _ := "";
  url_Parse := split_url;
  url_String u := url_Scheme u +:+ "://" +:+ url_Host u +:+ url_Path u;
  quote s := "'" +:+ s +:+ "'";
  decode_any := demo_any;
  decode_error_code := demo_code;
|}.

Lemma hex_digit_ok n : (n < 16)%N → is_hex_char (hex_digit n) = true.
Proof.
  intros Hn. assert (n = 0 ∨ n = 1 ∨ n = 2 ∨ n = 3 ∨ n = 4 ∨ n = 5 ∨ n = 6 ∨ n = 7 ∨ n = 8
    ∨ n = 9 ∨ n = 10 ∨ n = 11 ∨ n = 12 ∨ n = 13 ∨ n = 14 ∨ n = 15)%N as H by lia.
  destruct_or! H; subst; done.
Qed.

Lemma hex_of_chars_ok l : Forall (λ c, is_hex_char c = true) (hex_of_chars l).
Proof.
  induction l as [|c l IH]; [constructor|]. unfold hex_of_chars in *. csimpl.
  constructor; [|constructor; [|done]]; apply hex_digit_ok.
  - apply N.Div0.div_lt_upper_bound. apply Ascii.N_ascii_bounded.
  - by apply N.mod_lt.
Qed.

Lemma digest_length s : String.length (digest s) = 64%nat.
Proof. unfold digest. rewrite length_str, length_take, length_app, length_replicate. lia. Qed.

Lemma digest_decodes s : hex_decodes (digest s) = true.
Proof.
  unfold hex_decodes. rewrite digest_length. simpl. apply forallb_forall.
  intros c Hc%list_elem_of_In. revert c Hc. apply Forall_forall.
  unfold digest. rewrite chars_str. apply Forall_take, Forall_app. split.
  - apply hex_of_chars_ok.
  - by apply Forall_replicate.
Qed.

Lemma hex_of_chars_lower l : Forall (λ c, lower_char c = c) (hex_of_chars l).
Proof.
  assert (∀ n, (n < 16)%N → lower_char (hex_digit n) = hex_digit n) as Hd.
  { intros n Hn. assert (n = 0 ∨ n = 1 ∨ n = 2 ∨ n = 3 ∨ n = 4 ∨ n = 5 ∨ n = 6 ∨ n = 7 ∨ n = 8
      ∨ n = 9 ∨ n = 10 ∨ n = 11 ∨ n = 12 ∨ n = 13 ∨ n = 14 ∨ n = 15)%N as H by lia.
    destruct_or! H; subst; done. }
  induction l as [|c l IH]; [constructor|]. unfold hex_of_chars in *. csimpl.
  constructor; [|constructor; [|done]]; apply Hd.
  - apply N.Div0.div_lt_upper_bound. apply Ascii.N_ascii_bounded.
  - by apply N.mod_lt.
Qed.

Lemma digest_lower s : ToLower (digest s) = digest s.
Proof.
  unfold ToLower, digest. rewrite chars_str. f_equal. rewrite <- (list_fmap_id (take _ _)) at 2.
  apply Forall_fmap_ext_1, Forall_take, Forall_app. split; [apply hex_of_chars_lower|].
  by apply Forall_replicate.
Qed.

#[export] Instance demo_laws : GoStdLaws.
Proof.
  split; simpl.
  - apply digest_length.
  - apply digest_decodes.
  - apply digest_lower.
  - intros _. apply digest_length.
  - intros _. apply digest_decodes.
  - apply ParseInt_itoa.
  - intros s d. apply parse_int_range.
  - apply TrimSpace_itoa.
Qed.

End DemoStd.
