(* ===== verification/ReleasePackage.v ===== *)
(** * Packaging a release (.github/scripts/package-release.go)

    The program that writes the plugin archive, the operator archive and the list of
    checksums. The zip format is a parameter: the writer turns entries into bytes. *)

From S2P Require Import Prelude GoStrings GoFiles Host.

Record artifact := { af_name : string; af_path : string }.

(** An entry the program writes, and a file of an archive that is read, with what its
    opening fails with and its content or what its reading fails with. *)
Record zip_entry := { ze_Name : string; ze_perm : Z; ze_data : string }.

Record zip_file := {
  zf_Name : string;
  zf_dir : bool;
  zf_symlink : bool;
  zf_perm : Z;
  zf_open : option string;
  zf_read : string + string;
}.

(** archive/zip; a failure to open is its text. *)
Class GoZip := {
  zip_write : list zip_entry → string;
  zip_open : string → list zip_file + string;
}.

Definition zip_stored (e : zip_entry) : zip_file :=
  {| zf_Name := ze_Name e; zf_dir := HasSuffix (ze_Name e) "/"; zf_symlink := false;
     zf_perm := ze_perm e; zf_open := None; zf_read := inl (ze_data e) |}.

(** The documented behaviour of the format: what was written is read back. *)
Definition zip_writable (e : zip_entry) : Prop :=
  ze_Name e ≠ "" ∧ len (ze_Name e) < 65536 ∧ 0 <= ze_perm e < 512.

Class GoZipLaws `{GoZip} := {
  zip_open_write es : Forall zip_writable es → zip_open (zip_write es) = inl (zip_stored <$> es);
  zip_write_nonempty es : zip_write es ≠ "";
}.

Record options := {
  op_library : string;
  op_entry : string;
  op_archive : string;
  op_operator : string;
  op_operatorManifest : string;
  op_checksum : string;
  op_checksumManifest : string;
}.

Section Package.
Context `{GoStd} `{GoOS} `{GoZip}.

(** One line of a manifest; the state is [seen] and [artifacts]. *)
Definition manifest_line (st : gset string * list artifact) (line : string)
    : res (gset string * list artifact) :=
  let invalid := errorf ("invalid manifest line " +:+ quote line) in
  if bool_decide (line = "") || negb (bool_decide (TrimSpace line = line)) || HasPrefix line "#"
  then invalid else
  match Cut line "="%char with
  | None => invalid
  | Some (name, path) =>
      if bool_decide (name = "") || bool_decide (path = "") || negb (bool_decide (path_Base name = name))
      then invalid else
      if bool_decide (name ∈ st.1) then errorf ("duplicate manifest entry " +:+ quote name)
      else Ok ({[name]} ∪ st.1, st.2 ++ [{| af_name := name; af_path := path |}])
  end.

(** The lines before the scanner stopped, and why it did. *)
Definition manifest_lines (lines : list string * option error) : res (list artifact) :=
  st ← foldl_res manifest_line (∅, []) lines.1;
  match lines.2 with
  | Some e => Err e
  | None => if bool_decide (st.2 = []) then errorf "manifest is empty" else Ok st.2
  end.

Definition readManifest (path : string) (fs : FS) : res (list artifact) :=
  file ← os_Open path fs;
  manifest_lines match read_all path file with Ok data => scan_lines data | Err e => ([], Some e) end.

(** The body of the loop of [writeZip]. *)
Definition zip_item (fs : FS) (item : artifact) : res zip_entry :=
  let name := af_name item in
  if negb (bool_decide (path_Base name = name))
  then errorf ("zip entry " +:+ quote name +:+ " must be a root-level filename") else
  info ← wrap_err ("stat " +:+ name +:+ ": ") (os_Stat (af_path item) fs);
  if negb (bool_decide (ff_type info = FRegular)) || bool_decide (ff_data info = "")
  then errorf ("zip entry " +:+ name +:+ " is empty or not a regular file") else
  source ← wrap_err ("open " +:+ name +:+ ": ") (os_Open (af_path item) fs);
  _ ← wrap_err ("create zip entry " +:+ name +:+ ": ") (os_call "zip" name);
  _ ← wrap_err ("copy " +:+ name +:+ ": ")
        (if HasSuffix name "/" then errorf "zip: write to directory" else Ok ());
  data ← wrap_err ("copy " +:+ name +:+ ": ") (read_all (af_path item) source);
  _ ← wrap_err ("close " +:+ name +:+ ": ") (os_call "close" (af_path item));
  Ok {| ze_Name := name; ze_perm := ff_perm info; ze_data := data |}.

(** The archive exists, and is empty, while its entries are read. *)
Definition writeZip (archivePath : string) (entries : list artifact) (fs : FS) : res unit * FS :=
  match wrap_err "create archive directory: " (os_call "mkdir" (path_Dir archivePath)) with
  | Err e => (Err e, fs)
  | Ok _ =>
  match wrap_err "create archive: " (os_Create archivePath fs) with
  | Err e => (Err e, fs)
  | Ok fs =>
      match (
        written ← map_res (zip_item fs) entries;
        _ ← wrap_err "close zip writer: " (os_call "write" archivePath);
        _ ← wrap_err "close archive: " (os_call "close" archivePath);
        Ok written)
      with
      | Err e => (Err e, fill archivePath (os_partial archivePath) fs)
      | Ok written => (Ok (), fill archivePath (zip_write written) fs)
      end
  end
  end.

Definition packageLibrary (libraryPath entryName archivePath : string) (fs : FS) : res string * FS :=
  match writeZip archivePath [{| af_name := entryName; af_path := libraryPath |}] fs with
  | (Err e, fs) => (Err e, fs)
  | (Ok _, fs) => (wrap_err "read archive: " (os_ReadFile archivePath fs), fs)
  end.

Definition packageOperator (entries : list artifact) (archivePath : string) (fs : FS) : res unit * FS :=
  writeZip archivePath entries fs.

(** The first loop of [writeChecksums]; the state is [seen]. *)
Definition checksum_name (seen : gset string) (item : artifact) : res (gset string) :=
  if negb (bool_decide (path_Base (af_name item) = af_name item))
  then errorf ("checksum name " +:+ quote (af_name item) +:+ " must be a base filename") else
  if bool_decide (af_name item ∈ seen)
  then errorf ("duplicate checksum artifact " +:+ quote (af_name item))
  else Ok ({[af_name item]} ∪ seen).

Definition checksum_text (digest name : string) : string := digest +:+ "  " +:+ name.

(** One line of the second loop, without its newline. *)
Definition checksum_item (fs : FS) (item : artifact) : res string :=
  let name := af_name item in
  file ← wrap_err ("open " +:+ name +:+ " for checksum: ") (os_Open (af_path item) fs);
  data ← wrap_err ("checksum " +:+ name +:+ ": ") (read_all (af_path item) file);
  _ ← wrap_err ("close " +:+ name +:+ ": ") (os_call "close" (af_path item));
  Ok (checksum_text (sha256_hex data) name).

Definition writeChecksums (path : string) (artifacts : list artifact) (fs : FS) : res unit * FS :=
  match (
    _ ← foldl_res checksum_name ∅ artifacts;
    map_res (checksum_item fs) (sort_by af_name artifacts))
  with
  | Err e => (Err e, fs)
  | Ok lines =>
      match wrap_err "write checksum: " (os_Create path fs) with
      | Err e => (Err e, fs)
      | Ok fs =>
          match wrap_err "write checksum: " (os_call "write" path) with
          | Err e => (Err e, fill path (os_partial path) fs)
          | Ok _ => (Ok (), fill path (lines_text lines) fs)
          end
      end
  end.

(** What [main] appends to the entries of the checksum manifest. *)
Definition packaged (o : options) : list artifact :=
  (λ path, {| af_name := path_Base path; af_path := path |}) <$> [op_library o; op_archive o; op_operator o].

(** [main], after its flags are parsed; an error is what [fatalf] prints. *)
Definition package_main (o : options) (fs : FS) : res unit * FS :=
  if bool_decide ("" ∈ [op_library o; op_entry o; op_archive o; op_operator o; op_operatorManifest o;
                        op_checksum o; op_checksumManifest o])
  then (errorf "library, entry, archive, operator, operator-manifest, checksum, and checksum-manifest are required", fs) else
  if negb (bool_decide (path_Base (op_entry o) = op_entry o))
  then (errorf "entry must be a root-level filename", fs) else
  match packageLibrary (op_library o) (op_entry o) (op_archive o) fs with
  | (Err e, fs) => (Err e, fs)
  | (Ok _, fs) =>
  match wrap_err "read operator manifest: " (readManifest (op_operatorManifest o) fs) with
  | Err e => (Err e, fs)
  | Ok operatorEntries =>
  match packageOperator operatorEntries (op_operator o) fs with
  | (Err e, fs) => (Err e, fs)
  | (Ok _, fs) =>
  match wrap_err "read checksum manifest: " (readManifest (op_checksumManifest o) fs) with
  | Err e => (Err e, fs)
  | Ok checksumEntries => writeChecksums (op_checksum o) (checksumEntries ++ packaged o) fs
  end
  end
  end
  end.

End Package.

(** ** A concrete archive format

    The characters of a text each after a [1], then a [0]; the permissions in unary. *)
Module DemoZip.

Fixpoint put_text (l : list ascii) : list ascii :=
  match l with [] => ["0"%char] | c :: l => "1"%char :: c :: put_text l end.

Fixpoint get_text (l : list ascii) : list ascii * list ascii :=
  match l with
  | "1"%char :: c :: l => let '(w, r) := get_text l in (c :: w, r)
  | _ :: l => ([], l)
  | [] => ([], [])
  end.

Definition put_entry (e : zip_entry) : list ascii :=
  put_text (chars (ze_Name e)) ++ put_text (replicate (Z.to_nat (ze_perm e)) "p"%char)
    ++ put_text (chars (ze_data e)).

Fixpoint get_entries (fuel : nat) (l : list ascii) : list zip_file :=
  match fuel, l with
  | S fuel, _ :: _ =>
      let '(name, l) := get_text l in
      let '(perm, l) := get_text l in
      let '(data, l) := get_text l in
      zip_stored {| ze_Name := str name; ze_perm := Z.of_nat (length perm); ze_data := str data |}
        :: get_entries fuel l
  | _, _ => []
  end.

#[export] Instance demo_zip : GoZip := {|
  zip_write es := str ("P"%char :: (es ≫= put_entry));
  zip_open s :=
    match chars s with
    | "P"%char :: l => inl (get_entries (length l) l)
    | _ => inr "zip: not a valid zip file"
    end;
|}.

Lemma get_put_text l r : get_text (put_text l ++ r) = (l, r).
Proof. induction l as [|c l IH]; [done|]. cbn [put_text app get_text]. by rewrite IH. Qed.

Lemma get_put_entries es fuel :
  Forall zip_writable es → (length (es ≫= put_entry) ≤ fuel)%nat →
  get_entries fuel (es ≫= put_entry) = zip_stored <$> es.
Proof.
  intros Hes. revert fuel. induction Hes as [|e es (_ & _ & Hperm) _ IH]; intros fuel Hfuel.
  { by destruct fuel. }
  assert (∀ l, put_text l ≠ []) as Hne by by intros [].
  cbn [mbind list_bind] in *. rewrite length_app in Hfuel.
  assert (0 < length (put_entry e))%nat as Hpos.
  { unfold put_entry. specialize (Hne (chars (ze_Name e))). destruct (put_text _); [done|cbn; lia]. }
  destruct fuel as [|fuel]; [lia|].
  assert (get_entries (S fuel) (put_entry e ++ (es ≫= put_entry))
    = zip_stored e :: get_entries fuel (es ≫= put_entry)) as ->.
  { destruct (put_entry e ++ (es ≫= put_entry)) as [|c l] eqn:Hl.
    - apply app_nil in Hl as [Hl _]. rewrite Hl in Hpos. cbn in Hpos. lia.
    - cbn [get_entries]. rewrite <- Hl. unfold put_entry at 1. rewrite <- !app_assoc, !get_put_text.
      f_equal. rewrite length_replicate, !str_chars, Z2Nat.id by lia. by destruct e. }
  cbn [fmap list_fmap]. f_equal. apply IH. lia.
Qed.

#[export] Instance demo_zip_laws : GoZipLaws.
Proof.
  split; [|done]. intros es Hes. cbn [zip_open zip_write demo_zip]. rewrite chars_str.
  f_equal. by apply get_put_entries.
Qed.

End DemoZip.
