(* ===== verification/ReleaseArtifacts.v ===== *)
(** * Validation of a release (.github/scripts/release-validation/main.go)

    The checks of the version, of the metadata of the repository and of the artifacts
    in the release directory. The JSON decoders and the zip format are parameters. *)

From S2P Require Import Prelude GoStrings GoFormat GoRegexp GoFiles Host ReleasePackage.

Definition pluginID : string := "subscription-pool".
Definition libraryName : string := pluginID +:+ ".so".
Definition hostImageRepository : string := "eceasy/cli-proxy-api".
Definition baselineHostImageTag : string := "v7.2.150".
Definition baselineHostImageAMD64Digest : string :=
  "sha256:dca10d258e7d83e7cbec21e1ba2919d416857ca83d40198abfd18b1e6558cdcd".

(** ** Patterns *)

Definition number : regexp :=
  RAlt (lit "0") (RSeq (RClass (code_in 49 57)) (RStar (RClass is_digit))).

Definition ident_char (c : ascii) : bool :=
  is_digit c || code_in 65 90 c || code_in 97 122 c || bool_decide (c = "-"%char).

(** One or more identifiers, separated by dots *)
Definition idents : regexp :=
  RSeq (rplus (RClass ident_char)) (RStar (RSeq (lit ".") (rplus (RClass ident_char)))).

Definition versionPattern : regexp :=
  RSeq number (RSeq (lit ".") (RSeq number (RSeq (lit ".") (RSeq number
    (RSeq (ropt (RSeq (lit "-") idents)) (ropt (RSeq (lit "+") idents))))))).

Definition deployedTagPattern : regexp :=
  let digits := rplus (RClass is_digit) in
  RSeq (lit "v") (RSeq digits (RSeq (lit ".") (RSeq digits (RSeq (lit ".") digits)))).

Definition manifestDigestPattern : regexp := RSeq (lit "sha256:") (rtimes 64 (RClass is_lower_hex)).

Definition shaPattern : regexp := rtimes 40 (RClass is_lower_hex).

(** The heading of a release, up to the anchors of its line *)
Definition headingPattern (version : string) : regexp :=
  let digits n := rtimes n (RClass is_digit) in
  RSeq (lit ("## [" +:+ version +:+ "] - "))
    (RSeq (digits 4%nat) (RSeq (lit "-") (RSeq (digits 2%nat) (RSeq (lit "-") (digits 2%nat))))).

(** ** Documents *)

Definition canonicalMITLicense : string := raw "MIT License

Copyright (c) 2026 TogetherWeOwn

Permission is hereby granted, free of charge, to any person obtaining a copy
of this software and associated documentation files (the `Software`), to deal
in the Software without restriction, including without limitation the rights
to use, copy, modify, merge, publish, distribute, sublicense, and/or sell
copies of the Software, and to permit persons to whom the Software is
furnished to do so, subject to the following conditions:

The above copyright notice and this permission notice shall be included in all
copies or substantial portions of the Software.

THE SOFTWARE IS PROVIDED `AS IS`, WITHOUT WARRANTY OF ANY KIND, EXPRESS OR
IMPLIED, INCLUDING BUT NOT LIMITED TO THE WARRANTIES OF MERCHANTABILITY,
FITNESS FOR A PARTICULAR PURPOSE AND NONINFRINGEMENT. IN NO EVENT SHALL THE
AUTHORS OR COPYRIGHT HOLDERS BE LIABLE FOR ANY CLAIM, DAMAGES OR OTHER
LIABILITY, WHETHER IN AN ACTION OF CONTRACT, TORT OR OTHERWISE, ARISING FROM,
OUT OF OR IN CONNECTION WITH THE SOFTWARE OR THE USE OR OTHER DEALINGS IN THE
SOFTWARE.
".

Definition canonicalNotice : string := "cpa-plugin-zai-coding-plan
Copyright (c) 2026 TogetherWeOwn

This product includes software developed by TogetherWeOwn and third-party software whose licenses are recorded in the Go module dependency metadata.
".

Record registryRelease := { rr_Archive : string; rr_Checksums : string }.

Record registryPlugin := {
  rp_ID : string;
  rp_Version : string;
  rp_License : string;
  rp_Release : registryRelease;
}.

Record hostMatrix := {
  hm_Repository : string;
  hm_Platform : string;
  hm_BaselineTag : string;
  hm_BaselineDigest : string;
}.

Record deployedImage := {
  di_Repository : string;
  di_Tag : string;
  di_Platform : string;
  di_ManifestDigest : string;
}.

(** [json.Unmarshal] into each of them, and the text of [hex.DecodeString]'s error. *)
Class ReleaseJSON := {
  unmarshal_registry : string → list registryPlugin + string;
  unmarshal_matrix : string → hostMatrix + string;
  unmarshal_deployed : string → deployedImage + string;
  hex_error : string → string;
}.

(** A registry of this plugin alone, and the host images the repository names, on
    which witnesses evaluate. *)
Module DemoJSON.

#[export] Instance demo_json : ReleaseJSON := {|
  unmarshal_registry version :=
    inl [{| rp_ID := pluginID; rp_Version := version; rp_License := "MIT";
            rp_Release := {| rr_Archive := pluginID +:+ "_" +:+ version +:+ "_linux_amd64.zip";
                             rr_Checksums := "checksums.txt" |} |}];
  unmarshal_matrix _ := inr "unexpected end of JSON input";
  unmarshal_deployed _ := inr "unexpected end of JSON input";
  hex_error _ := "encoding/hex: invalid byte";
|}.

End DemoJSON.

Definition normalizeDocument (value : string) : string :=
  TrimSpace (ReplaceAll value (str ["013"%char; "010"%char]) newline).

(** [%q] of a slice, and [%04o] of permissions *)
Section Formats.
Context `{GoStd}.

Definition quote_all (l : list string) : string := "[" +:+ Join (quote <$> l) " " +:+ "]".

End Formats.

Definition octal4 (perm : Z) : string :=
  str ((λ d, digit_char (Z.shiftr perm d mod 8)) <$> [9; 6; 3; 0]).

(** ** Versions *)

Section Versions.
Context `{GoStd}.

Definition versionFromTag (tag : string) : res string :=
  if negb (HasPrefix tag "v") then errorf ("tag " +:+ quote tag +:+ " must start with v") else
  let version := TrimPrefix tag "v" in
  if negb (MatchString versionPattern version)
  then errorf ("tag " +:+ quote tag +:+ " is not valid semantic version syntax") else Ok version.

Definition validateVersion (tag version : string) : res unit :=
  resolved ← versionFromTag tag;
  if negb (bool_decide (resolved = version))
  then errorf ("tag " +:+ quote tag +:+ " does not match version " +:+ quote version) else Ok ().

End Versions.

Definition plugin_archive_name (version : string) : string := pluginID +:+ "_" +:+ version +:+ "_linux_amd64.zip".
Definition plugin_library_name (version : string) : string := pluginID +:+ "-v" +:+ version +:+ ".so".
Definition plugin_operator_name (version : string) : string := pluginID +:+ "-v" +:+ version +:+ "-operator.zip".

Section Validation.
Context `{GoStd} `{GoOS} `{GoZip} `{ReleaseJSON}.

(** ** Metadata *)

Definition validateRegistry (root version : string) (fs : FS) : res unit :=
  text ← wrap_err "read registry: " (os_ReadFile (path_Join [root; "registry.json"]) fs);
  match unmarshal_registry text with
  | inr msg => Err (EWrap "parse registry: " (EText msg))
  | inl plugins =>
      match filter (λ p, rp_ID p = pluginID) plugins with
      | [p] =>
          if negb (bool_decide (rp_Version p = version))
          then errorf ("registry version " +:+ quote (rp_Version p) +:+ " does not match release version " +:+ quote version) else
          if negb (bool_decide (rp_License p = "MIT"))
          then errorf ("registry license " +:+ quote (rp_License p) +:+ " does not match LICENSE") else
          let wantArchive := plugin_archive_name version in
          if negb (bool_decide (rr_Archive (rp_Release p) = wantArchive))
          then errorf ("registry archive " +:+ quote (rr_Archive (rp_Release p)) +:+ " does not match release archive " +:+ quote wantArchive) else
          if negb (bool_decide (rr_Checksums (rp_Release p) = "checksums.txt"))
          then errorf ("registry checksums " +:+ quote (rr_Checksums (rp_Release p)) +:+ " must be checksums.txt") else
          Ok ()
      | found => errorf ("registry must contain exactly one " +:+ quote pluginID +:+ " entry, found "
                         +:+ itoa (Z.of_nat (length found)))
      end
  end.

Definition release_link (version : string) : string :=
  "[" +:+ version +:+ "]: https://github.com/TogetherWeOwn/cpa-plugin-zai-coding-plan/releases/tag/v" +:+ version.

Definition validateChangelog (root version : string) (fs : FS) : res unit :=
  text ← wrap_err "read changelog: " (os_ReadFile (path_Join [root; "CHANGELOG.md"]) fs);
  if negb (MatchLine (headingPattern version) text)
  then errorf ("changelog must contain a dated [" +:+ version +:+ "] release heading") else
  if negb (Contains text (release_link version))
  then errorf ("changelog is missing the " +:+ version +:+ " release link") else Ok ().

Definition validateDocumentation (root : string) (fs : FS) : res unit :=
  license ← wrap_err "read LICENSE: " (os_ReadFile (path_Join [root; "LICENSE"]) fs);
  if negb (bool_decide (normalizeDocument license = normalizeDocument canonicalMITLicense))
  then errorf "LICENSE does not match the canonical MIT license" else
  notice ← wrap_err "read NOTICE: " (os_ReadFile (path_Join [root; "NOTICE"]) fs);
  if negb (bool_decide (normalizeDocument notice = normalizeDocument canonicalNotice))
  then errorf "NOTICE does not match the canonical project notice" else Ok ().

Definition requireNonEmpty (path : string) (fs : FS) : res unit :=
  info ← wrap_err ("required artifact " +:+ path_Base path +:+ ": ") (os_Stat path fs);
  if negb (bool_decide (ff_type info = FRegular)) || bool_decide (ff_data info = "")
  then errorf ("required artifact " +:+ path_Base path +:+ " is empty or not a regular file") else Ok ().

Definition validateHostImagePin (root : string) (fs : FS) : res unit :=
  matrixRaw ← wrap_err "read host image matrix: "
    (os_ReadFile (path_Join [root; ".github"; "host-images.json"]) fs);
  matrix ← match unmarshal_matrix matrixRaw with
           | inl m => Ok m | inr msg => Err (EWrap "parse host image matrix: " (EText msg)) end;
  if negb (bool_decide (hm_Repository matrix = hostImageRepository))
     || negb (bool_decide (hm_Platform matrix = "linux/amd64"))
     || negb (bool_decide (hm_BaselineTag matrix = baselineHostImageTag))
     || negb (bool_decide (hm_BaselineDigest matrix = baselineHostImageAMD64Digest))
  then errorf "host image matrix does not preserve the approved v7.2.150 linux/amd64 baseline" else
  deployedRaw ← wrap_err "read deployed host image pin: "
    (os_ReadFile (path_Join [root; "deploy"; "deployed-host-image.json"]) fs);
  deployed ← match unmarshal_deployed deployedRaw with
             | inl d => Ok d | inr msg => Err (EWrap "parse deployed host image pin: " (EText msg)) end;
  if negb (bool_decide (di_Repository deployed = hostImageRepository))
     || negb (bool_decide (di_Platform deployed = "linux/amd64"))
     || negb (MatchString deployedTagPattern (di_Tag deployed))
     || negb (MatchString manifestDigestPattern (di_ManifestDigest deployed))
  then errorf "deployed host image pin is invalid" else
  foldl_res (λ _ path, requireNonEmpty path fs) ()
    [path_Join [root; ".github"; "scripts"; "resolve-host-images.sh"];
     path_Join [root; ".github"; "scripts"; "run-host-matrix.sh"];
     path_Join [root; ".github"; "workflows"; "host-compatibility.yml"]].

(** ** Archives *)

Definition zip_OpenReader (path : string) (fs : FS) : res (list zip_file) :=
  text ← os_ReadFile path fs;
  match zip_open text with inl files => Ok files | inr msg => Err (EText msg) end.

Definition zip_Open (file : zip_file) : res () :=
  match zf_open file with Some msg => Err (EText msg) | None => Ok () end.

Definition zip_read_all (file : zip_file) : res string :=
  match zf_read file with inl data => Ok data | inr msg => Err (EText msg) end.

(** The two readers are hashed, the left one first. *)
Definition readersEqual (left right : res string) : res bool :=
  left ← left; right ← right; Ok (bool_decide (sha256_hex left = sha256_hex right)).

Definition validateArchive (libraryPath archivePath : string) (fs : FS) : res unit :=
  files ← wrap_err "open archive: " (zip_OpenReader archivePath fs);
  let wrong := errorf ("archive entries " +:+ quote_all (zf_Name <$> files) +:+ ", want exactly " +:+ quote libraryName) in
  match files with
  | [entry] =>
      if negb (bool_decide (zf_Name entry = libraryName)) then wrong else
      _ ← wrap_err "open archive entry: " (zip_Open entry);
      library ← wrap_err "open library: " (os_Open libraryPath fs);
      equal ← wrap_err "compare archive library: "
                (readersEqual (read_all libraryPath library) (zip_read_all entry));
      if negb equal then errorf "archive library does not match versioned shared library" else Ok ()
  | _ => wrong
  end.

(** The entries of the operator bundle with their permissions. *)
Definition bundle_entries : list (string * Z) :=
  [("compatibility-evidence.json", 420); ("config.yaml.tmpl", 420); ("registry.json", 420);
   ("router-capacity-source.json", 420); ("verify-live.sh", 493); ("verify-live-opencodego.sh", 493);
   ("collector-zai.py", 493); ("collector-opencodego.py", 493); ("prepare-usage-dir.py", 493);
   ("remove-usage-output.py", 493); ("rollback.sh", 493); ("README.md", 420); ("release-sha.txt", 420)].

Definition bundle_want : gmap string Z := list_to_map bundle_entries.

Definition has_placeholder (text : string) : bool :=
  Contains text "${RELEASE_SHA}" || Contains text "${REGISTRY_SHA256}".

(** One entry of the bundle; the state is [seen]. *)
Definition bundle_entry (distPath : string) (fs : FS) (seen : gset string) (entry : zip_file)
    : res (gset string) :=
  let name := zf_Name entry in
  if bool_decide (name = "") || negb (bool_decide (path_Base name = name)) || Contains name ".."
     || zf_dir entry || zf_symlink entry
  then errorf ("operator bundle contains unsafe entry " +:+ quote name) else
  match bundle_want !! name with
  | None => errorf ("operator bundle contains unexpected entry " +:+ quote name)
  | Some mode =>
      if bool_decide (name ∈ seen) then errorf ("operator bundle contains duplicate entry " +:+ quote name) else
      if negb (zf_perm entry =? mode)
      then errorf ("operator bundle entry " +:+ name +:+ " has mode " +:+ octal4 (zf_perm entry) +:+ ", want " +:+ octal4 mode) else
      let stagedPath := path_Join [distPath; name] in
      _ ← requireNonEmpty stagedPath fs;
      _ ← wrap_err ("open operator bundle entry " +:+ name +:+ ": ") (zip_Open entry);
      staged ← wrap_err ("open staged operator artifact " +:+ name +:+ ": ") (os_Open stagedPath fs);
      equal ← wrap_err ("compare operator bundle entry " +:+ name +:+ ": ")
                (readersEqual (zip_read_all entry) (read_all stagedPath staged));
      if negb (is_Ok (os_call "close" stagedPath)) then errorf ("close operator bundle entry " +:+ name) else
      if negb equal then errorf ("operator bundle entry " +:+ name +:+ " does not match staged artifact") else
      _ ← (if bool_decide (name = "config.yaml.tmpl") || bool_decide (name = "README.md") then
             text ← wrap_err ("read staged operator artifact " +:+ name +:+ ": ") (os_ReadFile stagedPath fs);
             if has_placeholder text
             then errorf ("operator bundle entry " +:+ name +:+ " contains unresolved release placeholders") else Ok ()
           else Ok ());
      Ok ({[name]} ∪ seen)
  end.

Definition validateOperatorBundle (root distPath version : string) (fs : FS) : res unit :=
  let bundle := path_Join [distPath; plugin_operator_name version] in
  _ ← wrap_err "operator bundle is required: " (os_Stat bundle fs);
  files ← wrap_err "open operator bundle: " (zip_OpenReader bundle fs);
  seen ← foldl_res (bundle_entry distPath fs) ∅ files;
  if negb (bool_decide (size seen = size bundle_want))
  then errorf ("operator bundle contains " +:+ itoa (Z.of_nat (size seen)) +:+ " entries, want "
               +:+ itoa (Z.of_nat (size bundle_want))) else
  _ ← foldl_res (λ _ want, if bool_decide (want.1 ∈ seen) then Ok ()
                           else errorf ("operator bundle is missing " +:+ want.1)) () (map_to_list bundle_want);
  registryRaw ← wrap_err "read staged registry: " (os_ReadFile (path_Join [distPath; "registry.json"]) fs);
  sourceRegistry ← wrap_err "read source registry: " (os_ReadFile (path_Join [root; "registry.json"]) fs);
  if negb (bool_decide (registryRaw = sourceRegistry))
  then errorf "staged registry.json does not match reviewed source" else Ok ().

Definition validateReleaseSHA (path : string) (fs : FS) : res unit :=
  text ← wrap_err "read release SHA: " (os_ReadFile path fs);
  let value := TrimSuffix text newline in
  if negb (len value =? 40) || negb (MatchString shaPattern value) || negb (bool_decide (text = value +:+ newline))
  then errorf "release-sha.txt must contain exactly one lowercase 40-character commit SHA" else Ok ().

(** ** Checksums *)

(** One line; the state is [checksums]. *)
Definition checksum_parse (checksums : gmap string string) (line : string) : res (gmap string string) :=
  match Fields line with
  | [digest; name] =>
      if negb (len digest =? 64) then errorf ("invalid checksum line " +:+ quote line) else
      if negb (hex_decodes digest)
      then Err (EWrap ("invalid checksum for " +:+ name +:+ ": ") (EText (hex_error digest))) else
      let name := TrimPrefix name "*" in
      if negb (bool_decide (path_Base name = name))
      then errorf ("checksum name " +:+ quote name +:+ " must be a base filename") else
      if bool_decide (is_Some (checksums !! name)) then errorf ("duplicate checksum for " +:+ name)
      else Ok (<[name := ToLower digest]> checksums)
  | _ => errorf ("invalid checksum line " +:+ quote line)
  end.

Definition fileSHA256 (path : string) (fs : FS) : res string :=
  file ← wrap_err ("open " +:+ path_Base path +:+ " for checksum: ") (os_Open path fs);
  data ← wrap_err ("checksum " +:+ path_Base path +:+ ": ") (read_all path file);
  Ok (sha256_hex data).

Definition checksum_matches (checksums : gmap string string) (fs : FS) (artifactPath : string) : res unit :=
  let name := path_Base artifactPath in
  match checksums !! name with
  | None => errorf ("checksums missing " +:+ name)
  | Some want =>
      got ← fileSHA256 artifactPath fs;
      if negb (bool_decide (got = want)) then errorf ("checksum mismatch for " +:+ name) else Ok ()
  end.

Definition checksum_lines (lines : list string * option error) : res (gmap string string) :=
  checksums ← foldl_res checksum_parse ∅ lines.1;
  match lines.2 with Some e => Err (EWrap "read checksums: " e) | None => Ok checksums end.

Definition validateChecksums (path : string) (artifactPaths : list string) (fs : FS) : res unit :=
  file ← wrap_err "open checksums: " (os_Open path fs);
  checksums ← checksum_lines
    match read_all path file with Ok data => scan_lines data | Err e => ([], Some e) end;
  if negb (bool_decide (size checksums = length artifactPaths))
  then errorf ("checksums contains " +:+ itoa (Z.of_nat (size checksums)) +:+ " entries, want "
               +:+ itoa (Z.of_nat (length artifactPaths))) else
  foldl_res (λ _ p, checksum_matches checksums fs p) () artifactPaths.

(** ** The release *)

Definition resolvePath (root path : string) : string :=
  if rooted path then path else path_Join [root; path].

Definition artifact_names (version : string) : list string :=
  [plugin_library_name version; plugin_archive_name version; plugin_operator_name version;
   "compatibility-evidence.json"; "config.yaml.tmpl"; "registry.json"; "router-capacity-source.json";
   "verify-live.sh"; "verify-live-opencodego.sh"; "collector-zai.py"; "collector-opencodego.py";
   "prepare-usage-dir.py"; "remove-usage-output.py"; "rollback.sh"; "README.md"; "release-sha.txt"].

(** The part of [validateRelease] on the release directory. *)
Definition validateArtifacts (root distPath version : string) (fs : FS) : res unit :=
  let artifactPaths := (λ name, path_Join [distPath; name]) <$> artifact_names version in
  _ ← foldl_res (λ _ path, requireNonEmpty path fs) () artifactPaths;
  _ ← validateArchive (path_Join [distPath; plugin_library_name version])
        (path_Join [distPath; plugin_archive_name version]) fs;
  _ ← validateOperatorBundle root distPath version fs;
  _ ← validateReleaseSHA (path_Join [distPath; "release-sha.txt"]) fs;
  validateChecksums (path_Join [distPath; "checksums.txt"]) artifactPaths fs.

Definition validateRelease (root dist tag version : string) (fs : FS) : res unit :=
  _ ← validateVersion tag version;
  _ ← validateDocumentation root fs;
  _ ← validateRegistry root version fs;
  _ ← validateChangelog root version fs;
  validateArtifacts root (resolvePath root dist) version fs.

End Validation.

(** ** Semantic versions *)

Definition numeric (l : list ascii) : Prop :=
  l = ["0"%char] ∨ ∃ c r, l = c :: r ∧ code_in 49 57 c = true ∧ Forall (λ c, is_digit c = true) r.

(** Identifiers separated by dots, none of them empty *)
Definition identifiers (l : list ascii) : Prop :=
  Forall (λ w, w ≠ [] ∧ Forall (λ c, ident_char c = true) w) (split_list "."%char l).

(** A suffix that starts with [c], or nothing *)
Definition suffix (c : ascii) (l : list ascii) : Prop := l = [] ∨ ∃ k, l = c :: k ∧ identifiers k.

Definition semver (l : list ascii) : Prop :=
  ∃ major minor patch pre build,
    l = major ++ "."%char :: minor ++ "."%char :: patch ++ pre ++ build
    ∧ numeric major ∧ numeric minor ∧ numeric patch ∧ suffix "-"%char pre ∧ suffix "+"%char build.

Lemma lang_number l : lang number l ↔ numeric l.
Proof.
  unfold number, numeric, lit. rewrite lang_RAlt, lang_rlit, lang_RSeq.
  setoid_rewrite lang_RClass. setoid_rewrite lang_star_class. split.
  - intros [->|(l1 & l2 & -> & (c & Hc & ->) & Hl)]; [by left|]. right. eauto.
  - intros [->|(c & r & -> & Hc & Hr)]; [by left|]. right. exists [c], r. eauto.
Qed.

Lemma lang_char_seq c r l : lang (RSeq (rlit [c]) r) l ↔ ∃ k, l = c :: k ∧ lang r k.
Proof.
  rewrite lang_RSeq. setoid_rewrite lang_rlit. split.
  - intros (l1 & l2 & -> & -> & Hl). eauto.
  - intros (k & -> & Hk). by exists [c], k.
Qed.

Lemma ident_no_dot w : Forall (λ c, ident_char c = true) w → "."%char ∉ w.
Proof. intros Hw Hin. by pose proof (proj1 (Forall_forall _ _) Hw _ Hin). Qed.

Lemma lang_idents l : lang idents l ↔ identifiers l.
Proof.
  unfold idents, identifiers, lit. rewrite lang_RSeq. change (chars ".") with ["."%char]. split.
  - intros (w & k & -> & [Hne Hw]%lang_plus_class & Hk).
    remember (RStar (RSeq (rlit ["."%char]) (rplus (RClass ident_char)))) as r eqn:Hr.
    revert w Hne Hw.
    induction Hk as [| | | | | |r0 l0 k0 Hl0 _ _ IH]; simplify_eq; intros w Hne Hw.
    + rewrite app_nil_r, split_list_none by by apply ident_no_dot. by repeat constructor.
    + apply lang_char_seq in Hl0 as (w' & -> & [Hne' Hw']%lang_plus_class).
      cbn [app]. rewrite split_list_app by by apply ident_no_dot. constructor; [done|].
      by apply IH.
  - remember (split_list "."%char l) as ws eqn:Hws. symmetry in Hws. intros Hall.
    revert l Hws. induction Hall as [|w ws [Hne Hw] Hall IH]; intros l Hws.
    { by apply split_list_nonempty in Hws. }
    apply split_list_cons in Hws as [[-> ->]|(k & -> & Hk)].
    + exists w, []. rewrite app_nil_r, lang_plus_class. split; [done|]. split; [done|constructor].
    + apply IH in Hk as (l1 & l2 & -> & H1 & H2). exists w, ("."%char :: l1 ++ l2).
      rewrite lang_plus_class. split; [done|]. split; [done|].
      change ("."%char :: l1 ++ l2) with (("."%char :: l1) ++ l2). apply lang_star_app; [|done].
      apply lang_char_seq. eauto.
Qed.

Lemma lang_suffix c l : lang (ropt (RSeq (rlit [c]) idents)) l ↔ suffix c l.
Proof. unfold suffix. rewrite lang_opt, lang_char_seq. by setoid_rewrite lang_idents. Qed.

Lemma lang_version l : lang versionPattern l ↔ semver l.
Proof.
  unfold versionPattern, semver, lit.
  change (chars ".") with ["."%char]. change (chars "-") with ["-"%char]. change (chars "+") with ["+"%char].
  split.
  - intros (a & l1 & -> & Ha & (k1 & -> & H1)%lang_char_seq)%lang_RSeq.
    apply lang_RSeq in H1 as (b & l2 & -> & Hb & (k2 & -> & H2)%lang_char_seq).
    apply lang_RSeq in H2 as (c & l3 & -> & Hc & H3).
    apply lang_RSeq in H3 as (pre & build & -> & Hpre & Hbuild).
    exists a, b, c, pre, build. rewrite <- !lang_number, <- !lang_suffix. done.
  - intros (a & b & c & pre & build & -> & Ha & Hb & Hc & Hpre & Hbuild).
    rewrite <- lang_number in Ha, Hb, Hc. rewrite <- lang_suffix in Hpre, Hbuild.
    constructor; [done|]. apply lang_char_seq. eexists. split; [done|].
    constructor; [done|]. apply lang_char_seq. eexists. split; [done|].
    constructor; [done|]. by constructor.
Qed.

(** The versions a tag may name. [versionFromTag] accepts a tag exactly when it
    is the letter v and a version of three numbers without leading zeros, an optional
    pre-release and optional build metadata, each a list of identifiers of letters,
    digits and hyphens separated by dots; and it gives that version. *)
Theorem versionFromTag_semver `{GoStd} tag version :
  versionFromTag tag = Ok version ↔ tag = "v" +:+ version ∧ semver (chars version).
Proof.
  unfold versionFromTag, HasPrefix, TrimPrefix. change (chars "v") with ["v"%char].
  destruct (strip_prefix ["v"%char] (chars tag)) as [l|] eqn:Hs.
  - apply strip_prefix_Some in Hs. rewrite bool_decide_eq_true_2 by by eexists. cbn [negb].
    assert (tag = "v" +:+ str l) as -> by (apply chars_inj; by rewrite chars_app, chars_str, Hs).
    destruct (MatchString versionPattern (str l)) eqn:Hm; cbn [negb].
    + apply MatchString_ok, lang_version in Hm. split.
      * by intros [= <-].
      * intros [Heq _]. f_equal. apply chars_inj. apply (f_equal (λ s, chars s)) in Heq.
        rewrite !chars_app in Heq. by injection Heq.
    + split; [done|]. intros [Heq Hv]. assert (str l = version) as Hl.
      { apply chars_inj. apply (f_equal (λ s, chars s)) in Heq. rewrite !chars_app in Heq. by injection Heq. }
      rewrite <- Hl in Hv. apply lang_version, MatchString_ok in Hv. congruence.
  - rewrite bool_decide_eq_false_2 by by intros []. split; [done|]. intros [-> _].
    rewrite chars_app in Hs. cbn in Hs. done.
Qed.

(** The characters of a version *)
Definition version_char (c : ascii) : bool := ident_char c || bool_decide (c ∈ ["."%char; "+"%char]).

Lemma semver_chars l : semver l → Forall (λ c, version_char c = true) l.
Proof.
  rewrite <- lang_version. apply lang_uses. unfold versionPattern, number, idents, lit, ropt, rplus.
  change (chars ".") with ["."%char]. change (chars "-") with ["-"%char]. change (chars "+") with ["+"%char].
  change (chars "0") with ["0"%char]. cbn [uses_chars rlit].
  assert (∀ c d, version_char d = true → bool_decide (c = d) = true → version_char c = true) as Hlit
    by (by intros c d Hd ->%bool_decide_eq_true_1).
  assert (∀ c, ident_char c = true → version_char c = true) as Hid by (by intros c Hc; unfold version_char; rewrite Hc).
  assert (∀ c, is_digit c = true → version_char c = true) as Hdig by (intros c Hc; apply Hid; unfold ident_char; by rewrite Hc).
  assert (∀ c, code_in 49 57 c = true → version_char c = true) as Hpos.
  { intros c Hc. apply Hdig. unfold is_digit, code_in in *. crush_bool. apply andb_true_iff; split; apply Z.leb_le; lia. }
  split_and!; try done; intros c; by apply Hlit.
Qed.

(** ** What the checks of the artifacts show *)

Lemma bundle_want_size : size bundle_want = length bundle_entries.
Proof. vm_compute. reflexivity. Qed.

Lemma bundle_want_entry n p : bundle_want !! n = Some p → (n, p) ∈ bundle_entries.
Proof. apply elem_of_list_to_map_2. Qed.

#[local] Opaque bundle_want.

Section Checks.
Context `{GoStd} `{GoOS} `{GoZip} `{ReleaseJSON}.

Lemma ReadFile_open path fs f data :
  os_Open path fs = Ok f → read_all path f = Ok data → os_ReadFile path fs = Ok data.
Proof. intros Hf Hd. unfold os_ReadFile. by rewrite Hf. Qed.

(** The name and the digest a line of the list gives. *)
Definition checksum_of (line : string) : option (string * string) :=
  match Fields line with [digest; name] => Some (TrimPrefix name "*", ToLower digest) | _ => None end.

Lemma checksum_parse_ok m line m' :
  checksum_parse m line = Ok m' →
  ∃ name digest, checksum_of line = Some (name, digest) ∧ m !! name = None ∧ m' = <[name := digest]> m.
Proof.
  unfold checksum_parse, checksum_of. destruct (Fields line) as [|digest [|name [|]]]; try done.
  intros Hp. follow Hp. crush_bool. exists (TrimPrefix name "*"), (ToLower digest).
  split; [done|]. split; [|done]. by apply eq_None_not_Some.
Qed.

(** The map holds what the lines give, one line for each name. *)
Lemma checksum_parse_lines lines m :
  foldl_res checksum_parse ∅ lines = Ok m →
  size m = length lines
  ∧ (∀ line, line ∈ lines → ∃ name digest, checksum_of line = Some (name, digest) ∧ m !! name = Some digest)
  ∧ ∀ name digest, m !! name = Some digest → ∃ line, line ∈ lines ∧ checksum_of line = Some (name, digest).
Proof.
  apply (foldl_res_ind (λ k m, size m = length k
    ∧ (∀ line, line ∈ k → ∃ name digest, checksum_of line = Some (name, digest) ∧ m !! name = Some digest)
    ∧ ∀ name digest, m !! name = Some digest → ∃ line, line ∈ k ∧ checksum_of line = Some (name, digest))).
  - split; [done|]. split; [by intros line Hl%elem_of_nil|done].
  - intros k m0 line m1 (Hsize & Hk & Hm0) (name & digest & Hof & Hnone & ->)%checksum_parse_ok.
    split; [|split].
    + rewrite map_size_insert_None, Hsize, length_app by done. cbn. lia.
    + intros l [Hl|Hl]%elem_of_app.
      * destruct (Hk l Hl) as (n & d & Hn & Hm). exists n, d. split; [done|].
        rewrite lookup_insert_ne; [done|]. intros ->. congruence.
      * apply list_elem_of_singleton in Hl as ->. exists name, digest. by rewrite lookup_insert_eq.
    + intros n d [[<- <-]|[_ Hn]]%lookup_insert_Some.
      * exists line. split; [apply elem_of_app; right; left|done].
      * destruct (Hm0 n d Hn) as (l & Hl & Hd). exists l. split; [apply elem_of_app; by left|done].
Qed.

Lemma fileSHA256_ok path fs digest :
  fileSHA256 path fs = Ok digest →
  ∃ data, os_ReadFile path fs = Ok data ∧ digest = sha256_hex data.
Proof.
  unfold fileSHA256. destruct (os_Open path fs) as [f|] eqn:Hf; [|done]. cbn [wrap_err mbind res_bind].
  destruct (read_all path f) as [data|] eqn:Hd; [|done]. intros [= <-]. exists data. split; [|done].
  by eapply ReadFile_open.
Qed.

Lemma checksum_matches_ok m fs p :
  checksum_matches m fs p = Ok () →
  ∃ data, os_ReadFile p fs = Ok data ∧ m !! path_Base p = Some (sha256_hex data).
Proof.
  unfold checksum_matches. destruct (m !! path_Base p) as [want|]; [|done].
  destruct (fileSHA256 p fs) as [got|] eqn:Hg; [|done]. cbn [mbind res_bind].
  case_bool_decide; [|done]. subst. intros _. apply fileSHA256_ok in Hg as (data & Hd & ->). eauto.
Qed.

(** C25: An accepted list of checksums covers the artifacts exactly. When
    [validateChecksums] accepts the list for artifacts of different names, each line
    gives the digest of the artifact it names, as the file is read, and every artifact
    has a line: no artifact is left out, listed twice or listed with another digest,
    and nothing else is listed. *)
Theorem validateChecksums_exact path paths fs :
  NoDup (path_Base <$> paths) →
  validateChecksums path paths fs = Ok () →
  ∃ text, os_ReadFile path fs = Ok text ∧ length (scan_lines text).1 = length paths
    ∧ (∀ line, line ∈ (scan_lines text).1 → ∃ p content, p ∈ paths ∧ os_ReadFile p fs = Ok content
         ∧ checksum_of line = Some (path_Base p, sha256_hex content))
    ∧ ∀ p, p ∈ paths → ∃ line content, line ∈ (scan_lines text).1 ∧ os_ReadFile p fs = Ok content
         ∧ checksum_of line = Some (path_Base p, sha256_hex content).
Proof.
  intros Hnodup. unfold validateChecksums, checksum_lines.
  destruct (os_Open path fs) as [f|] eqn:Hf; [|done]. cbn [wrap_err mbind res_bind].
  destruct (read_all path f) as [text|e] eqn:Hr; [|done].
  destruct (scan_lines text) as [lines stop] eqn:Hscan. cbn [fst snd].
  destruct (foldl_res checksum_parse ∅ lines) as [m|] eqn:Hm; [|done]. cbn [mbind res_bind].
  destruct stop; [done|]. cbn [mbind res_bind]. case_bool_decide as Hsize; [|done]. cbn [negb]. intros Hall.
  exists text. rewrite Hscan. split; [by eapply ReadFile_open|].
  destruct (checksum_parse_lines _ _ Hm) as (Hlen & Hlines & Hback). split; [cbn; lia|].
  assert (∀ p, p ∈ paths → ∃ data, os_ReadFile p fs = Ok data ∧ m !! path_Base p = Some (sha256_hex data)) as Hpaths.
  { intros p Hp. by apply checksum_matches_ok, (foldl_res_check _ _ _ Hall). }
  assert (∀ name, is_Some (m !! name) → name ∈ path_Base <$> paths) as Hcover.
  { intros name Hname%elem_of_dom. apply (elem_of_list_to_set (C := gset string)).
    assert (list_to_set (path_Base <$> paths) ⊆@{gset string} dom m) as Hsub.
    { intros n (p & -> & Hp)%elem_of_list_to_set%list_elem_of_fmap.
      destruct (Hpaths p Hp) as (data & _ & Hd). apply elem_of_dom. by eexists. }
    apply set_subseteq_size_eq in Hsub; [by rewrite Hsub|].
    rewrite size_dom, size_list_to_set, length_fmap by done. lia. }
  assert (∀ line, line ∈ lines → ∃ p content, p ∈ paths ∧ os_ReadFile p fs = Ok content
    ∧ checksum_of line = Some (path_Base p, sha256_hex content)) as Hfrom.
  { intros line Hl. destruct (Hlines line Hl) as (name & digest & Hof & Hmn).
    pose proof (Hcover name (mk_is_Some _ _ Hmn)) as (p & -> & Hp)%list_elem_of_fmap.
    destruct (Hpaths p Hp) as (data & Hd & Hmp). exists p, data. rewrite Hof. split; [done|]. split; [done|congruence]. }
  split; [exact Hfrom|]. intros p Hp. destruct (Hpaths p Hp) as (data & Hd & Hmp).
  destruct (Hback _ _ Hmp) as (line & Hl & Hof). eauto.
Qed.

Lemma requireNonEmpty_ok path fs :
  requireNonEmpty path fs = Ok () →
  ∃ f, os_Stat path fs = Ok f ∧ ff_type f = FRegular ∧ ff_data f ≠ "".
Proof.
  unfold requireNonEmpty. destruct (os_Stat path fs) as [f|]; [|done]. cbn [wrap_err mbind res_bind].
  case_bool_decide; [|done]. case_bool_decide; [done|]. by exists f.
Qed.

Lemma lookup_same op op' path fs f f' :
  os_lookup op path fs = Ok f → os_lookup op' path fs = Ok f' → f = f'.
Proof. unfold os_lookup, path_error. intros Hf Hf'. follow Hf; follow Hf'; congruence. Qed.

Lemma read_all_data path f data : read_all path f = Ok data → data = ff_data f.
Proof. unfold read_all, path_error. intros Hr. by follow Hr. Qed.

Lemma readersEqual_ok (left right : res string) :
  readersEqual left right = Ok true →
  ∃ l r, left = Ok l ∧ right = Ok r ∧ sha256_hex l = sha256_hex r.
Proof.
  unfold readersEqual. destruct left as [l|], right as [r|]; try done. cbn [mbind res_bind].
  intros [= Hb]. apply bool_decide_eq_true_1 in Hb. eauto.
Qed.

(** What an accepted entry of the bundle is. *)
Definition entry_sound (distPath : string) (fs : FS) (f : zip_file) : Prop :=
  bundle_want !! zf_Name f = Some (zf_perm f) ∧ zf_dir f = false ∧ zf_symlink f = false
  ∧ ∃ packed staged, zf_read f = inl packed
      ∧ os_ReadFile (path_Join [distPath; zf_Name f]) fs = Ok staged
      ∧ sha256_hex packed = sha256_hex staged ∧ staged ≠ ""
      ∧ (zf_Name f = "config.yaml.tmpl" ∨ zf_Name f = "README.md" → has_placeholder staged = false).

Lemma bundle_entry_ok distPath fs seen f seen' :
  bundle_entry distPath fs seen f = Ok seen' →
  entry_sound distPath fs f ∧ zf_Name f ∉ seen ∧ seen' = {[zf_Name f]} ∪ seen.
Proof.
  unfold bundle_entry. destruct (_ || _) eqn:Hsafe; [done|].
  apply orb_false_iff in Hsafe as [Hsafe Hlink]. apply orb_false_iff in Hsafe as [_ Hdir].
  destruct (bundle_want !! zf_Name f) as [mode|] eqn:Hwant; [|done].
  case_bool_decide as Hseen; [done|]. destruct (Z.eqb_spec (zf_perm f) mode) as [Hperm|]; [|done].
  cbn [negb]. subst mode. set (path := path_Join [distPath; zf_Name f]).
  destruct (requireNonEmpty path fs) as [[]|] eqn:Hreq; [|done]. cbn [mbind res_bind].
  destruct (wrap_err _ (zip_Open f)) as [[]|]; [|done]. cbn [mbind res_bind].
  destruct (os_Open path fs) as [staged|] eqn:Hopen; [|done]. cbn [wrap_err mbind res_bind].
  destruct (wrap_err _ (readersEqual _ _)) as [equal|] eqn:Hequal; [|done]. cbn [mbind res_bind].
  destruct (negb _); [done|]. destruct equal; [|done]. cbn [negb].
  apply wrap_err_ok, readersEqual_ok in Hequal as (l & r & Hl & Hr & Hsha).
  pose proof (ReadFile_open _ _ _ _ Hopen Hr) as Hread.
  apply requireNonEmpty_ok in Hreq as (f0 & Hstat & _ & Hne).
  rewrite (lookup_same _ _ _ _ _ _ Hstat Hopen), <- (read_all_data _ _ _ Hr) in Hne.
  assert (zf_read f = inl l) as Hpacked by (unfold zip_read_all in Hl; destruct (zf_read f); congruence).
  rewrite Hread. cbn [wrap_err mbind res_bind]. intros Hlast.
  assert (seen' = {[zf_Name f]} ∪ seen
    ∧ (zf_Name f = "config.yaml.tmpl" ∨ zf_Name f = "README.md" → has_placeholder r = false)) as [-> Hph].
  { destruct (bool_decide (zf_Name f = "config.yaml.tmpl") || bool_decide (zf_Name f = "README.md")) eqn:Hn.
    - destruct (has_placeholder r); [done|]. cbn in Hlast. by simplify_eq.
    - crush_bool. cbn in Hlast. simplify_eq. split; [done|]. by intros [?|?]. }
  split; [|done]. split; [done|]. do 2 (split; [done|]). exists l, r. done.
Qed.

(** All the entries of a bundle, when they are accepted. *)
Lemma bundle_entries_ok distPath fs files seen :
  foldl_res (bundle_entry distPath fs) ∅ files = Ok seen →
  seen = list_to_set (zf_Name <$> files) ∧ NoDup (zf_Name <$> files)
  ∧ ∀ f, f ∈ files → entry_sound distPath fs f.
Proof.
  intros Hfold. revert Hfold. apply (foldl_res_ind (λ k seen, seen = list_to_set (zf_Name <$> k) ∧ NoDup (zf_Name <$> k)
    ∧ ∀ f, f ∈ k → entry_sound distPath fs f)).
  - split; [done|]. split; [constructor|]. by intros f Hf%elem_of_nil.
  - intros k s0 f s1 (-> & Hnd & Hk) (Hf & Hnew & ->)%bundle_entry_ok. rewrite elem_of_list_to_set in Hnew.
    rewrite fmap_app. split; [|split].
    + rewrite list_to_set_app_L. cbn. set_solver.
    + apply NoDup_app. split; [done|]. split; [|by repeat constructor; apply not_elem_of_nil].
      intros n Hn. cbn. rewrite list_elem_of_singleton. by intros ->.
    + intros f0 [Hf0|Hf0]%elem_of_app; [by apply Hk|]. by apply list_elem_of_singleton in Hf0 as ->.
Qed.

(** C24: An accepted operator bundle is the staged release. When
    [validateOperatorBundle] accepts, the archive holds exactly the thirteen expected
    files, each once and with its permissions, none of them a directory or a symbolic
    link; each has the digest of the staged file of its name, which is not empty; the
    two templates have no unresolved placeholder; and the staged registry is the
    registry of the repository, byte for byte. *)
Theorem validateOperatorBundle_exact root distPath version fs :
  validateOperatorBundle root distPath version fs = Ok () →
  (∃ files, zip_OpenReader (path_Join [distPath; plugin_operator_name version]) fs = Ok files
    ∧ (λ f, (zf_Name f, zf_perm f)) <$> files ≡ₚ bundle_entries
    ∧ ∀ f, f ∈ files → entry_sound distPath fs f)
  ∧ ∃ text, os_ReadFile (path_Join [distPath; "registry.json"]) fs = Ok text
      ∧ os_ReadFile (path_Join [root; "registry.json"]) fs = Ok text.
Proof.
  unfold validateOperatorBundle. destruct (wrap_err _ (os_Stat _ _)); [|done]. cbn [mbind res_bind].
  destruct (zip_OpenReader _ fs) as [files|] eqn:Hopen; [|done]. cbn [wrap_err mbind res_bind].
  destruct (foldl_res (bundle_entry distPath fs) ∅ files) as [seen|] eqn:Hfold; [|done]. cbn [mbind res_bind].
  case_bool_decide as Hsize; [|done]. cbn [negb]. rewrite bundle_want_size in Hsize.
  destruct (foldl_res _ () (map_to_list bundle_want)); [|done]. cbn [mbind res_bind].
  destruct (os_ReadFile (path_Join [distPath; "registry.json"]) fs) as [text|] eqn:Ht; [|done].
  cbn [wrap_err mbind res_bind].
  destruct (os_ReadFile (path_Join [root; "registry.json"]) fs) as [text'|] eqn:Ht'; [|done].
  cbn [wrap_err mbind res_bind]. case_bool_decide; [|done]. subst text'. intros _.
  split; [|exists text; by split]. exists files. split; [reflexivity|].
  apply bundle_entries_ok in Hfold as (Hset & Hnodup & Hsound).
  split; [|done].
  assert (length files = length bundle_entries) as Hlen.
  { rewrite Hset, size_list_to_set, length_fmap in Hsize by done. exact Hsize. }
  apply submseteq_length_Permutation; [|by rewrite length_fmap, Hlen].
  apply NoDup_submseteq.
  - apply (NoDup_fmap_1 fst). by rewrite <- list_fmap_compose.
  - intros [n p] (f & [= -> ->] & Hf)%list_elem_of_fmap. apply bundle_want_entry.
    by destruct (Hsound f Hf).
Qed.

(** The file of the commit holds exactly one lowercase hexadecimal commit. *)
Lemma validateReleaseSHA_exact path fs :
  validateReleaseSHA path fs = Ok () ↔
  ∃ sha, os_ReadFile path fs = Ok (sha +:+ newline) ∧ String.length sha = 40%nat
    ∧ Forall (λ c, is_lower_hex c = true) (chars sha).
Proof.
  unfold validateReleaseSHA. split.
  - destruct (os_ReadFile path fs) as [text|]; [|done]. cbn [wrap_err mbind res_bind].
    destruct (Z.eqb_spec (len (TrimSuffix text newline)) 40) as [Hlen|]; [|done].
    destruct (MatchString shaPattern _) eqn:Hm; [|done]. case_bool_decide as Htext; [|done]. intros _.
    exists (TrimSuffix text newline). rewrite <- Htext. split; [done|].
    apply MatchString_ok, lang_times_class in Hm as [Hl Hall]. by rewrite length_chars in Hl.
  - intros (sha & -> & Hlen & Hall). cbn [wrap_err mbind res_bind].
    assert (TrimSuffix (sha +:+ newline) newline = sha) as ->.
    { unfold TrimSuffix. change (chars newline) with [newline_char]. rewrite chars_app, rev_app_distr.
      change (chars newline) with [newline_char]. cbn [rev app].
      destruct (strip_prefix _ _) as [l|] eqn:Hl.
      - apply strip_prefix_Some in Hl. injection Hl as <-. by rewrite rev_involutive, str_chars.
      - cbn in Hl. done. }
    unfold len. rewrite Hlen. cbn [Z.eqb negb orb].
    rewrite (proj2 (MatchString_ok shaPattern sha)); [|by apply lang_times_class; rewrite length_chars].
    by rewrite bool_decide_eq_true_2.
Qed.

End Checks.

(** ** Evaluation *)

#[local] Instance demo_os : GoOS := {| os_fault _ _ := None; os_partial _ := "" |}.

Definition demo_entry (perm : Z) (text : string) : fs_file :=
  {| ff_type := FRegular; ff_perm := perm; ff_data := text |}.

(** A release directory with the staged files, the operator archive and a list of
    checksums of two of them. *)
Definition demo_dist : FS :=
  {| fs_cwd := ["repo"];
     fs_files := list_to_map (
       [(["repo"; "registry.json"], demo_entry 420 "registry.json");
        (["repo"; "dist"; "subscription-pool-v1.0.0-operator.zip"], demo_entry 420
           (zip_write (GoZip := DemoZip.demo_zip)
             ((λ e, {| ze_Name := e.1; ze_perm := e.2; ze_data := e.1 |}) <$> bundle_entries)));
        (["repo"; "dist"; "checksums.txt"], demo_entry 420
           (DemoStd.digest "README.md" +:+ "  README.md" +:+ newline
            +:+ ToUpper (DemoStd.digest "rollback.sh") +:+ " *rollback.sh" +:+ newline))]
       ++ ((λ e, (["repo"; "dist"; e.1], demo_entry e.2 e.1)) <$> bundle_entries)) |}.

Lemma validateChecksums_exact_witness :
  ∃ text, os_ReadFile "dist/checksums.txt" demo_dist = Ok text ∧ length (scan_lines text).1 = 2%nat
    ∧ ∃ line content, line ∈ (scan_lines text).1 ∧ os_ReadFile "dist/rollback.sh" demo_dist = Ok content
      ∧ checksum_of line = Some ("rollback.sh", DemoStd.digest content).
Proof.
  destruct (validateChecksums_exact (H := DemoStd.demo_std) (H2 := DemoJSON.demo_json)
    "dist/checksums.txt" ["dist/README.md"; "dist/rollback.sh"] demo_dist)
    as (text & Hread & Hlen & _ & Hall).
  - by_decision.
  - vm_compute. reflexivity.
  - exists text. split; [exact Hread|]. split; [exact Hlen|].
    destruct (Hall "dist/rollback.sh") as (line & content & Hline & Hcontent & Hof); [right; left|].
    exists line, content. split; [exact Hline|]. split; [exact Hcontent|].
    assert (path_Base "dist/rollback.sh" = "rollback.sh") as Hbase by (vm_compute; reflexivity).
    rewrite Hbase in Hof. exact Hof.
Defined.

Lemma validateOperatorBundle_exact_witness :
  ∃ files, zip_OpenReader (H1 := DemoZip.demo_zip) "dist/subscription-pool-v1.0.0-operator.zip" demo_dist = Ok files
    ∧ (λ f, (zf_Name f, zf_perm f)) <$> files ≡ₚ bundle_entries.
Proof.
  destruct (validateOperatorBundle_exact (H := DemoStd.demo_std) (H1 := DemoZip.demo_zip)
    "/repo" "dist" "1.0.0" demo_dist) as [(files & Hopen & Hperm & _) _].
  - vm_compute. reflexivity.
  - exists files. split; [|exact Hperm].
    assert (path_Join ["dist"; plugin_operator_name "1.0.0"] = "dist/subscription-pool-v1.0.0-operator.zip") as Hpath
      by (vm_compute; reflexivity).
    rewrite Hpath in Hopen. exact Hopen.
Defined.
