(* ===== verification/ReleasePipeline.v ===== *)
(** * From packaging to validation (package-release.go, release-validation/main.go)

    The two programs composed: what the packager writes into the release directory
    is what the validator accepts, when the contents are those of a release. *)

From S2P Require Import Prelude GoStrings GoRegexp GoFiles Host ReleasePackage ReleaseArtifacts.

(** ** Files after a write *)

(** [fs'] is [fs] with a regular file of this content at the path. *)
Definition updated (fs : FS) (path data : string) (fs' : FS) : Prop :=
  fs_cwd fs' = fs_cwd fs ∧
  ∃ perm, fs_files fs' = <[locate fs path := {| ff_type := FRegular; ff_perm := perm; ff_data := data |}]> (fs_files fs).

Lemma updated_locate fs path data fs' q : updated fs path data fs' → locate fs' q = locate fs q.
Proof. intros [Hcwd _]. unfold locate. by rewrite Hcwd. Qed.

Lemma updated_other fs path data fs' q :
  updated fs path data fs' → locate fs path ≠ locate fs q → file_of fs' q = file_of fs q.
Proof.
  intros Hu Hq. unfold file_of. rewrite (updated_locate _ _ _ _ _ Hu). destruct Hu as [_ [perm ->]].
  by apply lookup_insert_ne.
Qed.

Lemma updated_same fs path data fs' q :
  updated fs path data fs' → locate fs path = locate fs q →
  ∃ perm, file_of fs' q = Some {| ff_type := FRegular; ff_perm := perm; ff_data := data |}.
Proof.
  intros Hu Hq. unfold file_of. rewrite (updated_locate _ _ _ _ _ Hu), <- Hq. destruct Hu as [_ [perm ->]].
  exists perm. apply lookup_insert_eq.
Qed.

(** The path is free, or a regular file. *)
Definition writable (fs : FS) (path : string) : Prop :=
  ∀ f, file_of fs path = Some f → ff_type f = FRegular.

Section Calm.
Context `{GoStdLaws} `{GoOS} `{GoZipLaws} `{ReleaseJSON} (Hcalm : calm).

Lemma lookup_calm op path fs f : file_of fs path = Some f → os_lookup op path fs = Ok f.
Proof. intros Hf. unfold os_lookup. by rewrite Hcalm, Hf. Qed.

Lemma call_calm op path : os_call op path = Ok ().
Proof. unfold os_call. by rewrite Hcalm. Qed.

Lemma read_calm path f : ff_type f ≠ FDirectory → read_all path f = Ok (ff_data f).
Proof. intros Hf. unfold read_all. by rewrite Hcalm, bool_decide_eq_false_2. Qed.

Lemma ReadFile_calm path fs f :
  file_of fs path = Some f → ff_type f ≠ FDirectory → os_ReadFile path fs = Ok (ff_data f).
Proof.
  intros Hf Ht. unfold os_ReadFile, os_Open. rewrite (lookup_calm _ _ _ f) by done. by apply read_calm.
Qed.

Lemma create_calm path fs :
  writable fs path →
  ∃ fs1, os_Create path fs = Ok fs1 ∧ updated fs path "" fs1 ∧ ∀ data, updated fs path data (fill path data fs1).
Proof.
  intros Hw. unfold os_Create. rewrite Hcalm.
  assert (∀ perm, let fs1 := put_file path {| ff_type := FRegular; ff_perm := perm; ff_data := "" |} fs in
    updated fs path "" fs1 ∧ ∀ data, updated fs path data (fill path data fs1)) as Hput.
  { intros perm fs1. split; [split; [done|by exists perm]|]. intros data. unfold fill.
    unfold fs1 at 1. rewrite file_of_put, decide_True by done. cbn [ff_type ff_perm].
    split; [done|]. exists perm. cbn [put_file fs_files fs1]. change (locate fs1 path) with (locate fs path).
    by rewrite insert_insert_eq. }
  destruct (file_of fs path) as [f|] eqn:Hf.
  - rewrite (Hw f Hf). cbn [bool_decide]. rewrite bool_decide_eq_false_2 by done. eauto.
  - unfold created. eauto.
Qed.

(** ** The archives *)

(** An artifact that can be packed: a plain name for a regular file with content. *)
Definition packable (fs : FS) (a : artifact) (e : zip_entry) : Prop :=
  plain_name (af_name a) ∧ ze_Name e = af_name a ∧ ze_data e ≠ ""
  ∧ file_of fs (af_path a) = Some {| ff_type := FRegular; ff_perm := ze_perm e; ff_data := ze_data e |}.

Lemma plain_no_slash n : plain_name n → HasSuffix n "/" = false.
Proof.
  intros (_ & _ & _ & Hfree). destruct (HasSuffix n "/") eqn:Hs; [|done].
  apply HasSuffix_spec in Hs as [r ->]. destruct Hfree. rewrite chars_app. apply elem_of_app. right. left.
Qed.

Lemma zip_item_calm fs a e : packable fs a e → zip_item fs a = Ok e.
Proof.
  intros (Hplain & Hname & Hne & Hf). unfold zip_item.
  rewrite plain_Base, bool_decide_eq_true_2 by done. cbn [negb]. unfold os_Stat, os_Open.
  rewrite !(lookup_calm _ _ _ _ Hf). cbn [wrap_err mbind res_bind ff_type ff_data ff_perm].
  rewrite bool_decide_eq_true_2, (bool_decide_eq_false_2 (ze_data e = "")) by done. cbn [negb orb].
  rewrite !call_calm, plain_no_slash by done. cbn [wrap_err mbind res_bind].
  rewrite read_calm by done. cbn [wrap_err mbind res_bind ff_data]. rewrite <- Hname. by destruct e.
Qed.

Lemma map_res_Forall2 {A B} (f : A → res B) l k :
  Forall2 (λ a b, f a = Ok b) l k → map_res f l = Ok k.
Proof.
  induction 1 as [|a b l k Hab _ IH]; [done|]. cbn [map_res]. rewrite Hab. cbn [mbind res_bind].
  by rewrite IH.
Qed.

Lemma writeZip_calm path entries written fs :
  writable fs path → Forall2 (packable fs) entries written →
  Forall (λ a, locate fs path ≠ locate fs (af_path a)) entries →
  ∃ fs', writeZip path entries fs = (Ok (), fs') ∧ updated fs path (zip_write written) fs'.
Proof.
  intros Hw Hpack Hother. destruct (create_calm path fs Hw) as (fs1 & Hcreate & Hu & Hfill).
  unfold writeZip. rewrite !call_calm, Hcreate. cbn [wrap_err].
  rewrite (map_res_Forall2 (zip_item fs1) entries written).
  - cbn [mbind res_bind]. rewrite ?call_calm. cbn [wrap_err mbind res_bind]. eauto.
  - clear Hcreate Hfill. revert Hother. induction Hpack as [|a e entries written Ha _ IH]; intros Hother; [constructor|].
    inversion_clear Hother. constructor; [|by apply IH]. apply zip_item_calm.
    destruct Ha as (? & ? & ? & Hf). split_and!; try done. by rewrite (updated_other _ _ _ _ _ Hu).
Qed.

(** ** The manifests *)

Definition manifest_text (a : artifact) : string := af_name a +:+ "=" +:+ af_path a.

(** An entry a manifest line can carry. *)
Definition manifest_ok (a : artifact) : Prop :=
  plain_name (af_name a) ∧ ("="%char ∉ chars (af_name a)) ∧ HasPrefix (manifest_text a) "#" = false
  ∧ TrimSpace (manifest_text a) = manifest_text a ∧ af_path a ≠ "" ∧ line_ok (manifest_text a).

#[global] Instance manifest_ok_dec a : Decision (manifest_ok a).
Proof. unfold manifest_ok. apply _. Defined.

Lemma Cut_line name path :
  ("="%char ∉ chars name) → Cut (name +:+ "=" +:+ path) "="%char = Some (name, path).
Proof.
  intros Hname. unfold Cut. rewrite !chars_app. change (chars "=") with ["="%char]. cbn [app].
  rewrite split_list_app by done.
  destruct (split_list "="%char (chars path)) eqn:Hpath; [by apply split_list_nonempty in Hpath|].
  replace (S (length (chars name))) with (length (chars name) + 1)%nat by lia.
  rewrite <- drop_drop, drop_app_length. simpl. by rewrite drop_0, !str_chars.
Qed.

Lemma manifest_line_ok seen k a :
  manifest_ok a → af_name a ∉ seen →
  manifest_line (seen, k) (manifest_text a) = Ok ({[af_name a]} ∪ seen, k ++ [a]).
Proof.
  intros (Hplain & Heq & Hcomment & Htrim & Hpath & _) Hnew. unfold manifest_line.
  assert (manifest_text a ≠ "") as Hne.
  { unfold manifest_text. destruct Hplain as [Hne _]. by destruct (af_name a). }
  rewrite (bool_decide_eq_false_2 (manifest_text a = "")), Htrim,
    (bool_decide_eq_true_2 (manifest_text a = manifest_text a)), Hcomment by done.
  cbn [negb orb]. unfold manifest_text. rewrite Cut_line by done. pose proof Hplain as [Hname _].
  rewrite (bool_decide_eq_false_2 (af_name a = "")), (bool_decide_eq_false_2 (af_path a = "")),
    plain_Base, (bool_decide_eq_true_2 (af_name a = af_name a)) by done. cbn [negb orb fst snd].
  rewrite bool_decide_eq_false_2 by done. by destruct a.
Qed.

Lemma manifest_loop l : ∀ seen k,
  Forall manifest_ok l → NoDup (af_name <$> l) → (∀ n, n ∈ af_name <$> l → n ∉ seen) →
  ∃ seen', foldl_res manifest_line (seen, k) (manifest_text <$> l) = Ok (seen', k ++ l).
Proof.
  induction l as [|a l IH]; intros seen k Hok Hnd Hnew; [exists seen; by rewrite app_nil_r|].
  inversion_clear Hok. inversion_clear Hnd as [|? ? Ha Hl]. cbn [fmap list_fmap foldl_res].
  rewrite manifest_line_ok by (try done; apply Hnew; left). cbn [mbind res_bind].
  destruct (IH ({[af_name a]} ∪ seen) (k ++ [a])) as [seen' Hseen]; [done|done| |].
  - intros n Hn. rewrite not_elem_of_union, not_elem_of_singleton. split; [by intros ->|].
    apply Hnew. by right.
  - exists seen'. by rewrite Hseen, <- app_assoc.
Qed.

(** A manifest reads back as the entries it was written from. *)
Lemma readManifest_written path fs f l :
  file_of fs path = Some f → ff_type f ≠ FDirectory → ff_data f = lines_text (manifest_text <$> l) →
  Forall manifest_ok l → NoDup (af_name <$> l) → l ≠ [] →
  readManifest path fs = Ok l.
Proof.
  intros Hf Ht Hd Hok Hnd Hne. unfold readManifest, os_Open. rewrite (lookup_calm _ _ _ _ Hf).
  cbn [mbind res_bind]. rewrite read_calm, Hd, scan_lines_text by
    first [done|apply Forall_fmap; eapply Forall_impl; [exact Hok|by intros a (_ & _ & _ & _ & _ & Ha)]].
  unfold manifest_lines. cbn [fst snd].
  destruct (manifest_loop l ∅ []) as [seen ->]; [done|done|set_solver|].
  cbn [mbind res_bind fst snd app]. by rewrite bool_decide_eq_false_2.
Qed.
(** ** The list of checksums *)

(** The characters of the names of the artifacts *)
Definition name_char (c : ascii) : bool := version_char c || bool_decide (c = "_"%char).

Definition artifact_name (n : string) : Prop :=
  Forall (λ c, name_char c = true) (chars n) ∧ (3 ≤ String.length n)%nat.

Lemma name_char_not c d : name_char d = false → name_char c = true → c ≠ d.
Proof. intros Hd Hc ->. congruence. Qed.

Lemma artifact_name_free n d : name_char d = false → artifact_name n → d ∉ chars n.
Proof. intros Hd [Hn _] Hin. pose proof (proj1 (Forall_forall _ _) Hn _ Hin). cbn in *. congruence. Qed.

Lemma artifact_name_plain n : artifact_name n → plain_name n.
Proof.
  intros Hn. pose proof Hn as [_ Hlen]. split_and!; try (intros ->; cbn in Hlen; lia).
  by apply artifact_name_free.
Qed.

Lemma name_char_space c : name_char c = true → is_space c = false.
Proof. by destruct c as [[] [] [] [] [] [] [] []]. Qed.

Lemma hex_char_space c : is_hex_char c = true → is_space c = false.
Proof. by destruct c as [[] [] [] [] [] [] [] []]. Qed.

Lemma fields_word word w r :
  Forall (λ c, is_space c = false) w → fields_list word (w ++ r) = fields_list (rev w ++ word) r.
Proof.
  intros Hw. revert word. induction Hw as [|c w Hc _ IH]; intros word; [done|].
  cbn [app fields_list rev]. by rewrite Hc, IH, <- app_assoc.
Qed.

Lemma Fields_two s t :
  s ≠ "" → t ≠ "" → Forall (λ c, is_space c = false) (chars s) → Forall (λ c, is_space c = false) (chars t) →
  Fields (s +:+ "  " +:+ t) = [s; t].
Proof.
  intros Hs Ht Hsp Htp. unfold Fields. rewrite !chars_app. change (chars "  ") with [" "%char; " "%char].
  rewrite fields_word, app_nil_r by done. cbn [app fields_list is_space].
  rewrite <- (app_nil_r (chars t)), fields_word, app_nil_r by done.
  assert (∀ u : string, u ≠ "" → rev (chars u) ≠ []) as Hne.
  { intros u Hu Hr. apply Hu, chars_inj. by rewrite <- (rev_involutive (chars u)), Hr. }
  change (is_space " ") with true. cbn iota.
  destruct (rev (chars s)) as [|c l] eqn:Es; [by apply Hne in Es|].
  destruct (rev (chars t)) as [|d k] eqn:Et; [by apply Hne in Et|]. cbn [fields_list].
  rewrite <- Es, <- Et, !rev_involutive. cbn. by rewrite !str_chars.
Qed.

Lemma digest_chars data : Forall (λ c, is_hex_char c = true) (chars (sha256_hex data)).
Proof.
  pose proof (sha256_hex_decodes data) as Hd. unfold hex_decodes in Hd.
  apply andb_true_iff in Hd as [_ Hd]. apply Forall_forall. intros c Hc.
  by apply (proj1 (forallb_forall _ _) Hd), list_elem_of_In.
Qed.

Lemma checksum_parse_written m data name :
  artifact_name name → m !! name = None →
  checksum_parse m (checksum_text (sha256_hex data) name) = Ok (<[name := sha256_hex data]> m).
Proof.
  intros Hname Hnew. pose proof (artifact_name_plain _ Hname) as Hplain.
  unfold checksum_parse, checksum_text. rewrite Fields_two.
  - unfold len. rewrite sha256_hex_length, sha256_hex_decodes. cbn [Z.of_nat Z.eqb negb].
    assert (TrimPrefix name "*" = name) as ->.
    { unfold TrimPrefix. change (chars "*") with ["*"%char].
      destruct (strip_prefix ["*"%char] (chars name)) as [l|] eqn:Hl; [|done].
      apply strip_prefix_Some in Hl. destruct (artifact_name_free name "*"%char eq_refl Hname).
      rewrite Hl. left. }
    rewrite plain_Base, bool_decide_eq_true_2 by done. cbn [negb].
    rewrite bool_decide_eq_false_2 by (rewrite Hnew; by intros []). by rewrite sha256_hex_lower.
  - intros He. pose proof (sha256_hex_length data) as Hl. by rewrite He in Hl.
  - by destruct Hplain.
  - eapply Forall_impl; [apply digest_chars|apply hex_char_space].
  - destruct Hname as [Hname _]. eapply Forall_impl; [exact Hname|apply name_char_space].
Qed.

Lemma checksum_loop (content : artifact → string) l : ∀ m,
  Forall (λ a, artifact_name (af_name a)) l → NoDup (af_name <$> l) →
  (∀ n, n ∈ af_name <$> l → m !! n = None) →
  ∃ m', foldl_res checksum_parse m ((λ a, checksum_text (sha256_hex (content a)) (af_name a)) <$> l) = Ok m'
    ∧ size m' = (size m + length l)%nat
    ∧ (∀ a, a ∈ l → m' !! af_name a = Some (sha256_hex (content a)))
    ∧ ∀ n, n ∉ af_name <$> l → m' !! n = m !! n.
Proof.
  induction l as [|a l IH]; intros m Hok Hnd Hnew.
  { exists m. split; [done|]. split; [cbn; lia|]. split; [by intros a Ha%elem_of_nil|done]. }
  inversion_clear Hok as [|? ? Ha Hl]. inversion_clear Hnd as [|? ? Hna Hnl].
  cbn [fmap list_fmap foldl_res]. rewrite checksum_parse_written by (try done; apply Hnew; left).
  cbn [mbind res_bind].
  destruct (IH (<[af_name a := sha256_hex (content a)]> m)) as (m' & Hm' & Hsize & Hin & Hout); [done|done| |].
  { intros n Hn. rewrite lookup_insert_ne by (by intros <-). apply Hnew. by right. }
  exists m'. split; [exact Hm'|]. split; [|split].
  - rewrite Hsize, map_size_insert_None by (apply Hnew; left). cbn. lia.
  - intros b [->|Hb]%elem_of_cons; [|by apply Hin]. by rewrite Hout, lookup_insert_eq.
  - intros n [Hn1 Hn2]%not_elem_of_cons. by rewrite Hout, lookup_insert_ne.
Qed.

(** A file with this content, of any kind that can be read *)
Definition holds_text (fs : FS) (path text : string) : Prop :=
  ∃ f, file_of fs path = Some f ∧ ff_type f ≠ FDirectory ∧ ff_data f = text.

Lemma checksum_names_ok l : ∀ seen,
  Forall (λ a, artifact_name (af_name a)) l → NoDup (af_name <$> l) →
  (∀ n, n ∈ af_name <$> l → n ∉ seen) → ∃ seen', foldl_res checksum_name seen l = Ok seen'.
Proof.
  induction l as [|a l IH]; intros seen Hok Hnd Hnew; [by eexists|].
  inversion_clear Hok as [|? ? Ha Hl]. inversion_clear Hnd as [|? ? Hna Hnl]. cbn [foldl_res].
  unfold checksum_name. rewrite plain_Base, bool_decide_eq_true_2 by (done || by apply artifact_name_plain).
  cbn [negb]. rewrite bool_decide_eq_false_2 by (apply Hnew; left). cbn [mbind res_bind].
  apply IH; [done|done|]. intros n Hn. rewrite not_elem_of_union, not_elem_of_singleton.
  split; [by intros ->|]. apply Hnew. by right.
Qed.

Definition checksums_text (content : artifact → string) (l : list artifact) : string :=
  lines_text ((λ a, checksum_text (sha256_hex (content a)) (af_name a)) <$> sort_by af_name l).

Lemma writeChecksums_calm path content l fs :
  writable fs path → Forall (λ a, artifact_name (af_name a)) l → NoDup (af_name <$> l) →
  Forall (λ a, holds_text fs (af_path a) (content a)) l →
  ∃ fs', writeChecksums path l fs = (Ok (), fs') ∧ updated fs path (checksums_text content l) fs'.
Proof.
  intros Hw Hok Hnd Hfiles. unfold writeChecksums.
  destruct (checksum_names_ok l ∅) as [seen ->]; [done|done|set_solver|]. cbn [mbind res_bind].
  rewrite (map_res_Forall2 (checksum_item fs) _
    ((λ a, checksum_text (sha256_hex (content a)) (af_name a)) <$> sort_by af_name l)).
  - destruct (create_calm path fs Hw) as (fs1 & Hcreate & _ & Hfill). rewrite Hcreate, call_calm.
    cbn [wrap_err]. eauto.
  - apply Forall2_fmap_r, Forall_Forall2_diag. rewrite (sort_by_perm af_name l).
    eapply Forall_impl; [exact Hfiles|]. intros a (f & Hf & Ht & Hd). cbn. unfold checksum_item, os_Open.
    rewrite (lookup_calm _ _ _ _ Hf). cbn [wrap_err mbind res_bind].
    rewrite read_calm, call_calm, Hd by done. done.
Qed.

Lemma checksum_line_ok data n :
  artifact_name n → len n < 60000 → line_ok (checksum_text (sha256_hex data) n).
Proof.
  intros Hn Hlen. unfold line_ok, checksum_text.
  assert (∀ c, is_space c = true → c ≠ " "%char → c ∉ chars (sha256_hex data +:+ "  " +:+ n)) as Hfree.
  { intros c Hc Hsp. rewrite !chars_app, !not_elem_of_app. split_and!.
    - intros Hin. pose proof (proj1 (Forall_forall _ _) (digest_chars data) _ Hin) as Hh.
      apply hex_char_space in Hh. congruence.
    - change (chars "  ") with [" "%char; " "%char]. rewrite !not_elem_of_cons. split_and!; try done.
      apply not_elem_of_nil.
    - destruct Hn as [Hn _]. intros Hin. pose proof (proj1 (Forall_forall _ _) Hn _ Hin) as Hh.
      apply name_char_space in Hh. congruence. }
  split; [by apply Hfree|]. split; [by apply Hfree|].
  unfold len in *. rewrite <- length_chars, !chars_app, !length_app, !length_chars, sha256_hex_length.
  change (String.length "  ") with 2%nat. unfold maxScanTokenSize. lia.
Qed.

Lemma validateChecksums_calm path content l paths fs :
  holds_text fs path (checksums_text content l) →
  Forall (λ a, artifact_name (af_name a) ∧ len (af_name a) < 60000) l → NoDup (af_name <$> l) →
  length paths = length l →
  Forall (λ p, ∃ a, a ∈ l ∧ path_Base p = af_name a ∧ holds_text fs p (content a)) paths →
  validateChecksums path paths fs = Ok ().
Proof.
  intros (f & Hf & Ht & Hd) Hok Hnd Hlen Hpaths. unfold validateChecksums, os_Open.
  rewrite (lookup_calm _ _ _ _ Hf). cbn [wrap_err mbind res_bind]. rewrite read_calm, Hd by done.
  set (sorted := sort_by af_name l). assert (sorted ≡ₚ l) as Hperm by apply sort_by_perm.
  unfold checksums_text. fold sorted. rewrite scan_lines_text.
  2: { apply Forall_fmap. rewrite Hperm. eapply Forall_impl; [exact Hok|]. intros a [Ha Hl]. by apply checksum_line_ok. }
  unfold checksum_lines. cbn [fst snd].
  destruct (checksum_loop content sorted ∅) as (m & -> & Hsize & Hin & _).
  - rewrite Hperm. eapply Forall_impl; [exact Hok|by intros a [Ha _]].
  - by rewrite Hperm.
  - intros n _. apply lookup_empty.
  - cbn [mbind res_bind]. rewrite map_size_empty, Nat.add_0_l, Hperm, <- Hlen in Hsize.
    rewrite bool_decide_eq_true_2 by done. cbn [negb]. clear Hsize Hlen.
    induction Hpaths as [|p paths (a & Ha & Hbase & (g & Hg & Htg & Hdg)) _ IH]; [done|]. cbn [foldl_res].
    assert (checksum_matches m fs p = Ok ()) as ->; [|exact IH].
    unfold checksum_matches. rewrite Hbase, (Hin a) by by rewrite Hperm.
    unfold fileSHA256, os_Open. rewrite (lookup_calm _ _ _ _ Hg). cbn [wrap_err mbind res_bind].
    rewrite read_calm, Hdg by done. cbn [wrap_err mbind res_bind]. by rewrite bool_decide_eq_true_2.
Qed.

(** ** The names of the artifacts *)

Definition staged_names : list string := fst <$> bundle_entries.

Lemma artifact_names_ok v n :
  semver (chars v) → n ∈ artifact_names v → artifact_name n.
Proof.
  intros Hv%semver_chars.
  assert (Forall (λ c, name_char c = true) (chars v)) as Hvn.
  { eapply Forall_impl; [exact Hv|]. intros c Hc. unfold name_char. by rewrite Hc. }
  assert (∀ a b, forallb name_char (chars a) = true → forallb name_char (chars b) = true →
    (3 ≤ String.length b)%nat → artifact_name (a +:+ v +:+ b)) as Hver.
  { intros a b Ha Hb Hl. assert (∀ s, forallb name_char (chars s) = true → Forall (λ c, name_char c = true) (chars s)) as Hall.
    { intros s Hs. apply Forall_forall. intros c Hc. by apply (proj1 (forallb_forall _ _) Hs), list_elem_of_In. }
    split; [by rewrite !chars_app, !Forall_app; split_and!; try done; apply Hall|].
    rewrite <- length_chars, !chars_app, !length_app, !length_chars. lia. }
  assert (∀ n, bool_decide (Forall (λ c, name_char c = true) (chars n)) && (3 <=? String.length n)%nat = true →
    artifact_name n) as Hconst.
  { intros m [Hm%bool_decide_eq_true Hl%Nat.leb_le]%andb_true_iff. done. }
  intros Hn. unfold artifact_names in Hn.
  apply elem_of_cons in Hn as [->|Hn]; [apply (Hver "subscription-pool-v" ".so"); [done|done|cbn; lia]|].
  apply elem_of_cons in Hn as [->|Hn];
    [apply (Hver "subscription-pool_" "_linux_amd64.zip"); [done|done|cbn; lia]|].
  apply elem_of_cons in Hn as [->|Hn];
    [apply (Hver "subscription-pool-v" "-operator.zip"); [done|done|cbn; lia]|].
  apply Hconst. revert n Hn.
  apply (Forall_forall (λ n, bool_decide (Forall (λ c, name_char c = true) (chars n)) && (3 <=? String.length n)%nat = true)).
  repeat constructor.
Qed.

Lemma release_names_distinct v : NoDup ("checksums.txt" :: artifact_names v).
Proof.
  assert (NoDup ("checksums.txt" :: staged_names)) as Hstaged by by_decision.
  assert (plugin_library_name v ≠ plugin_operator_name v) as Hlo.
  { intros Heq. apply (f_equal (λ s, length (chars s))) in Heq.
    unfold plugin_library_name, plugin_operator_name in Heq. rewrite !chars_app, !length_app in Heq.
    change (length (chars ".so")) with 3%nat in Heq. change (length (chars "-operator.zip")) with 13%nat in Heq. lia. }
  inversion_clear Hstaged as [|? ? Hc Hs]. unfold artifact_names.
  apply NoDup_cons. split; [rewrite !not_elem_of_cons; split_and!; [done..|by apply not_elem_of_nil]|].
  apply NoDup_cons. split.
  { rewrite !not_elem_of_cons. split_and!; [done|exact Hlo|done..|apply not_elem_of_nil]. }
  do 2 (apply NoDup_cons; split; [rewrite !not_elem_of_cons; split_and!; [done..|apply not_elem_of_nil]|]).
  exact Hs.
Qed.

(** ** The release directory *)

Section Release.
Context (root dist version : string) (o : options) (fs : FS).
(** The path of a staged file in the manifests, the contents of the staged files and
    of the library. *)
Context (source body : string → string) (library : string).

Definition at_name (n : string) : list string := locate fs dist ++ [n].

Definition staged_artifacts : list artifact :=
  (λ n, {| af_name := n; af_path := source n |}) <$> staged_names.

Definition outputs : list string :=
  [plugin_archive_name version; plugin_operator_name version; "checksums.txt"].

(** The directory before packaging: the library and the thirteen staged files, with
    their permissions and contents; two manifests that list the staged files; and
    outputs that do not exist or are regular files. *)
Record release_tree : Prop := {
  rt_dirs : dist ≠ "" ∧ root ≠ "";
  rt_version : semver (chars version) ∧ len version < 50000;
  rt_named n p :
    (n, p) ∈ [(plugin_library_name version, op_library o); (plugin_archive_name version, op_archive o);
              (plugin_operator_name version, op_operator o)] →
    path_Base p = n ∧ locate fs p = at_name n;
  rt_checksum : op_checksum o ≠ "" ∧ locate fs (op_checksum o) = at_name "checksums.txt";
  rt_entry : op_entry o = libraryName;
  rt_library : library ≠ "" ∧ ∃ perm, 0 <= perm < 512 ∧
    file_of fs (op_library o) = Some {| ff_type := FRegular; ff_perm := perm; ff_data := library |};
  rt_staged n perm : (n, perm) ∈ bundle_entries →
    body n ≠ "" ∧ locate fs (source n) = at_name n
    ∧ file_of fs (source n) = Some {| ff_type := FRegular; ff_perm := perm; ff_data := body n |};
  rt_manifests m : m ∈ [op_operatorManifest o; op_checksumManifest o] →
    m ≠ "" ∧ holds_text fs m (lines_text (manifest_text <$> staged_artifacts))
    ∧ ∀ n, n ∈ outputs → locate fs m ≠ at_name n;
  rt_lines : Forall manifest_ok staged_artifacts;
  rt_outputs n f : n ∈ outputs → fs_files fs !! at_name n = Some f → ff_type f = FRegular;
}.

(** The contents that a release must have: no placeholder is left in the two
    templates, the file of the commit is one line with forty lowercase hexadecimal
    digits, and the staged registry is the registry of the repository. The packager
    looks at none of it. *)
Record release_contents : Prop := {
  rc_templates : has_placeholder (body "config.yaml.tmpl") = false ∧ has_placeholder (body "README.md") = false;
  rc_sha : ∃ sha, body "release-sha.txt" = sha +:+ newline ∧ String.length sha = 40%nat
    ∧ Forall (λ c, is_lower_hex c = true) (chars sha);
  rc_registry : holds_text fs (path_Join [root; "registry.json"]) (body "registry.json");
}.

Lemma at_name_inj n n' : at_name n = at_name n' → n = n'.
Proof. intros Heq. by apply app_inj_2 in Heq as [_ [= ->]]. Qed.

(** Nothing but the outputs differs. *)
Definition same_but_outputs (fs' : FS) : Prop :=
  fs_cwd fs' = fs_cwd fs ∧
  ∀ k, (∀ n, n ∈ outputs → k ≠ at_name n) → fs_files fs' !! k = fs_files fs !! k.

Lemma same_refl : same_but_outputs fs.
Proof. done. Qed.

Lemma same_locate fs' q : same_but_outputs fs' → locate fs' q = locate fs q.
Proof. intros [Hcwd _]. unfold locate. by rewrite Hcwd. Qed.

Lemma same_file fs' q :
  same_but_outputs fs' → (∀ n, n ∈ outputs → locate fs q ≠ at_name n) → file_of fs' q = file_of fs q.
Proof. intros Hs Hq. unfold file_of. rewrite (same_locate _ _ Hs). by apply Hs. Qed.

Lemma same_updated fs1 fs2 path data n :
  same_but_outputs fs1 → updated fs1 path data fs2 → n ∈ outputs → locate fs path = at_name n →
  same_but_outputs fs2.
Proof.
  intros Hs [Hcwd [perm Hfiles]] Hn Hpath. split; [rewrite Hcwd; apply Hs|].
  intros k Hk. rewrite Hfiles, lookup_insert_ne; [by apply Hs|].
  rewrite (same_locate _ _ Hs), Hpath. intros <-. by apply (Hk n).
Qed.

(** The staged files and the library are not outputs. *)
Lemma kept_not_output n : n ∈ plugin_library_name version :: staged_names → n ∉ outputs.
Proof.
  pose proof (release_names_distinct version) as Hnd.
  assert ("checksums.txt" :: artifact_names version
    = "checksums.txt" :: plugin_library_name version :: plugin_archive_name version
        :: plugin_operator_name version :: staged_names) as Heq by done.
  rewrite Heq in Hnd. clear Heq. generalize dependent staged_names. intros names Hnd.
  unfold outputs. rewrite !NoDup_cons, !not_elem_of_cons in Hnd. rewrite !elem_of_cons, elem_of_nil.
  intros [->|Hn] Hout; naive_solver.
Qed.

Lemma kept_file fs' q n :
  same_but_outputs fs' → n ∈ plugin_library_name version :: staged_names → locate fs q = at_name n →
  file_of fs' q = file_of fs q.
Proof.
  intros Hs Hn Hq. apply same_file; [done|]. intros n' Hn' Heq. rewrite Hq in Heq.
  apply at_name_inj in Heq as ->. by apply (kept_not_output n').
Qed.

Context (Htree : release_tree).

Definition library_entry (perm : Z) : zip_entry :=
  {| ze_Name := libraryName; ze_perm := perm; ze_data := library |}.

Definition bundle : list zip_entry :=
  (λ e, {| ze_Name := e.1; ze_perm := e.2; ze_data := body e.1 |}) <$> bundle_entries.

(** The contents of the artifacts, by name. *)
Definition content (perm : Z) (a : artifact) : string :=
  if bool_decide (af_name a = plugin_library_name version) then library
  else if bool_decide (af_name a = plugin_archive_name version) then zip_write [library_entry perm]
  else if bool_decide (af_name a = plugin_operator_name version) then zip_write bundle
  else body (af_name a).

(** The directory after packaging. *)
Record packed (perm : Z) (fs' : FS) : Prop := {
  pk_same : same_but_outputs fs';
  pk_output n text :
    (n, text) ∈ [(plugin_archive_name version, zip_write [library_entry perm]);
                 (plugin_operator_name version, zip_write bundle);
                 ("checksums.txt", checksums_text (content perm) (staged_artifacts ++ packaged o))] →
    ∃ p, fs_files fs' !! at_name n = Some {| ff_type := FRegular; ff_perm := p; ff_data := text |};
}.

Lemma output_writable fs' q n :
  same_but_outputs fs' → n ∈ outputs → locate fs q = at_name n → fs_files fs' !! at_name n = fs_files fs !! at_name n →
  writable fs' q.
Proof.
  intros Hs Hn Hq Hfile f. unfold file_of. rewrite (same_locate _ _ Hs), Hq, Hfile.
  by apply (rt_outputs Htree).
Qed.

Lemma staged_name n perm : (n, perm) ∈ bundle_entries → n ∈ staged_names.
Proof. intros Hn. apply list_elem_of_fmap. by exists (n, perm). Qed.

Lemma staged_name_ok n : n ∈ plugin_library_name version :: staged_names → artifact_name n.
Proof.
  intros Hn. apply (artifact_names_ok version); [apply (rt_version Htree)|].
  apply elem_of_cons in Hn as [->|Hn]; [left|by do 3 right].
Qed.

Lemma manifest_reads fs' m :
  same_but_outputs fs' → m ∈ [op_operatorManifest o; op_checksumManifest o] →
  readManifest m fs' = Ok staged_artifacts.
Proof.
  intros Hs Hm. destruct (rt_manifests Htree m Hm) as (_ & (f & Hf & Ht & Hd) & Hout).
  apply (readManifest_written m fs' f); [|done|done|apply (rt_lines Htree)| |done].
  - by rewrite (same_file _ _ Hs) by done.
  - unfold staged_artifacts. rewrite <- list_fmap_compose.
    change (NoDup ((λ n, n) <$> staged_names)). rewrite list_fmap_id. by_decision.
Qed.

Lemma staged_packable fs' :
  same_but_outputs fs' → Forall2 (packable fs') staged_artifacts bundle.
Proof.
  intros Hs. unfold staged_artifacts, bundle, staged_names. rewrite <- list_fmap_compose.
  apply Forall2_fmap, Forall_Forall2_diag, Forall_forall. intros [n perm] Hn. cbn.
  destruct (rt_staged Htree n perm Hn) as (Hbody & Hat & Hf).
  assert (n ∈ plugin_library_name version :: staged_names) as Hkept by (right; by eapply staged_name).
  split; [by apply artifact_name_plain, staged_name_ok|]. cbn [af_name af_path ze_Name ze_data ze_perm].
  split; [done|]. split; [done|]. by rewrite (kept_file fs' _ n Hs Hkept Hat).
Qed.

(** The artifacts of the list of checksums, where they are after packaging. *)
Lemma content_staged perm n p : n ∈ staged_names → content perm {| af_name := n; af_path := p |} = body n.
Proof.
  intros Hn. pose proof (release_names_distinct version) as Hnd.
  assert ("checksums.txt" :: artifact_names version
    = "checksums.txt" :: plugin_library_name version :: plugin_archive_name version
        :: plugin_operator_name version :: staged_names) as Heq by done.
  rewrite Heq, !NoDup_cons, !not_elem_of_cons in Hnd. clear Heq. unfold content. cbn [af_name].
  rewrite !bool_decide_eq_false_2; [done|..]; intros ->; tauto.
Qed.

Lemma packaged_names : af_name <$> packaged o
  = [plugin_library_name version; plugin_archive_name version; plugin_operator_name version].
Proof.
  cbn. by rewrite (proj1 (rt_named Htree _ _ ltac:(left))), (proj1 (rt_named Htree _ _ ltac:(right; left))),
    (proj1 (rt_named Htree _ _ ltac:(right; right; left))).
Qed.

Lemma checksum_names : af_name <$> staged_artifacts ++ packaged o ≡ₚ artifact_names version.
Proof.
  rewrite fmap_app, packaged_names. unfold staged_artifacts. rewrite <- list_fmap_compose.
  change ((af_name ∘ λ n, {| af_name := n; af_path := source n |}) <$> staged_names) with ((λ n, n) <$> staged_names).
  rewrite list_fmap_id, Permutation_app_comm. done.
Qed.

Lemma checksum_names_good :
  Forall (λ a, artifact_name (af_name a) ∧ len (af_name a) < 60000) (staged_artifacts ++ packaged o)
  ∧ NoDup (af_name <$> staged_artifacts ++ packaged o).
Proof.
  pose proof (release_names_distinct version) as [_ Hnd]%NoDup_cons. rewrite checksum_names.
  split; [|exact Hnd].
  assert (Forall (λ n, artifact_name n ∧ len n < 60000) (af_name <$> staged_artifacts ++ packaged o)) as Hall.
  { rewrite checksum_names. apply Forall_forall. intros n Hn. destruct (rt_version Htree) as [Hv Hl].
    split; [by apply (artifact_names_ok version)|].
    assert (∀ a b, len (a +:+ version +:+ b) = len a + len version + len b) as Hlen.
    { intros a b. unfold len. rewrite <- !length_chars, !chars_app, !length_app. lia. }
    assert (Forall (λ n, (len n <? 60000) = true) staged_names) as Hs by by_decision.
    unfold artifact_names in Hn.
    apply elem_of_cons in Hn as [->|Hn];
      [change (len (plugin_library_name version) < 60000) with (len ("subscription-pool-v" +:+ version +:+ ".so") < 60000); rewrite Hlen;
       change (len "subscription-pool-v") with 19; change (len ".so") with 3; lia|].
    apply elem_of_cons in Hn as [->|Hn];
      [change (len (plugin_archive_name version) < 60000) with (len ("subscription-pool_" +:+ version +:+ "_linux_amd64.zip") < 60000); rewrite Hlen;
       change (len "subscription-pool_") with 18; change (len "_linux_amd64.zip") with 16; lia|].
    apply elem_of_cons in Hn as [->|Hn];
      [change (len (plugin_operator_name version) < 60000) with (len ("subscription-pool-v" +:+ version +:+ "-operator.zip") < 60000); rewrite Hlen;
       change (len "subscription-pool-v") with 19; change (len "-operator.zip") with 13; lia|].
    apply Z.ltb_lt. by apply (proj1 (Forall_forall _ _) Hs). }
  by apply Forall_fmap in Hall.
Qed.

Lemma named_path n p :
  (n, p) ∈ [(plugin_library_name version, op_library o); (plugin_archive_name version, op_archive o);
            (plugin_operator_name version, op_operator o)] → locate fs p = at_name n.
Proof. apply (rt_named Htree). Qed.

Lemma updated_at fs1 path text fs2 n :
  same_but_outputs fs1 → updated fs1 path text fs2 → locate fs path = at_name n →
  (∃ p, fs_files fs2 !! at_name n = Some {| ff_type := FRegular; ff_perm := p; ff_data := text |})
  ∧ ∀ n', n' ≠ n → fs_files fs2 !! at_name n' = fs_files fs1 !! at_name n'.
Proof.
  intros Hs [_ [perm Hfiles]] Hpath. rewrite Hfiles, (same_locate _ _ Hs), Hpath.
  split; [exists perm; apply lookup_insert_eq|]. intros n' Hn'. apply lookup_insert_ne.
  intros Heq. by apply at_name_inj in Heq.
Qed.

Lemma outputs_distinct :
  plugin_archive_name version ≠ plugin_operator_name version
  ∧ plugin_archive_name version ≠ "checksums.txt" ∧ plugin_operator_name version ≠ "checksums.txt".
Proof. done. Qed.

Lemma operator_not_library : plugin_operator_name version ≠ plugin_library_name version.
Proof.
  pose proof (release_names_distinct version) as [_ [Hnd _]%NoDup_cons]%NoDup_cons.
  intros Heq. apply Hnd. rewrite <- Heq. right. left.
Qed.

Lemma file_at fs' q n :
  same_but_outputs fs' → locate fs q = at_name n → file_of fs' q = fs_files fs' !! at_name n.
Proof. intros Hs Hq. unfold file_of. by rewrite (same_locate _ _ Hs), Hq. Qed.

(** The plugin archive is written. *)
Lemma package_library :
  ∃ perm fs1 text, packageLibrary (op_library o) (op_entry o) (op_archive o) fs = (Ok text, fs1)
    ∧ updated fs (op_archive o) (zip_write [library_entry perm]) fs1 ∧ 0 <= perm < 512
    ∧ file_of fs (op_library o) = Some {| ff_type := FRegular; ff_perm := perm; ff_data := library |}.
Proof.
  destruct (rt_library Htree) as (Hne & perm & Hperm & Hlib). exists perm.
  pose proof (named_path (plugin_archive_name version) (op_archive o) ltac:(right; left)) as Harch.
  destruct (writeZip_calm (op_archive o) [{| af_name := op_entry o; af_path := op_library o |}]
    [library_entry perm] fs) as (fs1 & Hzip & Hu).
  - apply (output_writable fs _ (plugin_archive_name version)); [done|left|done|done].
  - constructor; [|constructor]. rewrite (rt_entry Htree).
    split; [by_decision|]. cbn [af_name af_path ze_Name ze_data ze_perm library_entry]. done.
  - constructor; [|constructor]. cbn [af_path]. rewrite Harch.
    rewrite (named_path (plugin_library_name version) (op_library o) ltac:(left)).
    by intros Heq%at_name_inj.
  - exists fs1. unfold packageLibrary. rewrite Hzip.
    destruct (updated_same _ _ _ _ (op_archive o) Hu eq_refl) as [p Hf].
    eexists. split; [by rewrite (ReadFile_calm _ _ _ Hf)|done].
Qed.

Lemma options_given : "" ∉ [op_library o; op_entry o; op_archive o; op_operator o;
  op_operatorManifest o; op_checksum o; op_checksumManifest o].
Proof.
  assert (∀ n p, n ≠ "." → path_Base p = n → p ≠ "") as Hbase by (by intros n p Hn <- ->).
  rewrite !not_elem_of_cons. split_and!; try apply not_elem_of_nil; apply not_eq_sym.
  - eapply Hbase; [|apply (rt_named Htree); left]. done.
  - by rewrite (rt_entry Htree).
  - eapply Hbase; [|apply (rt_named Htree); right; left]. done.
  - eapply Hbase; [|apply (rt_named Htree); right; right; left]. done.
  - by apply (rt_manifests Htree); left.
  - apply (rt_checksum Htree).
  - by apply (rt_manifests Htree); right; left.
Qed.

Lemma package_calm :
  ∃ perm fs', package_main o fs = (Ok (), fs') ∧ packed perm fs' ∧ 0 <= perm < 512.
Proof.
  destruct package_library as (perm & fs1 & text & Hlib & Hu1 & Hperm & Hlibfile).
  pose proof (named_path (plugin_library_name version) (op_library o) ltac:(left)) as Hlibat.
  pose proof (named_path (plugin_archive_name version) (op_archive o) ltac:(right; left)) as Harch.
  pose proof (named_path (plugin_operator_name version) (op_operator o) ltac:(right; right; left)) as Hoper.
  destruct (rt_checksum Htree) as [Hsum Hsumat]. destruct outputs_distinct as (Hd1 & Hd2 & Hd3).
  assert (same_but_outputs fs1) as Hs1 by (apply (same_updated fs _ _ _ (plugin_archive_name version) same_refl Hu1); [left|done]).
  destruct (updated_at _ _ _ _ _ same_refl Hu1 Harch) as [Harch1 Hother1].
  destruct (writeZip_calm (op_operator o) staged_artifacts bundle fs1) as (fs2 & Hzip2 & Hu2).
  { apply (output_writable fs1 _ (plugin_operator_name version)); [done|right; left|done|by apply Hother1]. }
  { by apply staged_packable. }
  { apply Forall_fmap, Forall_forall. intros n ([n' p] & -> & Hn)%list_elem_of_fmap. cbn [compose fst af_path].
    rewrite !(same_locate _ _ Hs1), Hoper. destruct (rt_staged Htree _ _ Hn) as (_ & -> & _).
    intros Heq%at_name_inj. apply (kept_not_output n'); [right; by eapply staged_name|]. rewrite <- Heq. right. left. }
  assert (same_but_outputs fs2) as Hs2 by (apply (same_updated fs1 _ _ _ (plugin_operator_name version) Hs1 Hu2); [right; left|done]).
  destruct (updated_at _ _ _ _ _ Hs1 Hu2 Hoper) as [Hoper2 Hother2].
  destruct checksum_names_good as [Hgood Hnd].
  destruct (writeChecksums_calm (op_checksum o) (content perm) (staged_artifacts ++ packaged o) fs2)
    as (fs3 & Hsum3 & Hu3).
  { apply (output_writable fs2 _ "checksums.txt"); [done|right; right; left|done|].
    by rewrite Hother2, Hother1. }
  { eapply Forall_impl; [exact Hgood|by intros a [? _]]. }
  { exact Hnd. }
  { apply Forall_app. split.
    - apply Forall_fmap, Forall_forall. intros n ([n' p] & -> & Hn)%list_elem_of_fmap. cbn [compose fst af_path].
      destruct (rt_staged Htree _ _ Hn) as (_ & Hat & Hf). pose proof (staged_name _ _ Hn) as Hname.
      rewrite (content_staged perm n' (source n') Hname).
      eexists. split; [rewrite (kept_file fs2 _ n' Hs2); [exact Hf|by right|done]|done].
    - pose proof packaged_names as Hnames. cbn in Hnames. injection Hnames as Hb1 Hb2 Hb3.
      repeat constructor; cbn [af_name af_path]; unfold content, holds_text; cbn [af_name]; rewrite ?Hb1, ?Hb2, ?Hb3.
      + rewrite bool_decide_eq_true_2 by done.
        eexists. split; [rewrite (kept_file fs2 _ (plugin_library_name version) Hs2); [exact Hlibfile|left|done]|done].
      + rewrite bool_decide_eq_false_2, bool_decide_eq_true_2 by done.
        rewrite (file_at _ _ _ Hs2 Harch), Hother2 by done. destruct Harch1 as [p ->]. by eexists.
      + rewrite (bool_decide_eq_false_2 _ operator_not_library), (bool_decide_eq_false_2 (plugin_operator_name _ = plugin_archive_name _)),
          bool_decide_eq_true_2 by done.
        rewrite (file_at _ _ _ Hs2 Hoper). destruct Hoper2 as [p ->]. by eexists. }
  destruct (updated_at _ _ _ _ _ Hs2 Hu3 Hsumat) as [Hsum3at Hother3].
  exists perm, fs3. split; [|split; [|done]].
  - unfold package_main. rewrite (bool_decide_eq_false_2 _ options_given).
    rewrite (rt_entry Htree), (bool_decide_eq_true_2 (path_Base libraryName = libraryName)) by by_decision.
    rewrite (rt_entry Htree) in Hlib. cbn [negb]. rewrite Hlib.
    rewrite (manifest_reads fs1 _ Hs1) by left. cbn [wrap_err]. unfold packageOperator. rewrite Hzip2.
    rewrite (manifest_reads fs2 _ Hs2) by (right; left). cbn [wrap_err]. exact Hsum3.
  - split; [by apply (same_updated fs2 _ _ _ "checksums.txt" Hs2 Hu3); [right; right; left|]|].
    intros n t. rewrite !elem_of_cons, elem_of_nil. intros [[= -> ->]|[[= -> ->]|[[= -> ->]|[]]]].
    + by rewrite Hother3, Hother2.
    + by rewrite Hother3.
    + done.
Qed.

(** ** What the validator finds *)

Section Packed.
Context (perm : Z) (fs' : FS) (Hpacked : packed perm fs') (Hperm : 0 <= perm < 512).

Lemma joined n : plain_name n → locate fs' (path_Join [dist; n]) = at_name n.
Proof.
  intros Hn. rewrite (same_locate _ _ (pk_same _ _ Hpacked)). apply locate_Join; [|done].
  apply (rt_dirs Htree).
Qed.

Lemma joined_file n : plain_name n → file_of fs' (path_Join [dist; n]) = fs_files fs' !! at_name n.
Proof. intros Hn. unfold file_of. by rewrite joined. Qed.

Lemma staged_file n p :
  (n, p) ∈ bundle_entries →
  body n ≠ "" ∧
  file_of fs' (path_Join [dist; n]) = Some {| ff_type := FRegular; ff_perm := p; ff_data := body n |}.
Proof.
  intros Hn. destruct (rt_staged Htree n p Hn) as (Hne & Hat & Hf). split; [done|].
  pose proof (staged_name _ _ Hn) as Hname.
  rewrite joined_file by (apply artifact_name_plain, staged_name_ok; by right).
  rewrite <- Hat, <- (same_locate _ _ (pk_same _ _ Hpacked)), <- Hf.
  apply (kept_file fs' (source n) n); [apply Hpacked|by right|done].
Qed.

Lemma library_file :
  library ≠ "" ∧ ∃ p, file_of fs' (path_Join [dist; plugin_library_name version])
    = Some {| ff_type := FRegular; ff_perm := p; ff_data := library |}.
Proof.
  destruct (rt_library Htree) as (Hne & p & _ & Hf). split; [done|]. exists p.
  pose proof (named_path (plugin_library_name version) (op_library o) ltac:(left)) as Hat.
  rewrite joined_file by (apply artifact_name_plain, staged_name_ok; left).
  rewrite <- Hat, <- (same_locate _ _ (pk_same _ _ Hpacked)), <- Hf.
  apply (kept_file fs' _ (plugin_library_name version)); [apply Hpacked|left|done].
Qed.

Lemma output_file n text :
  plain_name n →
  (n, text) ∈ [(plugin_archive_name version, zip_write [library_entry perm]);
               (plugin_operator_name version, zip_write bundle);
               ("checksums.txt", checksums_text (content perm) (staged_artifacts ++ packaged o))] →
  ∃ p, file_of fs' (path_Join [dist; n]) = Some {| ff_type := FRegular; ff_perm := p; ff_data := text |}.
Proof. intros Hn Ht. rewrite joined_file by done. by apply (pk_output _ _ Hpacked). Qed.

Lemma version_name_plain n : n ∈ artifact_names version → plain_name n.
Proof. intros Hn. apply artifact_name_plain, (artifact_names_ok version); [apply (rt_version Htree)|done]. Qed.

(** Every artifact is there, with the content of the list of checksums. *)
Lemma artifact_file n :
  n ∈ artifact_names version →
  ∃ a p, a ∈ staged_artifacts ++ packaged o ∧ af_name a = n ∧ content perm a ≠ ""
    ∧ file_of fs' (path_Join [dist; n]) = Some {| ff_type := FRegular; ff_perm := p; ff_data := content perm a |}.
Proof.
  intros Hn. pose proof (version_name_plain n Hn) as Hplain.
  assert (∃ a, a ∈ staged_artifacts ++ packaged o ∧ af_name a = n) as (a & Ha & Hname).
  { rewrite <- checksum_names in Hn. apply list_elem_of_fmap in Hn as (a & -> & Ha). eauto. }
  exists a. unfold content. rewrite Hname.
  case_bool_decide as H1x; [subst n; rewrite H1x in *; destruct library_file as (? & p & ->); eauto|].
  case_bool_decide as H2x; [rewrite H2x in *; destruct (output_file _ _ Hplain ltac:(left)) as (p & ->);
    exists p; split_and!; [done|done|apply zip_write_nonempty|done]|].
  case_bool_decide as H3x; [rewrite H3x in *; destruct (output_file _ _ Hplain ltac:(right; left)) as (p & ->);
    exists p; split_and!; [done|done|apply zip_write_nonempty|done]|].
  assert (n ∈ staged_names) as Hs.
  { unfold artifact_names in Hn. do 3 (apply elem_of_cons in Hn as [->|Hn]; [done|]). exact Hn. }
  apply list_elem_of_fmap in Hs as ([n' p] & -> & Hs). cbn [fst] in *.
  destruct (staged_file _ _ Hs) as [Hne Hf]. exists p. split_and!; done.
Qed.

Lemma nonempty_calm n : n ∈ artifact_names version → requireNonEmpty (path_Join [dist; n]) fs' = Ok ().
Proof.
  intros Hn. destruct (artifact_file n Hn) as (a & p & _ & _ & Hne & Hf). unfold requireNonEmpty, os_Stat.
  rewrite (lookup_calm _ _ _ _ Hf). cbn [wrap_err mbind res_bind ff_type ff_data].
  by rewrite bool_decide_eq_true_2, bool_decide_eq_false_2.
Qed.

Lemma zip_reads n es p :
  file_of fs' (path_Join [dist; n]) = Some {| ff_type := FRegular; ff_perm := p; ff_data := zip_write es |} →
  Forall zip_writable es → zip_OpenReader (path_Join [dist; n]) fs' = Ok (zip_stored <$> es).
Proof.
  intros Hf Hes. unfold zip_OpenReader. rewrite (ReadFile_calm _ _ _ Hf) by done. cbn [mbind res_bind ff_data].
  by rewrite zip_open_write.
Qed.

Lemma archive_calm :
  validateArchive (path_Join [dist; plugin_library_name version])
    (path_Join [dist; plugin_archive_name version]) fs' = Ok ().
Proof.
  destruct (output_file (plugin_archive_name version) (zip_write [library_entry perm])) as [p Hf];
    [apply version_name_plain; right; left|left|].
  unfold validateArchive. rewrite (zip_reads _ [library_entry perm] p Hf).
  - cbn [wrap_err mbind res_bind fmap list_fmap zip_stored library_entry zf_Name zf_open zf_read
      ze_Name ze_data ze_perm]. cbv zeta. rewrite bool_decide_eq_true_2 by done. cbn [negb].
    destruct library_file as (_ & q & Hl). unfold zip_Open, zip_read_all, os_Open.
    cbn [zip_stored library_entry ze_data zf_open zf_read wrap_err mbind res_bind].
    rewrite (lookup_calm _ _ _ _ Hl). cbn [wrap_err mbind res_bind]. rewrite read_calm by done.
    unfold readersEqual. cbn [ff_data mbind res_bind wrap_err]. by rewrite bool_decide_eq_true_2.
  - constructor; [|constructor]. split; [done|]. split; [by vm_compute|exact Hperm].
Qed.

Lemma bundle_writable : Forall zip_writable bundle.
Proof.
  assert (Forall (λ e, (len e.1 <? 65536) && negb (bool_decide (e.1 = "")) && (0 <=? e.2) && (e.2 <? 512) = true)
    bundle_entries) as Hall by by_decision.
  unfold bundle. apply Forall_fmap. eapply Forall_impl; [exact Hall|]. intros e He. cbn in He. crush_bool. done.
Qed.

Lemma bundle_entry_calm n p seen :
  release_contents → (n, p) ∈ bundle_entries → n ∉ seen →
  bundle_entry dist fs' seen (zip_stored {| ze_Name := n; ze_perm := p; ze_data := body n |}) = Ok ({[n]} ∪ seen).
Proof.
  intros Hcont Hn Hseen. pose proof (staged_name _ _ Hn) as Hname.
  assert (artifact_name n) as Hart by (apply staged_name_ok; by right).
  pose proof (artifact_name_plain _ Hart) as Hplain.
  assert (Forall (λ e, Contains e.1 ".." = false ∧ bundle_want !! e.1 = Some e.2) bundle_entries) as Hall by by_decision.
  destruct (proj1 (Forall_forall _ _) Hall _ Hn) as [Hdots Hwant]. cbn [fst snd] in Hdots, Hwant.
  destruct (staged_file _ _ Hn) as [Hne Hf].
  unfold bundle_entry. cbn [zip_stored zf_Name zf_dir zf_symlink zf_perm zf_open zf_read ze_Name ze_perm ze_data].
  rewrite (bool_decide_eq_false_2 (n = "")) by apply Hplain.
  rewrite plain_Base, (bool_decide_eq_true_2 (n = n)), Hdots, plain_no_slash by done. cbn [negb orb].
  rewrite Hwant, (bool_decide_eq_false_2 (n ∈ seen)), Z.eqb_refl by done. cbn [negb].
  rewrite nonempty_calm by (do 3 right; exact Hname). cbn [mbind res_bind].
  unfold zip_Open, zip_read_all, os_Open.
  cbn [zip_stored zf_open zf_read ze_data wrap_err mbind res_bind]. rewrite (lookup_calm _ _ _ _ Hf). cbn [wrap_err mbind res_bind]. rewrite read_calm by done.
  unfold readersEqual. cbn [mbind res_bind wrap_err ff_data].
  rewrite (bool_decide_eq_true_2 (sha256_hex (body n) = sha256_hex (body n))), call_calm by done.
  cbn [is_Ok negb]. rewrite (ReadFile_calm _ _ _ Hf) by done. cbn [wrap_err mbind res_bind ff_data].
  destruct (bool_decide (n = "config.yaml.tmpl") || bool_decide (n = "README.md")) eqn:Ht; [|done].
  apply orb_true_iff in Ht. rewrite !bool_decide_eq_true in Ht.
  destruct (rc_templates Hcont) as [Ht1 Ht2]. destruct Ht as [-> | ->]; rewrite ?Ht1, ?Ht2; done.
Qed.

Lemma bundle_loop l : release_contents → ∀ seen,
  l ⊆ bundle_entries → NoDup (fst <$> l) → (∀ n, n ∈ fst <$> l → n ∉ seen) →
  foldl_res (bundle_entry dist fs') seen
    (zip_stored <$> ((λ e, {| ze_Name := e.1; ze_perm := e.2; ze_data := body e.1 |}) <$> l))
  = Ok (list_to_set (fst <$> l) ∪ seen).
Proof.
  intros Hcont. induction l as [|[n p] l IH]; intros seen Hl Hnd Hnew; [cbn; f_equal; set_solver|].
  inversion_clear Hnd as [|? ? Hn Hndl]. cbn [fmap list_fmap foldl_res fst snd].
  rewrite bundle_entry_calm; [|exact Hcont|apply Hl; left|apply Hnew; left]. cbn [mbind res_bind].
  rewrite IH; [f_equal; cbn; set_solver|intros e He; apply Hl; by right|done|].
  intros n' Hn'. rewrite not_elem_of_union, not_elem_of_singleton. split; [by intros ->|].
  apply Hnew. by right.
Qed.

(** The operator archive is read back as it was written. *)
Lemma bundle_stored :
  ∃ p, file_of fs' (path_Join [dist; plugin_operator_name version])
         = Some {| ff_type := FRegular; ff_perm := p; ff_data := zip_write bundle |}
    ∧ zip_OpenReader (path_Join [dist; plugin_operator_name version]) fs' = Ok (zip_stored <$> bundle).
Proof.
  destruct (output_file (plugin_operator_name version) (zip_write bundle)) as [p Hf];
    [apply version_name_plain; right; right; left|right; left|].
  exists p. split; [exact Hf|]. by apply (zip_reads _ bundle p Hf), bundle_writable.
Qed.

(** The registry of the repository is left as it is. *)
Lemma registry_kept :
  file_of fs' (path_Join [root; "registry.json"]) = file_of fs (path_Join [root; "registry.json"]).
Proof.
  assert (plain_name "registry.json") as Hplain by by_decision.
  assert (("registry.json", 420) ∈ bundle_entries) as Hreg by by_decision.
  apply same_file; [apply Hpacked|]. intros n Hn Heq.
  destruct (rt_dirs Htree) as [_ Hdir].
  rewrite (locate_Join fs root "registry.json" Hdir Hplain) in Heq.
  apply app_inj_tail in Heq as [_ <-].
  apply (kept_not_output "registry.json"); [|exact Hn]. right. exact (staged_name _ 420 Hreg).
Qed.

Lemma bundle_calm : release_contents → validateOperatorBundle root dist version fs' = Ok ().
Proof.
  intros Hcont. destruct bundle_stored as (p & Hf & Hopen).
  unfold validateOperatorBundle, os_Stat. rewrite (lookup_calm _ _ _ _ Hf). cbn [wrap_err mbind res_bind].
  rewrite Hopen. cbn [wrap_err mbind res_bind].
  unfold bundle. rewrite bundle_loop by (done || by_decision || set_solver). cbn [mbind res_bind].
  rewrite (right_id_L ∅ (∪)).
  assert (size (list_to_set staged_names : gset string) = size bundle_want) as Hsize by by_decision.
  fold staged_names. rewrite (bool_decide_eq_true_2 _ Hsize). cbn [negb].
  rewrite foldl_res_all.
  2: { apply Forall_forall. intros [n q] Hn%elem_of_map_to_list%bundle_want_entry. cbn [fst].
       rewrite bool_decide_eq_true_2; [done|]. apply elem_of_list_to_set. by eapply staged_name. }
  cbn [mbind res_bind].
  assert (("registry.json", 420) ∈ bundle_entries) as Hreg by by_decision.
  destruct (staged_file _ _ Hreg) as [_ Hstaged]. rewrite (ReadFile_calm _ _ _ Hstaged) by done.
  cbn [wrap_err mbind res_bind ff_data]. destruct (rc_registry Hcont) as (f & Hroot & Ht & Hd).
  rewrite <- registry_kept in Hroot. rewrite (ReadFile_calm _ _ _ Hroot) by done.
  cbn [wrap_err mbind res_bind]. rewrite Hd. by rewrite bool_decide_eq_true_2.
Qed.

(** What a staged file reads as. *)
Lemma staged_read n p :
  (n, p) ∈ bundle_entries → os_ReadFile (path_Join [dist; n]) fs' = Ok (body n).
Proof. intros Hn. destruct (staged_file _ _ Hn) as [_ Hf]. by rewrite (ReadFile_calm _ _ _ Hf). Qed.

(** An accepted bundle has the contents of a release. *)
Lemma bundle_contents :
  validateOperatorBundle root dist version fs' = Ok () →
  (has_placeholder (body "config.yaml.tmpl") = false ∧ has_placeholder (body "README.md") = false)
  ∧ holds_text fs (path_Join [root; "registry.json"]) (body "registry.json").
Proof.
  destruct bundle_stored as (p & _ & Hopen). unfold validateOperatorBundle.
  destruct (wrap_err _ (os_Stat _ _)); [|done]. cbn [mbind res_bind]. rewrite Hopen. cbn [wrap_err mbind res_bind].
  destruct (foldl_res (bundle_entry dist fs') ∅ (zip_stored <$> bundle)) as [seen|] eqn:Hfold; [|done].
  cbn [mbind res_bind]. case_bool_decide; [|done]. cbn [negb].
  destruct (foldl_res _ () (map_to_list bundle_want)); [|done]. cbn [mbind res_bind].
  rewrite (staged_read "registry.json" 420) by by_decision. cbn [wrap_err mbind res_bind].
  destruct (os_ReadFile (path_Join [root; "registry.json"]) fs') as [text|] eqn:Hroot; [|done].
  cbn [wrap_err mbind res_bind]. case_bool_decide as Htext; [|done]. subst text. intros _.
  apply bundle_entries_ok in Hfold as (_ & _ & Hsound).
  assert (∀ n q, (n, q) ∈ bundle_entries → n = "config.yaml.tmpl" ∨ n = "README.md" →
    has_placeholder (body n) = false) as Htmpl.
  { intros n q Hn Hname.
    destruct (Hsound (zip_stored {| ze_Name := n; ze_perm := q; ze_data := body n |})) as (_ & _ & _ & k & staged & _ & Hread & _ & _ & Hph).
    - apply (list_elem_of_fmap_2 zip_stored). unfold bundle.
      exact (list_elem_of_fmap_2 (λ e, {| ze_Name := e.1; ze_perm := e.2; ze_data := body e.1 |}) _ (n, q) Hn).
    - cbn [zip_stored zf_Name ze_Name] in *. rewrite (staged_read n q Hn) in Hread. injection Hread as <-. auto. }
  split; [split; (apply (Htmpl _ 420); [by_decision|auto])|].
  unfold os_ReadFile, os_Open, os_lookup, read_all in Hroot. rewrite registry_kept, !Hcalm in Hroot.
  destruct (file_of fs _) as [f|] eqn:Hf; [|done]. cbn [mbind res_bind] in Hroot.
  case_bool_decide as Hdir; [done|]. injection Hroot as Hdata.
  exists f. split; [exact Hf|]. split; [exact Hdir|exact Hdata].
Qed.

(** The commit is accepted when its file has the right form. *)
Lemma sha_calm :
  validateReleaseSHA (path_Join [dist; "release-sha.txt"]) fs' = Ok () ↔
  ∃ sha, body "release-sha.txt" = sha +:+ newline ∧ String.length sha = 40%nat
    ∧ Forall (λ c, is_lower_hex c = true) (chars sha).
Proof.
  rewrite validateReleaseSHA_exact, (staged_read "release-sha.txt" 420) by by_decision.
  split; intros (sha & Hbody & Hrest); exists sha; [by injection Hbody as ->|by rewrite Hbody].
Qed.

Lemma checksums_calm :
  validateChecksums (path_Join [dist; "checksums.txt"])
    ((λ name, path_Join [dist; name]) <$> artifact_names version) fs' = Ok ().
Proof.
  destruct checksum_names_good as [Hgood Hnd].
  apply (validateChecksums_calm _ (content perm) (staged_artifacts ++ packaged o)); [|exact Hgood|exact Hnd| |].
  - destruct (output_file "checksums.txt" (checksums_text (content perm) (staged_artifacts ++ packaged o))) as [p Hf];
      [by_decision|right; right; left|]. by eexists.
  - rewrite length_fmap. pose proof (Permutation_length checksum_names) as Hl. by rewrite length_fmap in Hl.
  - apply Forall_fmap, Forall_forall. intros n Hn. cbn [compose].
    destruct (artifact_file n Hn) as (a & p & Ha & Hname & _ & Hf). exists a. split; [done|].
    rewrite Base_Join by (apply (rt_dirs Htree) || by apply version_name_plain).
    split; [done|]. by eexists.
Qed.

Lemma artifacts_calm : validateArtifacts root dist version fs' = Ok () ↔ release_contents.
Proof.
  unfold validateArtifacts. rewrite foldl_res_all.
  2: { apply Forall_fmap, Forall_forall. intros n Hn. by apply nonempty_calm. }
  cbn [mbind res_bind]. rewrite archive_calm. cbn [mbind res_bind]. split.
  - destruct (validateOperatorBundle root dist version fs') as [[]|] eqn:Hbundle; [|done]. cbn [mbind res_bind].
    destruct (validateReleaseSHA _ fs') as [[]|] eqn:Hsha; [|done]. intros _.
    destruct (bundle_contents Hbundle) as [Htmpl Hreg]. split; [done|by apply sha_calm|done].
  - intros Hcont. rewrite (bundle_calm Hcont). cbn [mbind res_bind].
    rewrite (proj2 sha_calm (rc_sha Hcont)). cbn [mbind res_bind]. apply checksums_calm.
Qed.

End Packed.

End Release.

(** C23: What is packaged is accepted exactly when its contents are those of a release.
    Take a directory with a library and the thirteen staged files, none of them empty,
    with their permissions, two manifests that list them, a valid version, options that
    name the artifacts of that version there, and outputs that are regular files or not
    written yet; and let no call fail. Then the packager succeeds, whatever the files
    say; and the validator accepts the release directory it leaves (the plugin archive,
    the operator archive, the commit and the list of checksums, each for the artifacts
    of that version) if and only if no placeholder is left in config.yaml.tmpl and
    README.md, release-sha.txt is one line of forty lowercase hexadecimal digits, and
    the staged registry.json is the registry of the repository. *)
Theorem packaged_release_accepted root dist version o fs source body library :
  release_tree root dist version o fs source body library →
  ∃ fs', package_main o fs = (Ok (), fs')
    ∧ (validateArtifacts root dist version fs' = Ok () ↔ release_contents root fs body).
Proof.
  intros Htree. destruct (package_calm root dist version o fs source body library Htree)
    as (perm & fs' & Hrun & Hpacked & Hperm).
  exists fs'. split; [done|]. by eapply artifacts_calm.
Qed.

End Calm.

(** ** Evaluation *)

#[local] Instance demo_os : GoOS := {| os_fault _ _ := None; os_partial _ := "" |}.

Lemma demo_calm : calm.
Proof. intros op path. reflexivity. Qed.

Definition demo_version : string := "1.2.3-rc.1".
Definition demo_source (n : string) : string := "dist/" +:+ n.
(** The contents of the staged files of two releases; the templates of the second one
    still have a placeholder. *)
Definition demo_body (resolved : bool) (n : string) : string :=
  if bool_decide (n = "release-sha.txt")
  then "0123456789abcdef0123456789abcdef01234567" +:+ newline
  else if resolved then "the file " +:+ n else "the file " +:+ n +:+ " of ${RELEASE_SHA}".

Definition demo_options : options :=
  {| op_library := "dist/subscription-pool-v1.2.3-rc.1.so"; op_entry := "subscription-pool.so";
     op_archive := "dist/subscription-pool_1.2.3-rc.1_linux_amd64.zip";
     op_operator := "dist/subscription-pool-v1.2.3-rc.1-operator.zip";
     op_operatorManifest := "dist/operator-manifest.txt"; op_checksum := "./dist/checksums.txt";
     op_checksumManifest := "dist/checksum-manifest.txt" |}.

Definition demo_file (perm : Z) (text : string) : fs_file :=
  {| ff_type := FRegular; ff_perm := perm; ff_data := text |}.

Definition demo_release (resolved : bool) : FS :=
  let manifest := demo_file 420 (lines_text (manifest_text <$> staged_artifacts demo_source)) in
  {| fs_cwd := ["repo"];
     fs_files := list_to_map (
       [(["repo"; "registry.json"], demo_file 420 (demo_body resolved "registry.json"));
        (["repo"; "dist"; "operator-manifest.txt"], manifest);
        (["repo"; "dist"; "checksum-manifest.txt"], manifest);
        (["repo"; "dist"; "subscription-pool-v1.2.3-rc.1.so"], demo_file 493 "ELF")]
       ++ ((λ e, (["repo"; "dist"; e.1], demo_file e.2 (demo_body resolved e.1))) <$> bundle_entries)) |}.

Lemma demo_tree b :
  release_tree "/repo" "/repo/dist" demo_version demo_options (demo_release b) demo_source (demo_body b) "ELF".
Proof.
  split.
  - done.
  - split; [|by vm_compute]. apply lang_version, rmatch_ok. vm_compute. reflexivity.
  - assert (Forall (λ np, path_Base np.2 = np.1 ∧ locate (demo_release b) np.2 = at_name "/repo/dist" (demo_release b) np.1)
      [(plugin_library_name demo_version, op_library demo_options);
       (plugin_archive_name demo_version, op_archive demo_options);
       (plugin_operator_name demo_version, op_operator demo_options)]) as Hall by (destruct b; by_decision).
    intros n p Hn. exact (proj1 (Forall_forall _ _) Hall _ Hn).
  - destruct b; by_decision.
  - done.
  - split; [done|]. exists 493. split; [lia|]. destruct b; vm_compute; reflexivity.
  - assert (Forall (λ e, demo_body b e.1 ≠ ""
      ∧ locate (demo_release b) (demo_source e.1) = at_name "/repo/dist" (demo_release b) e.1
      ∧ file_of (demo_release b) (demo_source e.1) = Some (demo_file e.2 (demo_body b e.1))) bundle_entries) as Hall
      by (destruct b; by_decision).
    intros n perm Hn. exact (proj1 (Forall_forall _ _) Hall _ Hn).
  - assert (Forall (λ m, m ≠ "" ∧ file_of (demo_release b) m
        = Some (demo_file 420 (lines_text (manifest_text <$> staged_artifacts demo_source)))
      ∧ Forall (λ n, locate (demo_release b) m ≠ at_name "/repo/dist" (demo_release b) n) (outputs demo_version))
      [op_operatorManifest demo_options; op_checksumManifest demo_options]) as Hall by (destruct b; by_decision).
    intros m Hm. destruct (proj1 (Forall_forall _ _) Hall _ Hm) as (Hne & Hf & Hout).
    split; [done|]. split; [by eexists|]. by apply Forall_forall.
  - by_decision.
  - assert (Forall (λ n, fs_files (demo_release b) !! at_name "/repo/dist" (demo_release b) n = None)
      (outputs demo_version)) as Hall by (destruct b; by_decision).
    intros n f Hn Hf. pose proof (proj1 (Forall_forall _ _) Hall _ Hn) as Hnone. cbn in *. congruence.
Qed.

Lemma demo_contents : release_contents "/repo" (demo_release true) (demo_body true).
Proof.
  split.
  - by_decision.
  - exists "0123456789abcdef0123456789abcdef01234567". split; [done|]. split; [done|].
    apply (proj1 (lang_times_class 40 _ _)), rmatch_ok. vm_compute. reflexivity.
  - eexists. split; [vm_compute; reflexivity|]. split; [done|vm_compute; reflexivity].
Qed.

(** Both releases are packaged; the first one is accepted, the second one is not. *)
Lemma packaged_release_accepted_witness :
  (∃ fs', package_main (H := DemoStd.demo_std) (H1 := DemoZip.demo_zip) demo_options (demo_release true) = (Ok (), fs')
     ∧ validateArtifacts (H := DemoStd.demo_std) (H1 := DemoZip.demo_zip) (H2 := DemoJSON.demo_json)
         "/repo" "/repo/dist" demo_version fs' = Ok ())
  ∧ ∃ fs', package_main (H := DemoStd.demo_std) (H1 := DemoZip.demo_zip) demo_options (demo_release false) = (Ok (), fs')
     ∧ validateArtifacts (H := DemoStd.demo_std) (H1 := DemoZip.demo_zip) (H2 := DemoJSON.demo_json)
         "/repo" "/repo/dist" demo_version fs' ≠ Ok ().
Proof.
  pose proof (λ b, packaged_release_accepted (H := DemoStd.demo_std) (H2 := DemoZip.demo_zip)
    (H0 := DemoStd.demo_laws) (H3 := DemoZip.demo_zip_laws) (H4 := DemoJSON.demo_json)
    demo_calm "/repo" "/repo/dist" demo_version demo_options (demo_release b) demo_source (demo_body b) "ELF"
    (demo_tree b)) as Hall.
  split.
  - destruct (Hall true) as (fs' & Hrun & Hiff). exists fs'. split; [exact Hrun|]. apply Hiff, demo_contents.
  - destruct (Hall false) as (fs' & Hrun & Hiff). exists fs'. split; [exact Hrun|].
    intros [[Htmpl _] _ _]%Hiff. vm_compute in Htmpl. discriminate Htmpl.
Defined.
