(* ===== verification/ReleaseWorkflow.v ===== *)
(** * Validation of the workflows (.github/scripts/release-validation/main.go, workflow.go)

    The checks of the GitHub workflows over their parsed YAML: every action is pinned
    to a commit, and the release workflow is the canonical one. The YAML decoder is a
    parameter; a document is the tree of nodes it gives. *)

From S2P Require Import Prelude GoStrings GoFormat GoRegexp GoFiles Host ReleasePackage ReleaseArtifacts.

(** ** Documents *)

(** The kinds of yaml.v3, and that of a node that was never filled. *)
Inductive node_kind := ZeroNode | DocumentNode | SequenceNode | MappingNode | ScalarNode | AliasNode.

#[global] Instance node_kind_eq_dec : EqDecision node_kind.
Proof. solve_decision. Defined.

(** [literal] is whether the style is exactly that of a literal block. The content of a
    mapping alternates keys and values. *)
Inductive node :=
| Node (kind : node_kind) (tag value : string) (literal : bool) (line : Z) (content : list node).

Definition n_kind (n : node) : node_kind := let '(Node k _ _ _ _ _) := n in k.
Definition n_tag (n : node) : string := let '(Node _ t _ _ _ _) := n in t.
Definition n_value (n : node) : string := let '(Node _ _ v _ _ _) := n in v.
Definition n_literal (n : node) : bool := let '(Node _ _ _ b _ _) := n in b.
Definition n_line (n : node) : Z := let '(Node _ _ _ _ l _) := n in l.
Definition n_content (n : node) : list node := let '(Node _ _ _ _ _ c) := n in c.

(** [yaml.Unmarshal] into a node, or the text of its error *)
Class ReleaseYAML := { yaml_Unmarshal : string → node + string }.

Definition is_scalar (n : node) : bool := bool_decide (n_kind n = ScalarNode).

(** ** Pinned actions *)

(** The nodes under a key [uses], and the keys that are not scalars, which are never
    accepted. *)
Fixpoint collectWorkflowUses (n : node) : list node :=
  match n with
  | Node MappingNode _ _ _ _ content =>
      (fix pairs (l : list node) : list node :=
         match l with
         | key :: value :: rest =>
             (if negb (is_scalar key) then [key]
              else if bool_decide (n_value key = "uses") then [value] else [])
             ++ collectWorkflowUses value ++ pairs rest
         | _ => []
         end) content
  | Node _ _ _ _ _ content =>
      (fix children (l : list node) : list node :=
         match l with child :: rest => collectWorkflowUses child ++ children rest | [] => [] end) content
  end.

Definition pinned_node (workflow : string) (n : node) : res unit :=
  let at_ := "workflow " +:+ workflow +:+ ":" +:+ itoa (n_line n) in
  if negb (is_scalar n) then errorf (at_ +:+ " action uses must be a scalar and cannot use YAML aliases") else
  let value := TrimSpace (n_value n) in
  if HasPrefix value "./" then Ok () else
  match Split value "@"%char with
  | [_; sha] => if MatchString shaPattern sha then Ok ()
                else errorf (at_ +:+ " action is not pinned to a full commit SHA")
  | _ => errorf (at_ +:+ " action is not pinned to a full commit SHA")
  end.

(** [filepath.Glob] of the files of a directory with an extension, in the order of
    their names; the directory's path has no pattern characters. *)
Definition glob_extension (dir extension : string) (fs : FS) : list string :=
  let names := omap (λ kv : list string * fs_file,
    match rev kv.1 with
    | name :: above => if bool_decide (rev above = locate fs dir) && HasSuffix name extension then Some name else None
    | [] => None
    end) (map_to_list (fs_files fs)) in
  (λ name, path_Join [dir; name]) <$> sort_by id names.

(** ** Reading mappings and sequences *)

(** A value found in a mapping, or none *)
Abbreviation node_at := (option node) (only parsing).

Section YAML.
Context `{GoStd}.

(** The pairs of a mapping, in [yamlMapping]; the state is [result]. *)
Fixpoint mapping_pairs (context : string) (result : gmap string node) (l : list node) : res (gmap string node) :=
  match l with
  | key :: value :: rest =>
      if negb (is_scalar key) || negb (bool_decide (n_tag key = "!!str")) || bool_decide (n_value key = "")
      then errorf (context +:+ " contains a non-string key at line " +:+ itoa (n_line key)) else
      if bool_decide (is_Some (result !! n_value key))
      then errorf (context +:+ " contains duplicate key " +:+ quote (n_value key))
      else mapping_pairs context (<[n_value key := value]> result) rest
  | _ => Ok result
  end.

Definition yamlMapping (n : node_at) (context : string) : res (gmap string node) :=
  match n with
  | None => errorf (context +:+ " is missing")
  | Some n =>
      n ← (if bool_decide (n_kind n = DocumentNode) then
             match n_content n with
             | [n] => Ok n
             | _ => errorf (context +:+ " is not a single document")
             end
           else Ok n);
      if bool_decide (n_kind n = AliasNode) then errorf (context +:+ " cannot use YAML aliases") else
      if negb (bool_decide (n_kind n = MappingNode)) then errorf (context +:+ " must be a mapping") else
      mapping_pairs context ∅ (n_content n)
  end.

Definition yamlStringSequence (n : node_at) (context : string) : res (list string) :=
  match n with
  | Some (Node SequenceNode _ _ _ _ content) =>
      map_res (λ value,
        if negb (is_scalar value) || negb (bool_decide (n_tag value = "!!str"))
        then errorf (context +:+ " values must be strings") else Ok (n_value value)) content
  | _ => errorf (context +:+ " must be a sequence")
  end.

Definition scalar_values (mapping : gmap string node) : gmap string string := n_value <$> mapping.

(** The map of the scalars of a mapping; a missing mapping is empty. *)
Definition yamlStringMap (n : node_at) (context : string) : res (gmap string string) :=
  match n with
  | None => Ok ∅
  | Some _ =>
      mapping ← yamlMapping n context;
      _ ← foldl_res (λ _ (kv : string * node), if is_scalar kv.2 then Ok ()
            else errorf (context +:+ " value " +:+ quote kv.1 +:+ " must be a scalar")) ()
          (map_to_list mapping);
      Ok (scalar_values mapping)
  end.

Definition yamlScalarValue (n : node_at) : string :=
  match n with Some n => if is_scalar n then n_value n else "" | None => "" end.

Definition requireOnlyYAMLKeys (mapping : gmap string node) (context : string) (allowed : list string) : res unit :=
  foldl_res (λ _ kv, if bool_decide (kv.1 ∈ allowed) then Ok ()
    else errorf (context +:+ " contains unapproved key " +:+ quote kv.1)) () (map_to_list mapping).

Definition equalStringMaps (actual expected : gmap string string) : bool :=
  bool_decide (size actual = size expected)
  && forallb (λ kv, bool_decide (default "" (actual !! kv.1) = kv.2)) (map_to_list expected).

Definition normalizeShellCommand (value : string) : string := Join (Fields value) " ".

Definition requireCanonicalRunScalar (text : string) (n : node_at) (context : string) : res unit :=
  match n with
  | Some n =>
      if negb (is_scalar n) || negb (bool_decide (n_tag n = "!!str")) || negb (n_literal n)
      then errorf (context +:+ " run command must use literal block style") else
      let lineStart := n_line n - 1 in
      if lineStart <? 0 then errorf (context +:+ " run command has an invalid source position") else
      match Split text newline_char !! Z.to_nat lineStart with
      | None => errorf (context +:+ " run command has an invalid source position")
      | Some line =>
          if negb (bool_decide (TrimSpace line = "run: |"))
          then errorf (context +:+ " run command must use exactly run: |") else Ok ()
      end
  | None => errorf (context +:+ " run command must use literal block style")
  end.

End YAML.

(** ** The release workflow *)

(** The test [len(m) != n || m[k] != v || ...] of the code, negated. *)
Definition exactly (m : gmap string string) (l : list (string * string)) : bool :=
  bool_decide (size m = length l) && forallb (λ kv, bool_decide (default "" (m !! kv.1) = kv.2)) l.

Record canonicalRunStep := {
  cr_name : string;
  cr_id : string;
  cr_workingDirectory : string;
  cr_env : list (string * string);
  cr_command : string;
}.

Definition actions : list (nat * string) :=
  [
    (0%nat, "actions/checkout@3d3c42e5aac5ba805825da76410c181273ba90b1");
    (1%nat, "actions/setup-go@b7ad1dad31e06c5925ef5d2fc7ad053ef454303e");
    (4%nat, "actions/checkout@3d3c42e5aac5ba805825da76410c181273ba90b1");
    (7%nat, "golangci/golangci-lint-action@ba0d7d2ec06a0ea1cb5fa41b2e4a3ab91d21278a");
    (13%nat, "actions/upload-artifact@043fb46d1a93c77aae656e7c1c64a875d1fc6a0a")].

Definition commands : list (nat * canonicalRunStep) :=
  [
    (2%nat, {| cr_name := "Validate trusted release controls"; cr_id := ""; cr_workingDirectory := "release-controls";
       cr_env := [];
       cr_command := "set -euo pipefail
			go test ./.github/scripts/release-validation
			go run -buildvcs=false ./.github/scripts/release-validation -mode source
			.github/scripts/select-release-tag_test.sh" |});
    (3%nat, {| cr_name := "Select release tag"; cr_id := "target"; cr_workingDirectory := "release-controls";
       cr_env := [("EVENT_NAME", "${{ github.event_name }}"); ("EVENT_REF", "${{ github.ref }}"); ("EVENT_SHA", "${{ github.sha }}")];
       cr_command := raw "set -euo pipefail
			raw_tag=$(.github/scripts/select-release-tag.sh \
			  `$EVENT_NAME` `$EVENT_REF` `$EVENT_SHA` .)
			tag_object=$(git rev-parse `$raw_tag`)
			printf 'tag=%s\n' `$raw_tag` >> `$GITHUB_OUTPUT`
			printf 'tag_object=%s\n' `$tag_object` >> `$GITHUB_OUTPUT`" |});
    (5%nat, {| cr_name := "Validate tag and provenance"; cr_id := "release"; cr_workingDirectory := "release-source";
       cr_env := [("RAW_TAG", "${{ steps.target.outputs.tag }}"); ("EXPECTED_TAG_OBJECT", "${{ steps.target.outputs.tag_object }}")];
       cr_command := raw "set -euo pipefail
			version=$(go run -buildvcs=false ./.github/scripts/release-validation -mode version -tag `$RAW_TAG`)
			test `$(git rev-parse `$RAW_TAG`)` = `$EXPECTED_TAG_OBJECT`
			release_sha=$(git rev-parse `$RAW_TAG^{commit}`)
			test `$(git rev-parse HEAD)` = `$release_sha`
			git fetch --no-tags origin main
			git merge-base --is-ancestor `$release_sha` origin/main
			printf 'version=%s\n' `$version` >> `$GITHUB_OUTPUT`
			printf 'release_sha=%s\n' `$release_sha` >> `$GITHUB_OUTPUT`" |});
    (6%nat, {| cr_name := "Verify"; cr_id := ""; cr_workingDirectory := "release-source";
       cr_env := [];
       cr_command := "make fmt-check
			make vet
			make test
			make test-release
			make validate-source
			make scan-secrets" |});
    (8%nat, {| cr_name := "Resolve immutable host image matrix"; cr_id := ""; cr_workingDirectory := "release-source";
       cr_env := [];
       cr_command := raw "set -euo pipefail
			.github/scripts/resolve-host-images.sh > `$RUNNER_TEMP/host-images.json`" |});
    (9%nat, {| cr_name := "Package"; cr_id := ""; cr_workingDirectory := "release-source";
       cr_env := [("VERSION", "${{ steps.release.outputs.version }}"); ("RAW_TAG", "${{ steps.target.outputs.tag }}")];
       cr_command := raw "set -euo pipefail
			library=`dist/subscription-pool-v${VERSION}.so`
			archive=`dist/subscription-pool_${VERSION}_linux_amd64.zip`
			make package VERSION=`$VERSION` OUT=`$library` ARCHIVE=`$archive` \
			  OPERATOR=`dist/subscription-pool-v${VERSION}-operator.zip` \
			  RELEASE_SHA=`$(git rev-parse `$RAW_TAG^{commit}`)` \
			  COMPATIBILITY_EVIDENCE=`$RUNNER_TEMP/host-images.json`" |});
    (10%nat, {| cr_name := "Verify release artifacts"; cr_id := ""; cr_workingDirectory := "release-source";
       cr_env := [("VERSION", "${{ steps.release.outputs.version }}"); ("RAW_TAG", "${{ steps.target.outputs.tag }}")];
       cr_command := raw "set -euo pipefail
			library=`dist/subscription-pool-v${VERSION}.so`
			archive=`dist/subscription-pool_${VERSION}_linux_amd64.zip`
			nm -D `$library` | grep -Eq '[[:space:]]cliproxy_plugin_init$'
			test `$(unzip -Z1 `$archive`)` = `subscription-pool.so`
			cmp `$library` <(unzip -p `$archive` subscription-pool.so)
			go run -buildvcs=false ./.github/scripts/release-validation \
			  -mode release -version `$VERSION` -tag `$RAW_TAG`" |});
    (11%nat, {| cr_name := "Test host compatibility matrix"; cr_id := ""; cr_workingDirectory := "release-source";
       cr_env := [("VERSION", "${{ steps.release.outputs.version }}"); ("HOST_MATRIX_NAMESPACE", "root")];
       cr_command := raw "set -euo pipefail
			sudo --preserve-env=VERSION,HOST_MATRIX_NAMESPACE make test-host-matrix VERSION=`$VERSION` OUT=`dist/subscription-pool-v${VERSION}.so` HOST_IMAGES=`$RUNNER_TEMP/host-images.json` HOST_MATRIX_WORK=`$RUNNER_TEMP/host-matrix`" |});
    (12%nat, {| cr_name := "Stage release artifacts"; cr_id := ""; cr_workingDirectory := "release-source";
       cr_env := [("VERSION", "${{ steps.release.outputs.version }}"); ("RELEASE_SHA", "${{ steps.release.outputs.release_sha }}")];
       cr_command := raw "set -euo pipefail
			mkdir release-artifacts
			cp `dist/subscription-pool-v${VERSION}.so` \
			   `dist/subscription-pool_${VERSION}_linux_amd64.zip` \
			   `dist/subscription-pool-v${VERSION}-operator.zip` \
			   dist/checksums.txt \
			   dist/compatibility-evidence.json \
			   dist/config.yaml.tmpl \
			   dist/registry.json \
			   dist/router-capacity-source.json \
			   dist/verify-live.sh \
			   dist/verify-live-opencodego.sh \
			   dist/collector-zai.py \
			   dist/collector-opencodego.py \
			   dist/prepare-usage-dir.py \
			   dist/remove-usage-output.py \
			   dist/rollback.sh \
			   dist/README.md \
			   dist/release-sha.txt \
			   release-artifacts/
			test `$(<release-artifacts/release-sha.txt)` = `$RELEASE_SHA`" |})].

(** The publication command *)
Definition publish_command : string :=
  raw "set -euo pipefail
		actual_tag_object=$(gh api `repos/${GH_REPO}/git/ref/tags/${RAW_TAG}` --jq .object.sha)
		test `$actual_tag_object` = `$EXPECTED_TAG_OBJECT`
		gh release create `$RAW_TAG` \
		  `release-artifacts/subscription-pool-v${VERSION}.so` \
		  `release-artifacts/subscription-pool_${VERSION}_linux_amd64.zip` \
		  `release-artifacts/subscription-pool-v${VERSION}-operator.zip` \
		  release-artifacts/checksums.txt \
		  release-artifacts/compatibility-evidence.json \
		  release-artifacts/config.yaml.tmpl \
		  release-artifacts/registry.json \
		  release-artifacts/router-capacity-source.json \
		  release-artifacts/verify-live.sh \
		  release-artifacts/verify-live-opencodego.sh \
		  release-artifacts/collector-zai.py \
		  release-artifacts/collector-opencodego.py \
		  release-artifacts/prepare-usage-dir.py \
		  release-artifacts/remove-usage-output.py \
		  release-artifacts/rollback.sh \
		  release-artifacts/README.md \
		  release-artifacts/release-sha.txt \
		  --verify-tag --generate-notes".

(** The inputs of the actions, and what the code says of a difference *)
Definition action_inputs : list (nat * (list (string * string) * string)) :=
  [(0%nat, ([("fetch-depth", "0"); ("persist-credentials", "false"); ("ref", "${{ github.sha }}"); ("path", "release-controls")],
            "trusted control checkout must use the workflow SHA without credentials"));
   (1%nat, ([("go-version-file", "release-controls/go.mod"); ("cache-dependency-path", "release-controls/go.sum"); ("cache", "true")],
            "Go setup must use only the trusted control module files"));
   (4%nat, ([("fetch-depth", "0"); ("persist-credentials", "false"); ("ref", "${{ steps.target.outputs.tag }}"); ("path", "release-source")],
            "release source checkout must use only the selected immutable tag without credentials"));
   (7%nat, ([("version", "v2.13.2"); ("working-directory", "release-source")],
            "release lint must use only the immutable source checkout"));
   (13%nat, ([("name", "release-artifacts"); ("path", "release-source/release-artifacts/"); ("if-no-files-found", "error"); ("retention-days", "1")],
            "release artifact upload must use only the canonical immutable-source inputs"))].

Definition assoc {A} (index : nat) (l : list (nat * A)) : option A :=
  snd <$> (list_find (λ e, e.1 = index) l ≫= λ found, Some found.2).

Section Workflow.
Context `{GoStd}.

Definition step_number (index : nat) : string := itoa (Z.of_nat index + 1).

Definition validateReleaseActionStep (index : nat) (step : gmap string node) (approved : string) : res unit :=
  _ ← requireOnlyYAMLKeys step ("release build step " +:+ step_number index) ["name"; "uses"; "with"];
  if negb (bool_decide (yamlScalarValue (step !! "uses") = approved))
  then errorf ("release build action step " +:+ step_number index +:+ " must use the canonical pinned action") else
  inputs ← yamlStringMap (step !! "with") ("release build action step " +:+ step_number index +:+ " inputs");
  match assoc index action_inputs with
  | Some (want, message) => if negb (exactly inputs want) then errorf message else Ok ()
  | None => Ok ()
  end.

Definition validateReleaseCommandStep (text : string) (index : nat) (step : gmap string node)
    (canonical : canonicalRunStep) : res unit :=
  let this := "release build step " +:+ step_number index in
  _ ← requireOnlyYAMLKeys step this ["name"; "id"; "working-directory"; "env"; "run"];
  if negb (bool_decide (yamlScalarValue (step !! "name") = cr_name canonical))
     || negb (bool_decide (yamlScalarValue (step !! "id") = cr_id canonical))
     || negb (bool_decide (yamlScalarValue (step !! "working-directory") = cr_workingDirectory canonical))
  then errorf (this +:+ " must use the canonical identity and working directory") else
  env ← yamlStringMap (step !! "env") (this +:+ " environment");
  if negb (equalStringMaps env (list_to_map (cr_env canonical)))
  then errorf (this +:+ " must use only the canonical environment") else
  _ ← requireCanonicalRunScalar text (step !! "run") this;
  if negb (bool_decide (normalizeShellCommand (yamlScalarValue (step !! "run")) = normalizeShellCommand (cr_command canonical)))
  then errorf (this +:+ " must use the canonical command") else Ok ().

(** The steps from [index] on *)
Fixpoint validate_steps (text : string) (index : nat) (l : list node) : res unit :=
  match l with
  | [] => Ok ()
  | n :: l =>
      step ← yamlMapping (Some n) ("release build step " +:+ step_number index);
      _ ← match assoc index actions with
          | Some approved => validateReleaseActionStep index step approved
          | None =>
              match assoc index commands with
              | None => errorf ("release build step " +:+ step_number index +:+ " is not approved")
              | Some canonical => validateReleaseCommandStep text index step canonical
              end
          end;
      validate_steps text (S index) l
  end.

(** A step's list of nodes, when it is a sequence of this length *)
Definition steps_of (n : node_at) (count : nat) (message : string) : res (list node) :=
  match n with
  | Some (Node SequenceNode _ _ _ _ content) =>
      if bool_decide (length content = count) then Ok content else errorf message
  | _ => errorf message
  end.

(** The error of a check, replaced by one text *)
Definition or_message {A} (message : string) (r : res A) (ok : A → bool) : res unit :=
  match r with Ok a => if ok a then Ok () else errorf message | Err _ => errorf message end.

Definition publish_inputs : list (string * string) := [("name", "release-artifacts"); ("path", "release-artifacts")].

Definition publish_env : list (string * string) :=
  [("GH_TOKEN", "${{ github.token }}"); ("GH_REPO", "${{ github.repository }}");
   ("VERSION", "${{ needs.build.outputs.version }}"); ("RAW_TAG", "${{ needs.build.outputs.tag }}");
   ("EXPECTED_TAG_OBJECT", "${{ needs.build.outputs.tag_object }}")].

Definition download_action : string := "actions/download-artifact@3e5f45b2cfb9172054b4087a40e8e0b5a5461e7c".

Definition validatePublishJob (text : string) (n : node_at) : res unit :=
  publish ← yamlMapping n "release publish job";
  _ ← requireOnlyYAMLKeys publish "release publish job" ["needs"; "runs-on"; "permissions"; "steps"];
  if negb (bool_decide (yamlScalarValue (publish !! "needs") = "build"))
     || negb (bool_decide (yamlScalarValue (publish !! "runs-on") = "ubuntu-24.04"))
  then errorf "release publish job must depend on build and use the approved runner" else
  _ ← or_message "release publish job must hold only contents write permission"
        (yamlStringMap (publish !! "permissions") "release publish job permissions")
        (λ permissions, exactly permissions [("contents", "write")]);
  steps ← steps_of (publish !! "steps") 2
    "release publish job must contain exactly the artifact download and canonical publication steps";
  download ← yamlMapping (steps !! 0%nat) "release artifact download step";
  _ ← requireOnlyYAMLKeys download "release artifact download step" ["name"; "uses"; "with"];
  _ ← or_message "release artifact download step must use the canonical action and inputs"
        (yamlStringMap (download !! "with") "release artifact download inputs")
        (λ inputs, bool_decide (yamlScalarValue (download !! "uses") = download_action) && exactly inputs publish_inputs);
  publication ← yamlMapping (steps !! 1%nat) "release publication step";
  _ ← requireOnlyYAMLKeys publication "release publication step" ["name"; "env"; "run"];
  _ ← or_message "release publication environment must contain exactly the canonical variables"
        (yamlStringMap (publication !! "env") "release publication environment")
        (λ env, exactly env publish_env);
  _ ← requireCanonicalRunScalar text (publication !! "run") "release publication step";
  if negb (bool_decide (normalizeShellCommand (yamlScalarValue (publication !! "run")) = normalizeShellCommand publish_command))
  then errorf "release publish job must use the canonical publication command" else Ok ().

Definition build_outputs : list (string * string) :=
  [("version", "${{ steps.release.outputs.version }}"); ("tag", "${{ steps.target.outputs.tag }}");
   ("tag_object", "${{ steps.target.outputs.tag_object }}")].

Context `{ReleaseYAML}.

Definition parse_yaml (prefix text : string) : res node :=
  match yaml_Unmarshal text with inl n => Ok n | inr msg => Err (EWrap prefix (EText msg)) end.

Definition validateReleaseWorkflowShape (text : string) : res unit :=
  document ← parse_yaml "parse release workflow structure: " text;
  workflow ← yamlMapping (Some document) "release workflow";
  _ ← requireOnlyYAMLKeys workflow "release workflow" ["name"; "on"; "permissions"; "jobs"];
  trigger ← yamlMapping (workflow !! "on") "release workflow trigger";
  _ ← requireOnlyYAMLKeys trigger "release workflow trigger" ["push"];
  push ← yamlMapping (trigger !! "push") "release push trigger";
  _ ← requireOnlyYAMLKeys push "release push trigger" ["tags"];
  _ ← or_message "release push trigger must contain only v* tags"
        (yamlStringSequence (push !! "tags") "release tag trigger") (λ tags, bool_decide (tags = ["v*"]));
  _ ← or_message "release workflow must default contents permission to read"
        (yamlStringMap (workflow !! "permissions") "release workflow permissions")
        (λ permissions, exactly permissions [("contents", "read")]);
  jobs ← yamlMapping (workflow !! "jobs") "release workflow jobs";
  _ ← requireOnlyYAMLKeys jobs "release workflow jobs" ["build"; "publish"];
  build ← yamlMapping (jobs !! "build") "release build job";
  _ ← requireOnlyYAMLKeys build "release build job" ["runs-on"; "outputs"; "steps"];
  if negb (bool_decide (yamlScalarValue (build !! "runs-on") = "ubuntu-24.04"))
  then errorf "release build job must use the approved runner" else
  _ ← or_message "release build job must export only the validated version, tag, and tag object"
        (yamlStringMap (build !! "outputs") "release build outputs") (λ outputs, exactly outputs build_outputs);
  steps ← steps_of (build !! "steps") 14 "release build job must contain exactly the canonical release steps";
  _ ← validate_steps text 0 steps;
  validatePublishJob text (jobs !! "publish").

(** ** The source *)

Context `{GoOS} `{GoZip} `{ReleaseJSON}.

Definition workflow_paths (root : string) (fs : FS) : list string :=
  let dir := path_Join [root; ".github"; "workflows"] in
  glob_extension dir ".yml" fs ++ glob_extension dir ".yaml" fs.

Definition check_workflow (fs : FS) (path : string) : res unit :=
  text ← wrap_err ("read workflow " +:+ path_Base path +:+ ": ") (os_ReadFile path fs);
  document ← parse_yaml ("parse workflow " +:+ path_Base path +:+ ": ") text;
  foldl_res (λ _ n, pinned_node (path_Base path) n) () (collectWorkflowUses document).

Definition validateWorkflowActionPins (root : string) (fs : FS) : res unit :=
  let paths := workflow_paths root fs in
  if bool_decide (paths = []) then errorf "no GitHub workflows found" else
  foldl_res (λ _ path, check_workflow fs path) () paths.

Definition validateReleaseWorkflowBoundary (root : string) (fs : FS) : res unit :=
  ciRaw ← wrap_err "read CI workflow: " (os_ReadFile (path_Join [root; ".github"; "workflows"; "ci.yml"]) fs);
  ciDocument ← parse_yaml "parse CI workflow: " ciRaw;
  ciWorkflow ← yamlMapping (Some ciDocument) "CI workflow";
  ciTrigger ← yamlMapping (ciWorkflow !! "on") "CI workflow trigger";
  ciPush ← yamlMapping (ciTrigger !! "push") "CI push trigger";
  _ ← or_message "CI push trigger must contain only main"
        (yamlStringSequence (ciPush !! "branches") "CI push branches") (λ branches, bool_decide (branches = ["main"]));
  text ← wrap_err "read release workflow: " (os_ReadFile (path_Join [root; ".github"; "workflows"; "release.yml"]) fs);
  validateReleaseWorkflowShape text.

(** The output of [git ls-files -z] in a directory, or the text of its error, is an
    argument. *)
Definition trackedFiles (git_ls_files : string → string + string) (root : string) : res (list string) :=
  match git_ls_files root with
  | inr msg => Err (EWrap "git ls-files: " (EText msg))
  | inl output =>
      if len output =? 0 then Ok [] else
      let parts := Split (prefix_bytes (String.length output - 1) output) "000"%char in
      Ok (filter (λ name, name ≠ "") parts)
  end.

Definition validateSource (git_ls_files : string → string + string) (root : string) (fs : FS) : res unit :=
  _ ← validateDocumentation root fs;
  _ ← validateHostImagePin root fs;
  _ ← validateWorkflowActionPins root fs;
  _ ← validateReleaseWorkflowBoundary root fs;
  files ← trackedFiles git_ls_files root;
  if bool_decide (files = []) then errorf "source validation found no files" else Ok ().

(** What the flags were parsed into *)
Record flags := {
  fl_mode : string;
  fl_root : string;
  fl_tag : string;
  fl_version : string;
  fl_dist : string;
  fl_args : list string;
}.

(** [run], after its flags are parsed: what it prints, if anything. *)
Definition run_validation (git_ls_files : string → string + string) (f : flags) (fs : FS) : res (option string) :=
  if negb (bool_decide (fl_args f = [])) then errorf ("unexpected arguments: " +:+ Join (fl_args f) " ") else
  root ← (if bool_decide (fl_root f = "") then
            match os_fault "getwd" "" with
            | Some msg => Err (EWrap "get current directory: " (EText msg))
            | None => Ok ("/" +:+ Join (fs_cwd fs) "/")
            end
          else Ok (fl_root f));
  if bool_decide (fl_mode f = "source") then _ ← validateSource git_ls_files root fs; Ok None
  else if bool_decide (fl_mode f = "release")
  then _ ← validateRelease root (fl_dist f) (fl_tag f) (fl_version f) fs; Ok None
  else if bool_decide (fl_mode f = "version") then resolved ← versionFromTag (fl_tag f); Ok (Some resolved)
  else errorf ("unknown mode " +:+ quote (fl_mode f)).

End Workflow.

(** ** Every action is pinned *)

Fixpoint pairs_of (l : list node) : list (node * node) :=
  match l with key :: value :: rest => (key, value) :: pairs_of rest | _ => [] end.

(** What a pair of a mapping contributes to the collection. *)
Definition pair_uses (kv : node * node) : list node :=
  (if negb (is_scalar kv.1) then [kv.1] else if bool_decide (n_value kv.1 = "uses") then [kv.2] else [])
  ++ collectWorkflowUses kv.2.

Lemma collect_eq n :
  collectWorkflowUses n
  = if bool_decide (n_kind n = MappingNode) then pairs_of (n_content n) ≫= pair_uses
    else n_content n ≫= collectWorkflowUses.
Proof.
  destruct n as [kind tag value literal line content]. cbn [n_kind n_content].
  assert (∀ l, (fix children (l : list node) : list node :=
     match l with child :: rest => collectWorkflowUses child ++ children rest | [] => [] end) l
    = l ≫= collectWorkflowUses) as Hchildren by (induction l as [|n l IH]; [done|cbn; by rewrite IH]).
  destruct kind; cbn [collectWorkflowUses]; rewrite ?Hchildren;
    try (rewrite bool_decide_eq_false_2 by done; done).
  rewrite bool_decide_eq_true_2 by done. clear. revert content. fix IH 1.
  intros [|key [|v rest]]; [done|done|]. cbn [pairs_of mbind list_bind]. rewrite IH.
  unfold pair_uses. cbn [fst snd]. by rewrite app_assoc.
Qed.

(** The nodes of a document; the keys of its mappings are looked at with their pairs. *)
Inductive within (doc : node) : node → Prop :=
| within_self : within doc doc
| within_child m n : within doc m → n_kind m ≠ MappingNode → n ∈ n_content m → within doc n
| within_value m key value :
    within doc m → n_kind m = MappingNode → (key, value) ∈ pairs_of (n_content m) → within doc value.

Lemma within_collect doc m : within doc m → collectWorkflowUses m ⊆ collectWorkflowUses doc.
Proof.
  induction 1 as [|m n _ IH Hkind Hn|m key value _ IH Hkind Hkv]; [done|..]; (etrans; [|exact IH]);
    intros x Hx; rewrite (collect_eq m).
  - rewrite bool_decide_eq_false_2 by done. apply list_elem_of_bind. by exists n.
  - rewrite bool_decide_eq_true_2 by done. apply list_elem_of_bind. exists (key, value).
    split; [|done]. unfold pair_uses. apply elem_of_app. by right.
Qed.

(** A local action, or one at a full commit *)
Definition pinned_action (value : string) : Prop :=
  HasPrefix (TrimSpace value) "./" = true ∨
  ∃ action sha, TrimSpace value = action +:+ "@" +:+ sha ∧ ("@"%char ∉ chars action)
    ∧ String.length sha = 40%nat ∧ Forall (λ c, is_lower_hex c = true) (chars sha).

Lemma pinned_node_ok workflow n :
  pinned_node workflow n = Ok () → is_scalar n = true ∧ pinned_action (n_value n).
Proof.
  unfold pinned_node, pinned_action. destruct (is_scalar n); [|done]. cbn [negb].
  set (value := TrimSpace (n_value n)). destruct (HasPrefix value "./"); [by auto|].
  destruct (Split value "@"%char) as [|action [|sha [|]]] eqn:Hsplit; try done.
  destruct (MatchString shaPattern sha) eqn:Hm; [|done]. intros _. split; [done|]. right.
  unfold Split in Hsplit. pose proof (split_list_free "@"%char (chars value)) as Hfree.
  destruct (split_list "@"%char (chars value)) as [|a ws] eqn:Hl; [done|].
  apply Forall_cons in Hfree as [Hfree _].
  apply split_list_cons in Hl as [[_ ->]|(k & Hvalue & Hk)]; [done|].
  destruct ws as [|b [|]]; try done. apply split_list_cons in Hk as [[-> _]|(k' & -> & Hk)];
    [|by apply split_list_nonempty in Hk].
  cbn in Hsplit. injection Hsplit as <- <-. exists (str a), (str b).
  apply MatchString_ok, lang_times_class in Hm as [Hlen Hall]. rewrite chars_str in Hlen, Hall.
  rewrite !chars_str, length_str. split; [|split; [|done]].
  - apply chars_inj. rewrite Hvalue, !chars_app, !chars_str. done.
  - exact Hfree.
Qed.

(** C26: Every action of every workflow is pinned. When [validateWorkflowActionPins]
    accepts a repository, it has a workflow, and each of its workflow files parses to a
    document in which every mapping, at any depth, has only scalars as keys, and each
    key [uses] has a scalar that names a local action or an action at a commit of forty
    lowercase hexadecimal digits. *)
Theorem workflow_actions_pinned `{GoStd} `{ReleaseYAML} `{GoOS} root fs :
  validateWorkflowActionPins root fs = Ok () →
  workflow_paths root fs ≠ [] ∧
  ∀ path, path ∈ workflow_paths root fs →
    ∃ text document, os_ReadFile path fs = Ok text ∧ yaml_Unmarshal text = inl document
      ∧ ∀ m key value, within document m → n_kind m = MappingNode → (key, value) ∈ pairs_of (n_content m) →
          is_scalar key = true
          ∧ (n_value key = "uses" → is_scalar value = true ∧ pinned_action (n_value value)).
Proof.
  unfold validateWorkflowActionPins. case_bool_decide as Hpaths; [done|]. intros Hall. split; [done|].
  intros path Hpath. pose proof (foldl_res_check _ _ _ Hall path Hpath) as Hcheck. unfold check_workflow in Hcheck.
  destruct (os_ReadFile path fs) as [text|]; [|done]. cbn [wrap_err mbind res_bind] in Hcheck.
  unfold parse_yaml in Hcheck. destruct (yaml_Unmarshal text) as [document|] eqn:Hyaml; [|done].
  cbn [mbind res_bind] in Hcheck. exists text, document. split; [done|]. split; [done|].
  intros m key value Hm Hkind Hkv.
  assert (pair_uses (key, value) ⊆ collectWorkflowUses document) as Hsub.
  { etrans; [|by apply within_collect]. rewrite (collect_eq m), bool_decide_eq_true_2 by done.
    intros x Hx. apply list_elem_of_bind. by exists (key, value). }
  assert (∀ n, n ∈ pair_uses (key, value) → is_scalar n = true ∧ pinned_action (n_value n)) as Hnode.
  { intros n Hn. eapply pinned_node_ok, (foldl_res_check _ _ _ Hcheck). by apply Hsub. }
  unfold pair_uses in Hnode. cbn [fst snd] in Hnode. destruct (is_scalar key) eqn:Hkey; cbn [negb] in Hnode.
  - split; [done|]. intros Huses. apply Hnode. rewrite bool_decide_eq_true_2 by done. left.
  - destruct (Hnode key) as [Hk _]; [left|congruence].
Qed.

(** ** The release workflow is the canonical one *)

Lemma fields_ok word l :
  Forall (λ c, is_space c = false) word →
  Forall (λ w, w ≠ [] ∧ Forall (λ c, is_space c = false) w) (fields_list word l).
Proof.
  revert word. induction l as [|c l IH]; intros word Hword; cbn [fields_list].
  - destruct word as [|d word'] eqn:Hw; [constructor|]. rewrite <- Hw in *. constructor; [|constructor].
    split; [|by apply Forall_rev]. intros Hr. apply (f_equal (@rev ascii)) in Hr. rewrite rev_involutive in Hr. cbn in Hr. congruence.
  - destruct (is_space c) eqn:Hc; [|apply IH; by constructor].
    destruct word as [|d word'] eqn:Hw; [by apply IH|]. rewrite <- Hw in *. constructor; [|by apply IH].
    split; [|by apply Forall_rev]. intros Hr. apply (f_equal (@rev ascii)) in Hr. rewrite rev_involutive in Hr. cbn in Hr. congruence.
Qed.

(** The words of words joined by spaces *)
Lemma Fields_Join ws :
  Forall (λ w, w ≠ "" ∧ Forall (λ c, is_space c = false) (chars w)) ws → Fields (Join ws " ") = ws.
Proof.
  intros Hws. unfold Fields.
  assert (∀ w, w ≠ "" → ∃ c l, rev (chars w) = c :: l ∧ rev (c :: l) = chars w) as Hrev.
  { intros w Hw. destruct (rev (chars w)) as [|c l] eqn:Hr.
    - destruct Hw. apply chars_inj. by rewrite <- (rev_involutive (chars w)), Hr.
    - exists c, l. split; [done|]. by rewrite <- Hr, rev_involutive. }
  assert (∀ w r, Forall (λ c, is_space c = false) (chars w) →
    fields_list [] (chars w ++ r) = fields_list (rev (chars w)) r) as Hword.
  { intros w r Hw. rewrite <- (app_nil_r (rev (chars w))). generalize (@nil ascii) as acc. revert Hw.
    generalize (chars w). intros l Hl. induction Hl as [|c l Hc _ IH]; intros acc; [done|].
    cbn [app fields_list rev]. rewrite Hc. rewrite IH, <- app_assoc. done. }
  induction Hws as [|w ws [Hne Hw] Hws IH]; [done|]. destruct (Hrev w Hne) as (c & l & Hr & Hback).
  destruct ws as [|v ws].
  - cbn [Join]. rewrite <- (app_nil_r (chars w)), Hword by done. rewrite Hr. cbn [fields_list]. rewrite Hback.
    cbn. by rewrite str_chars.
  - change (Join (w :: v :: ws) " ") with (w +:+ " " +:+ Join (v :: ws) " "). rewrite !chars_app.
    rewrite Hword by done. change (chars " ") with [" "%char]. cbn [app fields_list].
    change (is_space " ") with true. cbn iota. rewrite Hr, Hback. cbn [fmap list_fmap].
    rewrite str_chars. f_equal. exact IH.
Qed.

Lemma Fields_words s : Forall (λ w, w ≠ "" ∧ Forall (λ c, is_space c = false) (chars w)) (Fields s).
Proof.
  unfold Fields. apply Forall_fmap. eapply Forall_impl; [by apply fields_ok|].
  intros w [Hne Hw]. cbn. rewrite chars_str. split; [|done]. intros Hs. apply Hne.
  by rewrite <- (chars_str w), Hs.
Qed.

(** The normal form of a command keeps its words and nothing else. *)
Lemma normalize_words s t : normalizeShellCommand s = normalizeShellCommand t ↔ Fields s = Fields t.
Proof.
  unfold normalizeShellCommand. split; [|by intros ->]. intros Heq.
  rewrite <- (Fields_Join (Fields s) (Fields_words s)), Heq. apply Fields_Join, Fields_words.
Qed.

(** Maps given by their size and entries *)
Lemma map_exactly (m : gmap string string) l :
  NoDup (fst <$> l) → Forall (λ kv, kv.2 ≠ "") l → size m = length l →
  forallb (λ kv, bool_decide (default "" (m !! kv.1) = kv.2)) l = true → m = list_to_map l.
Proof.
  intros Hnd Hne Hsize Hall. symmetry. apply map_subseteq_size_eq.
  - apply map_subseteq_spec. intros k v Hkv. apply elem_of_list_to_map in Hkv; [|done].
    pose proof (proj1 (forallb_forall _ _) Hall _ (proj1 (list_elem_of_In _ _) Hkv)) as Hd. cbn in Hd.
    apply bool_decide_eq_true_1 in Hd. pose proof (proj1 (Forall_forall _ _) Hne _ Hkv) as Hv. cbn in Hv.
    destruct (m !! k); cbn in Hd; congruence.
  - rewrite Hsize, <- (length_fmap fst), <- (size_list_to_set (C := gset string)) by done.
    rewrite <- dom_list_to_map_L, size_dom. done.
Qed.

Lemma exactly_ok m l :
  bool_decide (NoDup (fst <$> l)) && forallb (λ kv, negb (bool_decide (kv.2 = ""))) l = true →
  exactly m l = true → m = list_to_map l.
Proof.
  intros [Hnd%bool_decide_eq_true_1 Hne]%andb_true_iff [Hsize%bool_decide_eq_true_1 Hall]%andb_true_iff.
  apply map_exactly; [done| |done|done]. apply Forall_forall. intros kv Hkv.
  pose proof (proj1 (forallb_forall _ _) Hne _ (proj1 (list_elem_of_In _ _) Hkv)) as Hd.
  by apply negb_true_iff, bool_decide_eq_false_1 in Hd.
Qed.

Lemma equal_maps_ok m l :
  bool_decide (NoDup (fst <$> l)) && forallb (λ kv, negb (bool_decide (kv.2 = ""))) l = true →
  equalStringMaps m (list_to_map l) = true → m = list_to_map l.
Proof.
  intros Hl [Hsize%bool_decide_eq_true_1 Hall]%andb_true_iff. pose proof Hl as [Hnd%bool_decide_eq_true_1 _]%andb_true_iff.
  apply exactly_ok; [done|]. unfold exactly. apply andb_true_iff. split.
  - apply bool_decide_eq_true_2. rewrite Hsize, <- size_dom, dom_list_to_map_L.
    rewrite size_list_to_set by done. apply length_fmap.
  - apply forallb_forall. intros kv Hkv%list_elem_of_In. apply (proj1 (forallb_forall _ _) Hall), list_elem_of_In.
    destruct kv as [k v]. by apply elem_of_map_to_list, elem_of_list_to_map_1.
Qed.

(** *** What a workflow does

    A reading of the workflow that leaves out only the names of steps that use an
    action: what triggers it, its permissions, its jobs, and for each step the action
    with its inputs or the words of its command with its environment; and every key
    that is not among these. *)
Inductive step_view :=
| StepUses (action : string) (inputs : gmap string string) (other : gset string)
| StepRun (name id directory : string) (env : gmap string string) (words : list string) (other : gset string).

Record job_view := {
  jv_keys : gset string;
  jv_runner : string;
  jv_needs : string;
  jv_permissions : option (gmap string string);
  jv_outputs : option (gmap string string);
  jv_steps : option (list (option step_view));
}.

Record workflow_view := {
  wv_keys : gset string;
  wv_triggers : gset string;
  wv_push : gset string;
  wv_tags : option (list string);
  wv_permissions : option (gmap string string);
  wv_jobs : gset string;
  wv_build : option job_view;
  wv_publish : option job_view;
}.

Definition ok_value {A} (r : res A) : option A := match r with Ok a => Some a | Err _ => None end.

Section View.
Context `{GoStd}.

Definition mapping_of (n : option node) : option (gmap string node) := ok_value (yamlMapping n "").
Definition scalars_of (n : option node) : option (gmap string string) := ok_value (yamlStringMap n "").

Definition view_step (n : node) : option step_view :=
  step ← mapping_of (Some n);
  match step !! "uses" with
  | Some _ =>
      inputs ← scalars_of (step !! "with");
      Some (StepUses (yamlScalarValue (step !! "uses")) inputs (dom step ∖ {["name"; "uses"; "with"]}))
  | None =>
      env ← scalars_of (step !! "env");
      Some (StepRun (yamlScalarValue (step !! "name")) (yamlScalarValue (step !! "id"))
              (yamlScalarValue (step !! "working-directory")) env (Fields (yamlScalarValue (step !! "run")))
              (dom step ∖ {["name"; "id"; "working-directory"; "env"; "run"]}))
  end.

Definition view_job (n : option node) : option job_view :=
  job ← mapping_of n;
  Some {| jv_keys := dom job; jv_runner := yamlScalarValue (job !! "runs-on");
          jv_needs := yamlScalarValue (job !! "needs"); jv_permissions := scalars_of (job !! "permissions");
          jv_outputs := scalars_of (job !! "outputs");
          jv_steps := match job !! "steps" with
                      | Some (Node SequenceNode _ _ _ _ steps) => Some (view_step <$> steps)
                      | _ => None
                      end |}.

Definition view_workflow (document : node) : option workflow_view :=
  workflow ← mapping_of (Some document);
  trigger ← mapping_of (workflow !! "on");
  push ← mapping_of (trigger !! "push");
  jobs ← mapping_of (workflow !! "jobs");
  Some {| wv_keys := dom workflow ∖ {["name"]}; wv_triggers := dom trigger; wv_push := dom push;
          wv_tags := ok_value (yamlStringSequence (push !! "tags") "");
          wv_permissions := scalars_of (workflow !! "permissions"); wv_jobs := dom jobs;
          wv_build := view_job (jobs !! "build"); wv_publish := view_job (jobs !! "publish") |}.

End View.

(** *** The canonical workflow *)

Definition canonical_step (index : nat) : option step_view :=
  match assoc index actions with
  | Some action => Some (StepUses action (list_to_map (default [] (fst <$> assoc index action_inputs))) ∅)
  | None =>
      c ← assoc index commands;
      Some (StepRun (cr_name c) (cr_id c) (cr_workingDirectory c) (list_to_map (cr_env c))
              (Fields (cr_command c)) ∅)
  end.

(** The name of the publication step is not looked at. *)
Definition canonical_workflow (publication : string) : workflow_view := {|
  wv_keys := {["on"; "permissions"; "jobs"]};
  wv_triggers := {["push"]};
  wv_push := {["tags"]};
  wv_tags := Some ["v*"];
  wv_permissions := Some {["contents" := "read"]};
  wv_jobs := {["build"; "publish"]};
  wv_build := Some {|
    jv_keys := {["runs-on"; "outputs"; "steps"]}; jv_runner := "ubuntu-24.04"; jv_needs := "";
    jv_permissions := Some ∅; jv_outputs := Some (list_to_map build_outputs);
    jv_steps := Some (canonical_step <$> List.seq 0%nat 14%nat) |};
  wv_publish := Some {|
    jv_keys := {["needs"; "runs-on"; "permissions"; "steps"]}; jv_runner := "ubuntu-24.04"; jv_needs := "build";
    jv_permissions := Some {["contents" := "write"]}; jv_outputs := Some ∅;
    jv_steps := Some [Some (StepUses download_action (list_to_map publish_inputs) ∅);
                      Some (StepRun publication "" "" (list_to_map publish_env) (Fields publish_command) ∅)] |};
|}.

(** *** What the checks say of the readings *)

Section Canonical.
Context `{GoStd}.

Lemma mapping_pairs_context c d acc l m : mapping_pairs c acc l = Ok m → mapping_pairs d acc l = Ok m.
Proof.
  revert l acc. fix IH 1. intros [|key [|value rest]] acc; cbn; [done|done|].
  case_match; [done|]. case_match; [done|]. apply IH.
Qed.

Lemma mapping_of_ok n c m : yamlMapping n c = Ok m → mapping_of n = Some m.
Proof.
  assert (∀ n c, (if bool_decide (n_kind n = AliasNode) then errorf (c +:+ " cannot use YAML aliases") else
    if negb (bool_decide (n_kind n = MappingNode)) then errorf (c +:+ " must be a mapping") else
    mapping_pairs c ∅ (n_content n)) = Ok m →
    ok_value (if bool_decide (n_kind n = AliasNode) then errorf ("" +:+ " cannot use YAML aliases") else
    if negb (bool_decide (n_kind n = MappingNode)) then errorf ("" +:+ " must be a mapping") else
    mapping_pairs "" ∅ (n_content n)) = Some m) as Hinner.
  { clear. intros n c. case_bool_decide; [done|]. case_bool_decide; [|done]. cbn [negb]. intros Hm.
    by rewrite (mapping_pairs_context _ "" _ _ _ Hm). }
  unfold mapping_of, yamlMapping. destruct n as [n|]; [|done]. case_bool_decide; [|by apply Hinner].
  destruct (n_content n) as [|a [|]]; [done| |done]. by apply Hinner.
Qed.

Lemma scalars_of_ok n c m : yamlStringMap n c = Ok m → scalars_of n = Some m.
Proof.
  unfold scalars_of, yamlStringMap. destruct n as [n|]; [|by intros [= <-]].
  destruct (yamlMapping (Some n) c) as [mapping|] eqn:Hm; [|done]. apply mapping_of_ok in Hm.
  unfold mapping_of in Hm. destruct (yamlMapping (Some n) "") as [m'|]; [|done]. injection Hm as ->.
  cbn [mbind res_bind]. destruct (foldl_res _ _ _) as [u|] eqn:Hall; [|done]. cbn [mbind res_bind].
  intros [= <-]. rewrite foldl_res_all; [done|]. apply Forall_forall. intros kv Hkv.
  pose proof (foldl_res_check _ _ _ Hall kv Hkv) as Hc. cbn in Hc |- *. by destruct (is_scalar kv.2).
Qed.

Lemma map_res_ok {A B} (f g : A → res B) l r :
  (∀ x y, f x = Ok y → g x = Ok y) → map_res f l = Ok r → map_res g l = Ok r.
Proof.
  intros Hfg. revert r. induction l as [|x l IH]; intros r; [done|]. cbn [map_res].
  destruct (f x) as [y|] eqn:Hf; [|done]. rewrite (Hfg _ _ Hf). cbn [mbind res_bind].
  destruct (map_res f l) as [ys|] eqn:Hl; [|done]. by rewrite (IH ys).
Qed.

Lemma sequence_of_ok n c l : yamlStringSequence n c = Ok l → ok_value (yamlStringSequence n "") = Some l.
Proof.
  destruct n as [[[] ? ? ? ? content]|]; cbn; try done. intros Hl. erewrite map_res_ok; [done| |exact Hl].
  intros v y. cbn. by case_match.
Qed.

(** No other key *)
Lemma only_keys mapping c allowed :
  requireOnlyYAMLKeys mapping c allowed = Ok () → dom mapping ⊆ (list_to_set allowed : gset string).
Proof.
  intros Hall k [v Hv]%elem_of_dom. apply elem_of_list_to_set.
  pose proof (foldl_res_check _ _ _ Hall (k, v)) as Hc. cbn in Hc. rewrite elem_of_map_to_list in Hc.
  specialize (Hc Hv). by case_bool_decide.
Qed.

Lemma or_message_ok {A} message (r : res A) ok : or_message message r ok = Ok () → ∃ a, r = Ok a ∧ ok a = true.
Proof. destruct r as [a|]; cbn; [|done]. destruct (ok a) eqn:E; [eauto|done]. Qed.

Lemma scalars_exactly message n c l :
  bool_decide (NoDup (fst <$> l)) && forallb (λ kv, negb (bool_decide (kv.2 = ""))) l = true →
  or_message message (yamlStringMap n c) (λ m, exactly m l) = Ok () → scalars_of n = Some (list_to_map l).
Proof.
  intros Hl (m & Hm & Hok)%or_message_ok. apply scalars_of_ok in Hm. by rewrite Hm, <- (exactly_ok m l).
Qed.

(** *** Each part of the workflow *)

Lemma scalar_some (mapping : gmap string node) k v :
  yamlScalarValue (mapping !! k) = v → v ≠ "" → k ∈ dom mapping.
Proof. intros Hv Hne. apply elem_of_dom. destruct (mapping !! k); [done|]. by rewrite <- Hv in Hne. Qed.

Lemma keys_none (mapping : gmap string node) (allowed : gset string) k :
  dom mapping ⊆ allowed → k ∉ allowed → mapping !! k = None.
Proof. intros Hsub Hk. apply not_elem_of_dom. set_solver. Qed.

Lemma difference_subseteq_empty (d : gset string) l : d ⊆ list_to_set l → d ∖ list_to_set l = ∅.
Proof. set_solver. Qed.

Lemma uses_step n c step approved want allowed :
  yamlMapping (Some n) c = Ok step → approved ≠ "" →
  requireOnlyYAMLKeys step allowed ["name"; "uses"; "with"] = Ok () →
  yamlScalarValue (step !! "uses") = approved → scalars_of (step !! "with") = Some (list_to_map want) →
  view_step n = Some (StepUses approved (list_to_map want) ∅).
Proof.
  intros Hstep%mapping_of_ok Hne Hkeys%only_keys Huses Hwith. unfold view_step. rewrite Hstep. cbn [mbind option_bind].
  pose proof (scalar_some _ _ _ Huses Hne) as Hdom. apply elem_of_dom in Hdom as [u Hu].
  rewrite Hu, Hwith. cbn [mbind option_bind]. rewrite <- Hu, Huses. do 2 f_equal.
  by apply difference_subseteq_empty in Hkeys.
Qed.

Lemma run_step n c step message allowed env words :
  yamlMapping (Some n) c = Ok step →
  requireOnlyYAMLKeys step message allowed = Ok () →
  "uses" ∉ allowed → allowed ⊆ ["name"; "id"; "working-directory"; "env"; "run"] →
  scalars_of (step !! "env") = Some env → Fields (yamlScalarValue (step !! "run")) = words →
  view_step n = Some (StepRun (yamlScalarValue (step !! "name")) (yamlScalarValue (step !! "id"))
    (yamlScalarValue (step !! "working-directory")) env words ∅).
Proof.
  intros Hstep%mapping_of_ok Hkeys%only_keys Hno Hsub Henv Hrun. unfold view_step. rewrite Hstep. cbn [mbind option_bind].
  rewrite (keys_none step _ "uses" Hkeys) by set_solver. rewrite Henv, Hrun. cbn [mbind option_bind].
  do 2 f_equal. set_solver.
Qed.

(** The inputs and environments the code writes out have distinct names, and values
    that are not empty. *)
Lemma canonical_lists_ok :
  Forall (λ a, bool_decide (NoDup (fst <$> a.2.1)) && forallb (λ kv, negb (bool_decide (kv.2 = ""))) a.2.1 = true)
    action_inputs
  ∧ Forall (λ c, bool_decide (NoDup (fst <$> cr_env c.2)) && forallb (λ kv, negb (bool_decide (kv.2 = ""))) (cr_env c.2) = true)
      commands.
Proof. split; by_decision. Qed.

Lemma assoc_in {A} index (l : list (nat * A)) a : assoc index l = Some a → (index, a) ∈ l.
Proof.
  unfold assoc. intros ([i b] & Hfind & Ha)%fmap_Some. cbn in Ha. subst b.
  destruct (list_find _ l) as [[j e]|] eqn:Hf; [|done]. injection Hfind as ->.
  apply list_find_Some in Hf as (Hl & Hi & _). cbn in Hi. subst i. by eapply list_elem_of_lookup_2.
Qed.

Lemma action_step_ok index n c step approved :
  yamlMapping (Some n) c = Ok step → assoc index actions = Some approved →
  validateReleaseActionStep index step approved = Ok () → view_step n = canonical_step index.
Proof.
  intros Hstep Happ. unfold validateReleaseActionStep.
  passes [] as Hkeys.
  case_bool_decide as Huses; [|done]. cbn [negb].
  passes inputs as Hwith.
  apply scalars_of_ok in Hwith. unfold canonical_step. rewrite Happ.
  assert (approved ≠ "" ∧ is_Some (assoc index action_inputs)) as [Hne [[want message] Hw]].
  { assert (Forall (λ a, a.2 ≠ "" ∧ is_Some (assoc a.1 action_inputs)) actions) as Hall by by_decision.
    by apply assoc_in, (proj1 (Forall_forall _ _) Hall) in Happ. }
  rewrite Hw. destruct (exactly inputs want) eqn:Hex; [|done]. intros _.
  apply assoc_in in Hw. pose proof (proj1 (Forall_forall _ _) (proj1 canonical_lists_ok) _ Hw) as Hl. cbn in Hl.
  apply exactly_ok in Hex as ->; [|done]. by eapply uses_step.
Qed.

Lemma command_step_ok text index n c step canonical :
  yamlMapping (Some n) c = Ok step → assoc index actions = None → assoc index commands = Some canonical →
  validateReleaseCommandStep text index step canonical = Ok () → view_step n = canonical_step index.
Proof.
  intros Hstep Hact Hcmd. unfold validateReleaseCommandStep.
  passes [] as Hkeys.
  case_bool_decide as Hname; [|done]. case_bool_decide as Hid; [|done]. case_bool_decide as Hdir; [|done]. cbn [negb orb].
  passes env as Henv.
  destruct (equalStringMaps env _) eqn:Heq; [|done]. cbn [negb].
  passes [] as Hscalar.
  case_bool_decide as Hrun; [|done]. intros _. apply normalize_words in Hrun. apply scalars_of_ok in Henv.
  unfold canonical_step. rewrite Hact, Hcmd. cbn [mbind option_bind].
  apply assoc_in in Hcmd. pose proof (proj1 (Forall_forall _ _) (proj2 canonical_lists_ok) _ Hcmd) as Hl. cbn in Hl.
  apply equal_maps_ok in Heq as ->; [|done]. rewrite <- Hname, <- Hid, <- Hdir.
  eapply run_step; [done|done| |done|done|done]. by_decision.
Qed.

Lemma validate_steps_ok text l index :
  validate_steps text index l = Ok () → view_step <$> l = canonical_step <$> List.seq index (length l).
Proof.
  revert index. induction l as [|n l IH]; intros index; [done|]. cbn [validate_steps].
  passes step as Hstep.
  destruct (assoc index actions) as [approved|] eqn:Hact.
  - passes [] as Hok.
    intros Hl. cbn. f_equal; [by eapply action_step_ok|by apply IH].
  - destruct (assoc index commands) as [canonical|] eqn:Hcmd; [|done].
    passes [] as Hok.
    intros Hl. cbn. f_equal; [by eapply command_step_ok|by apply IH].
Qed.

Lemma steps_of_ok n count message l :
  steps_of n count message = Ok l → length l = count ∧ ∃ t v b ln, n = Some (Node SequenceNode t v b ln l).
Proof.
  unfold steps_of. destruct n as [[[] t v b ln content]|]; try done. case_bool_decide; [|done].
  intros [= <-]. eauto 10.
Qed.

Lemma mapping_some (mapping : gmap string node) k c m : yamlMapping (mapping !! k) c = Ok m → k ∈ dom mapping.
Proof. intros Hm. apply elem_of_dom. by destruct (mapping !! k). Qed.

Lemma scalars_some (mapping : gmap string node) k m :
  scalars_of (mapping !! k) = Some m → bool_decide (m = ∅) = false → k ∈ dom mapping.
Proof.
  intros Hm Hne%bool_decide_eq_false_1. apply elem_of_dom. destruct (mapping !! k); [done|].
  unfold scalars_of in Hm. cbn in Hm. congruence.
Qed.

Lemma publish_job_ok text n :
  validatePublishJob text n = Ok () →
  ∃ publication, view_job n = wv_publish (canonical_workflow publication).
Proof.
  unfold validatePublishJob. passes publish as Hn. passes [] as Hkeys.
  case_bool_decide as Hneeds; [|done]. case_bool_decide as Hrunner; [|done]. cbn [negb orb].
  passes [] as Hperm. passes steps as Hsteps.
  apply steps_of_ok in Hsteps as (Hlen & t & v & b & ln & Hsteps).
  destruct steps as [|d [|r [|]]]; try done. change ([d; r] !! 0%nat) with (Some d).
  change ([d; r] !! 1%nat) with (Some r).
  passes download as Hd. passes [] as Hdkeys. passes [] as Hwith.
  passes publication as Hr. passes [] as Hrkeys. passes [] as Henv. passes [] as Hscalar.
  apply or_message_ok in Hwith as (inputs & Hinputs%scalars_of_ok & [Huses%bool_decide_eq_true_1 Hin]%andb_true_iff).
  case_bool_decide as Hrun; [|done]. intros _. apply normalize_words in Hrun.
  apply scalars_exactly in Hperm; [|by_decision]. apply scalars_exactly in Henv; [|by_decision].
  apply exactly_ok in Hin as ->; [|by_decision].
  assert (view_step d = Some (StepUses download_action (list_to_map publish_inputs) ∅)) as Hdv
    by (eapply uses_step; [exact Hd|done|exact Hdkeys|done|done]).
  pose proof (run_step _ _ _ _ _ _ _ Hr Hrkeys ltac:(by_decision) ltac:(by_decision) Henv Hrun) as Hrv.
  exists (yamlScalarValue (publication !! "name")).
  pose proof (only_keys _ _ _ Hrkeys) as Hpub.
  rewrite (keys_none publication _ "id" Hpub), (keys_none publication _ "working-directory" Hpub) in Hrv by set_solver.
  cbn [yamlScalarValue] in Hrv. apply mapping_of_ok in Hn. unfold view_job. rewrite Hn.
  cbn [mbind option_bind]. rewrite Hneeds, Hrunner, Hperm, Hsteps. cbn [fmap list_fmap]. rewrite Hdv, Hrv. apply only_keys in Hkeys.
  rewrite (keys_none publish _ "outputs" Hkeys) by set_solver. cbn [wv_publish canonical_workflow]. do 2 f_equal.
  apply set_eq_subseteq; split; [set_solver|].
  assert ("steps" ∈ dom publish) by (apply elem_of_dom; by rewrite Hsteps).
  apply scalar_some in Hneeds; [|done]. apply scalar_some in Hrunner; [|done].
  apply scalars_some in Hperm; [|by_decision]. set_solver.
Qed.

Lemma build_job_ok text n build allowed outputs steps :
  yamlMapping n allowed = Ok build →
  requireOnlyYAMLKeys build "release build job" ["runs-on"; "outputs"; "steps"] = Ok () →
  yamlScalarValue (build !! "runs-on") = "ubuntu-24.04" →
  or_message outputs (yamlStringMap (build !! "outputs") "release build outputs")
    (λ outputs, exactly outputs build_outputs) = Ok () →
  ∀ message, steps_of (build !! "steps") 14 message = Ok steps → validate_steps text 0 steps = Ok () →
  view_job n = wv_build (canonical_workflow "").
Proof.
  intros Hn%mapping_of_ok Hkeys%only_keys Hrunner Hout message Hsteps Hvalid%validate_steps_ok.
  apply steps_of_ok in Hsteps as (Hlen & t & v & b & ln & Hsteps). rewrite Hlen in Hvalid.
  apply scalars_exactly in Hout; [|by_decision]. unfold view_job. rewrite Hn. cbn [mbind option_bind].
  rewrite Hrunner, Hout, Hsteps, Hvalid.
  rewrite (keys_none build _ "needs" Hkeys), (keys_none build _ "permissions" Hkeys) by set_solver.
  cbn [wv_build canonical_workflow yamlScalarValue]. do 2 f_equal.
  apply set_eq_subseteq; split; [set_solver|].
  assert ("steps" ∈ dom build) by (apply elem_of_dom; by rewrite Hsteps).
  apply scalar_some in Hrunner; [|done]. apply scalars_some in Hout; [|by_decision]. set_solver.
Qed.

(** A mapping with the keys that are allowed, of which all but the ones in [l] are there. *)
Lemma all_keys (mapping : gmap string node) c allowed (l present : gset string) :
  requireOnlyYAMLKeys mapping c allowed = Ok () → list_to_set allowed ⊆ l ∪ present →
  present ## l → present ⊆ dom mapping → dom mapping ∖ l = present.
Proof. intros Hkeys%only_keys Hall Hdisj Hpresent. set_solver. Qed.

Context `{ReleaseYAML}.

(** C22: A release workflow that is accepted is the canonical one. When
    [validateReleaseWorkflowShape] accepts a text, the document it is parsed to reads as
    the canonical workflow: it is triggered by pushed version tags only, may only read
    contents by default, and has the two canonical jobs; every step of a job is the
    canonical action at its commit with exactly its inputs, or has the words of the
    canonical command with exactly its environment, name, id and directory; there is no
    other key at any level. Only the workflow's name, the names of steps that use an
    action and the name of the publication step are free. *)
Theorem release_workflow_canonical text :
  validateReleaseWorkflowShape text = Ok () →
  ∃ document publication, yaml_Unmarshal text = inl document
    ∧ view_workflow document = Some (canonical_workflow publication).
Proof.
  unfold validateReleaseWorkflowShape, parse_yaml.
  destruct (yaml_Unmarshal text) as [document|]; [|done]. cbn [mbind res_bind].
  passes workflow as Hdoc. passes [] as Hkeys. passes trigger as Htrigger. passes [] as Htkeys.
  passes push as Hpush. passes [] as Hpkeys. passes [] as Htags. passes [] as Hperm.
  passes jobs as Hjobs. passes [] as Hjkeys. passes build as Hbuild. passes [] as Hbkeys.
  apply or_message_ok in Htags as (tags & Htags & ->%bool_decide_eq_true_1).
  case_bool_decide as Hrunner; [|done]. cbn [negb]. passes [] as Hout. passes steps as Hsteps.
  passes [] as Hvalid. intros Hpublish. pose proof Hpublish as [publication Hview]%publish_job_ok.
  exists document, publication. split; [done|]. apply scalars_exactly in Hperm; [|by_decision].
  assert (push !! "tags" ≠ None) as Hsome by (intros Hnone; by rewrite Hnone in Htags).
  apply sequence_of_ok in Htags. pose proof (build_job_ok _ _ _ _ _ _ Hbuild Hbkeys Hrunner Hout _ Hsteps Hvalid) as Hbview.
  unfold view_workflow. rewrite (mapping_of_ok _ _ _ Hdoc). cbn [mbind option_bind].
  rewrite (mapping_of_ok _ _ _ Htrigger). cbn [mbind option_bind]. rewrite (mapping_of_ok _ _ _ Hpush). cbn [mbind option_bind].
  rewrite (mapping_of_ok _ _ _ Hjobs). cbn [mbind option_bind]. rewrite Hperm, Htags, Hview, Hbview.
  assert ("publish" ∈ dom jobs) as Hpub.
  { apply elem_of_dom. destruct (jobs !! "publish"); [done|]. by unfold validatePublishJob in Hpublish. }
  apply mapping_some in Htrigger, Hpush, Hjobs, Hbuild. apply scalars_some in Hperm; [|by_decision].
  apply not_eq_None_Some, elem_of_dom in Hsome.
  rewrite (all_keys workflow _ _ {["name"]} {["on"; "permissions"; "jobs"]} Hkeys) by set_solver.
  rewrite <- (difference_empty_L (dom trigger)), (all_keys trigger _ _ ∅ {["push"]} Htkeys) by set_solver.
  rewrite <- (difference_empty_L (dom push)), (all_keys push _ _ ∅ {["tags"]} Hpkeys) by set_solver.
  rewrite <- (difference_empty_L (dom jobs)), (all_keys jobs _ _ ∅ {["build"; "publish"]} Hjkeys) by set_solver.
  done.
Qed.

End Canonical.

(** ** Examples *)

Module Demo.

Definition scalar (value : string) : node := Node ScalarNode "!!str" value false 1 [].
Definition block (value : string) : node := Node ScalarNode "!!str" value true 1 [].
Definition sequence (l : list node) : node := Node SequenceNode "!!seq" "" false 1 l.
Definition mapping (l : list (string * node)) : node :=
  Node MappingNode "!!map" "" false 1 (l ≫= λ kv, [scalar kv.1; kv.2]).
Definition strings (l : list (string * string)) : node := mapping (prod_map id scalar <$> l).

(** The canonical step at an index, its command written by [layout]. *)
Definition step (layout : string → string) (index : nat) : node :=
  match assoc index actions, assoc index commands with
  | Some action, _ =>
      mapping [("uses", scalar action); ("with", strings (default [] (fst <$> assoc index action_inputs)))]
  | None, Some c =>
      mapping [("name", scalar (cr_name c)); ("id", scalar (cr_id c));
               ("working-directory", scalar (cr_workingDirectory c)); ("env", strings (cr_env c));
               ("run", block (layout (cr_command c)))]
  | None, None => scalar ""
  end.

Definition steps (layout : string → string) : node := sequence (step layout <$> List.seq 0%nat 14%nat).

Definition build (layout : string → string) : node :=
  mapping [("runs-on", scalar "ubuntu-24.04"); ("outputs", strings build_outputs); ("steps", steps layout)].

Definition publish (layout : string → string) : node :=
  mapping [
    ("needs", scalar "build"); ("runs-on", scalar "ubuntu-24.04"); ("permissions", strings [("contents", "write")]);
    ("steps", sequence [
      mapping [("uses", scalar download_action); ("with", strings publish_inputs)];
      mapping [("name", scalar "Publish"); ("env", strings publish_env); ("run", block (layout publish_command))]])].

Definition jobs (layout : string → string) : node :=
  mapping [("build", build layout); ("publish", publish layout)].

Definition workflow (layout : string → string) : node :=
  mapping [
    ("name", scalar "Release");
    ("on", mapping [("push", mapping [("tags", sequence [scalar "v*"])])]);
    ("permissions", strings [("contents", "read")]);
    ("jobs", jobs layout)].

Definition release (layout : string → string) : node := Node DocumentNode "" "" false 1 [workflow layout].

(** A decoder that knows one document; the source line of its commands is the first. *)
Definition decoder (document : node) : ReleaseYAML := {| yaml_Unmarshal _ := inl document |}.

#[local] Instance demo_os : GoOS := {| os_fault _ _ := None; os_partial _ := "" |}.

Definition tree : FS :=
  {| fs_cwd := ["repo"];
     fs_files := {[ ["repo"; ".github"; "workflows"; "release.yml"] :=
       {| ff_type := FRegular; ff_perm := 420; ff_data := "run: |" |} ]} |}.

(** The layout of a command is not looked at: the canonical commands each written on one
    line, which do not do what they say (the first words of most are [set -euo pipefail],
    and the rest of the line is then an argument of [set]), are accepted. *)
Lemma one_line_accepted :
  validateReleaseWorkflowShape (H := DemoStd.demo_std) (H0 := decoder (release normalizeShellCommand)) "run: |" = Ok ()
  ∧ newline_char ∉ chars (normalizeShellCommand publish_command).
Proof. split; [vm_compute; reflexivity|by_decision]. Qed.

End Demo.

Lemma release_workflow_canonical_witness :
  ∃ publication,
    view_workflow (H := DemoStd.demo_std) (Demo.release id) = Some (canonical_workflow publication).
Proof.
  destruct (release_workflow_canonical (H := DemoStd.demo_std) (H0 := Demo.decoder (Demo.release id)) "run: |")
    as (document & publication & Hdoc & Hview); [vm_compute; reflexivity|].
  exists publication. injection Hdoc as <-. exact Hview.
Defined.

Lemma workflow_actions_pinned_witness : pinned_action (default "" (assoc 0 actions)).
Proof.
  destruct (workflow_actions_pinned (H := DemoStd.demo_std) (H0 := Demo.decoder (Demo.release id))
    (H1 := Demo.demo_os) "/repo" Demo.tree) as [_ Hall]; [vm_compute; reflexivity|].
  destruct (Hall "/repo/.github/workflows/release.yml") as (text & document & _ & Hdoc & Hpin);
    [apply (bool_decide_eq_true_1 _); vm_compute; reflexivity|].
  injection Hdoc as <-.
  refine (proj2 (proj2 (Hpin (Demo.step id 0) (Demo.scalar "uses") (Demo.scalar (default "" (assoc 0 actions))) _ _ _) eq_refl));
    [|done|left].
  apply (within_child _ (Demo.steps id)); [|done|left].
  apply (within_value _ (Demo.build id) (Demo.scalar "steps")); [|done|right; right; left].
  apply (within_value _ (Demo.jobs id) (Demo.scalar "build")); [|done|left].
  apply (within_value _ (Demo.workflow id) (Demo.scalar "jobs")); [|done|right; right; right; left].
  apply (within_child _ (Demo.release id)); [apply within_self|done|left].
Defined.
