(* ===== verification/Credits.v ===== *)
(** * Credit estimation (zai/credits.go)

    Prices of the supported models, the off-peak calendar, the estimate of a
    usage record in microcredits and the digest that recognises a record
    delivered twice. [big.Int] arithmetic is arithmetic on [Z]. *)

From S2P Require Import Prelude GoStrings GoFloat Host.

Definition creditScale : Z := 1000000.

Definition maxCreditBucket : Z := int64_max / creditScale.

Definition validCreditBucket (credits : Z) : bool :=
  (0 <? credits) && (credits <=? maxCreditBucket).

Record creditRates := {
  cr_Input : Z;
  cr_Cached : Z;
  cr_Output : Z;
  cr_CanonicalName : string;
}.

Definition modelCreditRates : gmap string creditRates :=
  list_to_map [
    ("glm-5.3", {| cr_Input := 690; cr_Cached := 170; cr_Output := 2400;
                   cr_CanonicalName := "glm-5.3" |});
    ("glm-5.3-flash", {| cr_Input := 230; cr_Cached := 56; cr_Output := 800;
                         cr_CanonicalName := "glm-5.3-flash" |})
  ].

Record creditEstimate := {
  ce_Microcredits : Z;
  ce_Model : string;
  ce_Offpeak : bool;
}.

Definition normalizeModelName (raw : string) : string :=
  str (after_last "/"%char (chars (ToLower (TrimSpace raw)))).

Definition ratesForUsage (record : UsageRecord) : option creditRates :=
  match modelCreditRates !! normalizeModelName (ur_Model record) with
  | Some rates => Some rates
  | None => modelCreditRates !! normalizeModelName (ur_Alias record)
  end.

(** Off-peak is the weekend, and the hours before 06:00 and from 10:00 UTC. *)
Definition isOffpeak (at_ : Time) : bool :=
  let weekday := time_Weekday at_ in
  if (weekday =? 6) || (weekday =? 0) then true
  else let h := time_Hour at_ in (h <? 6) || (10 <=? h).

Definition addScaledTokens (total tokens multiplier : Z) : Z := total + tokens * multiplier.

Definition estimateUsageCredits (record : UsageRecord) (at_ : Time) : res creditEstimate :=
  match ratesForUsage record with
  | None => errorf "unpriced model"
  | Some rates =>
      let detail := ur_Detail record in
      if (ud_InputTokens detail <? 0) || (ud_OutputTokens detail <? 0)
         || (ud_CacheReadTokens detail <? 0) || (ud_CacheCreationTokens detail <? 0)
      then errorf "negative token count"
      else
        let total := 0 in
        let total := addScaledTokens total (ud_InputTokens detail) (cr_Input rates) in
        let total := addScaledTokens total (ud_CacheCreationTokens detail) (cr_Input rates) in
        let total := addScaledTokens total (ud_CacheReadTokens detail) (cr_Cached rates) in
        let total := addScaledTokens total (ud_OutputTokens detail) (cr_Output rates) in
        let offpeak := isOffpeak at_ in
        let total := if offpeak then Z.quot total 2 else total in
        if bool_decide (in_int64 total)
        then Ok {| ce_Microcredits := total; ce_Model := cr_CanonicalName rates;
                   ce_Offpeak := offpeak |}
        else errorf "credit estimate exceeds supported range"
  end.

(** ** The deduplication digest *)

Definition boolInt64 (value : bool) : Z := if value then 1 else 0.

(** [binary.LittleEndian.PutUint64] *)
Fixpoint le_bytes (n : nat) (v : Z) : list ascii :=
  match n with
  | O => []
  | S n' => Ascii.ascii_of_N (Z.to_N (Z.land v 255)) :: le_bytes n' (Z.shiftr v 8)
  end.

Definition put_uint64 (v : Z) : list ascii := le_bytes 8 (wrapu64 v).
Arguments put_uint64 : simpl never.

(** The bytes [writeHashString] writes: a length and the string. *)
Definition writeHashString (value : string) : list ascii :=
  put_uint64 (len value) ++ chars value.

Definition usage_strings (record : UsageRecord) : list string :=
  [ur_AuthID record; ur_Provider record; ur_Model record; ur_Alias record].

Definition usage_values (record : UsageRecord) : list Z :=
  [time_UnixNano (ur_RequestedAt record);
   ur_Latency record;
   uf_StatusCode (ur_Failure record);
   ud_InputTokens (ur_Detail record);
   ud_OutputTokens (ur_Detail record);
   ud_ReasoningTokens (ur_Detail record);
   ud_CacheReadTokens (ur_Detail record);
   ud_CacheCreationTokens (ur_Detail record);
   ud_TotalTokens (ur_Detail record);
   boolInt64 (ur_Failed record);
   len (uf_Body (ur_Failure record))].

Definition usage_dedup_bytes (record : UsageRecord) : list ascii :=
  (s ← usage_strings record; writeHashString s)
  ++ (v ← usage_values record; put_uint64 v).

Definition usageDedupHash `{GoStd} (record : UsageRecord) : string :=
  sha256_hex (str (usage_dedup_bytes record)).

(** ** Lemmas *)

(** A valid bucket survives the conversion to microcredits. *)
Lemma validCreditBucket_scale credits :
  validCreditBucket credits = true →
  wrap64 (credits * creditScale) = credits * creditScale
  ∧ 0 < credits * creditScale <= int64_max.
Proof.
  unfold validCreditBucket, maxCreditBucket, creditScale. intros. crush_bool.
  assert (int64_max / 1000000 = 9223372036854) as E by reflexivity. rewrite E in *.
  unfold int64_max. split; [|lia].
  apply wrap64_id. unfold in_int64, int64_min, int64_max. lia.
Qed.

Lemma rates_nonneg name rates :
  modelCreditRates !! name = Some rates →
  0 <= cr_Input rates ∧ 0 <= cr_Cached rates ∧ 0 <= cr_Output rates
  ∧ cr_CanonicalName rates = name.
Proof.
  unfold modelCreditRates. simpl. intros H.
  rewrite !lookup_insert in H. repeat case_decide; simplify_eq/=; by repeat split.
Qed.

Lemma ratesForUsage_Some record rates :
  ratesForUsage record = Some rates →
  ∃ name, modelCreditRates !! name = Some rates.
Proof. unfold ratesForUsage. intros. case_match; simplify_eq; eauto. Qed.

Lemma le_bytes_inj n v w :
  0 <= v < 256 ^ Z.of_nat n → 0 <= w < 256 ^ Z.of_nat n →
  le_bytes n v = le_bytes n w → v = w.
Proof.
  revert v w. induction n as [|n IH]; intros v w Hv Hw H.
  { simpl in *. lia. }
  rewrite Nat2Z.inj_succ, Z.pow_succ_r in Hv, Hw by lia.
  cbn [le_bytes] in H. injection H as Hb Hr.
  rewrite !Z.shiftr_div_pow2 in Hr by lia. change (2 ^ 8) with 256 in Hr.
  change 255 with (Z.ones 8) in Hb. rewrite !Z.land_ones in Hb by lia.
  change (2 ^ 8) with 256 in Hb.
  pose proof (Z.mod_pos_bound v 256). pose proof (Z.mod_pos_bound w 256).
  apply (f_equal Ascii.N_of_ascii) in Hb.
  rewrite !Ascii.N_ascii_embedding in Hb by lia.
  apply IH in Hr.
  - pose proof (Z.div_mod v 256). pose proof (Z.div_mod w 256). lia.
  - split; [apply Z.div_pos; lia|apply Z.div_lt_upper_bound; lia].
  - split; [apply Z.div_pos; lia|apply Z.div_lt_upper_bound; lia].
Qed.

Lemma length_le_bytes n v : length (le_bytes n v) = n.
Proof. revert v. induction n; intros; simpl; auto. Qed.

Lemma put_uint64_inj v w :
  in_int64 v → in_int64 w → put_uint64 v = put_uint64 w → v = w.
Proof.
  intros Hv Hw H. apply wrapu64_int64_inj; [done|done|].
  apply le_bytes_inj in H; [done| |]; apply wrapu64_range.
Qed.

(** Frames of equal first components: a fixed-width field is a prefix code. *)
Lemma put_uint64_app_inj v w l k :
  in_int64 v → in_int64 w →
  put_uint64 v ++ l = put_uint64 w ++ k → v = w ∧ l = k.
Proof.
  intros Hv Hw H. apply app_inj_1 in H as [H ->].
  - split; [by apply put_uint64_inj|done].
  - unfold put_uint64. by rewrite !length_le_bytes.
Qed.

Definition small_string (s : string) : Prop := len s <= int64_max.

Lemma writeHashString_app_inj s t l k :
  small_string s → small_string t →
  writeHashString s ++ l = writeHashString t ++ k → s = t ∧ l = k.
Proof.
  unfold small_string, writeHashString. intros Hs Ht. rewrite <- !app_assoc. intros H.
  assert (0 <= len s ∧ 0 <= len t) as [] by (unfold len; lia).
  apply put_uint64_app_inj in H as [Hl H];
    [|unfold in_int64, int64_min; lia|unfold in_int64, int64_min; lia].
  apply app_inj_1 in H as [H ->].
  - split; [by apply chars_inj|done].
  - rewrite !length_chars. unfold len in Hl. lia.
Qed.

Lemma put_uint64_list_inj vs ws :
  length vs = length ws → Forall in_int64 vs → Forall in_int64 ws →
  (v ← vs; put_uint64 v) = (w ← ws; put_uint64 w) → vs = ws.
Proof.
  revert ws. induction vs as [|v vs IH]; intros [|w ws] Hl Hv Hw H;
    [done|discriminate Hl|discriminate Hl|].
  apply Forall_cons in Hv as [? Hv]. apply Forall_cons in Hw as [? Hw].
  rewrite !bind_cons in H.
  apply put_uint64_app_inj in H as [-> H]; [|done|done]. f_equal.
  injection Hl as Hl. by apply IH.
Qed.

(** Off-peak is a function of the position in the week. *)
Lemma isOffpeak_weekly t : isOffpeak (t + 7 * day) = isOffpeak t.
Proof.
  unfold isOffpeak, time_Weekday, time_Hour.
  rewrite Z.div_add, Z.mod_add by done.
  replace (t / day + 7 + 1) with (t / day + 1 + 1 * 7) by lia.
  by rewrite Z.mod_add.
Qed.

(** The price of a record's tokens before the off-peak discount. *)
Definition full_price (rates : creditRates) (d : UsageDetail) : Z :=
  (ud_InputTokens d + ud_CacheCreationTokens d) * cr_Input rates
  + ud_CacheReadTokens d * cr_Cached rates
  + ud_OutputTokens d * cr_Output rates.

Definition tokens_nonneg (d : UsageDetail) : Prop :=
  0 <= ud_InputTokens d ∧ 0 <= ud_OutputTokens d
  ∧ 0 <= ud_CacheReadTokens d ∧ 0 <= ud_CacheCreationTokens d.

Lemma full_price_nonneg name rates d :
  modelCreditRates !! name = Some rates → tokens_nonneg d → 0 <= full_price rates d.
Proof.
  intros (? & ? & ? & _)%rates_nonneg (? & ? & ? & ?). unfold full_price. nia.
Qed.

Lemma half_quot z : 0 <= z → Z.quot z 2 = z / 2.
Proof. intros. apply Z.quot_div_nonneg; lia. Qed.

(** What the estimate computes, written without the big-integer steps. *)
Lemma estimateUsageCredits_eq record at_ :
  estimateUsageCredits record at_ =
  match ratesForUsage record with
  | None => errorf "unpriced model"
  | Some rates =>
      if decide (tokens_nonneg (ur_Detail record)) then
        let price := full_price rates (ur_Detail record) in
        let total := if isOffpeak at_ then price / 2 else price in
        if decide (total <= int64_max)
        then Ok {| ce_Microcredits := total; ce_Model := cr_CanonicalName rates;
                   ce_Offpeak := isOffpeak at_ |}
        else errorf "credit estimate exceeds supported range"
      else errorf "negative token count"
  end.
Proof.
  unfold estimateUsageCredits. destruct (ratesForUsage record) as [rates|] eqn:Hr; [|done].
  apply ratesForUsage_Some in Hr as [name Hr].
  set (d := ur_Detail record).
  destruct (decide (tokens_nonneg d)) as [Hn|Hn].
  - pose proof (full_price_nonneg _ _ _ Hr Hn) as Hp. destruct Hn as (? & ? & ? & ?).
    repeat rewrite (proj2 (Z.ltb_ge _ _)) by done. simpl.
    assert (addScaledTokens (addScaledTokens (addScaledTokens (addScaledTokens 0
      (ud_InputTokens d) (cr_Input rates)) (ud_CacheCreationTokens d) (cr_Input rates))
      (ud_CacheReadTokens d) (cr_Cached rates)) (ud_OutputTokens d) (cr_Output rates)
      = full_price rates d) as -> by (unfold addScaledTokens, full_price; lia).
    rewrite half_quot by done.
    assert (0 <= full_price rates d / 2) by (apply Z.div_pos; lia).
    unfold in_int64, int64_min. case_bool_decide; case_decide; try done; case_match; lia.
  - destruct (_ || _) eqn:Hneg; [done|]. exfalso. apply Hn. crush_bool. by repeat split.
Qed.

(** ** Properties *)

(** The estimate of a usage record prices input and cache-creation tokens at
    the input rate, cache reads at the cached rate and output at the output
    rate of the record's model (or of its alias), halves the sum, rounding down,
    off-peak, and is then a non-negative int64; it is refused exactly for a
    model without price, a negative count, or a sum above the int64 range. *)
Theorem estimateUsageCredits_spec record at_ :
  match estimateUsageCredits record at_ with
  | Ok est =>
      ∃ rates, ratesForUsage record = Some rates
      ∧ tokens_nonneg (ur_Detail record)
      ∧ ce_Microcredits est
        = (if isOffpeak at_ then full_price rates (ur_Detail record) / 2
           else full_price rates (ur_Detail record))
      ∧ 0 <= ce_Microcredits est <= int64_max
      ∧ modelCreditRates !! ce_Model est = Some rates
      ∧ ce_Offpeak est = isOffpeak at_
  | Err e =>
      (ratesForUsage record = None ∧ e = EText "unpriced model")
      ∨ (∃ rates, ratesForUsage record = Some rates
         ∧ ((¬ tokens_nonneg (ur_Detail record) ∧ e = EText "negative token count")
            ∨ (tokens_nonneg (ur_Detail record)
               ∧ int64_max < full_price rates (ur_Detail record)
               ∧ e = EText "credit estimate exceeds supported range")))
  end.
Proof.
  rewrite estimateUsageCredits_eq.
  destruct (ratesForUsage record) as [rates|] eqn:Hr; [|by left].
  destruct (ratesForUsage_Some _ _ Hr) as [name Hname].
  destruct (rates_nonneg _ _ Hname) as (_ & _ & _ & Hcanon).
  case_decide as Hn; [|right; eauto 10].
  pose proof (full_price_nonneg _ _ _ Hname Hn) as Hp.
  assert (0 <= full_price rates (ur_Detail record) / 2) by (apply Z.div_pos; lia).
  assert (full_price rates (ur_Detail record) / 2 <= full_price rates (ur_Detail record))
    by (apply Z.div_le_upper_bound; lia).
  simpl. case_decide; simpl.
  - exists rates. rewrite Hcanon. split; [done|split; [done|]]. repeat split; try done. case_match; lia.
  - right. exists rates. split; [done|]. right. split; [done|split; [|done]].
    destruct (isOffpeak at_); lia.
Qed.

(** The bytes the deduplication digest hashes determine the record up to
    the fields it is about: two records of machine values with the same bytes
    have the same auth ID, provider, model, alias, and the same eleven numbers.
    So a dedup hit is a repeated record or a SHA-256 collision. *)
Theorem usage_dedup_bytes_inj r1 r2 :
  Forall small_string (usage_strings r1) → Forall small_string (usage_strings r2) →
  Forall in_int64 (usage_values r1) → Forall in_int64 (usage_values r2) →
  usage_dedup_bytes r1 = usage_dedup_bytes r2 →
  usage_strings r1 = usage_strings r2 ∧ usage_values r1 = usage_values r2.
Proof.
  intros Hs1 Hs2 Hv1 Hv2. unfold usage_dedup_bytes.
  assert (∀ ss ts l k, length ss = length ts →
    Forall small_string ss → Forall small_string ts →
    (s ← ss; writeHashString s) ++ l = (t ← ts; writeHashString t) ++ k →
    ss = ts ∧ l = k) as Hstr.
  { clear. induction ss as [|s ss IH]; intros [|t ts] l k Hl Hss Hts H;
      [done|discriminate Hl|discriminate Hl|].
    apply Forall_cons in Hss as [? Hss]. apply Forall_cons in Hts as [? Hts].
    rewrite !bind_cons, <- !app_assoc in H.
    apply writeHashString_app_inj in H as [-> H]; [|done|done].
    injection Hl as Hl. by apply IH in H as [-> ->]. }
  intros H. apply Hstr in H as [? H]; [|done|done|done]. split; [done|].
  by apply put_uint64_list_inj in H.
Qed.

Definition demo_record : UsageRecord := {|
  ur_Provider := "claude"; ur_Model := "zai/GLM-5.3"; ur_Alias := "";
  ur_AuthID := "auth-1"; ur_RequestedAt := time_Unix 1767225600; ur_Latency := 1500000000;
  ur_Failed := false; ur_Failure := {| uf_StatusCode := 0; uf_Body := "" |};
  ur_Detail := {| ud_InputTokens := 1000; ud_OutputTokens := 200; ud_ReasoningTokens := 0;
                  ud_CacheReadTokens := 50; ud_CacheCreationTokens := 10;
                  ud_TotalTokens := 1260 |};
  ur_ResponseHeaders := [] |}.

Lemma usage_dedup_bytes_inj_witness :
  usage_strings demo_record = usage_strings demo_record
  ∧ usage_values demo_record = usage_values demo_record.
Proof.
  apply (usage_dedup_bytes_inj demo_record demo_record); try reflexivity;
    repeat constructor; vm_compute; discriminate.
Defined.

(** An off-peak request costs half of what the same request costs at a peak
    hour, rounded down, whatever the two instants are. *)
Theorem offpeak_halves record peak off est_peak est_off :
  isOffpeak peak = false → isOffpeak off = true →
  estimateUsageCredits record peak = Ok est_peak →
  estimateUsageCredits record off = Ok est_off →
  ce_Microcredits est_off = ce_Microcredits est_peak / 2.
Proof.
  rewrite !estimateUsageCredits_eq. intros -> -> H1 H2.
  destruct (ratesForUsage record); [|done].
  case_decide; [|done]. simpl in *. do 2 (case_decide; [|done]). by simplify_eq/=.
Qed.

Lemma offpeak_halves_witness :
  ∃ peak off, isOffpeak peak = false ∧ isOffpeak off = true
  ∧ (∃ e1 e2, estimateUsageCredits demo_record peak = Ok e1
     ∧ estimateUsageCredits demo_record off = Ok e2
     ∧ ce_Microcredits e2 = ce_Microcredits e1 / 2).
Proof.
  (* Thursday 2026-01-01, 08:00 and 12:00 UTC *)
  exists (time_Unix 1767254400), (time_Unix 1767268800).
  split; [by vm_compute|split; [by vm_compute|]].
  eexists _, _. split; [vm_compute; reflexivity|split; [vm_compute; reflexivity|]].
  apply (offpeak_halves demo_record (time_Unix 1767254400) (time_Unix 1767268800));
    by vm_compute.
Defined.
