(* ===== verification/Quota.v ===== *)
(** * The quota endpoint (zai/quota.go)

    The request for an account's quota, the validation of the endpoint and the
    strict parsing of the response into a snapshot of two windows. The decoding
    of the JSON text into the wire structs is the parameter [decode_quota]; a
    [json.Number] is its literal, empty when the field is absent or null. *)

From S2P Require Import Prelude GoStrings GoFloat Host Credits.

Definition quotaEndpoint : string := "https://api.z.ai/api/monitor/usage/quota/limit".
Definition maxQuotaResponse : Z := 1048576.
Definition defaultQuotaTimeout : Duration := 15 * second.

Record quotaWindow := {
  qw_ConsumedMicrocredits : Z;
  qw_BucketMicrocredits : Z;
  qw_ResetsAt : Time;
}.

(** The zero value of the struct. *)
Definition zero_window : quotaWindow :=
  {| qw_ConsumedMicrocredits := 0; qw_BucketMicrocredits := 0; qw_ResetsAt := 0 |}.

Record quotaSnapshot := {
  sn_Plan : string;
  sn_FiveHour : quotaWindow;
  sn_FiveHourError : string;
  sn_Weekly : quotaWindow;
  sn_ObservedAt : Time;
}.

Record quotaWireLimit := {
  wl_Type : string;
  wl_Unit : string;
  wl_Number : string;
  wl_Usage : string;
  wl_CurrentValue : string;
  wl_Remaining : string;
  wl_NextResetTime : string;
}.

Record quotaWireData := {
  wd_Level : string;
  wd_PlanName : string;
  wd_Limits : list quotaWireLimit;
}.

Record quotaWireResponse := {
  wr_Code : string;
  wr_Success : option bool;
  wr_Data : quotaWireData;
}.

#[global] Instance quotaWindow_eq_dec : EqDecision quotaWindow.
Proof. solve_decision. Defined.
#[global] Instance quotaSnapshot_eq_dec : EqDecision quotaSnapshot.
Proof. solve_decision. Defined.

(** ** Strict numbers *)

(** [1 << 62] *)
Definition maxSafeFloatInt : Z := 4611686018427387904.

Definition strictInt64 (number : string) : res Z :=
  if decide (number = "") then errorf "missing number"
  else match ParseInt number with
  | Some value => Ok value
  | None =>
      match number_Float64 number ≫= float_to_integer with
      | Some value =>
          if (value <? - maxSafeFloatInt) || (maxSafeFloatInt <? value)
          then errorf "invalid number" else Ok value
      | None => errorf "invalid number"
      end
  end.

Definition strictNonnegativeInt64 (number : string) : res Z :=
  match strictInt64 number with
  | Ok value => if value <? 0 then errorf "invalid number" else Ok value
  | Err _ => errorf "invalid number"
  end.

(** ** Plans *)

Definition normalizeUpstreamPlan (raw : string) : string :=
  let value := ToLower (TrimSpace raw) in
  let value := TrimSpace (TrimSuffix value "plan") in
  if Contains value "lite" then "lite"
  else if Contains value "pro" then "pro"
  else if Contains value "max" then "max"
  else "".

(** ** One window *)

Definition parseQuotaWindow (limit : quotaWireLimit) (observedAt : Time) : res quotaWindow :=
  match strictNonnegativeInt64 (wl_Usage limit) with
  | Err _ => errorf "quota limit has invalid usage"
  | Ok usage =>
  if usage <=? 0 then errorf "quota limit has invalid usage" else
  match strictNonnegativeInt64 (wl_CurrentValue limit) with
  | Err _ => errorf "quota limit has invalid currentValue"
  | Ok current =>
  if usage <? current then errorf "quota limit has invalid currentValue" else
  if negb (bool_decide (wl_Remaining limit = ""))
     && negb (is_Ok (strictNonnegativeInt64 (wl_Remaining limit)))
  then errorf "quota limit has invalid remaining" else
  if (int64_max / creditScale <? usage) || (int64_max / creditScale <? current)
  then errorf "quota credits exceed supported range" else
  let window reset :=
    {| qw_ConsumedMicrocredits := current [*] creditScale;
       qw_BucketMicrocredits := usage [*] creditScale;
       qw_ResetsAt := reset |} in
  if decide (wl_NextResetTime limit = "") then
    if current =? 0 then Ok (window 0)
    else errorf "quota limit has invalid nextResetTime"
  else
    match strictNonnegativeInt64 (wl_NextResetTime limit) with
    | Err _ => errorf "quota limit has invalid nextResetTime"
    | Ok resetMilliseconds =>
        if resetMilliseconds <=? 0 then errorf "quota limit has invalid nextResetTime" else
        let reset := time_UnixMilli resetMilliseconds in
        if (time_Year reset <? 2000) || (2200 <? time_Year reset)
           || negb (time_After reset observedAt)
        then errorf "quota limit has invalid nextResetTime"
        else Ok (window reset)
    end
  end end.

(** ** The whole response *)

(** The local variables of the loop over the limits. *)
Record quotaScan := {
  qc_fiveHour : option quotaWindow;
  qc_fiveHourErr : string;
  qc_weekly : option quotaWindow;
  qc_weeklyErr : string;
  qc_unmatchedErrs : list string;
}.

Definition quotaScan_init : quotaScan :=
  {| qc_fiveHour := None; qc_fiveHourErr := ""; qc_weekly := None; qc_weeklyErr := "";
     qc_unmatchedErrs := [] |}.

(** The window and the error a matching limit leaves in its target: a second
    limit for a window that is set clears it. *)
Definition scan_target (limit : quotaWireLimit) (observedAt : Time)
    (target : option quotaWindow) (targetErr : string) : option quotaWindow * string :=
  match target with
  | Some _ => (None, "duplicate quota limit")
  | None =>
      match parseQuotaWindow limit observedAt with
      | Ok window => (Some window, targetErr)
      | Err e => (None, error_text e)
      end
  end.

Definition scan_limit (observedAt : Time) (st : quotaScan) (limit : quotaWireLimit) : quotaScan :=
  if negb (bool_decide (ToUpper (TrimSpace (wl_Type limit)) = "CREDIT_LIMIT")) then st else
  match strictInt64 (wl_Unit limit), strictInt64 (wl_Number limit) with
  | Ok unit, Ok number =>
      if (unit =? 3) && (number =? 5) then
        let '(w, e) := scan_target limit observedAt (qc_fiveHour st) (qc_fiveHourErr st) in
        {| qc_fiveHour := w; qc_fiveHourErr := e; qc_weekly := qc_weekly st;
           qc_weeklyErr := qc_weeklyErr st; qc_unmatchedErrs := qc_unmatchedErrs st |}
      else if (unit =? 6) && (number =? 1) then
        let '(w, e) := scan_target limit observedAt (qc_weekly st) (qc_weeklyErr st) in
        {| qc_fiveHour := qc_fiveHour st; qc_fiveHourErr := qc_fiveHourErr st; qc_weekly := w;
           qc_weeklyErr := e; qc_unmatchedErrs := qc_unmatchedErrs st |}
      else st
  | _, _ =>
      {| qc_fiveHour := qc_fiveHour st; qc_fiveHourErr := qc_fiveHourErr st;
         qc_weekly := qc_weekly st; qc_weeklyErr := qc_weeklyErr st;
         qc_unmatchedErrs := qc_unmatchedErrs st ++ ["limit has invalid unit or number"] |}
  end.

Definition first_nonempty (s t : string) : string := if decide (s = "") then t else s.

Definition parseQuotaResponse (response : quotaWireResponse) (observedAt : Time)
    : res quotaSnapshot :=
  if bool_decide (wr_Success response = Some false)
  then errorf "upstream marked response unsuccessful" else
  if negb (bool_decide (wr_Code response = ""))
     && negb (bool_decide (ParseInt (wr_Code response) = Some 200))
  then errorf "invalid response code" else
  let st := foldl (scan_limit observedAt) quotaScan_init (wd_Limits (wr_Data response)) in
  match qc_weekly st with
  | None =>
      errorf (first_nonempty (qc_weeklyErr st) "missing required weekly quota limit")
  | Some weekly =>
      let plan := first_nonempty (normalizeUpstreamPlan (wd_Level (wr_Data response)))
                    (normalizeUpstreamPlan (wd_PlanName (wr_Data response))) in
      match qc_fiveHour st with
      | Some fiveHour =>
          Ok {| sn_Plan := plan; sn_FiveHour := fiveHour; sn_FiveHourError := "";
                sn_Weekly := weekly; sn_ObservedAt := observedAt |}
      | None =>
          let reason := first_nonempty (qc_fiveHourErr st) (Join (qc_unmatchedErrs st) "; ") in
          let reason := first_nonempty reason "missing required five-hour quota limit" in
          Ok {| sn_Plan := plan; sn_FiveHour := zero_window; sn_FiveHourError := reason;
                sn_Weekly := weekly; sn_ObservedAt := observedAt |}
      end
  end.

(** ** The request *)

Section Fetch.
Context `{GoStd}.
Context (decode_quota : string → option quotaWireResponse).

Definition validateQuotaEndpoint (endpoint : string) (allowTestEndpoint : bool) : res unit :=
  match url_Parse endpoint with
  | None => errorf "invalid quota endpoint"
  | Some parsed =>
      if url_HasUser parsed || negb (bool_decide (url_RawQuery parsed = ""))
         || negb (bool_decide (url_Fragment parsed = ""))
      then errorf "invalid quota endpoint"
      else if allowTestEndpoint && bool_decide (url_Scheme parsed = "http")
              && (bool_decide (url_Hostname parsed = "127.0.0.1")
                  || bool_decide (url_Hostname parsed = "localhost"))
      then Ok ()
      else if negb (bool_decide (url_Scheme parsed = "https"))
              || negb (bool_decide (url_Host parsed = "api.z.ai"))
              || negb (bool_decide (url_Path parsed = "/api/monitor/usage/quota/limit"))
      then errorf "invalid quota endpoint"
      else Ok ()
  end.

Definition quota_request (endpoint key : string) : http_request :=
  {| hr_Method := "GET"; hr_URL := endpoint; hr_Authorization := "Bearer " +:+ key;
     hr_Accept := "application/json" |}.

(** The parse of a body, with the errors [fetchQuota] reports for it. *)
Definition parseQuotaBody (body : string) (now : Time) : res quotaSnapshot :=
  match decode_quota body with
  | None => errorf "malformed JSON"
  | Some response => parseQuotaResponse response now
  end.

(** The requests sent, and the result. *)
Definition fetchQuota (client : option (http_request → http_result))
    (endpoint key : string) (now : Time) : list http_request * res quotaSnapshot :=
  match client with
  | None => ([], errorf "quota client unavailable")
  | Some do =>
  match validateQuotaEndpoint endpoint (negb (bool_decide (endpoint = quotaEndpoint))) with
  | Err e => ([], Err e)
  | Ok _ =>
  let request := quota_request endpoint key in
  ([request],
   match do request with
   | HttpError e => if error_is_context e then Err e else errorf "quota request failed"
   | HttpResponse status body =>
       if negb (status =? 200)
       then errorf ("quota endpoint returned status " +:+ itoa status)
       else match body with
       | Err _ => errorf "read quota response"
       | Ok body =>
           if maxQuotaResponse <? len body then errorf "quota response exceeds maximum size"
           else wrap_err "invalid quota response: " (parseQuotaBody body now)
       end
   end)
  end end.

End Fetch.

(** ** Lemmas *)

(** What the rest of the program relies on for a window it is given. *)
Record window_valid (observedAt : Time) (w : quotaWindow) : Prop := {
  wv_consumed : 0 <= qw_ConsumedMicrocredits w <= qw_BucketMicrocredits w;
  wv_bucket : 0 < qw_BucketMicrocredits w <= int64_max;
  wv_reset : qw_ResetsAt w = 0 ∨ observedAt < qw_ResetsAt w;
}.

(** The limits that describe the window of [unit] and [number]. *)
Definition limit_for (unit number : Z) (limit : quotaWireLimit) : Prop :=
  ToUpper (TrimSpace (wl_Type limit)) = "CREDIT_LIMIT"
  ∧ strictInt64 (wl_Unit limit) = Ok unit ∧ strictInt64 (wl_Number limit) = Ok number.

#[global] Instance limit_for_decision u n limit : Decision (limit_for u n limit).
Proof. unfold limit_for. apply _. Defined.

(** The response is not refused by its header fields. *)
Definition header_ok (response : quotaWireResponse) : Prop :=
  wr_Success response ≠ Some false
  ∧ (wr_Code response = "" ∨ ParseInt (wr_Code response) = Some 200).

Lemma strictNonnegative_nonneg s v : strictNonnegativeInt64 s = Ok v → 0 <= v.
Proof.
  unfold strictNonnegativeInt64. case_match; [|done]. case_match; [done|].
  intros [= <-]. by crush_bool.
Qed.

Lemma credits_scale_fit v : 0 <= v <= int64_max / creditScale →
  v [*] creditScale = v * creditScale ∧ 0 <= v * creditScale <= int64_max.
Proof.
  intros. assert (int64_max / creditScale * creditScale <= int64_max) by (by vm_compute).
  assert (0 < creditScale) by done.
  assert (0 <= v * creditScale <= int64_max) by nia.
  split; [|done]. apply wrap64_id. unfold in_int64, int64_min. lia.
Qed.

Lemma parseQuotaWindow_valid limit observedAt w :
  parseQuotaWindow limit observedAt = Ok w → window_valid observedAt w.
Proof.
  unfold parseQuotaWindow. intros H.
  destruct (strictNonnegativeInt64 (wl_Usage limit)) as [usage|] eqn:Hu; [|done].
  apply strictNonnegative_nonneg in Hu.
  destruct (usage <=? 0) eqn:?; [done|].
  destruct (strictNonnegativeInt64 (wl_CurrentValue limit)) as [current|] eqn:Hc; [|done].
  apply strictNonnegative_nonneg in Hc.
  destruct (usage <? current) eqn:?; [done|].
  destruct (negb _ && negb _); [done|].
  destruct (_ || _) eqn:Hrange; [done|]. crush_bool.
  destruct (credits_scale_fit usage) as [Eu ?]; [lia|].
  destruct (credits_scale_fit current) as [Ec ?]; [lia|].
  assert (0 < creditScale) by done.
  assert (∀ reset, reset = 0 ∨ observedAt < reset → window_valid observedAt
    {| qw_ConsumedMicrocredits := current [*] creditScale;
       qw_BucketMicrocredits := usage [*] creditScale; qw_ResetsAt := reset |}) as Hw.
  { intros reset Hreset. rewrite Eu, Ec. split; simpl; [nia|nia|done]. }
  case_decide; [case_match; simplify_eq; apply Hw; by left|].
  case_match; [|done]. case_match; [done|]. case_match; [done|]. simplify_eq.
  apply Hw. crush_bool. by right.
Qed.

(** A step of the scan touches a window only for a limit of that window. *)
Ltac scan_step :=
  unfold scan_limit;
  match goal with
  | H : limit_for _ _ _ |- _ =>
      destruct H as (-> & -> & ->); simpl; by destruct (scan_target _ _ _ _)
  | H : ¬ limit_for _ _ _ |- _ =>
      unfold limit_for in H; case_bool_decide; simpl; [|done];
      destruct (strictInt64 _) as [u|] eqn:?; [|done];
      destruct (strictInt64 (wl_Number _)) as [n|] eqn:?; [|done];
      destruct (_ && _) eqn:?; crush_bool; subst;
        [try (exfalso; tauto); by destruct (scan_target _ _ _ _)|];
      destruct ((u =? 6) && (n =? 1)) eqn:?; crush_bool; subst;
        [try (exfalso; tauto); by destruct (scan_target _ _ _ _)|done]
  end.

Lemma scan_limit_weekly observedAt st limit :
  (qc_weekly (scan_limit observedAt st limit), qc_weeklyErr (scan_limit observedAt st limit))
  = if decide (limit_for 6 1 limit)
    then scan_target limit observedAt (qc_weekly st) (qc_weeklyErr st)
    else (qc_weekly st, qc_weeklyErr st).
Proof. case_decide; scan_step. Qed.

Lemma scan_limit_fiveHour observedAt st limit :
  (qc_fiveHour (scan_limit observedAt st limit), qc_fiveHourErr (scan_limit observedAt st limit))
  = if decide (limit_for 3 5 limit)
    then scan_target limit observedAt (qc_fiveHour st) (qc_fiveHourErr st)
    else (qc_fiveHour st, qc_fiveHourErr st).
Proof. case_decide; scan_step. Qed.

Definition scan_targets (observedAt : Time) :=
  foldl (λ we limit, scan_target limit observedAt we.1 we.2).

Lemma scan_weekly observedAt limits st :
  let st' := foldl (scan_limit observedAt) st limits in
  (qc_weekly st', qc_weeklyErr st')
  = scan_targets observedAt (qc_weekly st, qc_weeklyErr st) (filter (limit_for 6 1) limits).
Proof.
  revert st. induction limits as [|limit limits IH]; intros st; [done|].
  cbn [foldl]. rewrite IH, scan_limit_weekly, filter_cons. by case_decide.
Qed.

Lemma scan_fiveHour observedAt limits st :
  let st' := foldl (scan_limit observedAt) st limits in
  (qc_fiveHour st', qc_fiveHourErr st')
  = scan_targets observedAt (qc_fiveHour st, qc_fiveHourErr st) (filter (limit_for 3 5) limits).
Proof.
  revert st. induction limits as [|limit limits IH]; intros st; [done|].
  cbn [foldl]. rewrite IH, scan_limit_fiveHour, filter_cons. by case_decide.
Qed.

(** A target that ends up set was set by one of its limits. *)
Lemma scan_target_source observedAt limits we w :
  (scan_targets observedAt we limits).1 = Some w →
  we.1 = Some w ∨ ∃ limit, limit ∈ limits ∧ parseQuotaWindow limit observedAt = Ok w.
Proof.
  revert we. induction limits as [|limit limits IH]; intros we; [by left|].
  intros [H|(limit' & ? & ?)]%IH; [|right; exists limit'; by rewrite elem_of_cons; auto].
  unfold scan_target in H. destruct (we.1); [done|].
  destruct (parseQuotaWindow limit observedAt) eqn:E; simplify_eq/=.
  right. exists limit. split; [apply elem_of_cons; by left|done].
Qed.

Lemma scan_targets_parity observedAt limits w e :
  Forall (λ limit, parseQuotaWindow limit observedAt = Ok w) limits →
  (scan_targets observedAt (None, e) limits).1
  = if Nat.even (length limits) then None else Some w.
Proof.
  remember (length limits) as n eqn:Hn. revert limits Hn e.
  induction n as [n IH] using lt_wf_ind.
  intros [|l1 [|l2 limits]] -> e Hall; [done| |].
  - apply Forall_cons in Hall as [H1 _]. simpl. unfold scan_target. by rewrite H1.
  - apply Forall_cons in Hall as [H1 Hall]. apply Forall_cons in Hall as [H2 Hall].
    simpl length. simpl Nat.even. rewrite <- (IH (length limits)) with (limits := limits)
      (e := "duplicate quota limit"); [|simpl; lia|done|done].
    unfold scan_targets. cbn [foldl]. unfold scan_target at 2 3. simpl.
    by rewrite H1.
Qed.

Lemma parseQuotaResponse_header response observedAt :
  ¬ header_ok response → is_Ok (parseQuotaResponse response observedAt) = false.
Proof.
  unfold header_ok, parseQuotaResponse. intros H.
  case_bool_decide; [done|]. do 2 case_bool_decide; simpl; try done; exfalso; tauto.
Qed.

(** An accepted header leaves the outcome to the scan. *)
Lemma parseQuotaResponse_scan response observedAt :
  header_ok response →
  let st := foldl (scan_limit observedAt) quotaScan_init (wd_Limits (wr_Data response)) in
  match qc_weekly st with
  | None => parseQuotaResponse response observedAt
            = errorf (first_nonempty (qc_weeklyErr st) "missing required weekly quota limit")
  | Some weekly =>
      ∃ snap, parseQuotaResponse response observedAt = Ok snap
      ∧ sn_Weekly snap = weekly ∧ sn_ObservedAt snap = observedAt
      ∧ match qc_fiveHour st with
        | Some w => sn_FiveHour snap = w ∧ sn_FiveHourError snap = ""
        | None => sn_FiveHour snap = zero_window
                  ∧ sn_FiveHourError snap
                    = first_nonempty (first_nonempty (qc_fiveHourErr st)
                        (Join (qc_unmatchedErrs st) "; "))
                        "missing required five-hour quota limit"
        end
  end.
Proof.
  intros [Hs Hc]. unfold parseQuotaResponse. rewrite bool_decide_eq_false_2 by done.
  assert (negb (bool_decide (wr_Code response = ""))
    && negb (bool_decide (ParseInt (wr_Code response) = Some 200)) = false) as ->.
  { destruct Hc; [rewrite bool_decide_eq_true_2 by done; done|].
    rewrite (bool_decide_eq_true_2 (ParseInt _ = _)) by done. by rewrite andb_false_r. }
  simpl. destruct (qc_weekly _); [|done].
  destruct (qc_fiveHour _); eexists; (split; [reflexivity|done]).
Qed.

Lemma first_nonempty_nonempty s t : t ≠ "" → first_nonempty s t ≠ "".
Proof. unfold first_nonempty. by case_decide. Qed.

(** ** Properties *)

(** C33: what an accepted response is worth: its weekly window is the window of
    one of the response's weekly limits, its five-hour window, unless an error
    is recorded for it, the window of one of its five-hour limits; both are
    valid (consumption within a positive bucket, no reset in the past), and a
    five-hour window that could not be parsed is left zero, never guessed. *)
Theorem parseQuotaResponse_sound response observedAt snap :
  parseQuotaResponse response observedAt = Ok snap →
  header_ok response
  ∧ (∃ limit, limit ∈ wd_Limits (wr_Data response) ∧ limit_for 6 1 limit
      ∧ parseQuotaWindow limit observedAt = Ok (sn_Weekly snap))
  ∧ window_valid observedAt (sn_Weekly snap)
  ∧ sn_ObservedAt snap = observedAt
  ∧ (if decide (sn_FiveHourError snap = "")
     then window_valid observedAt (sn_FiveHour snap)
          ∧ ∃ limit, limit ∈ wd_Limits (wr_Data response) ∧ limit_for 3 5 limit
              ∧ parseQuotaWindow limit observedAt = Ok (sn_FiveHour snap)
     else sn_FiveHour snap = zero_window).
Proof.
  intros Hparse.
  assert (header_ok response) as Hok.
  { destruct (decide (header_ok response)) as [|Hn]; [done|].
    apply (parseQuotaResponse_header _ observedAt) in Hn. by rewrite Hparse in Hn. }
  split; [done|].
  pose proof (parseQuotaResponse_scan response observedAt Hok) as Hscan.
  pose proof (scan_weekly observedAt (wd_Limits (wr_Data response)) quotaScan_init) as Hw.
  pose proof (scan_fiveHour observedAt (wd_Limits (wr_Data response)) quotaScan_init) as Hf.
  simpl in *. set (st := foldl _ _ _) in *.
  destruct (qc_weekly st) as [weekly|]; [|by rewrite Hscan in Hparse].
  destruct Hscan as (snap' & Heq & <- & Hobs & Hfive). rewrite Heq in Hparse. simplify_eq.
  apply (f_equal fst), eq_sym, scan_target_source in Hw as [|(limit & Hin & Hlim)]; [done|].
  apply list_elem_of_filter in Hin as [? ?].
  split; [by eauto|]. split; [by eapply parseQuotaWindow_valid|]. split; [done|].
  destruct (qc_fiveHour st) as [w|]; destruct Hfive as [-> ->].
  - rewrite decide_True by done.
    apply (f_equal fst), eq_sym, scan_target_source in Hf as [|(limit' & Hin & Hlim')]; [done|].
    apply list_elem_of_filter in Hin as [? ?]. split; [by eapply parseQuotaWindow_valid|eauto].
  - rewrite decide_False; [done|]. by apply first_nonempty_nonempty.
Qed.

(** A response of the shape the endpoint documents, and two broken variants. *)
Definition demo_limit (unit number usage current reset : string) : quotaWireLimit :=
  {| wl_Type := "CREDIT_LIMIT"; wl_Unit := unit; wl_Number := number; wl_Usage := usage;
     wl_CurrentValue := current; wl_Remaining := ""; wl_NextResetTime := reset |}.
Definition demo_weekly := demo_limit "6" "1" "60000" "1200" "1767830400000.0".
Definition demo_fiveHour := demo_limit "3" "5" "12000" "0" "".
Definition demo_now : Time := time_Unix 1767225600.
Definition demo_response (limits : list quotaWireLimit) : quotaWireResponse :=
  {| wr_Code := "200"; wr_Success := Some true;
     wr_Data := {| wd_Level := "pro"; wd_PlanName := "GLM Coding Pro Plan";
                   wd_Limits := limits |} |}.
Definition demo_snapshot : quotaSnapshot :=
  {| sn_Plan := "pro"; sn_FiveHour :=
       {| qw_ConsumedMicrocredits := 0; qw_BucketMicrocredits := 12000000000;
          qw_ResetsAt := 0 |};
     sn_FiveHourError := "";
     sn_Weekly := {| qw_ConsumedMicrocredits := 1200000000;
                     qw_BucketMicrocredits := 60000000000;
                     qw_ResetsAt := time_UnixMilli 1767830400000 |};
     sn_ObservedAt := demo_now |}.

Lemma parseQuotaResponse_sound_witness :
  parseQuotaResponse (demo_response [demo_fiveHour; demo_weekly]) demo_now = Ok demo_snapshot
  ∧ window_valid demo_now (sn_Weekly demo_snapshot).
Proof.
  assert (H : parseQuotaResponse (demo_response [demo_fiveHour; demo_weekly]) demo_now
    = Ok demo_snapshot) by (vm_compute; reflexivity).
  split; [exact H|].
  exact (proj1 (proj2 (proj2 (parseQuotaResponse_sound _ _ _ H)))).
Defined.

(** The weekly window governs: in an accepted header with exactly one weekly
    limit, that limit alone decides whether there is a snapshot, whatever the
    other limits (malformed, duplicated or missing five-hour limits included),
    and its error is the error reported. *)
Theorem parseQuotaResponse_weekly_governs response observedAt limit :
  header_ok response →
  filter (limit_for 6 1) (wd_Limits (wr_Data response)) = [limit] →
  match parseQuotaWindow limit observedAt with
  | Ok w => ∃ snap, parseQuotaResponse response observedAt = Ok snap ∧ sn_Weekly snap = w
  | Err e => parseQuotaResponse response observedAt
             = errorf (first_nonempty (error_text e) "missing required weekly quota limit")
  end.
Proof.
  intros Hok Hone.
  pose proof (parseQuotaResponse_scan response observedAt Hok) as Hscan.
  pose proof (scan_weekly observedAt (wd_Limits (wr_Data response)) quotaScan_init) as Hw.
  rewrite Hone in Hw. simpl in *. unfold scan_targets, scan_target in Hw. simpl in Hw.
  destruct (parseQuotaWindow limit observedAt); injection Hw as Hw He; rewrite Hw in Hscan.
  - destruct Hscan as (snap & ? & ? & _). eauto.
  - by rewrite Hscan, He.
Qed.

Lemma parseQuotaResponse_weekly_governs_witness :
  ∃ snap, parseQuotaResponse
    (demo_response [demo_limit "x" "" "" "" ""; demo_weekly; demo_fiveHour; demo_fiveHour])
    demo_now = Ok snap ∧ sn_Weekly snap = sn_Weekly demo_snapshot.
Proof.
  assert (parseQuotaWindow demo_weekly demo_now = Ok (sn_Weekly demo_snapshot)) as Hw
    by (vm_compute; reflexivity).
  assert (header_ok (demo_response
    [demo_limit "x" "" "" "" ""; demo_weekly; demo_fiveHour; demo_fiveHour])) as Hok
    by (split; [discriminate|right; vm_compute; reflexivity]).
  pose proof (parseQuotaResponse_weekly_governs _ demo_now demo_weekly Hok) as H.
  rewrite Hw in H. apply H. vm_compute. reflexivity.
Defined.

(** A repeated weekly limit is refused or trusted by the parity of its
    repetitions: with [n] copies of a well-formed weekly limit the response is
    accepted exactly when [n] is odd, so that three copies are trusted although
    the source means to fail closed on duplicates. *)
Theorem duplicate_weekly_parity response observedAt w :
  header_ok response →
  Forall (λ limit, parseQuotaWindow limit observedAt = Ok w)
    (filter (limit_for 6 1) (wd_Limits (wr_Data response))) →
  is_Ok (parseQuotaResponse response observedAt)
  = Nat.odd (length (filter (limit_for 6 1) (wd_Limits (wr_Data response)))).
Proof.
  intros Hok Hall.
  pose proof (parseQuotaResponse_scan response observedAt Hok) as Hscan.
  pose proof (scan_weekly observedAt (wd_Limits (wr_Data response)) quotaScan_init) as Hw.
  simpl in *. apply (f_equal fst) in Hw. simpl in Hw.
  rewrite (scan_targets_parity observedAt _ w) in Hw by done. rewrite Hw in Hscan.
  rewrite <- Nat.negb_even. destruct (Nat.even _).
  - by rewrite Hscan.
  - by destruct Hscan as (snap & -> & _).
Qed.

Lemma duplicate_weekly_parity_witness :
  is_Ok (parseQuotaResponse (demo_response [demo_weekly; demo_weekly]) demo_now) = false
  ∧ is_Ok (parseQuotaResponse (demo_response [demo_weekly; demo_weekly; demo_weekly]) demo_now)
    = true.
Proof.
  assert (parseQuotaWindow demo_weekly demo_now = Ok (sn_Weekly demo_snapshot)) as Hw
    by (vm_compute; reflexivity).
  assert (∀ n, filter (limit_for 6 1) (replicate n demo_weekly) = replicate n demo_weekly) as Hf.
  { assert (limit_for 6 1 demo_weekly) by (repeat split; vm_compute; reflexivity).
    induction n; [done|]. simpl. rewrite filter_cons_True by done. by f_equal. }
  assert (∀ n, is_Ok (parseQuotaResponse (demo_response (replicate n demo_weekly)) demo_now)
    = Nat.odd n) as H.
  { intros n. rewrite (duplicate_weekly_parity _ _ (sn_Weekly demo_snapshot)); simpl wd_Limits.
    - by rewrite Hf, length_replicate.
    - split; [discriminate|right; vm_compute; reflexivity].
    - rewrite Hf. by apply Forall_replicate. }
  split; [apply (H 2%nat)|apply (H 3%nat)].
Defined.

(** C39: the plan key leaves the process only to the production quota endpoint
    over https or, for an overridden endpoint, to a loopback host: every request
    [fetchQuota] sends carries the key in its authorization header only, and
    goes to such a URL without user info, query or fragment; at most one request
    is sent. *)
Theorem fetchQuota_destination `{GoStd} decode_quota client endpoint key now :
  (length (fetchQuota decode_quota client endpoint key now).1 ≤ 1)%nat ∧
  ∀ req, req ∈ (fetchQuota decode_quota client endpoint key now).1 →
    hr_URL req = endpoint ∧ hr_Method req = "GET"
    ∧ hr_Authorization req = "Bearer " +:+ key
    ∧ ∃ url, url_Parse (hr_URL req) = Some url
      ∧ url_HasUser url = false ∧ url_RawQuery url = "" ∧ url_Fragment url = ""
      ∧ ((url_Scheme url = "https" ∧ url_Host url = "api.z.ai"
          ∧ url_Path url = "/api/monitor/usage/quota/limit")
         ∨ (endpoint ≠ quotaEndpoint ∧ url_Scheme url = "http"
            ∧ (url_Hostname url = "127.0.0.1" ∨ url_Hostname url = "localhost"))).
Proof.
  unfold fetchQuota. destruct client as [do|]; [|split; [simpl; lia|intros ? []%elem_of_nil]].
  destruct (validateQuotaEndpoint _ _) eqn:Hv; simpl;
    [|split; [lia|intros ? []%elem_of_nil]].
  split; [lia|]. intros req ->%list_elem_of_singleton. simpl. do 3 (split; [done|]).
  unfold validateQuotaEndpoint in Hv. destruct (url_Parse endpoint) as [url|]; [|done].
  exists url. split; [done|].
  destruct (url_HasUser url || _ || _) eqn:Hplain; [done|]. crush_bool.
  split; [done|]. split; [done|]. split; [done|].
  destruct (negb _ && _ && _) eqn:Htest.
  - right. apply andb_true_iff in Htest as [Htest Hlocal]. crush_bool.
    split_and!; [done|done|]. destruct Hlocal; crush_bool; auto.
  - left. destruct (negb _ || _ || _) eqn:Hprod; [done|]. by crush_bool.
Qed.
