(* ===== verification/Config.v ===== *)
(** * The Z.ai module's configuration (zai/config.go)

    The defaults, the validation of the module's own configuration after the
    YAML decoder, and the projection of the host's configuration the module
    reads. The decoder is the parameter [decode_plugin_config]; resolving paths
    and reading the host's file are in ZaiHost. *)

From S2P Require Import Prelude GoStrings GoFloat Host Credits Quota.

Definition defaultCPAConfigPath : string := "config.yaml".
Definition requiredPluginPriority : Z := 1000.
Definition defaultQuotaRefresh : Duration := 2 * minute.
Definition defaultAuthoritativeMaxAge : Duration := 5 * minute.
Definition defaultThreshold : Z := 97.
Definition defaultSuspend : Duration := 30 * minute.
Definition defaultFallback : Duration := 10 * minute.
Definition defaultStateRetention : Duration := 8 * day.

Record creditBuckets := { cb_FiveHour : Z; cb_Weekly : Z }.

Definition planBuckets : gmap string creditBuckets :=
  list_to_map [
    ("lite", {| cb_FiveHour := 2000; cb_Weekly := 10000 |});
    ("pro", {| cb_FiveHour := 12000; cb_Weekly := 60000 |});
    ("max", {| cb_FiveHour := 28000; cb_Weekly := 140000 |})
  ].

Record accountOverride := {
  ao_KeySuffix : string;
  ao_Name : string;
  ao_Plan : string;
  ao_Disabled : bool;
  ao_FiveHourCredits : Z;
  ao_WeeklyCredits : Z;
}.

Record pluginConfig := {
  pc_CPAConfigPath : string;
  pc_QuotaRefresh : Duration;
  pc_AuthoritativeMaxAge : Duration;
  pc_QuotaTimeout : Duration;
  pc_ThresholdPercent : Z;
  pc_SuspendDuration : Duration;
  pc_FallbackCooldown : Duration;
  pc_StateRetention : Duration;
  pc_DefaultPlan : string;
  pc_Accounts : list accountOverride;
}.

Record rawAccountOverride := {
  ra_KeySuffix : string;
  ra_Name : string;
  ra_Plan : string;
  ra_Disabled : bool;
  ra_FiveHourCredits : option Z;
  ra_WeeklyCredits : option Z;
}.

Record rawPluginConfig := {
  rp_Enabled : bool;
  rp_Priority : Z;
  rp_CPAConfigPath : string;
  rp_QuotaRefresh : string;
  rp_AuthoritativeMaxAge : string;
  rp_ThresholdPercent : option Z;
  rp_SuspendDuration : string;
  rp_FallbackCooldown : string;
  rp_StateRetention : string;
  rp_DefaultPlan : string;
  rp_Accounts : list rawAccountOverride;
}.

(** ** The host's configuration *)

(** [sdkconfig.ClaudeKey], [sdkconfig.OpenAICompatibility] and its key entries;
    the header maps in the order an iteration visits them. *)
Record ClaudeKey := {
  ck_APIKey : string;
  ck_Prefix : string;
  ck_BaseURL : string;
  ck_ProxyURL : string;
  ck_Headers : list (string * string);
}.

Record APIKeyEntry := { ke_APIKey : string; ke_ProxyURL : string }.

Record OpenAICompatibility := {
  oc_Name : string;
  oc_Disabled : bool;
  oc_BaseURL : string;
  oc_APIKeyEntries : list APIKeyEntry;
  oc_Headers : list (string * string);
}.

Record cpaPluginProjection := {
  cpp_Enabled : option bool;
  cpp_Priority : Z;
}.

(** [Configs] in the order an iteration visits it. *)
Record cpaPluginsProjection := {
  cps_Enabled : bool;
  cps_Configs : list (string * cpaPluginProjection);
}.

Record cpaConfigProjection := {
  cc_AuthDir : string;
  cc_ClaudeKeys : list ClaudeKey;
  cc_OpenAICompatibility : list OpenAICompatibility;
  cc_Plugins : cpaPluginsProjection;
}.

(** ** Validation *)

Definition normalizePlan (raw : string) : string :=
  let plan := ToLower (TrimSpace raw) in
  if bool_decide (plan ∈ ["lite"; "pro"; "max"; "custom"]) then plan else "".

(** zai/runtime.go *)
Definition maxPollInterval (base : Duration) : Duration := base [+] (base [/] 2).

Definition validateAccountOverride (input : rawAccountOverride) (defaultPlan : string)
    : res accountOverride :=
  let plan := normalizePlan (ra_Plan input) in
  if bool_decide (TrimSpace (ra_KeySuffix input) = "") then errorf "key-suffix is required" else
  if negb (bool_decide (ra_Plan input = "")) && bool_decide (plan = "")
  then errorf "plan must be lite, pro, max, or custom" else
  let plan := if decide (plan = "") then defaultPlan else plan in
  let fiveHour := default 0 (ra_FiveHourCredits input) in
  if bool_decide (is_Some (ra_FiveHourCredits input)) && negb (validCreditBucket fiveHour)
  then errorf ("five-hour-credits must be positive and at most " +:+ itoa maxCreditBucket) else
  let weekly := default 0 (ra_WeeklyCredits input) in
  if bool_decide (is_Some (ra_WeeklyCredits input)) && negb (validCreditBucket weekly)
  then errorf ("weekly-credits must be positive and at most " +:+ itoa maxCreditBucket) else
  if bool_decide (plan = "custom") && ((fiveHour =? 0) || (weekly =? 0))
  then errorf "custom plan requires both credit buckets" else
  if bool_decide (plan = "") && ((fiveHour =? 0) || (weekly =? 0))
  then errorf "plan or both credit buckets are required" else
  Ok {| ao_KeySuffix := TrimSpace (ra_KeySuffix input); ao_Name := TrimSpace (ra_Name input);
        ao_Plan := plan; ao_Disabled := ra_Disabled input;
        ao_FiveHourCredits := fiveHour; ao_WeeklyCredits := weekly |}.

Section Parse.
Context `{GoStd}.
Context (decode_plugin_config : string → res rawPluginConfig).

Definition parsePositiveDuration (name raw : string) (fallback : Duration) : res Duration :=
  if bool_decide (TrimSpace raw = "") then Ok fallback
  else match parse_duration (TrimSpace raw) with
  | Some value =>
      if value <=? 0 then errorf (name +:+ " must be a positive duration") else Ok value
  | None => errorf (name +:+ " must be a positive duration")
  end.

(** The loop over the account overrides; [seenNames] holds the lowered names. *)
Fixpoint parseAccounts (i : nat) (seenNames : gset string) (defaultPlan : string)
    (accounts : list rawAccountOverride) : res (list accountOverride) :=
  match accounts with
  | [] => Ok []
  | rawAccount :: accounts' =>
      let at_i := "accounts[" +:+ itoa (Z.of_nat i) +:+ "]: " in
      override ← wrap_err at_i (validateAccountOverride rawAccount defaultPlan);
      if bool_decide (ao_Name override = "") then
        rest ← parseAccounts (S i) seenNames defaultPlan accounts';
        Ok (override :: rest)
      else
        let nameKey := ToLower (ao_Name override) in
        if bool_decide (nameKey ∈ seenNames)
        then errorf (at_i +:+ "duplicate name " +:+ quote (ao_Name override))
        else
          rest ← parseAccounts (S i) ({[nameKey]} ∪ seenNames) defaultPlan accounts';
          Ok (override :: rest)
  end.

Definition parsePluginConfig (raw : string) : res pluginConfig :=
  input ← wrap_err "decode plugin config: " (decode_plugin_config raw);
  let path := TrimSpace (rp_CPAConfigPath input) in
  let path := if decide (path = "") then defaultCPAConfigPath else path in
  let defaultPlan := normalizePlan (rp_DefaultPlan input) in
  let threshold := default defaultThreshold (rp_ThresholdPercent input) in
  if (threshold <? 1) || (100 <? threshold)
  then errorf "threshold-percent must be between 1 and 100" else
  refresh ← parsePositiveDuration "quota-refresh-interval" (rp_QuotaRefresh input)
    defaultQuotaRefresh;
  if (refresh <? minute) || (3 * minute <? refresh)
  then errorf "quota-refresh-interval must be between one and three minutes" else
  maxAge ← parsePositiveDuration "authoritative-max-age" (rp_AuthoritativeMaxAge input)
    defaultAuthoritativeMaxAge;
  if maxAge <=? maxPollInterval refresh
  then errorf "authoritative-max-age must exceed the maximum poll interval" else
  suspend ← parsePositiveDuration "suspend-duration" (rp_SuspendDuration input) defaultSuspend;
  fallback ← parsePositiveDuration "fallback-cooldown" (rp_FallbackCooldown input)
    defaultFallback;
  retention ← parsePositiveDuration "state-retention" (rp_StateRetention input)
    defaultStateRetention;
  if retention <=? 7 * day then errorf "state-retention must exceed one week" else
  if negb (bool_decide (rp_DefaultPlan input = ""))
     && (bool_decide (defaultPlan = "") || bool_decide (defaultPlan = "custom"))
  then errorf "default-plan must be lite, pro, or max" else
  accounts ← parseAccounts 0 ∅ defaultPlan (rp_Accounts input);
  Ok {| pc_CPAConfigPath := path; pc_QuotaRefresh := refresh; pc_AuthoritativeMaxAge := maxAge;
        pc_QuotaTimeout := defaultQuotaTimeout; pc_ThresholdPercent := threshold;
        pc_SuspendDuration := suspend; pc_FallbackCooldown := fallback;
        pc_StateRetention := retention; pc_DefaultPlan := defaultPlan;
        pc_Accounts := accounts |}.

End Parse.

(** ** What a parsed configuration promises its users *)

(** A plan that has credit buckets of its own. *)
Definition known_plan (plan : string) : Prop := plan = "lite" ∨ plan = "pro" ∨ plan = "max".

(** A bucket that is not overridden is 0. *)
Definition bucket_ok (credits : Z) : Prop := credits = 0 ∨ validCreditBucket credits = true.

(** A plan with buckets of its own takes each of them from the plan, or overrides it; a
    custom plan, or none at all, needs both. *)
Record override_valid (defaultPlan : string) (o : accountOverride) : Prop := {
  ov_suffix : ao_KeySuffix o ≠ "";
  ov_trimmed : TrimSpace (ao_KeySuffix o) = ao_KeySuffix o;
  ov_plan : known_plan (ao_Plan o) ∧ bucket_ok (ao_FiveHourCredits o) ∧ bucket_ok (ao_WeeklyCredits o)
            ∨ (ao_Plan o = "custom" ∨ ao_Plan o = "" ∧ defaultPlan = "")
              ∧ validCreditBucket (ao_FiveHourCredits o) = true ∧ validCreditBucket (ao_WeeklyCredits o) = true;
}.

(** How an override is read: a plan that is given is one of the four; a bucket that is
    given is valid, and 0 stands for one that is not. *)
Record override_from (defaultPlan : string) (raw : rawAccountOverride) (o : accountOverride) : Prop := {
  of_suffix : ao_KeySuffix o = TrimSpace (ra_KeySuffix raw);
  of_name : ao_Name o = TrimSpace (ra_Name raw);
  of_disabled : ao_Disabled o = ra_Disabled raw;
  of_plan : ra_Plan raw = "" ∧ ao_Plan o = defaultPlan
            ∨ ao_Plan o = ToLower (TrimSpace (ra_Plan raw)) ∧ ao_Plan o ∈ ["lite"; "pro"; "max"; "custom"];
  of_fiveHour : ao_FiveHourCredits o = default 0 (ra_FiveHourCredits raw)
                ∧ ∀ credits, ra_FiveHourCredits raw = Some credits → validCreditBucket credits = true;
  of_weekly : ao_WeeklyCredits o = default 0 (ra_WeeklyCredits raw)
              ∧ ∀ credits, ra_WeeklyCredits raw = Some credits → validCreditBucket credits = true;
}.

(** Names other than the empty one are unique up to case. *)
Definition named_keys (accounts : list accountOverride) : list string :=
  (λ o, ToLower (ao_Name o)) <$> filter (λ o, ao_Name o ≠ "") accounts.

Record config_valid (cfg : pluginConfig) : Prop := {
  cv_threshold : 1 <= pc_ThresholdPercent cfg <= 100;
  cv_refresh : minute <= pc_QuotaRefresh cfg <= 3 * minute;
  cv_maxAge : pc_QuotaRefresh cfg + pc_QuotaRefresh cfg / 2 < pc_AuthoritativeMaxAge cfg
              <= int64_max;
  cv_suspend : 0 < pc_SuspendDuration cfg <= int64_max;
  cv_fallback : 0 < pc_FallbackCooldown cfg <= int64_max;
  cv_retention : 7 * day < pc_StateRetention cfg <= int64_max;
  cv_defaultPlan : pc_DefaultPlan cfg = "" ∨ known_plan (pc_DefaultPlan cfg);
  cv_overrides : Forall (override_valid (pc_DefaultPlan cfg)) (pc_Accounts cfg);
  cv_names : NoDup (named_keys (pc_Accounts cfg));
}.

Lemma normalizePlan_cases raw :
  normalizePlan raw = "" ∨ known_plan (normalizePlan raw) ∨ normalizePlan raw = "custom".
Proof.
  unfold normalizePlan, known_plan. case_bool_decide as Hin; [|by left].
  rewrite !elem_of_cons, elem_of_nil in Hin. tauto.
Qed.

Lemma normalizePlan_idemp raw : normalizePlan (normalizePlan raw) = normalizePlan raw.
Proof.
  destruct (normalizePlan_cases raw) as [->|[[->|[->| ->]]| ->]]; by vm_compute.
Qed.

Lemma normalizePlan_empty : normalizePlan "" = "".
Proof. by vm_compute. Qed.

Lemma maxPollInterval_eq base :
  minute <= base <= 3 * minute → maxPollInterval base = base + base / 2.
Proof.
  unfold minute, second, maxPollInterval. intros.
  assert (0 <= base / 2 <= base) by (split; [apply Z.div_pos|apply Z.div_le_upper_bound]; lia).
  rewrite Z.quot_div_nonneg by lia.
  rewrite (wrap64_id (base / 2)), wrap64_id; unfold in_int64, int64_min, int64_max; lia.
Qed.

Lemma parsePositiveDuration_range `{GoStdLaws} name raw fallback d :
  0 < fallback <= int64_max →
  parsePositiveDuration name raw fallback = Ok d → 0 < d <= int64_max.
Proof.
  unfold parsePositiveDuration. intros Hf. case_match; [by intros [= <-]|].
  destruct (parse_duration _) as [v|] eqn:Hp; [|done].
  apply parse_duration_range in Hp. unfold in_int64, int64_min in Hp.
  case_match; [done|]. intros [= <-]. crush_bool. lia.
Qed.

Lemma override_bucket_given credits :
  bool_decide (is_Some credits) && negb (validCreditBucket (default 0 credits)) = false →
  ∀ c, credits = Some c → validCreditBucket c = true.
Proof. intros Hb c ->. cbn in Hb. by apply negb_false_iff in Hb. Qed.

Lemma bucket_given credits :
  (∀ c : Z, credits = Some c → validCreditBucket c = true) → bucket_ok (default 0 credits).
Proof. destruct credits as [c|]; [intros Hc; right; by apply Hc|by left]. Qed.

Lemma bucket_required credits : bucket_ok credits → credits ≠ 0 → validCreditBucket credits = true.
Proof. by intros [?|?]. Qed.

Lemma validateAccountOverride_valid input defaultPlan o :
  defaultPlan = "" ∨ known_plan defaultPlan →
  validateAccountOverride input defaultPlan = Ok o → override_valid defaultPlan o ∧ override_from defaultPlan input o.
Proof.
  intros Hdef. unfold validateAccountOverride.
  destruct (bool_decide (TrimSpace (ra_KeySuffix input) = "")) eqn:Hsuffix; [done|].
  destruct (_ && bool_decide (normalizePlan (ra_Plan input) = "")) eqn:Hgiven; [done|].
  set (plan := if decide (normalizePlan (ra_Plan input) = "") then _ else _).
  assert ((plan = "" ∧ defaultPlan = "" ∨ known_plan plan ∨ plan = "custom")
    ∧ (ra_Plan input = "" ∧ plan = defaultPlan
       ∨ plan = ToLower (TrimSpace (ra_Plan input)) ∧ plan ∈ ["lite"; "pro"; "max"; "custom"])) as [Hplan Hread].
  { subst plan. destruct (decide (normalizePlan (ra_Plan input) = "")) as [Hnone|Hsome].
    - split; [destruct Hdef; [by left|by right; left]|]. left. crush_bool. destruct Hgiven; crush_bool; by split.
    - split; [destruct (normalizePlan_cases (ra_Plan input)) as [?|[?|?]]; [done|by right; left|by right; right]|].
      right. unfold normalizePlan in *. by case_bool_decide. }
  destruct (_ && negb (validCreditBucket (default 0 (ra_FiveHourCredits input)))) eqn:Hf; [done|].
  destruct (_ && negb (validCreditBucket (default 0 (ra_WeeklyCredits input)))) eqn:Hw; [done|].
  pose proof (override_bucket_given _ Hf) as Hfive. pose proof (override_bucket_given _ Hw) as Hweek.
  pose proof (bucket_given _ Hfive) as Hf'. pose proof (bucket_given _ Hweek) as Hw'.
  destruct (bool_decide (plan = "custom") && _) eqn:Hc; [done|].
  destruct (bool_decide (plan = "") && _) eqn:He; [done|].
  intros [= <-]. crush_bool. split; [|by split]. split; cbn; [done|apply TrimSpace_idemp|].
  destruct Hplan as [[? ?]|[?|?]]; [|by left|]; right;
    (split; [tauto|destruct Hc, He; crush_bool; try done; split; by apply bucket_required]).
Qed.

Lemma parseAccounts_valid `{GoStd} defaultPlan accounts :
  defaultPlan = "" ∨ known_plan defaultPlan →
  ∀ i seen os, parseAccounts i seen defaultPlan accounts = Ok os →
  Forall (override_valid defaultPlan) os ∧ Forall2 (override_from defaultPlan) accounts os
  ∧ NoDup (named_keys os) ∧ (∀ k, k ∈ named_keys os → k ∉ seen).
Proof.
  intros Hdef. induction accounts as [|raw accounts IH]; intros i seen os Hparse.
  { simplify_eq/=. split_and!; [constructor..|]. intros k Hk. by apply elem_of_nil in Hk. }
  cbn [parseAccounts] in Hparse.
  destruct (validateAccountOverride raw defaultPlan) as [o|e] eqn:Ho; [|done].
  apply validateAccountOverride_valid in Ho as [Ho Hfrom]; [|done]. cbn in Hparse.
  unfold named_keys. case_bool_decide as Hname.
  - destruct (parseAccounts (S i) seen defaultPlan accounts) as [rest|] eqn:Hr; [|done].
    simplify_eq/=. apply IH in Hr as (? & ? & ? & ?).
    rewrite filter_cons_False by tauto. by split_and!; [constructor|constructor| |].
  - case_bool_decide as Hseen; [done|].
    destruct (parseAccounts (S i) _ defaultPlan accounts) as [rest|] eqn:Hr; [|done].
    simplify_eq/=. apply IH in Hr as (? & ? & ? & Hfresh).
    rewrite filter_cons_True by done. csimpl. split_and!; [by constructor|by constructor| |].
    + apply NoDup_cons. split; [|done]. intros Hin%Hfresh. set_solver.
    + intros k [->|Hin%Hfresh]%elem_of_cons; set_solver.
Qed.

(** ** Properties *)

(** C36: every configuration the module accepts keeps the promises the rest of
    the program is built on: the threshold is a percentage, the refresh interval
    is between one and three minutes, the authoritative age exceeds the longest
    jittered poll interval, the durations are positive machine integers, and the
    retention covers the weekly window. The overrides are those of the input, in its
    order, each with a key suffix; names are unique up to case. A plan that is given is
    one of the four, else it is the default one; a bucket that is given is positive and
    at most the maximum. With lite, pro or max a bucket may be left to the plan; with
    the custom plan, or with no plan at all when there is no default one, both buckets
    are given. *)
Theorem parsePluginConfig_valid `{GoStdLaws} decode raw cfg :
  parsePluginConfig decode raw = Ok cfg →
  config_valid cfg
  ∧ ∃ input, decode raw = Ok input
      ∧ Forall2 (override_from (pc_DefaultPlan cfg)) (rp_Accounts input) (pc_Accounts cfg).
Proof.
  intros Hparse. unfold parsePluginConfig in Hparse.
  destruct (decode raw) as [input|]; [|done]. cbn in Hparse.
  destruct (_ || _) eqn:Hth in Hparse; [done|].
  destruct (parsePositiveDuration "quota-refresh-interval" _ _) as [refresh|] eqn:Hrefresh;
    [|done]. cbn in Hparse.
  destruct ((refresh <? minute) || _) eqn:Hrange in Hparse; [done|].
  destruct (parsePositiveDuration "authoritative-max-age" _ _) as [age|] eqn:Hage; [|done].
  cbn in Hparse. destruct (age <=? maxPollInterval refresh) eqn:Hpoll; [done|].
  destruct (parsePositiveDuration "suspend-duration" _ _) as [susp|] eqn:Hsusp; [|done].
  cbn in Hparse.
  destruct (parsePositiveDuration "fallback-cooldown" _ _) as [fb|] eqn:Hfb; [|done].
  cbn in Hparse.
  destruct (parsePositiveDuration "state-retention" _ _) as [ret|] eqn:Hret; [|done].
  cbn in Hparse. destruct (ret <=? 7 * day) eqn:Hweek; [done|].
  destruct (negb _ && _) eqn:Hplan in Hparse; [done|].
  destruct (parseAccounts _ _ _ _) as [accounts|] eqn:Hacc; [|done].
  simplify_eq/=. apply parsePositiveDuration_range in Hage, Hsusp, Hfb, Hret; [|done..].
  crush_bool.
  assert (normalizePlan (rp_DefaultPlan input) = ""
    ∨ known_plan (normalizePlan (rp_DefaultPlan input))) as Hdef.
  { destruct Hplan as [Hempty|Hother]; crush_bool.
    - left. by rewrite Hempty, normalizePlan_empty.
    - destruct (normalizePlan_cases (rp_DefaultPlan input)); tauto. }
  apply parseAccounts_valid in Hacc as (? & ? & ? & _); [|done].
  rewrite maxPollInterval_eq in Hpoll by lia.
  split; [by split; simpl; try lia|]. exists input. by split.
Qed.

Definition demo_raw_config : rawPluginConfig := {|
  rp_Enabled := true; rp_Priority := 1000; rp_CPAConfigPath := " /etc/cpa.yaml ";
  rp_QuotaRefresh := "60000000000"; rp_AuthoritativeMaxAge := ""; rp_ThresholdPercent := Some 90;
  rp_SuspendDuration := ""; rp_FallbackCooldown := ""; rp_StateRetention := "";
  rp_DefaultPlan := "Pro";
  rp_Accounts :=
    [{| ra_KeySuffix := " alpha1"; ra_Name := "Team"; ra_Plan := "custom"; ra_Disabled := false;
        ra_FiveHourCredits := Some 500; ra_WeeklyCredits := Some 2500 |}] |}.

Definition demo_config : pluginConfig := {|
  pc_CPAConfigPath := "/etc/cpa.yaml"; pc_QuotaRefresh := minute;
  pc_AuthoritativeMaxAge := defaultAuthoritativeMaxAge; pc_QuotaTimeout := defaultQuotaTimeout;
  pc_ThresholdPercent := 90; pc_SuspendDuration := defaultSuspend;
  pc_FallbackCooldown := defaultFallback; pc_StateRetention := defaultStateRetention;
  pc_DefaultPlan := "pro";
  pc_Accounts :=
    [{| ao_KeySuffix := "alpha1"; ao_Name := "Team"; ao_Plan := "custom"; ao_Disabled := false;
        ao_FiveHourCredits := 500; ao_WeeklyCredits := 2500 |}] |}.

Lemma parsePluginConfig_valid_witness : config_valid demo_config.
Proof.
  apply (parsePluginConfig_valid (H0 := DemoStd.demo_laws) (λ _, Ok demo_raw_config) "").
  vm_compute. reflexivity.
Defined.
