(* ===== verification/Accounts.v ===== *)
(** * Accounts of the Z.ai module (zai/accounts.go, zai/snapshot.go)

    The discovery of the accounts in the host's configuration: the pairing of
    the Anthropic and OpenAI-compatible entries of a key, the identifiers the
    host gives their credentials, and the overrides of the module's own
    configuration. *)

From stdpp Require Import sorting.
From S2P Require Import Prelude GoStrings GoFloat Host Credits Quota Config.

Definition zaiAnthropicBaseURL : string := "https://api.z.ai/api/anthropic".
Definition zaiOpenAIBaseURL : string := "https://api.z.ai/api/coding/paas/v4".
Definition zaiCompatName : string := "zai-coding-plan".

Definition authenticationHeaderNames : list string :=
  ["api-key"; "authorization"; "x-api-key"; "x-zai-api-key"].

Record account := {
  ac_Identity : string;
  ac_Name : string;
  ac_KeySuffix : string;
  ac_Plan : string;
  ac_Disabled : bool;
  ac_FiveHourCredits : Z;
  ac_WeeklyCredits : Z;
  ac_ClaudeAuthID : string;
  ac_OpenAIAuthID : string;
  ac_claudeAuthIDs : list string;
  ac_key : string;
  ac_planExplicit : bool;
  ac_fiveHourCreditsExplicit : bool;
  ac_weeklyCreditsExplicit : bool;
}.

Record pairCandidate := {
  pair_key : string;
  pair_claudeCount : Z;
  pair_openAIEntryCount : Z;
}.

(** The byte 0. *)
Definition NUL : string := str [Ascii.ascii_of_N 0].

(** ** Plain helpers *)

Definition uniqueStrings_step (acc : list string * gset string) (value : string)
    : list string * gset string :=
  let '(unique, seen) := acc in
  let value := TrimSpace value in
  if bool_decide (value = "") then acc
  else if bool_decide (value ∈ seen) then acc
  else (unique ++ [value], {[value]} ∪ seen).

Definition uniqueStrings (values : list string) : list string :=
  (foldl uniqueStrings_step ([], ∅) values).1.

(** The first forbidden name in the order the map is visited. *)
Definition authenticationHeader (headers : list (string * string)) : option string :=
  head (filter (λ name, name ∈ authenticationHeaderNames)
          ((λ h, ToLower (TrimSpace h.1)) <$> headers)).

Definition displaySuffix (key : string) : string :=
  let trimmed := TrimSpace key in
  if len trimmed <=? 6 then "redacted" else suffix_bytes 6 trimmed.

(** The order of [sort.Strings]. *)
Definition string_le (s t : string) : Prop := String.leb s t = true.

#[global] Instance string_le_dec : RelDecision string_le.
Proof. unfold string_le. intros s t. apply _. Defined.

Definition formatSortedHeaders (headers : list (string * string)) : string :=
  let values : gmap string string := list_to_map headers in
  foldr (λ key encoded, key +:+ NUL +:+ default "" (values !! key) +:+ NUL +:+ encoded) ""
    (merge_sort string_le headers.*1).

Definition accountAuthIDs (item : account) : list string :=
  uniqueStrings (ac_claudeAuthIDs item ++ [ac_ClaudeAuthID item; ac_OpenAIAuthID item]).

(** zai/snapshot.go: a map is updated in place. *)
Definition indexAccountAuthIDs (byAuthID : gmap string string) (item : account)
    : gmap string string :=
  foldl (λ m authID, <[authID := ac_Identity item]> m) byAuthID (accountAuthIDs item).

(** [None] is the collision error. *)
Definition validateAccountAuthIDs_step (owners : option (gmap string string))
    (own : string * string) : option (gmap string string) :=
  owners ← owners;
  let '(authID, identity) := own in
  let owner := default "" (owners !! authID) in
  if negb (bool_decide (owner = "")) && negb (bool_decide (owner = identity)) then None
  else Some (<[authID := identity]> owners).

(** The auth IDs with their owners, in the order of the two loops. *)
Definition owned_ids (accounts : list account) : list (string * string) :=
  item ← accounts; (λ authID, (authID, ac_Identity item)) <$> accountAuthIDs item.

Definition validateAccountAuthIDs (accounts : list account) : res unit :=
  match foldl validateAccountAuthIDs_step (Some ∅) (owned_ids accounts) with
  | Some _ => Ok ()
  | None => errorf "host auth ID collision between validated accounts"
  end.

(** ** Identifiers and base URLs *)

Section WithStd.
Context `{GoStd}.

Definition stableAuthID (kind : string) (parts : list string) : string :=
  sha256_hex (kind +:+ foldr (λ part acc, NUL +:+ TrimSpace part +:+ acc) "" parts).

(** [stableIDGenerator.next]: the identifier and the updated counters. *)
Definition stableID_next (counters : gmap string Z) (kind : string) (parts : list string)
    : string * gmap string Z :=
  let short := prefix_bytes 12 (stableAuthID kind parts) in
  let key := kind +:+ ":" +:+ short in
  let index := default 0 (counters !! key) in
  let short := if 0 <? index then short +:+ "-" +:+ itoa index else short in
  (kind +:+ ":" +:+ short, <[key := index [+] 1]> counters).

Definition zaiIdentityNamespace : string := "zai-coding-plan:account-identity:v1".

Definition accountIdentity (key : string) : string :=
  hmac_sha256_hex zaiIdentityNamespace (TrimSpace key).

Definition accountReference (key : string) : string := prefix_bytes 12 (accountIdentity key).

Definition normalizedBaseURL (raw : string) : res string :=
  let trimmed := TrimSpace raw in
  if bool_decide (trimmed = "") then errorf "base-url is required" else
  match url_Parse trimmed with
  | None => errorf "invalid base-url"
  | Some parsed =>
      if bool_decide (url_Scheme parsed = "") || bool_decide (url_Host parsed = "")
         || url_HasUser parsed
      then errorf "invalid base-url"
      else if negb (bool_decide (url_RawQuery parsed = ""))
              || negb (bool_decide (url_Fragment parsed = ""))
      then errorf "base-url must not include query or fragment"
      else Ok (url_String {|
        url_Scheme := ToLower (url_Scheme parsed); url_HasUser := url_HasUser parsed;
        url_Host := ToLower (url_Host parsed); url_Hostname := ToLower (url_Hostname parsed);
        url_Path := TrimRightSlash (url_Path parsed); url_RawPath := "";
        url_RawQuery := url_RawQuery parsed; url_Fragment := url_Fragment parsed |})
  end.

Definition recognizedBaseURL (raw expected : string) : bool :=
  match normalizedBaseURL raw with
  | Ok normalized => bool_decide (normalized = expected)
  | Err _ => false
  end.

(** ** Pairing *)

Definition pair_of (pairs : gmap string pairCandidate) (key : string) : pairCandidate :=
  default {| pair_key := key; pair_claudeCount := 0; pair_openAIEntryCount := 0 |} (pairs !! key).

Definition count_claude (pairs : gmap string pairCandidate) (key : string) :=
  let pair := pair_of pairs key in
  <[key := {| pair_key := pair_key pair; pair_claudeCount := pair_claudeCount pair [+] 1;
              pair_openAIEntryCount := pair_openAIEntryCount pair |}]> pairs.

Definition count_openAI (pairs : gmap string pairCandidate) (key : string) :=
  let pair := pair_of pairs key in
  <[key := {| pair_key := pair_key pair; pair_claudeCount := pair_claudeCount pair;
              pair_openAIEntryCount := pair_openAIEntryCount pair [+] 1 |}]> pairs.

(** One iteration of the loop over the Claude keys. *)
Definition pair_claude (pairs : gmap string pairCandidate) (entry : ClaudeKey)
    : res (gmap string pairCandidate) :=
  let key := TrimSpace (ck_APIKey entry) in
  if negb (recognizedBaseURL (ck_BaseURL entry) zaiAnthropicBaseURL) then Ok pairs else
  if bool_decide (key = "") then errorf "z.ai Anthropic entry has no API key" else
  match authenticationHeader (ck_Headers entry) with
  | Some header =>
      errorf ("z.ai Anthropic entry contains authentication-affecting custom header " +:+ header)
  | None => Ok (count_claude pairs key)
  end.

Definition pair_entry (pairs : gmap string pairCandidate) (entry : APIKeyEntry)
    : res (gmap string pairCandidate) :=
  let key := TrimSpace (ke_APIKey entry) in
  if bool_decide (key = "")
  then errorf "zai-coding-plan provider contains an empty API key entry"
  else Ok (count_openAI pairs key).

(** One iteration of the loop over the OpenAI-compatible providers. *)
Definition pair_compat (pairs : gmap string pairCandidate) (compat : OpenAICompatibility)
    : res (gmap string pairCandidate) :=
  if negb (bool_decide (ToLower (TrimSpace (oc_Name compat)) = zaiCompatName)) then Ok pairs else
  if oc_Disabled compat then errorf "zai-coding-plan provider must be enabled" else
  if negb (recognizedBaseURL (oc_BaseURL compat) zaiOpenAIBaseURL)
  then errorf "zai-coding-plan provider has invalid base URL" else
  match authenticationHeader (oc_Headers compat) with
  | Some header =>
      errorf ("zai-coding-plan provider contains authentication-affecting custom header "
              +:+ header)
  | None =>
      match oc_APIKeyEntries compat with
      | [] => errorf "zai-coding-plan provider has no API key entries"
      | entries => foldl_res pair_entry pairs entries
      end
  end.

Definition validatePair (pair : pairCandidate) : res unit :=
  let reference := accountReference (pair_key pair) in
  if 1 <? pair_claudeCount pair
  then errorf ("duplicate Z.ai Anthropic entry for account " +:+ reference) else
  if 1 <? pair_openAIEntryCount pair
  then errorf ("duplicate zai-coding-plan entry for account " +:+ reference) else
  if pair_claudeCount pair =? 0
  then errorf ("missing Z.ai Anthropic sibling for account " +:+ reference) else
  if pair_openAIEntryCount pair =? 0
  then errorf ("missing zai-coding-plan sibling for account " +:+ reference) else Ok ().

(** The pairs in one of the orders an iteration may visit them: the order only
    decides which of several errors is reported. *)
Definition validatePairs (pairs : gmap string pairCandidate) : res unit :=
  foldl_res (λ _ kp, validatePair kp.2) () (map_to_list pairs).

(** ** The host's identifiers of the paired credentials *)

(** The generators and the maps of the loop over the Claude keys. *)
Record claude_ids := {
  ci_legacyGen : gmap string Z;
  ci_currentGen : gmap string Z;
  ci_legacy : gmap string string;
  ci_current : gmap string string;
}.

Definition complete_pair (pairs : gmap string pairCandidate) (key : string) : bool :=
  match pairs !! key with
  | Some p => (pair_claudeCount p =? 1) && (pair_openAIEntryCount p =? 1)
  | None => false
  end.

Definition claude_id_step (pairs : gmap string pairCandidate) (st : claude_ids)
    (entry : ClaudeKey) : claude_ids :=
  let key := TrimSpace (ck_APIKey entry) in
  if bool_decide (key = "") then st else
  let '(legacyID, legacyGen) :=
    stableID_next (ci_legacyGen st) "claude:apikey" [key; TrimSpace (ck_BaseURL entry)] in
  let '(currentID, currentGen) :=
    stableID_next (ci_currentGen st) "claude:apikey"
      [key; TrimSpace (ck_BaseURL entry); TrimSpace (ck_ProxyURL entry);
       TrimSpace (ck_Prefix entry); formatSortedHeaders (ck_Headers entry)] in
  if recognizedBaseURL (ck_BaseURL entry) zaiAnthropicBaseURL && complete_pair pairs key
  then {| ci_legacyGen := legacyGen; ci_currentGen := currentGen;
          ci_legacy := <[key := legacyID]> (ci_legacy st);
          ci_current := <[key := currentID]> (ci_current st) |}
  else {| ci_legacyGen := legacyGen; ci_currentGen := currentGen;
          ci_legacy := ci_legacy st; ci_current := ci_current st |}.

Definition claude_ids_of (pairs : gmap string pairCandidate) (cpa : cpaConfigProjection)
    : claude_ids :=
  foldl (claude_id_step pairs)
    {| ci_legacyGen := ∅; ci_currentGen := ∅; ci_legacy := ∅; ci_current := ∅ |}
    (cc_ClaudeKeys cpa).

(** The generator and [openAIIDs]. *)
Definition openAI_id_entry (compat : OpenAICompatibility)
    (st : gmap string Z * gmap string string) (entry : APIKeyEntry)
    : gmap string Z * gmap string string :=
  let '(gen, ids) := st in
  let key := TrimSpace (ke_APIKey entry) in
  if bool_decide (key = "") then st else
  let providerName := ToLower (TrimSpace (oc_Name compat)) in
  let providerName :=
    if decide (providerName = "") then "openai-compatibility" else providerName in
  let '(id, gen') :=
    stableID_next gen ("openai-compatibility:" +:+ providerName)
      [key; TrimSpace (oc_BaseURL compat); TrimSpace (ke_ProxyURL entry)] in
  if recognizedBaseURL (oc_BaseURL compat) zaiOpenAIBaseURL
     && bool_decide (providerName = zaiCompatName)
  then (gen', <[key := id]> ids) else (gen', ids).

Definition openAI_id_step (st : gmap string Z * gmap string string)
    (compat : OpenAICompatibility) : gmap string Z * gmap string string :=
  if oc_Disabled compat then st
  else foldl (openAI_id_entry compat) st (oc_APIKeyEntries compat).

Definition openAI_ids_of (cpa : cpaConfigProjection) : gmap string string :=
  (foldl openAI_id_step (∅, ∅) (cc_OpenAICompatibility cpa)).2.

(** ** Overrides *)

Definition applyAccountOverride (target : account) (override : option accountOverride)
    (defaultPlan : string) (index : nat) : res account :=
  let plan :=
    match override with
    | Some o => if decide (ao_Plan o = "") then defaultPlan else ao_Plan o
    | None => defaultPlan
    end in
  if bool_decide (plan = "")
  then errorf ("account " +:+ ac_KeySuffix target +:+ " has no plan") else
  let knownPlan := bool_decide (is_Some (planBuckets !! plan)) || bool_decide (plan = "custom") in
  let buckets := default {| cb_FiveHour := 0; cb_Weekly := 0 |} (planBuckets !! plan) in
  if negb knownPlan
  then errorf ("account " +:+ ac_KeySuffix target +:+ " has invalid plan " +:+ quote plan) else
  let name :=
    match override with
    | Some o => if decide (ao_Name o = "") then ac_Name target else ao_Name o
    | None => ac_Name target
    end in
  let fiveExplicit :=
    match override with
    | Some o => 0 <? ao_FiveHourCredits o | None => ac_fiveHourCreditsExplicit target end in
  let weeklyExplicit :=
    match override with
    | Some o => 0 <? ao_WeeklyCredits o | None => ac_weeklyCreditsExplicit target end in
  let fiveHour :=
    match override with
    | Some o => if fiveExplicit then ao_FiveHourCredits o else cb_FiveHour buckets
    | None => cb_FiveHour buckets
    end in
  let weekly :=
    match override with
    | Some o => if weeklyExplicit then ao_WeeklyCredits o else cb_Weekly buckets
    | None => cb_Weekly buckets
    end in
  if negb (validCreditBucket fiveHour) || negb (validCreditBucket weekly)
  then errorf ("account " +:+ ac_KeySuffix target
               +:+ " has non-positive or out-of-range credit bucket") else
  let name :=
    if decide (name = "") then "zai-" +:+ plan +:+ "-" +:+ itoa (Z.of_nat index + 1) else name in
  Ok {| ac_Identity := ac_Identity target; ac_Name := name; ac_KeySuffix := ac_KeySuffix target;
        ac_Plan := plan;
        ac_Disabled := match override with Some o => ao_Disabled o | None => ac_Disabled target end;
        ac_FiveHourCredits := fiveHour; ac_WeeklyCredits := weekly;
        ac_ClaudeAuthID := ac_ClaudeAuthID target; ac_OpenAIAuthID := ac_OpenAIAuthID target;
        ac_claudeAuthIDs := ac_claudeAuthIDs target; ac_key := ac_key target;
        ac_planExplicit :=
          match override with
          | Some o => negb (bool_decide (ao_Plan o = "")) | None => ac_planExplicit target end;
        ac_fiveHourCreditsExplicit := fiveExplicit;
        ac_weeklyCreditsExplicit := weeklyExplicit |}.

(** The indices of the overrides whose suffix the key has. *)
Definition override_matches (key : string) (overrides : list accountOverride) : list nat :=
  fst <$> filter (λ io, HasSuffix key (ao_KeySuffix io.2) = true)
    (zip (seq 0 (length overrides)) overrides).

(** The loop over the accounts: the updated accounts and, for each override in
    the order they are matched, its index. *)
Fixpoint override_loop (cfg : pluginConfig) (accountIndex : nat) (accounts : list account)
    : res (list account * list nat) :=
  match accounts with
  | [] => Ok ([], [])
  | item :: accounts' =>
      match override_matches (ac_key item) (pc_Accounts cfg) with
      | _ :: _ :: _ =>
          errorf ("account suffix " +:+ ac_KeySuffix item +:+ " matches multiple overrides")
      | matches =>
          let override := i ← head matches; pc_Accounts cfg !! i in
          item' ← applyAccountOverride item override (pc_DefaultPlan cfg) accountIndex;
          '(items, matched) ← override_loop cfg (S accountIndex) accounts';
          Ok (item' :: items, matches ++ matched)
      end
  end.

Definition check_matched (matched : list nat) (_ : unit) (i : nat) : res unit :=
  match occurrences i matched with
  | O => errorf ("accounts[" +:+ itoa (Z.of_nat i) +:+ "]: key-suffix matches no account")
  | S O => Ok ()
  | _ => errorf ("accounts[" +:+ itoa (Z.of_nat i) +:+ "]: key-suffix matches multiple accounts")
  end.

Definition check_name (seenNames : gset string) (item : account) : res (gset string) :=
  let key := ToLower (ac_Name item) in
  if bool_decide (key ∈ seenNames)
  then errorf ("duplicate account name " +:+ quote (ac_Name item))
  else Ok ({[key]} ∪ seenNames).

Definition applyAccountOverrides (accounts : list account) (cfg : pluginConfig)
    : res (list account) :=
  '(items, matched) ← override_loop cfg 0 accounts;
  _ ← foldl_res (check_matched matched) () (seq 0 (length (pc_Accounts cfg)));
  _ ← foldl_res check_name ∅ items;
  Ok items.

(** ** Discovery *)

(** The account of a pair before the overrides. *)
Definition paired_account (ids : claude_ids) (openAIIDs : gmap string string) (key : string)
    : account :=
  let legacy := default "" (ci_legacy ids !! key) in
  {| ac_Identity := accountIdentity key; ac_Name := ""; ac_KeySuffix := displaySuffix key;
     ac_Plan := ""; ac_Disabled := false; ac_FiveHourCredits := 0; ac_WeeklyCredits := 0;
     ac_ClaudeAuthID := legacy; ac_OpenAIAuthID := default "" (openAIIDs !! key);
     ac_claudeAuthIDs := uniqueStrings [legacy; default "" (ci_current ids !! key)];
     ac_key := key; ac_planExplicit := false; ac_fiveHourCreditsExplicit := false;
     ac_weeklyCreditsExplicit := false |}.

(** One iteration of the loop that orders the accounts. *)
Definition order_account (pairs : gmap string pairCandidate) (ids : claude_ids)
    (openAIIDs : gmap string string) (ordered : list account) (entry : ClaudeKey)
    : res (list account) :=
  let key := TrimSpace (ck_APIKey entry) in
  if negb (complete_pair pairs key) then Ok ordered else
  let item := paired_account ids openAIIDs key in
  if bool_decide (ac_claudeAuthIDs item = []) || bool_decide (ac_OpenAIAuthID item = "")
  then errorf ("paired account " +:+ ac_KeySuffix item +:+ " has incomplete auth IDs")
  else Ok (ordered ++ [item]).

Definition discover_pairs (cpa : cpaConfigProjection) : res (gmap string pairCandidate) :=
  pairs ← foldl_res pair_claude ∅ (cc_ClaudeKeys cpa);
  foldl_res pair_compat pairs (cc_OpenAICompatibility cpa).

Definition discoverAccounts (cpa : cpaConfigProjection) (cfg : pluginConfig)
    : res (list account) :=
  pairs ← discover_pairs cpa;
  if bool_decide (size pairs = 0%nat) then errorf "no complete Z.ai account pairs found" else
  _ ← validatePairs pairs;
  ordered ← foldl_res
    (order_account pairs (claude_ids_of pairs cpa) (openAI_ids_of cpa)) [] (cc_ClaudeKeys cpa);
  _ ← validateAccountAuthIDs ordered;
  applyAccountOverrides ordered cfg.

End WithStd.

(** ** Identifiers are unique *)

(** The identifiers a sequence of calls of one generator returns. *)
Fixpoint stableIDs `{GoStd} (counters : gmap string Z) (calls : list (string * list string))
    : list string :=
  match calls with
  | [] => []
  | (kind, parts) :: calls' =>
      let '(id, counters') := stableID_next counters kind parts in
      id :: stableIDs counters' calls'
  end.

Definition render_id (kind short : string) (index : Z) : string :=
  kind +:+ ":" +:+ (if 0 <? index then short +:+ "-" +:+ itoa index else short).

Definition hex_string (s : string) : Prop := Forall (λ c, is_hex_char c = true) (chars s).

Lemma itoa_hex n : 0 <= n → hex_string (itoa n).
Proof.
  intros Hn. unfold hex_string, itoa. rewrite chars_str.
  destruct (Z.ltb_spec n 0); [lia|]. rewrite app_nil_l.
  assert (∀ fuel m acc, 0 <= m → Forall (λ c, is_hex_char c = true) acc →
    Forall (λ c, is_hex_char c = true) (digits_of fuel m acc)) as H0.
  { induction fuel as [|fuel IH]; intros m acc Hm Hacc; [done|]. cbn [digits_of].
    assert (Forall (λ c, is_hex_char c = true) (digit_char (m mod 10) :: acc)).
    { constructor; [|done]. pose proof (Z.mod_pos_bound m 10) as Hd.
      assert (0 <= m mod 10 < 10) as Hd' by lia. apply digit_cases in Hd'.
      destruct_or! Hd'; rewrite Hd'; done. }
    case_match; [done|]. apply IH; [apply Z.div_pos; lia|done]. }
  apply H0; [lia|constructor].
Qed.

Lemma itoa_inj m n : in_int64 m → in_int64 n → itoa m = itoa n → m = n.
Proof.
  intros Hm%ParseInt_itoa Hn%ParseInt_itoa H. rewrite H in Hm. by simplify_eq.
Qed.

Lemma chars_render kind short index :
  chars (render_id kind short index) =
  if 0 <? index
  then (chars kind ++ ":"%char :: chars short) ++ "-"%char :: chars (itoa index)
  else chars kind ++ ":"%char :: chars short.
Proof.
  unfold render_id. case_match; rewrite !chars_app; simpl; [|done].
  by rewrite <- app_assoc.
Qed.

Lemma render_id_inj k1 s1 i1 k2 s2 i2 :
  hex_string s1 → hex_string s2 → 0 <= i1 <= int64_max → 0 <= i2 <= int64_max →
  render_id k1 s1 i1 = render_id k2 s2 i2 →
  k1 +:+ ":" +:+ s1 = k2 +:+ ":" +:+ s2 ∧ i1 = i2.
Proof.
  intros H1 H2 Hi1 Hi2 H. apply (f_equal chars) in H. rewrite !chars_render in H.
  pose proof (itoa_hex i1) as Hd1. pose proof (itoa_hex i2) as Hd2.
  destruct (Z.ltb_spec 0 i1), (Z.ltb_spec 0 i2);
    apply (span_end_unique (λ c, is_hex_char c = true)) in H as (Hl & Hc & Hr);
    try done; try (by apply Hd1; lia); try (by apply Hd2; lia).
  - apply chars_inj, itoa_inj in Hl; [|unfold in_int64, int64_min; lia..]. split; [|done].
    apply chars_inj. by rewrite !chars_app.
  - split; [|lia]. apply chars_inj in Hl, Hr. by subst.
Qed.

Lemma short_hex `{GoStdLaws} kind parts : hex_string (prefix_bytes 12 (stableAuthID kind parts)).
Proof.
  unfold hex_string, prefix_bytes, stableAuthID. rewrite chars_str. apply Forall_take.
  set (s := _ +:+ _). pose proof (sha256_hex_decodes s) as Hd.
  unfold hex_decodes in Hd. crush_bool.
  apply Forall_forall. intros c Hc%list_elem_of_In. by eapply forallb_forall.
Qed.

Definition counter (counters : gmap string Z) (key : string) : Z := default 0 (counters !! key).

Lemma stableIDs_spec `{GoStdLaws} counters calls :
  (∀ key, 0 <= counter counters key
          ∧ counter counters key + Z.of_nat (length calls) <= int64_max) →
  NoDup (stableIDs counters calls)
  ∧ ∀ id, id ∈ stableIDs counters calls →
      ∃ kind short i, hex_string short ∧ id = render_id kind short i
        ∧ counter counters (kind +:+ ":" +:+ short) <= i <= int64_max.
Proof.
  revert counters. induction calls as [|[kind parts] calls IH]; intros counters Hc.
  { split; [constructor|]. intros id Hid. by apply elem_of_nil in Hid. }
  cbn [stableIDs]. unfold stableID_next.
  set (short := prefix_bytes 12 (stableAuthID kind parts)).
  set (key := kind +:+ ":" +:+ short). set (n := default 0 (counters !! key)).
  assert (hex_string short) as Hshort by apply short_hex.
  destruct (Hc key) as [Hn Hmax]. change (counter counters key) with n in Hn, Hmax.
  rewrite length_cons, Nat2Z.inj_succ in Hmax.
  assert (n [+] 1 = n + 1) as Hwrap by (apply wrap64_id; unfold in_int64, int64_min; lia).
  rewrite Hwrap.
  assert (∀ key', counter (<[key:=n + 1]> counters) key'
    = if decide (key' = key) then n + 1 else counter counters key') as Hget.
  { intros key'. unfold counter. case_decide; simplify_map_eq; done. }
  destruct (IH (<[key:=n + 1]> counters)) as [Hnd Hids].
  { intros key'. rewrite Hget. specialize (Hc key'). rewrite length_cons, Nat2Z.inj_succ in Hc.
    case_decide; lia. }
  change (kind +:+ _) with (render_id kind short n). split.
  - apply NoDup_cons. split; [|done].
    intros (kind' & short' & i & Hshort' & Heq & Hi)%Hids.
    pose proof (Hget (kind' +:+ ":" +:+ short')) as Hk. rewrite Hk in Hi.
    specialize (Hc (kind' +:+ ":" +:+ short')).
    apply render_id_inj in Heq as [Hkey ->]; [|done|done|lia|case_decide; lia].
    rewrite decide_True in Hi by done. lia.
  - intros id [->|(kind' & short' & i & ? & -> & Hi)%Hids]%elem_of_cons.
    + exists kind, short, n. split_and!; [done|done|reflexivity|lia].
    + exists kind', short', i. rewrite Hget in Hi. split_and!; [done|done| |lia].
      case_decide as Hk; [|lia]. rewrite Hk. change (counter counters key) with n. lia.
Qed.

(** ** The pairing counts *)

(** The keys of the recognised entries, in order, one per entry. *)
Definition zai_claude_keys `{GoStd} (keys : list ClaudeKey) : list string :=
  (λ e, TrimSpace (ck_APIKey e)) <$>
    filter (λ e, recognizedBaseURL (ck_BaseURL e) zaiAnthropicBaseURL = true) keys.

Definition zai_openAI_keys (compats : list OpenAICompatibility) : list string :=
  compat ← filter (λ c, ToLower (TrimSpace (oc_Name c)) = zaiCompatName) compats;
  (λ e, TrimSpace (ke_APIKey e)) <$> oc_APIKeyEntries compat.

(** The map of pairs that counts the keys [cs] and [os]. *)
Definition pairs_count (pairs : gmap string pairCandidate) (cs os : list string) : Prop :=
  ∀ key, pairs !! key =
    if decide (occurrences key cs = 0%nat ∧ occurrences key os = 0%nat) then None
    else Some {| pair_key := key; pair_claudeCount := Z.of_nat (occurrences key cs);
                 pair_openAIEntryCount := Z.of_nat (occurrences key os) |}.

Lemma pairs_count_claude pairs cs os key :
  Z.of_nat (length cs) < int64_max →
  pairs_count pairs cs os → pairs_count (count_claude pairs key) (cs ++ [key]) os.
Proof.
  intros Hlen H key'. pose proof (occurrences_le key cs).
  rewrite occurrences_app, occurrences_single. unfold count_claude, pair_of.
  destruct (decide (key' = key)) as [->|Hne].
  - rewrite lookup_insert_eq, (decide_False (P := _ ∧ _)), H by lia. f_equal.
    case_decide as Hz; simpl; rewrite wrap64_id; try (unfold in_int64, int64_min; lia);
      f_equal; lia.
  - rewrite lookup_insert_ne, H, Nat.add_0_r by done. done.
Qed.

Lemma pairs_count_openAI pairs cs os key :
  Z.of_nat (length os) < int64_max →
  pairs_count pairs cs os → pairs_count (count_openAI pairs key) cs (os ++ [key]).
Proof.
  intros Hlen H key'. pose proof (occurrences_le key os).
  rewrite occurrences_app, occurrences_single. unfold count_openAI, pair_of.
  destruct (decide (key' = key)) as [->|Hne].
  - rewrite lookup_insert_eq, (decide_False (P := _ ∧ _)), H by lia. f_equal.
    case_decide as Hz; simpl; rewrite wrap64_id; try (unfold in_int64, int64_min; lia);
      f_equal; lia.
  - rewrite lookup_insert_ne, H, Nat.add_0_r by done. done.
Qed.

Lemma zai_claude_keys_snoc `{GoStd} keys e :
  zai_claude_keys (keys ++ [e]) =
  if recognizedBaseURL (ck_BaseURL e) zaiAnthropicBaseURL
  then zai_claude_keys keys ++ [TrimSpace (ck_APIKey e)] else zai_claude_keys keys.
Proof.
  unfold zai_claude_keys. rewrite filter_app, filter_cons, filter_nil.
  destruct (recognizedBaseURL (ck_BaseURL e) zaiAnthropicBaseURL); simpl.
  - by rewrite fmap_app.
  - by rewrite app_nil_r.
Qed.

Lemma zai_openAI_keys_snoc compats c :
  zai_openAI_keys (compats ++ [c]) =
  if decide (ToLower (TrimSpace (oc_Name c)) = zaiCompatName)
  then zai_openAI_keys compats ++ ((λ e, TrimSpace (ke_APIKey e)) <$> oc_APIKeyEntries c)
  else zai_openAI_keys compats.
Proof.
  unfold zai_openAI_keys. rewrite filter_app, filter_cons, filter_nil.
  case_decide; rewrite bind_app; simpl; by rewrite ?app_nil_r.
Qed.

(** Go slices have fewer than [2^63] elements. *)
Definition slice_sized {A} (l : list A) : Prop := Z.of_nat (length l) <= int64_max.

Lemma pair_claude_loop `{GoStd} keys pairs :
  slice_sized keys → foldl_res pair_claude ∅ keys = Ok pairs →
  pairs_count pairs (zai_claude_keys keys) [] ∧ "" ∉ zai_claude_keys keys.
Proof.
  intros Hsize Hloop.
  apply (foldl_res_ind (λ keys pairs, slice_sized keys →
    pairs_count pairs (zai_claude_keys keys) [] ∧ "" ∉ zai_claude_keys keys
    ∧ (length (zai_claude_keys keys) ≤ length keys)%nat)) in Hloop.
  - tauto.
  - intros _. split_and!; [|set_solver|done]. intros key. by rewrite lookup_empty.
  - clear keys pairs Hsize Hloop. intros keys pairs e pairs' IH Hstep Hsize.
    unfold slice_sized in Hsize.
    rewrite length_app in Hsize |- *. simpl in Hsize |- *.
    destruct IH as (IH & Hempty & Hlen); [unfold slice_sized; lia|].
    rewrite zai_claude_keys_snoc. unfold pair_claude in Hstep.
    destruct (recognizedBaseURL (ck_BaseURL e) zaiAnthropicBaseURL); simpl in Hstep.
    + case_bool_decide as Hkey; [done|]. destruct (authenticationHeader _); [done|].
      simplify_eq. rewrite length_app. simpl. split_and!; [|set_solver|lia].
      apply pairs_count_claude; [lia|done].
    + simplify_eq. split_and!; [done|done|lia].
  - done.
Qed.

Lemma pair_entry_loop entries cs os pairs pairs' :
  slice_sized (os ++ ((λ e, TrimSpace (ke_APIKey e)) <$> entries)) →
  pairs_count pairs cs os → "" ∉ os → foldl_res pair_entry pairs entries = Ok pairs' →
  pairs_count pairs' cs (os ++ ((λ e, TrimSpace (ke_APIKey e)) <$> entries))
  ∧ "" ∉ os ++ ((λ e, TrimSpace (ke_APIKey e)) <$> entries).
Proof.
  revert os pairs. induction entries as [|e entries IH]; intros os pairs Hsize Hp Hempty Hloop.
  { simplify_eq/=. by rewrite app_nil_r. }
  cbn [foldl_res] in Hloop. destruct (pair_entry pairs e) as [p|] eqn:Hstep; [|done].
  unfold pair_entry in Hstep. case_bool_decide as Hkey; [done|].
  injection Hstep as Hstep. subst p.
  rewrite fmap_cons, (cons_middle _ os), app_assoc in Hsize |- *.
  apply (IH _ (count_openAI pairs (TrimSpace (ke_APIKey e)))); [done| |set_solver|done].
  apply pairs_count_openAI; [|done].
  unfold slice_sized in Hsize. rewrite !length_app in Hsize. simpl in Hsize. lia.
Qed.

(** The keys of the loops' entries, before recognition, bound their counts. *)
Definition cpa_sized (cpa : cpaConfigProjection) : Prop :=
  slice_sized (cc_ClaudeKeys cpa) ∧ slice_sized (zai_openAI_keys (cc_OpenAICompatibility cpa)).

#[global] Instance cpa_sized_dec cpa : Decision (cpa_sized cpa).
Proof. unfold cpa_sized, slice_sized. apply _. Defined.

Lemma discover_pairs_count `{GoStd} cpa pairs :
  cpa_sized cpa → discover_pairs cpa = Ok pairs →
  pairs_count pairs (zai_claude_keys (cc_ClaudeKeys cpa))
    (zai_openAI_keys (cc_OpenAICompatibility cpa))
  ∧ "" ∉ zai_claude_keys (cc_ClaudeKeys cpa).
Proof.
  intros [Hsize Hsize']. unfold discover_pairs.
  destruct (foldl_res pair_claude ∅ _) as [pairs0|] eqn:H0; [|done]. cbn.
  apply pair_claude_loop in H0 as [Hc Hempty]; [|done].
  set (cs := zai_claude_keys _) in *. intros Hloop.
  apply (foldl_res_ind (λ compats pairs, slice_sized (zai_openAI_keys compats) →
    pairs_count pairs cs (zai_openAI_keys compats)
    ∧ "" ∉ zai_openAI_keys compats)) in Hloop; [by destruct Hloop| | |done].
  - intros _. split; [done|set_solver].
  - intros compats p c p' IH Hstep. rewrite zai_openAI_keys_snoc. unfold pair_compat in Hstep.
    destruct (decide (ToLower (TrimSpace (oc_Name c)) = zaiCompatName)) as [Hname|Hname].
    + rewrite bool_decide_eq_true_2 in Hstep by done. simpl in Hstep. intros Hs.
      destruct IH as [IH Hne]; [unfold slice_sized in *; rewrite length_app in Hs; lia|].
      destruct (oc_Disabled c); [done|]. destruct (negb _) in Hstep; [done|].
      destruct (authenticationHeader _); [done|].
      destruct (oc_APIKeyEntries c); [done|]. by eapply pair_entry_loop.
    + rewrite bool_decide_eq_false_2 in Hstep by done. simplify_eq/=. done.
Qed.

(** After the checks every known key is counted once on each side. *)
Lemma validatePairs_ok `{GoStd} pairs cs os :
  pairs_count pairs cs os → validatePairs pairs = Ok () →
  ∀ key, complete_pair pairs key = bool_decide (key ∈ cs)
  ∧ (occurrences key cs = occurrences key os) ∧ (occurrences key cs ≤ 1)%nat.
Proof.
  intros Hp Hv key. unfold validatePairs in Hv. specialize (Hp key).
  unfold complete_pair. case_decide as Hz.
  - rewrite Hp. rewrite bool_decide_eq_false_2; [lia|].
    intros Hin%occurrences_pos. lia.
  - apply elem_of_map_to_list in Hp as Hin.
    apply (foldl_res_check (λ kp, validatePair kp.2) _ _ Hv) in Hin as Hpair.
    rewrite Hp. clear Hv Hin. rename Hpair into Hv.
    unfold validatePair in Hv. simpl in Hv |- *.
    do 4 (destruct (_ <? _) eqn:? in Hv || destruct (_ =? _) eqn:? in Hv; [done|]).
    crush_bool. rewrite bool_decide_eq_true_2 by (apply occurrences_pos; lia).
    split; [apply andb_true_intro; lia|lia].
Qed.

(** ** The accounts before the overrides *)

Definition claude_keys (keys : list ClaudeKey) : list string :=
  (λ e, TrimSpace (ck_APIKey e)) <$> keys.

Lemma order_accounts_eq `{GoStd} pairs ids openAIIDs keys ordered :
  foldl_res (order_account pairs ids openAIIDs) [] keys = Ok ordered →
  ordered = paired_account ids openAIIDs
            <$> filter (λ key, complete_pair pairs key = true) (claude_keys keys)
  ∧ Forall (λ a, ac_claudeAuthIDs a ≠ [] ∧ ac_OpenAIAuthID a ≠ "") ordered.
Proof.
  intros Hloop.
  apply (foldl_res_ind (λ keys ordered, ordered = paired_account ids openAIIDs
      <$> filter (λ key, complete_pair pairs key = true) (claude_keys keys)
    ∧ Forall (λ a, ac_claudeAuthIDs a ≠ [] ∧ ac_OpenAIAuthID a ≠ "") ordered)) in Hloop;
    [done|by split|].
  clear. intros keys ordered e ordered' [-> Hids] Hstep.
  unfold order_account, claude_keys in *. rewrite fmap_app, filter_app. simpl.
  rewrite filter_cons, filter_nil. destruct (complete_pair _ _); simpl in Hstep.
  - destruct (bool_decide _ || bool_decide _) eqn:Hne; [done|]. simplify_eq. crush_bool.
    rewrite fmap_app. split; [done|]. apply Forall_app. by repeat constructor.
  - simplify_eq/=. by rewrite app_nil_r.
Qed.

(** The owners recorded by [validateAccountAuthIDs]. *)
Lemma validate_ids_owner l :
  Forall (λ own, own.2 ≠ "") l →
  is_Some (foldl validateAccountAuthIDs_step (Some ∅) l) →
  ∀ id x y, (id, x) ∈ l → (id, y) ∈ l → x = y.
Proof.
  intros Hne [m Hm].
  assert (∀ id x, (id, x) ∈ l → m !! id = Some x) as H.
  { revert m Hm. induction l as [|[id y] l IH] using rev_ind; intros m Hm id' x Hin.
    { by apply elem_of_nil in Hin. }
    apply Forall_app in Hne as [Hne Hy]. apply Forall_singleton in Hy. simpl in Hy.
    rewrite foldl_snoc in Hm.
    destruct (foldl validateAccountAuthIDs_step (Some ∅) l) as [m0|]; [|done].
    specialize (IH Hne m0 eq_refl). simpl in Hm.
    destruct (negb _ && negb _) eqn:Hown; [done|]. simplify_eq.
    apply elem_of_app in Hin as [Hin|Hin%list_elem_of_singleton]; [|simplify_eq/=; by simplify_map_eq].
    apply IH in Hin as Hx. destruct (decide (id' = id)) as [->|]; [|by simplify_map_eq].
    rewrite Hx in Hown. simpl in Hown. rewrite lookup_insert_eq. f_equal.
    rewrite Forall_forall in Hne. pose proof (Hne _ Hin). simpl in *.
    apply andb_false_iff in Hown as [Hown|Hown]; crush_bool; [done|by rewrite Hown]. }
  intros id x y Hx%H Hy%H. by simplify_eq.
Qed.

Lemma elem_of_owned_ids id x accounts :
  (id, x) ∈ owned_ids accounts
  ↔ ∃ a, a ∈ accounts ∧ id ∈ accountAuthIDs a ∧ ac_Identity a = x.
Proof.
  unfold owned_ids. rewrite list_elem_of_bind. split.
  - intros (a & (i & [= -> ->] & ?)%list_elem_of_fmap & ?). eauto.
  - intros (a & ? & ? & <-). exists a. split; [|done]. apply list_elem_of_fmap. eauto.
Qed.

(** ** The overrides *)

Definition suffix_of (key : string) (o : accountOverride) : Prop :=
  HasSuffix key (ao_KeySuffix o) = true.

#[global] Instance suffix_of_dec key o : Decision (suffix_of key o).
Proof. unfold suffix_of. apply _. Defined.

(** What the configuration decides about an account: the only override whose
    suffix its key has, else the default plan. *)
Definition account_configured (cfg : pluginConfig) (a : account) : Prop :=
  let buckets := default {| cb_FiveHour := 0; cb_Weekly := 0 |} (planBuckets !! ac_Plan a) in
  match filter (suffix_of (ac_key a)) (pc_Accounts cfg) with
  | [] =>
      ac_Plan a = pc_DefaultPlan cfg ∧ ac_Disabled a = false
      ∧ ac_FiveHourCredits a = cb_FiveHour buckets ∧ ac_WeeklyCredits a = cb_Weekly buckets
  | [o] =>
      ac_Plan a = (if decide (ao_Plan o = "") then pc_DefaultPlan cfg else ao_Plan o)
      ∧ ac_Disabled a = ao_Disabled o
      ∧ ac_FiveHourCredits a
        = (if 0 <? ao_FiveHourCredits o then ao_FiveHourCredits o else cb_FiveHour buckets)
      ∧ ac_WeeklyCredits a
        = (if 0 <? ao_WeeklyCredits o then ao_WeeklyCredits o else cb_Weekly buckets)
      ∧ (ao_Name o ≠ "" → ac_Name a = ao_Name o)
  | _ => False
  end.

(** What the overrides leave unchanged, and what they establish. *)
Record overridden (a a' : account) : Prop := {
  od_Identity : ac_Identity a' = ac_Identity a;
  od_key : ac_key a' = ac_key a;
  od_authIDs : accountAuthIDs a' = accountAuthIDs a;
  od_plan : ac_Plan a' ≠ "";
  od_name : ac_Name a' ≠ "";
  od_fiveHour : validCreditBucket (ac_FiveHourCredits a') = true;
  od_weekly : validCreditBucket (ac_WeeklyCredits a') = true;
}.

Lemma applyAccountOverride_overridden `{GoStd} a override defaultPlan i a' :
  applyAccountOverride a override defaultPlan i = Ok a' → overridden a a'.
Proof.
  unfold applyAccountOverride. intros Hok.
  set (plan := match override with Some _ => _ | None => _ end) in Hok.
  destruct (bool_decide (plan = "")) eqn:Hplan; [done|].
  destruct (negb (_ || _)) in Hok; [done|].
  destruct (negb _ || negb _) eqn:Hb in Hok; [done|]. injection Hok as <-. crush_bool.
  split; simpl; try done. by case_decide.
Qed.

(** The matches as a filter of the overrides. *)
Lemma override_matches_filter key overrides k :
  let matches := filter (λ io : nat * accountOverride,
    HasSuffix key (ao_KeySuffix io.2) = true) (zip (seq k (length overrides)) overrides) in
  snd <$> matches = filter (suffix_of key) overrides
  ∧ Forall (λ io, overrides !! (io.1 - k)%nat = Some io.2 ∧ (k ≤ io.1)%nat) matches
  ∧ ∀ j, occurrences j (fst <$> matches) =
      match overrides !! (j - k)%nat with
      | Some o => if decide (suffix_of key o ∧ (k ≤ j)%nat) then 1%nat else 0%nat
      | None => 0%nat
      end.
Proof.
  revert k. induction overrides as [|o overrides IH]; intros k; simpl.
  { by split_and!. }
  destruct (IH (S k)) as (IHs & IHf & IHo). clear IH.
  set (m := filter _ (zip (seq (S k) _) _)) in *. cbv zeta in IHs, IHf, IHo.
  assert (Forall (λ io, (o :: overrides) !! (io.1 - k)%nat = Some io.2 ∧ (k ≤ io.1)%nat) m) as Hf.
  { eapply Forall_impl; [done|]. intros [i o'] [Hl Hk]. simpl in *.
    destruct (i - k)%nat as [|n] eqn:E; [lia|]. simpl. split; [|lia].
    by replace n with (i - S k)%nat by lia. }
  assert (∀ j, k ≠ j → match (o :: overrides) !! (j - k)%nat with
    | Some o' => if decide (suffix_of key o' ∧ (k ≤ j)%nat) then 1%nat else 0%nat
    | None => 0%nat end = occurrences j m.*1) as Ho.
  { intros j Hj. rewrite IHo. destruct (j - k)%nat as [|n] eqn:E.
    - simpl. rewrite (decide_False (P := suffix_of key o ∧ _)) by lia.
      destruct (overrides !! _); [|done]. by rewrite decide_False by lia.
    - simpl. replace (j - S k)%nat with n by lia. destruct (overrides !! n) as [o'|]; [|done].
      apply decide_ext. split; intros [? ?]; (split; [done|lia]). }
  assert (occurrences k m.*1 = 0%nat) as Hk.
  { rewrite IHo. destruct (overrides !! _); [|done]. by rewrite decide_False by lia. }
  rewrite !filter_cons. unfold suffix_of at 1. cbn [snd].
  destruct (decide (HasSuffix key (ao_KeySuffix o) = true)) as [Hs|Hs]; csimpl.
  - split_and!; [by rewrite <- IHs|constructor; [simpl; by rewrite Nat.sub_diag|done]|].
    intros j. fold m. rewrite occurrences_cons.
    destruct (decide (j = k)) as [->|]; [|by rewrite Ho].
    rewrite Nat.sub_diag, Hk. simpl. by rewrite decide_True.
  - split_and!; [done|done|]. intros j. fold m. destruct (decide (k = j)) as [<-|]; [|by rewrite Ho].
    rewrite Nat.sub_diag, Hk. simpl. rewrite decide_False; [done|]. by intros [? _].
Qed.

Lemma override_matches_spec key overrides :
  match override_matches key overrides with
  | [] => filter (suffix_of key) overrides = []
  | [i] => ∃ o, overrides !! i = Some o ∧ filter (suffix_of key) overrides = [o]
  | _ => True
  end
  ∧ ∀ j o, overrides !! j = Some o →
      occurrences j (override_matches key overrides)
      = if decide (suffix_of key o) then 1%nat else 0%nat.
Proof.
  destruct (override_matches_filter key overrides 0) as (Hs & Hf & Ho).
  unfold override_matches. split.
  - destruct (filter (λ io, _) (zip _ _)) as [|[i o] [|]]; simpl in *; [done| |done].
    apply Forall_singleton in Hf as [Hi _]. simpl in Hi. rewrite Nat.sub_0_r in Hi. eauto.
  - intros j o Hj. rewrite Ho, Nat.sub_0_r, Hj. apply decide_ext. split; [tauto|].
    split; [done|lia].
Qed.

Lemma override_loop_spec `{GoStd} cfg i accounts items matched :
  override_loop cfg i accounts = Ok (items, matched) →
  Forall2 overridden accounts items
  ∧ (Forall (λ a, ac_Disabled a = false) accounts → Forall (account_configured cfg) items)
  ∧ ∀ j o, pc_Accounts cfg !! j = Some o →
      occurrences j matched = length (filter (λ a, suffix_of (ac_key a) o) items).
Proof.
  revert i items matched. induction accounts as [|a accounts IH]; intros i items matched Hloop.
  { simplify_eq/=. split_and!; [constructor|constructor|done]. }
  cbn [override_loop] in Hloop.
  destruct (override_matches_spec (ac_key a) (pc_Accounts cfg)) as [Hm Hocc].
  assert (∃ override a' items' matched',
    applyAccountOverride a override (pc_DefaultPlan cfg) i = Ok a'
    ∧ override_loop cfg (S i) accounts = Ok (items', matched')
    ∧ items = a' :: items' ∧ matched = override_matches (ac_key a) (pc_Accounts cfg) ++ matched'
    ∧ filter (suffix_of (ac_key a)) (pc_Accounts cfg) = option_list override)
    as (override & a' & items' & matched' & Ha & Hrest & -> & -> & Hfilter).
  { destruct (override_matches (ac_key a) (pc_Accounts cfg)) as [|m [|]]; [| |done];
      cbn [head mbind option_bind] in Hloop.
    - destruct (applyAccountOverride a _ _ i) as [a'|] eqn:Ha; [|done]. cbn in Hloop.
      destruct (override_loop cfg (S i) accounts) as [[items' matched']|] eqn:Hr; [|done].
      simplify_eq/=. by eexists None, _, _, _.
    - destruct Hm as (o & Ho & Hfilter). rewrite Ho in Hloop.
      destruct (applyAccountOverride a _ _ i) as [a'|] eqn:Ha; [|done]. cbn in Hloop.
      destruct (override_loop cfg (S i) accounts) as [[items' matched']|] eqn:Hr; [|done].
      simplify_eq/=. by eexists (Some o), _, _, _. }
  apply applyAccountOverride_overridden in Ha as Hod.
  destruct (IH _ _ _ Hrest) as (IHo & IHc & IHm). split_and!.
  - by constructor.
  - intros [Hdis Hall]%Forall_cons. constructor; [|by apply IHc].
    unfold account_configured. rewrite (od_key _ _ Hod), Hfilter.
    unfold applyAccountOverride in Ha.
    destruct (bool_decide _) in Ha; [done|]. destruct (negb (_ || _)) in Ha; [done|].
    destruct (negb _ || negb _) in Ha; [done|].
    destruct override as [o|]; injection Ha as <-; simpl; split_and!; try done.
    intros Hn. rewrite (decide_False (P := ao_Name o = "")) by done. by rewrite decide_False.
  - intros j o Hj. rewrite occurrences_app, (Hocc j o Hj), (IHm j o Hj), filter_cons.
    rewrite (od_key _ _ Hod). by case_decide.
Qed.

Lemma check_name_loop `{GoStd} items seen :
  foldl_res check_name ∅ items = Ok seen → NoDup ((λ a, ToLower (ac_Name a)) <$> items).
Proof.
  intros Hloop.
  apply (foldl_res_ind (λ items seen, NoDup ((λ a, ToLower (ac_Name a)) <$> items)
    ∧ ∀ k, k ∈ seen ↔ k ∈ (λ a, ToLower (ac_Name a)) <$> items)) in Hloop; [tauto| |].
  - split; [constructor|]. intros k. set_solver.
  - clear. intros items seen a seen' [Hnd Hseen] Hstep. unfold check_name in Hstep.
    case_bool_decide as Hk; [done|]. simplify_eq. rewrite fmap_app. simpl. split.
    + apply NoDup_app. split_and!; [done| |by apply NoDup_singleton].
      intros k Hin ->%list_elem_of_singleton. by rewrite <- Hseen in Hin.
    + intros k. rewrite elem_of_app, list_elem_of_singleton, <- Hseen. set_solver.
Qed.

(** ** The discovered accounts *)

(** What a successful discovery has gone through. *)
Lemma discoverAccounts_inv `{GoStd} cpa cfg accounts :
  cpa_sized cpa → discoverAccounts cpa cfg = Ok accounts →
  ∃ ordered ids openAIIDs,
    ordered = paired_account ids openAIIDs
      <$> filter (λ key, key ∈ zai_claude_keys (cc_ClaudeKeys cpa))
            (claude_keys (cc_ClaudeKeys cpa))
    ∧ Forall (λ a, ac_claudeAuthIDs a ≠ [] ∧ ac_OpenAIAuthID a ≠ "") ordered
    ∧ validateAccountAuthIDs ordered = Ok ()
    ∧ applyAccountOverrides ordered cfg = Ok accounts
    ∧ "" ∉ zai_claude_keys (cc_ClaudeKeys cpa)
    ∧ NoDup (zai_claude_keys (cc_ClaudeKeys cpa))
    ∧ NoDup (zai_openAI_keys (cc_OpenAICompatibility cpa))
    ∧ ∀ key, key ∈ zai_claude_keys (cc_ClaudeKeys cpa)
             ↔ key ∈ zai_openAI_keys (cc_OpenAICompatibility cpa).
Proof.
  intros Hsize Hok. unfold discoverAccounts in Hok.
  destruct (discover_pairs cpa) as [pairs|] eqn:Hpairs; [|done]. cbn in Hok.
  destruct (bool_decide (size pairs = _)); [done|].
  destruct (validatePairs pairs) as [[]|] eqn:Hv; [|done]. cbn in Hok.
  destruct (foldl_res _ [] _) as [ordered|] eqn:Hord; [|done]. cbn in Hok.
  destruct (validateAccountAuthIDs ordered) as [[]|] eqn:Hids; [|done]. cbn in Hok.
  apply discover_pairs_count in Hpairs as [Hcount Hempty]; [|done].
  pose proof (validatePairs_ok _ _ _ Hcount Hv) as Hpair.
  apply order_accounts_eq in Hord as [Hord Hne].
  eexists ordered, _, _. split_and!; try done.
  - rewrite Hord. f_equal. apply list_filter_iff. intros key.
    destruct (Hpair key) as (-> & _). apply bool_decide_eq_true.
  - apply occurrences_NoDup. intros key. apply Hpair.
  - apply occurrences_NoDup. intros key. destruct (Hpair key) as (_ & <- & ?). done.
  - intros key. rewrite <- !occurrences_pos. destruct (Hpair key) as (_ & <- & _). done.
Qed.

Lemma applyAccountOverrides_inv `{GoStd} ordered cfg accounts :
  applyAccountOverrides ordered cfg = Ok accounts →
  Forall2 overridden ordered accounts
  ∧ (Forall (λ a, ac_Disabled a = false) ordered → Forall (account_configured cfg) accounts)
  ∧ NoDup ((λ a, ToLower (ac_Name a)) <$> accounts)
  ∧ ∀ o, o ∈ pc_Accounts cfg →
      length (filter (λ a, suffix_of (ac_key a) o) accounts) = 1%nat.
Proof.
  unfold applyAccountOverrides. intros Hok.
  destruct (override_loop cfg 0 ordered) as [[items matched]|] eqn:Hloop; [|done]. cbn in Hok.
  destruct (foldl_res (check_matched matched) () _) as [[]|] eqn:Hmatch; [|done]. cbn in Hok.
  destruct (foldl_res check_name ∅ items) as [seen|] eqn:Hnames; [|done].
  cbn in Hok. injection Hok as <-.
  apply override_loop_spec in Hloop as (Hod & Hcfg & Hocc). split_and!; [done|done| |].
  - by eapply check_name_loop.
  - intros o [j Hj]%list_elem_of_lookup. rewrite <- (Hocc j o Hj).
    assert (check_matched matched () j = Ok ()) as Hc.
    { apply (foldl_res_check (check_matched matched ()) _ _ Hmatch), elem_of_seq.
      apply lookup_lt_Some in Hj. lia. }
    unfold check_matched in Hc. by destruct (occurrences j matched) as [|[|]].
Qed.

(** No auth ID belongs to two identities. *)
Definition ids_owned (accounts : list account) : Prop :=
  ∀ a b id, a ∈ accounts → b ∈ accounts →
    id ∈ accountAuthIDs a → id ∈ accountAuthIDs b → ac_Identity a = ac_Identity b.

Lemma foldl_insert_lookup {A} (x : A) (ids : list string) (m : gmap string A) id :
  foldl (λ m id, <[id := x]> m) m ids !! id = if decide (id ∈ ids) then Some x else m !! id.
Proof.
  revert m. induction ids as [|i ids IH]; intros m; simpl; [done|]. rewrite IH.
  destruct (decide (id ∈ ids)) as [Hin|Hin].
  - by rewrite decide_True by set_solver.
  - destruct (decide (id = i)) as [->|].
    + rewrite decide_True by set_solver. by simplify_map_eq.
    + rewrite decide_False by set_solver. by simplify_map_eq.
Qed.

Lemma index_lookup accounts :
  ids_owned accounts → ∀ id identity,
  foldl indexAccountAuthIDs ∅ accounts !! id = Some identity
  ↔ ∃ a, a ∈ accounts ∧ id ∈ accountAuthIDs a ∧ ac_Identity a = identity.
Proof.
  induction accounts as [|b accounts IH] using rev_ind; intros Hown id identity.
  { simpl. rewrite lookup_empty. split; [done|]. by intros (a & ?%elem_of_nil & _). }
  rewrite foldl_snoc. unfold indexAccountAuthIDs at 1. rewrite foldl_insert_lookup.
  assert (ids_owned accounts) as Hown' by (intros a c i ? ?; apply Hown; set_solver).
  destruct (decide (id ∈ accountAuthIDs b)) as [Hb|Hb].
  - split; [intros [= <-]; exists b; set_solver|]. intros (a & Ha & Hid & <-).
    f_equal. apply (Hown _ _ id); set_solver.
  - rewrite IH by done. split; intros (a & Ha & Hid & Heq); exists a; set_solver.
Qed.

Lemma accountIdentity_nonempty `{GoStdLaws} key : accountIdentity key ≠ "".
Proof.
  intros Heq. pose proof (hmac_sha256_hex_length zaiIdentityNamespace (TrimSpace key)) as Hl.
  unfold accountIdentity in Heq. by rewrite Heq in Hl.
Qed.

Lemma discovered_ids_owned `{GoStdLaws} cpa cfg accounts :
  cpa_sized cpa → discoverAccounts cpa cfg = Ok accounts → ids_owned accounts.
Proof.
  intros Hsize (ordered & ids & openAIIDs & Hord & _ & Hids & Hover & _)%discoverAccounts_inv;
    [|done].
  apply applyAccountOverrides_inv in Hover as (Hod & _).
  unfold validateAccountAuthIDs in Hids.
  destruct (foldl validateAccountAuthIDs_step (Some ∅) (owned_ids ordered)) as [m|] eqn:Hfold;
    [|done].
  assert (∀ id x y, (id, x) ∈ owned_ids ordered → (id, y) ∈ owned_ids ordered → x = y) as Huniq.
  { apply validate_ids_owner; [|by rewrite Hfold]. apply Forall_forall. intros [id x].
    rewrite elem_of_owned_ids. intros (a & Ha & _ & <-). rewrite Hord in Ha.
    apply list_elem_of_fmap in Ha as (key & -> & _). apply accountIdentity_nonempty. }
  intros a b id Ha Hb Hia Hib.
  apply list_elem_of_lookup in Ha as [i Ha], Hb as [j Hb].
  destruct (Forall2_lookup_r _ _ _ _ _ Hod Ha) as (a0 & Ha0 & Hoda).
  destruct (Forall2_lookup_r _ _ _ _ _ Hod Hb) as (b0 & Hb0 & Hodb).
  rewrite (od_Identity _ _ Hoda), (od_Identity _ _ Hodb).
  rewrite (od_authIDs _ _ Hoda) in Hia. rewrite (od_authIDs _ _ Hodb) in Hib.
  apply (Huniq id); apply elem_of_owned_ids; eauto using list_elem_of_lookup_2.
Qed.

(** ** Properties *)

(** One generator never returns the same identifier twice, whatever the
    kinds and parts it is asked for, repeated ones included, so that no two
    credentials the host enumerates share an auth ID. Only the shape of the
    digest matters: collisions of its first twelve digits are counted apart. *)
Theorem stableIDs_unique `{GoStdLaws} calls :
  slice_sized calls → NoDup (stableIDs ∅ calls).
Proof.
  intros Hsize. apply stableIDs_spec. intros key. unfold counter.
  rewrite lookup_empty. unfold slice_sized in Hsize. simpl. lia.
Qed.

Lemma stableIDs_unique_witness :
  NoDup (stableIDs (H := DemoStd.demo_std) ∅
    [("claude:apikey", ["k"]); ("claude:apikey", ["k "]); ("claude:apikey", ["k"])]).
Proof.
  apply (stableIDs_unique (H0 := DemoStd.demo_laws)). unfold slice_sized. vm_compute. discriminate.
Defined.

(** C21: the index from auth IDs to identities built over the discovered
    accounts answers with an identity exactly for the auth IDs of the account
    that has it: it is exact, and no auth ID is claimed by two identities. *)
Theorem discoverAccounts_index `{GoStdLaws} cpa cfg accounts :
  cpa_sized cpa → discoverAccounts cpa cfg = Ok accounts → ∀ id identity,
  foldl indexAccountAuthIDs ∅ accounts !! id = Some identity
  ↔ ∃ a, a ∈ accounts ∧ id ∈ accountAuthIDs a ∧ ac_Identity a = identity.
Proof. intros Hsize Hok. by apply index_lookup, (discovered_ids_owned _ _ _ Hsize Hok). Qed.

(** A host configuration with one key paired, and used a second time behind
    another base URL. *)
Definition demo_claude (key base : string) : ClaudeKey :=
  {| ck_APIKey := key; ck_Prefix := ""; ck_BaseURL := base; ck_ProxyURL := "";
     ck_Headers := [] |}.
Definition demo_cpa (claude : list ClaudeKey) (keys : list string) : cpaConfigProjection :=
  {| cc_AuthDir := ""; cc_ClaudeKeys := claude;
     cc_OpenAICompatibility :=
       [{| oc_Name := "ZAI-coding-plan"; oc_Disabled := false; oc_BaseURL := zaiOpenAIBaseURL;
           oc_APIKeyEntries := (λ k, {| ke_APIKey := k; ke_ProxyURL := "" |}) <$> keys;
           oc_Headers := [] |}];
     cc_Plugins := {| cps_Enabled := true; cps_Configs := [] |} |}.
Definition demo_pair : cpaConfigProjection :=
  demo_cpa [demo_claude "key-alpha1" zaiAnthropicBaseURL] ["key-alpha1"].
Definition demo_shared : cpaConfigProjection :=
  demo_cpa [demo_claude "key-alpha1" zaiAnthropicBaseURL;
            demo_claude "key-alpha1" "https://other.example/api"] ["key-alpha1"].
Definition demo_plan_config : pluginConfig :=
  {| pc_CPAConfigPath := ""; pc_QuotaRefresh := defaultQuotaRefresh;
     pc_AuthoritativeMaxAge := defaultAuthoritativeMaxAge; pc_QuotaTimeout := defaultQuotaTimeout;
     pc_ThresholdPercent := 97; pc_SuspendDuration := defaultSuspend;
     pc_FallbackCooldown := defaultFallback; pc_StateRetention := defaultStateRetention;
     pc_DefaultPlan := "pro"; pc_Accounts := [] |}.

Definition demo_accounts (cpa : cpaConfigProjection) (cfg : pluginConfig) : list account :=
  match discoverAccounts (H := DemoStd.demo_std) cpa cfg with Ok l => l | Err _ => [] end.

Lemma discoverAccounts_index_witness :
  ∃ id, foldl indexAccountAuthIDs ∅ (demo_accounts demo_pair demo_config) !! id
        = Some (accountIdentity (H := DemoStd.demo_std) "key-alpha1").
Proof.
  exists (match demo_accounts demo_pair demo_config with
          | a :: _ => ac_OpenAIAuthID a | [] => "" end).
  apply (discoverAccounts_index (H0 := DemoStd.demo_laws) demo_pair demo_config).
  - by_decision.
  - vm_compute. reflexivity.
  - eexists. split; [vm_compute; left|]. split; [|vm_compute; reflexivity].
    by_decision.
Defined.

(** The accounts a successful discovery returns are usable: plan and name
    are set, names are unique up to case, both buckets are positive and within
    range, each account has the plan, state and buckets of the only override
    whose suffix its key has (of the default plan without one), and each
    configured override is used by exactly one account. *)
Theorem discoverAccounts_configured `{GoStdLaws} cpa cfg accounts :
  cpa_sized cpa → discoverAccounts cpa cfg = Ok accounts →
  Forall (λ a, ac_Plan a ≠ "" ∧ ac_Name a ≠ ""
    ∧ validCreditBucket (ac_FiveHourCredits a) = true
    ∧ validCreditBucket (ac_WeeklyCredits a) = true
    ∧ ac_Identity a = accountIdentity (ac_key a)
    ∧ account_configured cfg a) accounts
  ∧ NoDup ((λ a, ToLower (ac_Name a)) <$> accounts)
  ∧ ∀ o, o ∈ pc_Accounts cfg →
      length (filter (λ a, suffix_of (ac_key a) o) accounts) = 1%nat.
Proof.
  intros Hsize (ordered & ids & openAIIDs & Hord & _ & _ & Hover & _)%discoverAccounts_inv;
    [|done].
  apply applyAccountOverrides_inv in Hover as (Hod & Hcfg & Hnames & Honce).
  split; [|done]. rewrite Forall_forall in Hcfg.
  apply Forall_lookup. intros i a Ha.
  destruct (Forall2_lookup_r _ _ _ _ _ Hod Ha) as (a0 & Ha0 & Hd).
  apply list_elem_of_lookup_2 in Ha0. rewrite Hord in Ha0.
  apply list_elem_of_fmap in Ha0 as (key & -> & _).
  split_and!; try apply Hd.
  - by rewrite (od_Identity _ _ Hd), (od_key _ _ Hd).
  - rewrite Forall_forall in Hcfg. apply Hcfg; [|by eapply list_elem_of_lookup_2].
    intros b. rewrite Hord. by intros (k & -> & _)%list_elem_of_fmap.
Qed.

Lemma discoverAccounts_configured_witness :
  NoDup ((λ a, ToLower (ac_Name a)) <$> demo_accounts demo_pair demo_config).
Proof.
  apply (discoverAccounts_configured (H0 := DemoStd.demo_laws) demo_pair demo_config).
  - by_decision.
  - vm_compute. reflexivity.
Defined.

(** Which accounts a successful discovery returns: one per Anthropic entry,
    in the host's order, whose key is the key of a recognised entry; each such
    key has exactly one recognised Anthropic entry and exactly one entry of the
    OpenAI-compatible provider. An entry for another base URL that reuses the
    key of a pair is thus an account of its own, with the same identity. *)
Theorem discoverAccounts_keys `{GoStd} cpa cfg accounts :
  cpa_sized cpa → discoverAccounts cpa cfg = Ok accounts →
  ac_key <$> accounts
    = filter (λ key, key ∈ zai_claude_keys (cc_ClaudeKeys cpa)) (claude_keys (cc_ClaudeKeys cpa))
  ∧ ac_Identity <$> accounts = accountIdentity <$> (ac_key <$> accounts)
  ∧ NoDup (zai_claude_keys (cc_ClaudeKeys cpa))
  ∧ NoDup (zai_openAI_keys (cc_OpenAICompatibility cpa))
  ∧ ∀ key, key ∈ zai_claude_keys (cc_ClaudeKeys cpa)
           ↔ key ∈ zai_openAI_keys (cc_OpenAICompatibility cpa).
Proof.
  intros Hsize (ordered & ids & openAIIDs & Hord & _ & _ & Hover & _ & Hc & Ho & Hco)
    %discoverAccounts_inv; [|done].
  apply applyAccountOverrides_inv in Hover as (Hod & _).
  assert (ac_key <$> accounts = ac_key <$> ordered) as Hkeys.
  { clear -Hod. induction Hod as [|a b l k Hd Hod IH]; [done|]. csimpl. by rewrite IH, (od_key _ _ Hd). }
  assert (ac_Identity <$> accounts = ac_Identity <$> ordered) as Hident.
  { clear -Hod. induction Hod as [|a b l k Hd Hod IH]; [done|]. csimpl.
    by rewrite IH, (od_Identity _ _ Hd). }
  assert (∀ ids openAIIDs (keys : list string), ac_key <$> (paired_account ids openAIIDs <$> keys) = keys) as Hk.
  { clear. intros ids openAIIDs keys. induction keys; csimpl; congruence. }
  rewrite Hident, Hkeys, Hord, Hk. split_and!; try done.
  rewrite <- list_fmap_compose. done.
Qed.

Lemma discoverAccounts_keys_witness :
  ac_Identity <$> demo_accounts demo_shared demo_plan_config
  = [accountIdentity (H := DemoStd.demo_std) "key-alpha1";
     accountIdentity (H := DemoStd.demo_std) "key-alpha1"].
Proof.
  destruct (discoverAccounts_keys (H := DemoStd.demo_std) demo_shared demo_plan_config
    (demo_accounts demo_shared demo_plan_config)) as (Hkeys & Hident & _).
  - by_decision.
  - vm_compute. reflexivity.
  - rewrite Hident, Hkeys. vm_compute. reflexivity.
Defined.

(** An override that gives both credit buckets and no plan is accepted by
    the configuration, but makes every discovery fail when there is no default
    plan: the buckets it gives are never used. *)
Theorem planless_override_unusable `{GoStdLaws} cpa cfg o :
  cpa_sized cpa → pc_DefaultPlan cfg = "" → o ∈ pc_Accounts cfg → ao_Plan o = "" →
  is_Ok (discoverAccounts cpa cfg) = false.
Proof.
  intros Hsize Hdef Ho Hplan. destruct (discoverAccounts cpa cfg) as [accounts|] eqn:Hok; [|done].
  exfalso. apply discoverAccounts_inv in Hok
    as (ordered & ids & openAIIDs & Hord & _ & _ & Hover & _); [|done].
  apply applyAccountOverrides_inv in Hover as (Hod & Hcfg & _ & Honce).
  destruct (filter (λ a, suffix_of (ac_key a) o) accounts) as [|a l] eqn:Hf;
    [by specialize (Honce o Ho); rewrite Hf in Honce|].
  assert (a ∈ accounts ∧ suffix_of (ac_key a) o) as [Ha Hsuffix].
  { assert (a ∈ filter (λ a, suffix_of (ac_key a) o) accounts) as Hin by (rewrite Hf; left).
    by apply list_elem_of_filter in Hin as [? ?]. }
  assert (account_configured cfg a) as Hconf.
  { clear Hf.
    assert (Forall (account_configured cfg) accounts) as Hall.
    { apply Hcfg, Forall_forall. rewrite Hord. by intros b (k & -> & _)%list_elem_of_fmap. }
    rewrite Forall_forall in Hall. by apply Hall. }
  apply list_elem_of_lookup in Ha as [i Ha].
  destruct (Forall2_lookup_r _ _ _ _ _ Hod Ha) as (a0 & _ & Hd).
  apply (od_plan _ _ Hd). unfold account_configured in Hconf.
  assert (o ∈ filter (suffix_of (ac_key a)) (pc_Accounts cfg)) as Hin
    by (by apply list_elem_of_filter).
  destruct (filter (suffix_of (ac_key a)) (pc_Accounts cfg)) as [|o' [|]]; [|  |done].
  - by apply elem_of_nil in Hin.
  - apply list_elem_of_singleton in Hin as ->. destruct Hconf as (-> & _). by rewrite Hplan, Hdef.
Qed.

Definition planless_override : accountOverride :=
  {| ao_KeySuffix := "alpha1"; ao_Name := ""; ao_Plan := ""; ao_Disabled := false;
     ao_FiveHourCredits := 500; ao_WeeklyCredits := 2500 |}.

Lemma planless_override_unusable_witness :
  validateAccountOverride
    {| ra_KeySuffix := "alpha1"; ra_Name := ""; ra_Plan := ""; ra_Disabled := false;
       ra_FiveHourCredits := Some 500; ra_WeeklyCredits := Some 2500 |} "" = Ok planless_override
  ∧ is_Ok (discoverAccounts (H := DemoStd.demo_std) demo_pair
      {| pc_CPAConfigPath := ""; pc_QuotaRefresh := defaultQuotaRefresh;
         pc_AuthoritativeMaxAge := defaultAuthoritativeMaxAge;
         pc_QuotaTimeout := defaultQuotaTimeout; pc_ThresholdPercent := 97;
         pc_SuspendDuration := defaultSuspend; pc_FallbackCooldown := defaultFallback;
         pc_StateRetention := defaultStateRetention; pc_DefaultPlan := "";
         pc_Accounts := [planless_override] |}) = false.
Proof.
  split; [vm_compute; reflexivity|].
  apply (planless_override_unusable (H0 := DemoStd.demo_laws)) with (o := planless_override).
  - by_decision.
  - reflexivity.
  - left.
  - reflexivity.
Defined.
