(* ===== verification/Windows.v ===== *)
(** * Quota windows of an account (zai/windows.go)

    The state kept per account, its credit events in chronological order, the
    deduplication of usage records, and the view of the quota: authoritative
    while a snapshot is fresh, else estimated from the events. *)

From stdpp Require Import sorting.
From S2P Require Import Prelude GoStrings GoFloat Host Credits Quota Config Accounts.

Definition fiveHourWindow : Duration := 5 * hour.
Definition weeklyWindow : Duration := 7 * day.
Definition maxDedupHashes : nat := 4096.
Arguments maxDedupHashes : simpl never.

Record creditEvent := {
  ev_At : Time;
  ev_Microcredits : Z;
  ev_Model : string;
}.

Record accountQuotaState := {
  qs_Authoritative : option quotaSnapshot;
  qs_LastPollAttempt : Time;
  qs_LastPollError : string;
  qs_ConsecutiveFailures : Z;
  qs_Events : list creditEvent;
  qs_DedupHashes : list string;
  qs_CompleteSince : Time;
  qs_DeliveryWarning : bool;
  qs_PersistenceWarning : bool;
  qs_UnknownModelWarning : bool;
  qs_DedupCollisionWarn : bool;
  qs_LastSourceTransition : string;
  qs_LastDivergence : string;
}.

(** The zero value of the struct. *)
Definition zero_state : accountQuotaState := {|
  qs_Authoritative := None; qs_LastPollAttempt := 0; qs_LastPollError := "";
  qs_ConsecutiveFailures := 0; qs_Events := []; qs_DedupHashes := []; qs_CompleteSince := 0;
  qs_DeliveryWarning := false; qs_PersistenceWarning := false;
  qs_UnknownModelWarning := false; qs_DedupCollisionWarn := false;
  qs_LastSourceTransition := ""; qs_LastDivergence := "" |}.

Record accountQuotaView := {
  qv_Source : string;
  qv_FiveHour : quotaWindow;
  qv_FiveHourError : string;
  qv_Weekly : quotaWindow;
  qv_ObservedAt : Time;
  qv_Stale : bool;
  qv_Warning : string;
  qv_CompleteSince : Time;
  qv_DeliveryWarning : bool;
  qv_PersistenceWarning : bool;
  qv_UnknownModelWarning : bool;
  qv_DedupCollisionWarn : bool;
}.

#[global] Instance creditEvent_eq_dec : EqDecision creditEvent.
Proof. solve_decision. Defined.
#[global] Instance accountQuotaState_eq_dec : EqDecision accountQuotaState.
Proof. solve_decision. Defined.

(** ** Field updates *)

Definition set_events (events : list creditEvent) (s : accountQuotaState) : accountQuotaState :=
  {| qs_Authoritative := qs_Authoritative s; qs_LastPollAttempt := qs_LastPollAttempt s;
     qs_LastPollError := qs_LastPollError s; qs_ConsecutiveFailures := qs_ConsecutiveFailures s;
     qs_Events := events; qs_DedupHashes := qs_DedupHashes s;
     qs_CompleteSince := qs_CompleteSince s; qs_DeliveryWarning := qs_DeliveryWarning s;
     qs_PersistenceWarning := qs_PersistenceWarning s;
     qs_UnknownModelWarning := qs_UnknownModelWarning s;
     qs_DedupCollisionWarn := qs_DedupCollisionWarn s;
     qs_LastSourceTransition := qs_LastSourceTransition s;
     qs_LastDivergence := qs_LastDivergence s |}.

Definition set_dedup (hashes : list string) (collision : bool) (s : accountQuotaState)
    : accountQuotaState :=
  {| qs_Authoritative := qs_Authoritative s; qs_LastPollAttempt := qs_LastPollAttempt s;
     qs_LastPollError := qs_LastPollError s; qs_ConsecutiveFailures := qs_ConsecutiveFailures s;
     qs_Events := qs_Events s; qs_DedupHashes := hashes;
     qs_CompleteSince := qs_CompleteSince s; qs_DeliveryWarning := qs_DeliveryWarning s;
     qs_PersistenceWarning := qs_PersistenceWarning s;
     qs_UnknownModelWarning := qs_UnknownModelWarning s;
     qs_DedupCollisionWarn := collision;
     qs_LastSourceTransition := qs_LastSourceTransition s;
     qs_LastDivergence := qs_LastDivergence s |}.

Definition set_warnings (delivery persistence unknownModel : bool) (s : accountQuotaState)
    : accountQuotaState :=
  {| qs_Authoritative := qs_Authoritative s; qs_LastPollAttempt := qs_LastPollAttempt s;
     qs_LastPollError := qs_LastPollError s; qs_ConsecutiveFailures := qs_ConsecutiveFailures s;
     qs_Events := qs_Events s; qs_DedupHashes := qs_DedupHashes s;
     qs_CompleteSince := qs_CompleteSince s; qs_DeliveryWarning := delivery;
     qs_PersistenceWarning := persistence; qs_UnknownModelWarning := unknownModel;
     qs_DedupCollisionWarn := qs_DedupCollisionWarn s;
     qs_LastSourceTransition := qs_LastSourceTransition s;
     qs_LastDivergence := qs_LastDivergence s |}.

(** ** Events *)

(** The insertion index: from the end past the events later than [at_]. *)
Fixpoint insert_index (events : list creditEvent) (at_ : Time) (index : nat) : nat :=
  match index with
  | O => O
  | S index' =>
      match events !! index' with
      | Some event =>
          if time_After (ev_At event) at_ then insert_index events at_ index' else index
      | None => index
      end
  end.

Definition addEvent (state : accountQuotaState) (event : creditEvent) : accountQuotaState :=
  if ev_Microcredits event <=? 0 then state else
  let index := insert_index (qs_Events state) (ev_At event) (length (qs_Events state)) in
  set_events (take index (qs_Events state) ++ event :: drop index (qs_Events state)) state.

(** [sort.Search]: the loop halves [j - i], so [n] steps are enough. *)
Fixpoint sort_Search_loop (fuel : nat) (i j : nat) (f : nat → bool) : nat :=
  match fuel with
  | O => i
  | S fuel' =>
      if (i <? j)%nat then
        let h := ((i + j) / 2)%nat in
        if f h then sort_Search_loop fuel' i h f else sort_Search_loop fuel' (S h) j f
      else i
  end.

Definition sort_Search (n : nat) (f : nat → bool) : nat := sort_Search_loop n 0 n f.

Definition compact (state : accountQuotaState) (now : Time) (retention : Duration)
    : accountQuotaState :=
  let cutoff := time_Add now (wrap64 (- retention)) in
  let first := sort_Search (length (qs_Events state)) (λ index,
    match qs_Events state !! index with
    | Some event => time_After (ev_At event) cutoff
    | None => false
    end) in
  let state := if (0 <? first)%nat then set_events (drop first (qs_Events state)) state else state in
  let n := length (qs_DedupHashes state) in
  if (maxDedupHashes <? n)%nat
  then set_dedup (drop (n - maxDedupHashes) (qs_DedupHashes state))
         (qs_DedupCollisionWarn state) state
  else state.

(** [true] for a hash seen before. *)
Definition seenDedup (state : accountQuotaState) (hash : string) : bool * accountQuotaState :=
  if bool_decide (hash ∈ qs_DedupHashes state)
  then (true, set_dedup (qs_DedupHashes state) true state)
  else
    let hashes := qs_DedupHashes state ++ [hash] in
    let hashes :=
      if (maxDedupHashes <? length hashes)%nat
      then drop (length hashes - maxDedupHashes) hashes else hashes in
    (false, set_dedup hashes (qs_DedupCollisionWarn state) state).

(** ** Estimation *)

Definition atOrAboveThreshold (consumed bucket thresholdPercent : Z) : bool :=
  if bucket <=? 0 then true else
  let threshold := (bucket [/] 100) [*] thresholdPercent in
  let threshold := threshold [+] (((bucket [%] 100) [*] thresholdPercent) [/] 100) in
  threshold <=? consumed.

Definition saturatingAdd (left right : Z) : Z :=
  if (0 <? right) && (int64_max [-] right <? left) then int64_max else left [+] right.

(** The first event whose expiry brings the rest below the threshold. *)
Fixpoint reset_loop (remaining bucket thresholdPercent : Z) (duration : Duration)
    (active : list creditEvent) : Time :=
  match active with
  | [] => 0
  | event :: active' =>
      let remaining := remaining [-] ev_Microcredits event in
      if negb (atOrAboveThreshold remaining bucket thresholdPercent)
      then time_Add (ev_At event) duration
      else reset_loop remaining bucket thresholdPercent duration active'
  end.

Definition estimatedWindow (events : list creditEvent) (now : Time) (duration : Duration)
    (bucket thresholdPercent : Z) : quotaWindow :=
  let cutoff := time_Add now (wrap64 (- duration)) in
  let active := filter (λ event,
    time_After (ev_At event) cutoff && negb (time_After (ev_At event) now) = true) events in
  let consumed := foldl (λ consumed event, saturatingAdd consumed (ev_Microcredits event)) 0 active in
  {| qw_ConsumedMicrocredits := consumed; qw_BucketMicrocredits := bucket;
     qw_ResetsAt :=
       if atOrAboveThreshold consumed bucket thresholdPercent
       then reset_loop consumed bucket thresholdPercent duration active else 0 |}.

Definition snapshot_fresh (state : accountQuotaState) (now : Time) (cfg : pluginConfig) : bool :=
  match qs_Authoritative state with
  | Some snap =>
      negb (time_After (sn_ObservedAt snap) now)
      && (time_Sub now (sn_ObservedAt snap) <=? pc_AuthoritativeMaxAge cfg)
  | None => false
  end.

Definition view (state : accountQuotaState) (now : Time) (item : account) (cfg : pluginConfig)
    : accountQuotaView :=
  let estimated_fiveHour :=
    estimatedWindow (qs_Events state) now fiveHourWindow
      (ac_FiveHourCredits item [*] creditScale) (pc_ThresholdPercent cfg) in
  match qs_Authoritative state, snapshot_fresh state now cfg with
  | Some snap, true =>
      let partial := negb (bool_decide (sn_FiveHourError snap = "")) in
      {| qv_Source := "authoritative";
         qv_FiveHour := if partial then estimated_fiveHour else sn_FiveHour snap;
         qv_FiveHourError := if partial then boundedStatus (sn_FiveHourError snap) else "";
         qv_Weekly := sn_Weekly snap;
         qv_ObservedAt := sn_ObservedAt snap;
         qv_Stale := false;
         qv_Warning := boundedStatus (qs_LastPollError state);
         qv_CompleteSince := qs_CompleteSince state;
         qv_DeliveryWarning := qs_DeliveryWarning state;
         qv_PersistenceWarning := qs_PersistenceWarning state;
         qv_UnknownModelWarning := qs_UnknownModelWarning state;
         qv_DedupCollisionWarn := qs_DedupCollisionWarn state |}
  | _, _ =>
      {| qv_Source := "estimated";
         qv_FiveHour := estimated_fiveHour;
         qv_FiveHourError := "";
         qv_Weekly :=
           estimatedWindow (qs_Events state) now weeklyWindow
             (ac_WeeklyCredits item [*] creditScale) (pc_ThresholdPercent cfg);
         qv_ObservedAt := qs_LastPollAttempt state;
         qv_Stale := bool_decide (is_Some (qs_Authoritative state));
         qv_Warning := boundedStatus (qs_LastPollError state);
         qv_CompleteSince := qs_CompleteSince state;
         qv_DeliveryWarning := true;
         qv_PersistenceWarning := qs_PersistenceWarning state;
         qv_UnknownModelWarning := qs_UnknownModelWarning state;
         qv_DedupCollisionWarn := qs_DedupCollisionWarn state |}
  end.

(** ** Chronological order *)

Definition before (e f : creditEvent) : Prop := ev_At e <= ev_At f.

Definition chronological (events : list creditEvent) : Prop := StronglySorted before events.

Lemma insert_index_spec events at_ n :
  chronological events → (n ≤ length events)%nat →
  let index := insert_index events at_ n in
  (index ≤ n)%nat
  ∧ Forall (λ e, ev_At e <= at_) (take index events)
  ∧ Forall (λ e, at_ < ev_At e) (drop index (take n events)).
Proof.
  intros Hs. induction n as [|n IH]; intros Hn; [by split_and!|].
  cbn [insert_index]. destruct (events !! n) as [e|] eqn:He;
    [|apply lookup_ge_None in He; lia].
  unfold time_After. destruct (Z.ltb_spec at_ (ev_At e)) as [Hlate|Hearly].
  - destruct IH as (Hi & Ht & Hd); [lia|]. cbv zeta. split_and!; [lia|done|].
    rewrite (take_S_r _ _ _ He), drop_app_le by (rewrite length_take; lia).
    apply Forall_app. by repeat constructor.
  - cbv zeta. split_and!; [done| |by rewrite drop_ge by (rewrite length_take; lia)].
    rewrite (take_S_r _ _ _ He). apply Forall_app. split; [|by repeat constructor].
    apply Forall_lookup. intros i e' Hi%lookup_take_Some. destruct Hi as [Hi Hlt].
    rewrite <- (take_drop_middle _ _ _ He) in Hs.
    apply StronglySorted_app_1_elem_of with (x1 := e') (x2 := e) in Hs.
    + unfold before in Hs. lia.
    + apply list_elem_of_lookup. exists i. by rewrite lookup_take_lt by lia.
    + left.
Qed.

Lemma addEvent_events state event :
  chronological (qs_Events state) →
  ev_Microcredits event <= 0 ∧ addEvent state event = state
  ∨ ∃ earlier later,
      qs_Events state = earlier ++ later
      ∧ qs_Events (addEvent state event) = earlier ++ event :: later
      ∧ Forall (λ e, ev_At e <= ev_At event) earlier
      ∧ Forall (λ e, ev_At event < ev_At e) later
      ∧ addEvent state event = set_events (earlier ++ event :: later) state.
Proof.
  intros Hs. unfold addEvent. destruct (Z.leb_spec (ev_Microcredits event) 0); [by left|].
  right. destruct (insert_index_spec _ (ev_At event) (length (qs_Events state)) Hs)
    as (_ & Ht & Hd); [done|].
  rewrite (take_ge (qs_Events state) (length _)) in Hd by done. cbv zeta in Ht, Hd.
  eexists _, _. split_and!; [symmetry; apply take_drop|done|done|done|done].
Qed.

Lemma chronological_insert earlier event later :
  chronological (earlier ++ later) →
  Forall (λ e, ev_At e <= ev_At event) earlier →
  Forall (λ e, ev_At event < ev_At e) later →
  chronological (earlier ++ event :: later).
Proof.
  unfold chronological. intros Hs He Hl.
  induction earlier as [|e earlier IH]; simpl in *.
  - constructor; [done|]. eapply Forall_impl; [done|]. unfold before. simpl. intros. lia.
  - apply Forall_cons in He as [He Hes]. inversion_clear Hs as [|? ? Hs' Hall].
    apply Forall_app in Hall as [Ha Hb]. constructor; [by apply IH|].
    apply Forall_app. split; [done|]. constructor; [done|done].
Qed.

Lemma addEvent_chronological state event :
  chronological (qs_Events state) → chronological (qs_Events (addEvent state event)).
Proof.
  intros Hs. destruct (addEvent_events state event Hs)
    as [[_ ->]|(earlier & later & Heq & -> & He & Hl & _)]; [done|].
  apply chronological_insert; [by rewrite <- Heq|done|done].
Qed.

(** ** Binary search *)

Lemma sort_Search_loop_spec f fuel i j :
  (∀ a b, (a ≤ b)%nat → f a = true → f b = true) →
  (i ≤ j)%nat → (j - i ≤ fuel)%nat →
  (∀ k, (k < i)%nat → f k = false) →
  let r := sort_Search_loop fuel i j f in
  (i ≤ r ≤ j)%nat ∧ (∀ k, (k < r)%nat → f k = false) ∧ ((r < j)%nat → f r = true).
Proof.
  intros Hmono. revert i j. induction fuel as [|fuel IH]; intros i j Hij Hfuel Hlo.
  { simpl. split_and!; [lia|lia|done|lia]. }
  cbn [sort_Search_loop]. destruct (Nat.ltb_spec i j) as [Hlt|];
    [|cbv zeta; split_and!; [lia|lia|done|lia]].
  assert (i ≤ (i + j) / 2 ∧ (i + j) / 2 < j)%nat as [Hh1 Hh2].
  { split; [apply Nat.div_le_lower_bound|apply Nat.Div0.div_lt_upper_bound]; lia. }
  cbv zeta. set (h := ((i + j) / 2)%nat) in *. destruct (f h) eqn:Hf.
  - destruct (IH i h) as (? & ? & Hr); [lia|lia|done|]. cbv zeta in *.
    split_and!; [lia|lia|done|]. intros _.
    set (r := sort_Search_loop fuel i h f) in *.
    destruct (decide (r = h)) as [->|]; [done|]. apply Hr. lia.
  - destruct (IH (S h) j) as (? & ? & Hr); [lia|lia| |].
    + intros k Hk. destruct (f k) eqn:E; [|done].
      rewrite (Hmono k h) in Hf; [done|lia|done].
    + cbv zeta in *. split_and!; [lia|lia|done|done].
Qed.

(** In chronological order the search finds where the kept events start. *)
Lemma compact_first events cutoff :
  chronological events →
  drop (sort_Search (length events) (λ index,
    match events !! index with
    | Some event => time_After (ev_At event) cutoff
    | None => false
    end)) events = filter (λ e, cutoff < ev_At e) events.
Proof.
  intros Hs. set (f := λ index, _).
  (* beyond the list the predicate is never asked: extend it monotonically *)
  set (g := λ index, if (index <? length events)%nat then f index else true).
  assert (∀ fuel i j, (j ≤ length events)%nat →
    sort_Search_loop fuel i j f = sort_Search_loop fuel i j g) as Hfg.
  { induction fuel as [|fuel IH]; intros i j Hj; [done|]. cbn [sort_Search_loop].
    destruct (Nat.ltb_spec i j); [|done].
    assert ((i + j) / 2 < j)%nat by (apply Nat.Div0.div_lt_upper_bound; lia).
    assert (f ((i + j) / 2)%nat = g ((i + j) / 2)%nat) as ->.
    { unfold g. destruct (Nat.ltb_spec ((i + j) / 2) (length events)); [done|lia]. }
    cbv zeta. by case_match; apply IH; lia. }
  unfold sort_Search. rewrite Hfg by done.
  assert (∀ a b, (a ≤ b)%nat → g a = true → g b = true) as Hmono.
  { intros a b Hab. unfold g, f. destruct (Nat.ltb_spec a (length events)) as [Ha|].
    - destruct (Nat.ltb_spec b (length events)) as [Hb|]; [|done].
      destruct (lookup_lt_is_Some_2 _ _ Ha) as [ea Hea]. destruct (lookup_lt_is_Some_2 _ _ Hb) as [eb Heb].
      rewrite Hea, Heb. unfold time_After. rewrite !Z.ltb_lt. intros Hcut.
      destruct (decide (a = b)) as [->|]; [by simplify_eq|].
      rewrite <- (take_drop_middle _ _ _ Hea) in Hs.
      apply StronglySorted_app_1_r in Hs. inversion_clear Hs as [|? ? _ Hall].
      rewrite Forall_lookup in Hall.
      assert (ev_At ea <= ev_At eb); [|lia].
      apply (Hall (b - S a)%nat). rewrite lookup_drop. rewrite <- Heb. f_equal. lia.
    - destruct (Nat.ltb_spec b (length events)); [lia|done]. }
  destruct (sort_Search_loop_spec g (length events) 0 (length events)) as (Hr & Hlo & Hhi);
    [done|lia|lia|lia|]. cbv zeta in *.
  set (r := sort_Search_loop _ _ _ g) in *.
  rewrite <- (take_drop r events) at 2. rewrite filter_app.
  rewrite (list_filter_none _ (take r events)); [|].
  - rewrite (list_filter_all _ (drop r events)); [done|].
    apply Forall_lookup. intros k e Hk. rewrite lookup_drop in Hk.
    assert (g (r + k)%nat = true) as Hg.
    { apply (Hmono r); [lia|]. apply Hhi. apply lookup_lt_Some in Hk. lia. }
    unfold g, f in Hg. apply lookup_lt_Some in Hk as Hlt.
    rewrite (proj2 (Nat.ltb_lt _ _)) in Hg by done. rewrite Hk in Hg.
    unfold time_After in Hg. lia.
  - apply Forall_lookup. intros k e Hk%lookup_take_Some. destruct Hk as [Hk Hlt].
    specialize (Hlo k Hlt). unfold g, f in Hlo. apply lookup_lt_Some in Hk as Hl.
    rewrite (proj2 (Nat.ltb_lt _ _)) in Hlo by done. rewrite Hk in Hlo.
    unfold time_After in Hlo. lia.
Qed.

(** ** Deduplication *)

Definition dedup_ok (hashes : list string) : Prop :=
  (length hashes ≤ maxDedupHashes)%nat ∧ NoDup hashes.

Lemma NoDup_drop {A} n (l : list A) : NoDup l → NoDup (drop n l).
Proof. rewrite <- (take_drop n l) at 1. intros (_ & _ & ?)%NoDup_app. done. Qed.

Lemma seenDedup_hashes state hash :
  let r := seenDedup state hash in
  r.1 = bool_decide (hash ∈ qs_DedupHashes state)
  ∧ qs_DedupHashes r.2 =
      (if decide (hash ∈ qs_DedupHashes state) then qs_DedupHashes state
       else drop (S (length (qs_DedupHashes state)) - maxDedupHashes)
              (qs_DedupHashes state ++ [hash]))
  ∧ qs_Events r.2 = qs_Events state
  ∧ qs_DedupCollisionWarn r.2 = r.1 || qs_DedupCollisionWarn state.
Proof.
  unfold seenDedup.
  destruct (decide (hash ∈ qs_DedupHashes state)) as [Hin|Hin].
  - by rewrite bool_decide_eq_true_2.
  - rewrite bool_decide_eq_false_2 by done. cbn [fst snd set_dedup qs_DedupHashes qs_Events
      qs_DedupCollisionWarn]. split_and!; [done| |done|done].
    rewrite length_app, Nat.add_1_r.
    destruct (Nat.ltb_spec maxDedupHashes (S (length (qs_DedupHashes state)))); [done|].
    rewrite (proj2 (Nat.sub_0_le _ _)); [done|unfold maxDedupHashes in *; lia].
Qed.

Lemma seenDedup_ok state hash :
  dedup_ok (qs_DedupHashes state) → dedup_ok (qs_DedupHashes (seenDedup state hash).2).
Proof.
  intros [Hlen Hnd]. destruct (seenDedup_hashes state hash) as (_ & -> & _).
  case_decide as Hin; [done|]. split.
  - rewrite length_drop, length_app. cbn [length]. lia.
  - apply NoDup_drop, NoDup_app. split_and!; [done| |by apply NoDup_singleton].
    by intros x Hx ->%list_elem_of_singleton.
Qed.

(** A sequence of records, by their digests. *)
Definition seen_all (state : accountQuotaState) (hashes : list string) : accountQuotaState :=
  foldl (λ st hash, (seenDedup st hash).2) state hashes.

Lemma seenDedup_records state hash :
  dedup_ok (qs_DedupHashes state) →
  ∃ older newer, qs_DedupHashes (seenDedup state hash).2 = older ++ hash :: newer.
Proof.
  intros [Hlen _]. destruct (seenDedup_hashes state hash) as (_ & -> & _).
  case_decide as Hin; [by apply list_elem_of_split|].
  exists (drop (S (length (qs_DedupHashes state)) - maxDedupHashes) (qs_DedupHashes state)), [].
  apply drop_app_le. unfold maxDedupHashes in *. lia.
Qed.

(** A hash moves towards the old end by at most one place per record. *)
Lemma seen_all_position state hash hashes older newer :
  qs_DedupHashes state = older ++ hash :: newer →
  (length newer + length hashes < maxDedupHashes)%nat →
  ∃ older' newer', qs_DedupHashes (seen_all state hashes) = older' ++ hash :: newer'.
Proof.
  revert state older newer. induction hashes as [|h hashes IH]; intros state older newer Hst Hlen.
  { simpl. eauto. }
  simpl in Hlen |- *. destruct (seenDedup_hashes state h) as (_ & Hhs & _).
  set (st' := (seenDedup state h).2) in *.
  destruct (decide (h ∈ qs_DedupHashes state)).
  - apply (IH st' older newer); [by rewrite Hhs|lia].
  - rewrite Hst in Hhs. rewrite length_app in Hhs. cbn [length] in Hhs.
    rewrite <- app_assoc, drop_app_le in Hhs by lia.
    apply (IH st' (drop (S (length older + S (length newer)) - maxDedupHashes) older)
      (newer ++ [h])); [done|]. rewrite length_app. cbn [length]. lia.
Qed.

(** ** The threshold *)

Definition threshold_of (bucket percent : Z) : Z := bucket * percent / 100.

Lemma atOrAboveThreshold_eq consumed bucket percent :
  0 < bucket <= int64_max → 0 <= percent <= 100 →
  atOrAboveThreshold consumed bucket percent = (threshold_of bucket percent <=? consumed).
Proof.
  intros Hb Hp. unfold atOrAboveThreshold, threshold_of.
  rewrite (proj2 (Z.leb_gt _ _)) by lia.
  assert (bucket [/] 100 = bucket / 100) as ->.
  { rewrite Z.quot_div_nonneg by lia. apply wrap64_id.
    assert (0 <= bucket / 100 <= bucket)
      by (split; [apply Z.div_pos|apply Z.div_le_upper_bound]; lia).
    unfold in_int64, int64_min. lia. }
  rewrite Z.rem_mod_nonneg by lia.
  pose proof (Z.div_mod bucket 100). pose proof (Z.mod_pos_bound bucket 100).
  assert (0 <= bucket / 100) by (apply Z.div_pos; lia).
  set (q := bucket / 100) in *. set (r := bucket mod 100) in *.
  assert (bucket = 100 * q + r) as Hbr by lia.
  assert (bucket * percent / 100 = q * percent + r * percent / 100) as Heq.
  { rewrite Hbr. replace ((100 * q + r) * percent) with (r * percent + q * percent * 100) by ring.
    rewrite Z.div_add by lia. lia. }
  assert (0 <= r * percent < 10000) by nia.
  assert (0 <= r * percent / 100 < 100)
    by (split; [apply Z.div_pos|apply Z.div_lt_upper_bound]; lia).
  assert (0 <= q * percent <= 100 * q) by nia.
  assert (bucket * percent / 100 <= bucket) by (apply Z.div_le_upper_bound; nia).
  rewrite (wrap64_id (q * percent)), (wrap64_id (r * percent));
    [|unfold in_int64, int64_min, int64_max in *; lia..].
  rewrite Z.quot_div_nonneg by lia.
  rewrite (wrap64_id (r * percent / 100)) by (unfold in_int64, int64_min, int64_max in *; lia).
  rewrite <- Heq, wrap64_id; [done|]. unfold in_int64, int64_min. lia.
Qed.

Lemma threshold_positive bucket percent :
  100 <= bucket → 1 <= percent → 0 < threshold_of bucket percent.
Proof. intros. unfold threshold_of. apply Z.div_str_pos. nia. Qed.

Lemma saturatingAdd_eq left right :
  0 <= left <= int64_max → 0 <= right <= int64_max →
  saturatingAdd left right = Z.min int64_max (left + right).
Proof.
  intros Hl Hr. unfold saturatingAdd.
  rewrite (wrap64_id (int64_max - right)) by (unfold in_int64, int64_min in *; lia).
  destruct (Z.ltb_spec 0 right), (Z.ltb_spec (int64_max - right) left); simpl; try lia;
    rewrite wrap64_id by (unfold in_int64, int64_min in *; lia); lia.
Qed.

(** ** The estimator *)

Definition total (events : list creditEvent) : Z := foldr (λ e acc, ev_Microcredits e + acc) 0 events.

Definition event_ok (e : creditEvent) : Prop := 0 <= ev_Microcredits e <= int64_max.

Lemma total_nonneg events : Forall event_ok events → 0 <= total events.
Proof. induction 1 as [|e l [? ?] ? IH]; simpl; lia. Qed.

Lemma total_app l k : total (l ++ k) = total l + total k.
Proof. induction l; simpl; [done|]. rewrite IHl. lia. Qed.

Lemma total_filter_le (P : creditEvent → Prop) `{∀ e, Decision (P e)} l :
  Forall event_ok l → 0 <= total (filter P l) <= total l.
Proof.
  induction 1 as [|e l [? ?] Hl IH]; [done|]. rewrite filter_cons. case_decide; simpl; lia.
Qed.

Lemma consumed_loop events acc :
  Forall event_ok events → 0 <= acc <= int64_max →
  foldl (λ consumed e, saturatingAdd consumed (ev_Microcredits e)) acc events
  = Z.min int64_max (acc + total events).
Proof.
  intros Hok. revert acc. induction Hok as [|e l He Hl IH]; intros acc Hacc; simpl; [lia|].
  rewrite saturatingAdd_eq by done. pose proof (total_nonneg l Hl). destruct He.
  rewrite IH by lia. lia.
Qed.

(** What the window counts at time [t], for the events known at [now]. *)
Definition usage_at (events : list creditEvent) (now : Time) (duration : Duration) (t : Time) : Z :=
  total (filter (λ e, t - duration < ev_At e ∧ ev_At e <= now) events).

Lemma reset_loop_spec active bucket percent duration :
  Forall event_ok active → total active <= int64_max →
  0 < bucket <= int64_max → 0 <= percent <= 100 → 0 < threshold_of bucket percent →
  threshold_of bucket percent <= total active →
  ∃ pre e post, active = pre ++ e :: post
  ∧ reset_loop (total active) bucket percent duration active = ev_At e + duration
  ∧ total post < threshold_of bucket percent <= total (e :: post).
Proof.
  intros Hok Hmax Hb Hp Hthr. induction Hok as [|e l He Hl IH]; intros Hge; simpl in *; [lia|].
  destruct He. pose proof (total_nonneg l Hl).
  replace (ev_Microcredits e + total l [-] ev_Microcredits e) with (total l)
    by (rewrite wrap64_id; unfold in_int64, int64_min, int64_max in *; lia).
  rewrite atOrAboveThreshold_eq by done.
  destruct (Z.leb_spec (threshold_of bucket percent) (total l)); simpl.
  - destruct IH as (pre & e' & post & -> & Hr & Hb'); [lia|lia|].
    exists (e :: pre), e', post. by rewrite Hr.
  - exists [], e, l. simpl. split_and!; [done|done|lia|lia].
Qed.

Lemma usage_at_active events now duration t :
  now <= t →
  usage_at events now duration t
  = total (filter (λ e, t - duration < ev_At e)
      (filter (λ e, now - duration < ev_At e ∧ ev_At e <= now) events)).
Proof.
  intros Ht. unfold usage_at. f_equal. rewrite list_filter_filter. apply list_filter_iff.
  intros e. lia.
Qed.

Lemma chronological_filter (P : creditEvent → Prop) `{∀ e, Decision (P e)} events :
  chronological events → chronological (filter P events).
Proof.
  unfold chronological. induction 1 as [|e l Hs IH Hall]; [constructor|].
  rewrite filter_cons. case_decide; [|done]. constructor; [done|].
  apply Forall_forall. intros x [_ Hx]%list_elem_of_filter.
  rewrite Forall_forall in Hall. auto.
Qed.

(** ** Properties *)

(** Adding a credit event keeps the events in chronological order and
    inserts exactly that event, after every event of the same time; an event
    without cost changes nothing, and no other field changes. *)
Theorem addEvent_spec state event :
  chronological (qs_Events state) →
  chronological (qs_Events (addEvent state event))
  ∧ addEvent state event = set_events (qs_Events (addEvent state event)) state
  ∧ (if decide (ev_Microcredits event <= 0)
     then qs_Events (addEvent state event) = qs_Events state
     else ∃ earlier later, qs_Events state = earlier ++ later
          ∧ qs_Events (addEvent state event) = earlier ++ event :: later
          ∧ Forall (λ e, ev_At e <= ev_At event) earlier
          ∧ Forall (λ e, ev_At event < ev_At e) later).
Proof.
  intros Hs. split; [by apply addEvent_chronological|].
  destruct (addEvent_events state event Hs) as [[Hz Heq]|(earlier & later & He)].
  - rewrite Heq, decide_True by done. by destruct state.
  - unfold addEvent. destruct (Z.leb_spec (ev_Microcredits event) 0) as [Hz|Hz].
    + rewrite decide_True by done. by destruct state.
    + split; [done|]. rewrite decide_False by lia. exists earlier, later.
      destruct He as (? & Hq & ? & ? & Heq). split_and!; [done| |done|done].
      unfold addEvent in Hq. destruct (Z.leb_spec (ev_Microcredits event) 0); [lia|done].
Qed.

Definition demo_event (at_ cost : Z) : creditEvent :=
  {| ev_At := demo_now + at_; ev_Microcredits := cost; ev_Model := "glm-5.3" |}.
Definition demo_state : accountQuotaState :=
  set_events [demo_event 0 100; demo_event 10 200; demo_event 20 300] zero_state.

#[global] Instance before_dec e f : Decision (before e f).
Proof. unfold before. apply _. Defined.

#[global] Instance chronological_dec events : Decision (chronological events).
Proof. unfold chronological. apply _. Defined.

Lemma addEvent_spec_witness :
  qs_Events (addEvent demo_state (demo_event 10 50))
  = [demo_event 0 100; demo_event 10 200; demo_event 10 50; demo_event 20 300]
  ∧ chronological (qs_Events (addEvent demo_state (demo_event 10 50))).
Proof.
  split; [vm_compute; reflexivity|].
  apply (addEvent_spec demo_state (demo_event 10 50)). by_decision.
Defined.

(** Compaction by binary search is filtering: on chronological events it
    keeps exactly the events later than the retention cutoff, and of the
    deduplication hashes the newest 4096; it is idempotent. *)
Theorem compact_filters state now retention :
  chronological (qs_Events state) → in_int64 (- retention) →
  let state' := compact state now retention in
  qs_Events state' = filter (λ e, now - retention < ev_At e) (qs_Events state)
  ∧ qs_DedupHashes state'
    = drop (length (qs_DedupHashes state) - maxDedupHashes) (qs_DedupHashes state)
  ∧ chronological (qs_Events state')
  ∧ compact state' now retention = state'.
Proof.
  intros Hs Hret.
  assert (∀ st, chronological (qs_Events st) →
    compact st now retention =
      set_dedup (drop (length (qs_DedupHashes st) - maxDedupHashes) (qs_DedupHashes st))
        (qs_DedupCollisionWarn st)
        (set_events (filter (λ e, now - retention < ev_At e) (qs_Events st)) st)) as Heq.
  { clear state Hs. intros st Hs. unfold compact. rewrite wrap64_id by done.
    unfold time_Add. change (now + - retention) with (now - retention). cbv zeta.
    pose proof (compact_first _ (now - retention) Hs) as Hfirst.
    set (first := sort_Search _ _) in *.
    assert ((if (0 <? first)%nat then set_events (drop first (qs_Events st)) st else st)
      = set_events (filter (λ e, now - retention < ev_At e) (qs_Events st)) st) as ->.
    { rewrite <- Hfirst. destruct first; [by destruct st|done]. }
    simpl. destruct (Nat.ltb_spec maxDedupHashes (length (qs_DedupHashes st))); [done|].
    rewrite (proj2 (Nat.sub_0_le _ _)) by done. by destruct st. }
  cbv zeta. rewrite (Heq state) by done. split_and!; [done|done|by apply chronological_filter|].
  rewrite Heq by by apply chronological_filter. unfold set_dedup, set_events. simpl. f_equal.
  - rewrite list_filter_filter. apply list_filter_iff. tauto.
  - rewrite length_drop, drop_drop. f_equal. lia.
Qed.

Lemma compact_filters_witness :
  qs_Events (compact demo_state (demo_now + 15) 10) = [demo_event 10 200; demo_event 20 300].
Proof.
  assert (H : chronological (qs_Events demo_state)) by by_decision.
  destruct (compact_filters demo_state (demo_now + 15) 10 H) as (He & _).
  - unfold in_int64, int64_min, int64_max. lia.
  - rewrite He. vm_compute. reflexivity.
Defined.

(** Deduplication is sound over a whole history: the stored hashes stay
    distinct and at most 4096, a record is reported as seen exactly when its
    digest is stored, and a digest first seen is recognised again after any
    sequence of fewer than 4096 further records. *)
Theorem seenDedup_history state hash hashes :
  dedup_ok (qs_DedupHashes state) → (length hashes < maxDedupHashes)%nat →
  let later := seen_all (seenDedup state hash).2 hashes in
  (seenDedup state hash).1 = bool_decide (hash ∈ qs_DedupHashes state)
  ∧ dedup_ok (qs_DedupHashes later)
  ∧ (hash ∉ qs_DedupHashes state → (seenDedup later hash).1 = true).
Proof.
  intros Hok Hlen. cbv zeta. split_and!.
  - apply seenDedup_hashes.
  - unfold seen_all. assert (dedup_ok (qs_DedupHashes (seenDedup state hash).2)) as H
      by by apply seenDedup_ok.
    revert H. generalize (seenDedup state hash).2 as st. clear.
    induction hashes as [|h hashes IH]; intros st H; [done|]. by apply IH, seenDedup_ok.
  - intros Hnew. destruct (seenDedup_hashes state hash) as (_ & Hst & _).
    rewrite decide_False, drop_app_le in Hst
      by (done || (destruct Hok; unfold maxDedupHashes in *; lia)).
    destruct (seen_all_position (seenDedup state hash).2 hash hashes _ [] Hst) as (o & n & Hl);
      [simpl; lia|].
    destruct (seenDedup_hashes (seen_all (seenDedup state hash).2 hashes) hash) as (-> & _).
    apply bool_decide_eq_true_2. rewrite Hl. set_solver.
Qed.

Lemma seenDedup_history_witness :
  (seenDedup (seen_all (seenDedup zero_state "a").2 ["b"; "c"; "b"]) "a").1 = true.
Proof.
  apply (seenDedup_history zero_state "a" ["b"; "c"; "b"]).
  - split; [simpl; lia|constructor].
  - unfold maxDedupHashes. simpl. lia.
  - simpl. apply not_elem_of_nil.
Defined.

(** C34: the estimated reset is the true one: with no further usage, the
    consumption the window counts stays at or above the threshold until
    [ResetsAt] and is below it from that instant on; the reset lies after now
    and at most one window length ahead, and below the threshold there is none.
    The consumption reported is the exact sum of the events in the window. *)
Theorem estimatedWindow_reset events now duration bucket percent :
  chronological events → Forall event_ok events → total events <= int64_max →
  0 < duration <= int64_max → 100 <= bucket <= int64_max → 1 <= percent <= 100 →
  let w := estimatedWindow events now duration bucket percent in
  let reset := qw_ResetsAt w in
  qw_ConsumedMicrocredits w = usage_at events now duration now
  ∧ if decide (usage_at events now duration now < threshold_of bucket percent) then reset = 0
    else (now < reset <= now + duration
          ∧ (∀ t, now <= t < reset → threshold_of bucket percent <= usage_at events now duration t)
          ∧ ∀ t, reset <= t → usage_at events now duration t < threshold_of bucket percent).
Proof.
  intros Hs Hok Hmax Hd Hb Hp. cbv zeta. unfold estimatedWindow.
  rewrite (wrap64_id (- duration)) by (unfold in_int64, int64_min, int64_max in *; lia).
  set (active := filter _ events).
  assert (active = filter (λ e, now - duration < ev_At e ∧ ev_At e <= now) events) as Hact.
  { apply list_filter_iff. intros e. unfold time_Add. unfold_time.
    rewrite andb_true_iff, negb_true_iff, Z.ltb_lt, Z.ltb_ge. lia. }
  assert (Forall event_ok active) as Hact_ok by (rewrite Hact; by apply Forall_list_filter).
  assert (chronological active) as Hact_s by (rewrite Hact; by apply chronological_filter).
  assert (total active <= int64_max) as Hact_max
    by (rewrite Hact; pose proof (total_filter_le (λ e, now - duration < ev_At e ∧ ev_At e <= now)
          events Hok); lia).
  assert (usage_at events now duration now = total active) as Hnow by (by rewrite Hact).
  pose proof (total_nonneg active Hact_ok).
  simpl. rewrite consumed_loop, Z.min_r by (done || (unfold int64_max in *; lia)).
  rewrite Z.add_0_l. split; [done|].
  rewrite atOrAboveThreshold_eq by lia. rewrite Hnow.
  destruct (Z.leb_spec (threshold_of bucket percent) (total active)) as [Hge|Hlt];
    [rewrite decide_False by lia|by rewrite decide_True by lia].
  pose proof (threshold_positive bucket percent) as Hthr.
  destruct (reset_loop_spec active bucket percent duration)
    as (pre & e & post & Heq & -> & Hpost); [done|done|lia|lia|lia|done|].
  assert (e ∈ active) as He by (rewrite Heq; set_solver).
  rewrite Hact in He. apply list_elem_of_filter in He as [[He1 He2] _].
  rewrite Heq in Hact_s, Hact_ok.
  apply Forall_app in Hact_ok as [Hpre_ok Hpost_ok].
  apply StronglySorted_app in Hact_s as (Hpre & _ & Hs2).
  apply StronglySorted_cons in Hs2 as [Hafter _].
  split; [lia|]. split.
  - intros t Ht. rewrite usage_at_active, <- Hact, Heq, filter_app, total_app by lia.
    rewrite (list_filter_all _ (e :: post)).
    + pose proof (total_filter_le (λ e, t - duration < ev_At e) pre Hpre_ok). lia.
    + constructor; [lia|]. eapply Forall_impl; [done|]. unfold before. simpl. lia.
  - intros t Ht. rewrite usage_at_active, <- Hact, Heq, filter_app, total_app by lia.
    rewrite (list_filter_none _ pre), filter_cons_False.
    + apply Forall_cons in Hpost_ok as [_ Hpost_ok].
      pose proof (total_filter_le (λ e, t - duration < ev_At e) post Hpost_ok). simpl. lia.
    + lia.
    + apply Forall_forall. intros e' He'. specialize (Hpre e' e He').
      unfold before in Hpre. assert (ev_At e' <= ev_At e) by (apply Hpre; set_solver). lia.
Qed.

Lemma estimatedWindow_reset_witness :
  usage_at (qs_Events demo_state) (demo_now + 25) 100 (demo_now + 25) = 600
  ∧ qw_ResetsAt (estimatedWindow (qs_Events demo_state) (demo_now + 25) 100 600 90)
    = demo_now + 100
  ∧ usage_at (qs_Events demo_state) (demo_now + 25) 100 (demo_now + 100) < 540.
Proof.
  assert (Hreset : qw_ResetsAt (estimatedWindow (qs_Events demo_state) (demo_now + 25) 100 600 90)
    = demo_now + 100) by (vm_compute; reflexivity).
  assert (H : chronological (qs_Events demo_state)) by by_decision.
  destruct (estimatedWindow_reset (qs_Events demo_state) (demo_now + 25) 100 600 90 H)
    as (Hc & Hr).
  - by_decision.
  - vm_compute. discriminate.
  - unfold int64_max. lia.
  - unfold int64_max. lia.
  - lia.
  - split; [vm_compute; reflexivity|]. split; [exact Hreset|].
    rewrite decide_False in Hr by (vm_compute; discriminate).
    destruct Hr as (_ & _ & Hr). apply Hr. rewrite Hreset. done.
Defined.

(** The threshold is the exact percentage of the bucket, rounded down: the
    two-step integer computation neither overflows nor loses precision for any
    bucket of the machine range. *)
Theorem atOrAboveThreshold_exact consumed bucket percent :
  0 < bucket <= int64_max → 1 <= percent <= 100 →
  atOrAboveThreshold consumed bucket percent = true ↔ bucket * percent < 100 * (consumed + 1).
Proof.
  intros Hb Hp. rewrite atOrAboveThreshold_eq by lia. unfold threshold_of.
  rewrite Z.leb_le. pose proof (Z.div_mod (bucket * percent) 100).
  pose proof (Z.mod_pos_bound (bucket * percent) 100). lia.
Qed.

Lemma atOrAboveThreshold_exact_witness :
  atOrAboveThreshold 8946871145829212702 int64_max 97 = true
  ∧ int64_max * 97 < 100 * (8946871145829212702 + 1).
Proof.
  split; [vm_compute; reflexivity|].
  apply (atOrAboveThreshold_exact 8946871145829212702 int64_max 97).
  - unfold int64_max. lia.
  - lia.
  - vm_compute. reflexivity.
Defined.
