(* ===== verification/Health.v ===== *)
(** * Account health (zai/health.go) and its persisted part (zai/settings.go)

    The suspension, exhaustion, capacity and throttle state of an account, the
    request-rate ladder of transient rate limits (zai/failures.go), and the
    assessment the scheduler and the status report are made from. *)

From S2P Require Import Prelude GoStrings GoFloat Host Credits Quota Config Accounts Windows.

Definition healthHealthy : string := "healthy".
Definition healthExhausted : string := "exhausted".
Definition healthSuspended : string := "suspended".
Definition healthDisabled : string := "disabled".
Definition healthThrottled : string := "throttled".

(** zai/failures.go *)
Definition requestRateBackoffBase : Duration := 5 * second.
Definition requestRateBackoffCap : Duration := minute.
Definition requestRateMaxThrottles : Z := 5.
Definition requestRateStreakDecay : Duration := 5 * minute.

Record capacityUpdate := {
  cu_Exhausted : bool;
  cu_ResetAt : Time;
  cu_Source : string;
}.

Record accountHealthState := {
  hs_SuspendedUntil : Time;
  hs_ExhaustedUntil : Time;
  hs_ExhaustedReason : string;
  hs_CapacityExhausted : bool;
  hs_CapacityResetAt : Time;
  hs_CapacitySource : string;
  hs_ThrottledUntil : Time;
  hs_ThrottleStreak : Z;
  hs_ThrottleReason : string;
}.

Definition zero_health : accountHealthState := {|
  hs_SuspendedUntil := 0; hs_ExhaustedUntil := 0; hs_ExhaustedReason := "";
  hs_CapacityExhausted := false; hs_CapacityResetAt := 0; hs_CapacitySource := "";
  hs_ThrottledUntil := 0; hs_ThrottleStreak := 0; hs_ThrottleReason := "" |}.

Record accountHealth := {
  ah_Status : string;
  ah_Reason : string;
  ah_ResetAt : Time;
}.

(** zai/settings.go *)
Record persistedHealthState := {
  ph_SuspendedUntil : Time;
  ph_ExhaustedUntil : Time;
  ph_ExhaustedReason : string;
}.

#[global] Instance accountHealthState_eq_dec : EqDecision accountHealthState.
Proof. solve_decision. Defined.
#[global] Instance persistedHealthState_eq_dec : EqDecision persistedHealthState.
Proof. solve_decision. Defined.

(** ** Updates *)

Definition suspendUntil (s : accountHealthState) (resetAt : Time) : accountHealthState :=
  if time_After resetAt (hs_SuspendedUntil s)
  then {| hs_SuspendedUntil := resetAt; hs_ExhaustedUntil := hs_ExhaustedUntil s;
          hs_ExhaustedReason := hs_ExhaustedReason s;
          hs_CapacityExhausted := hs_CapacityExhausted s;
          hs_CapacityResetAt := hs_CapacityResetAt s; hs_CapacitySource := hs_CapacitySource s;
          hs_ThrottledUntil := hs_ThrottledUntil s; hs_ThrottleStreak := hs_ThrottleStreak s;
          hs_ThrottleReason := hs_ThrottleReason s |}
  else s.

Definition exhaustUntil (s : accountHealthState) (resetAt : Time) (reason : string)
    : accountHealthState :=
  if time_After resetAt (hs_ExhaustedUntil s)
  then {| hs_SuspendedUntil := hs_SuspendedUntil s; hs_ExhaustedUntil := resetAt;
          hs_ExhaustedReason := boundedHealthReason reason;
          hs_CapacityExhausted := hs_CapacityExhausted s;
          hs_CapacityResetAt := hs_CapacityResetAt s; hs_CapacitySource := hs_CapacitySource s;
          hs_ThrottledUntil := hs_ThrottledUntil s; hs_ThrottleStreak := hs_ThrottleStreak s;
          hs_ThrottleReason := hs_ThrottleReason s |}
  else s.

Definition set_throttle (until : Time) (streak : Z) (reason : string) (s : accountHealthState)
    : accountHealthState :=
  {| hs_SuspendedUntil := hs_SuspendedUntil s; hs_ExhaustedUntil := hs_ExhaustedUntil s;
     hs_ExhaustedReason := hs_ExhaustedReason s;
     hs_CapacityExhausted := hs_CapacityExhausted s;
     hs_CapacityResetAt := hs_CapacityResetAt s; hs_CapacitySource := hs_CapacitySource s;
     hs_ThrottledUntil := until; hs_ThrottleStreak := streak; hs_ThrottleReason := reason |}.

Definition set_capacity (exhausted : bool) (resetAt : Time) (source : string)
    (s : accountHealthState) : accountHealthState :=
  {| hs_SuspendedUntil := hs_SuspendedUntil s; hs_ExhaustedUntil := hs_ExhaustedUntil s;
     hs_ExhaustedReason := hs_ExhaustedReason s;
     hs_CapacityExhausted := exhausted; hs_CapacityResetAt := resetAt;
     hs_CapacitySource := source;
     hs_ThrottledUntil := hs_ThrottledUntil s; hs_ThrottleStreak := hs_ThrottleStreak s;
     hs_ThrottleReason := hs_ThrottleReason s |}.

Definition clearThrottle (s : accountHealthState) : accountHealthState := set_throttle 0 0 "" s.

(** The doubling loop of the backoff; the delay doubles from five seconds and
    the loop stops at a minute, so four of the eight steps are taken. *)
Fixpoint backoff_loop (fuel : nat) (step streak : Z) (delay : Duration) : Duration :=
  match fuel with
  | O => delay
  | S fuel' =>
      if (step <? streak) && (delay <? requestRateBackoffCap)
      then backoff_loop fuel' (step [+] 1) streak (delay [*] 2) else delay
  end.

Definition requestRateBackoff (streak : Z) (fallback : Duration) : Duration :=
  let delay := backoff_loop 8 1 streak requestRateBackoffBase in
  let delay := Z.min delay requestRateBackoffCap in
  if 0 <? fallback then Z.min delay fallback else delay.

(** [true] asks for the conservative exhaustion path. *)
Definition throttle (s : accountHealthState) (now hintedAt : Time) (fallback : Duration)
    : bool * accountHealthState :=
  if time_After (hs_ThrottledUntil s) now then
    (false, if time_After hintedAt (hs_ThrottledUntil s)
            then set_throttle hintedAt (hs_ThrottleStreak s) (hs_ThrottleReason s) s else s)
  else
    let streak :=
      if (0 <? hs_ThrottleStreak s)
         && (requestRateStreakDecay <=? time_Sub now (hs_ThrottledUntil s))
      then 0 else hs_ThrottleStreak s in
    if requestRateMaxThrottles <=? streak then (true, clearThrottle s) else
    let streak := streak [+] 1 in
    let '(until, reason) :=
      if time_After hintedAt now then (hintedAt, "request-rate retry hint")
      else (time_Add now (requestRateBackoff streak fallback), "request-rate backoff") in
    (false, set_throttle until streak reason s).

(** ** Persistence *)

Definition persisted (s : accountHealthState) (now : Time) : persistedHealthState * bool :=
  let suspended := if time_After (hs_SuspendedUntil s) now then hs_SuspendedUntil s else 0 in
  let '(exhausted, reason) :=
    if time_After (hs_ExhaustedUntil s) now
    then (hs_ExhaustedUntil s, boundedHealthReason (hs_ExhaustedReason s)) else (0, "") in
  ({| ph_SuspendedUntil := suspended; ph_ExhaustedUntil := exhausted;
      ph_ExhaustedReason := reason |},
   negb (time_IsZero suspended) || negb (time_IsZero exhausted)).

Definition restorePersistedHealth (s : persistedHealthState) (now : Time) : accountHealthState :=
  let suspended := if time_After (ph_SuspendedUntil s) now then ph_SuspendedUntil s else 0 in
  let '(exhausted, reason) :=
    if time_After (ph_ExhaustedUntil s) now
    then (ph_ExhaustedUntil s, boundedHealthReason (ph_ExhaustedReason s)) else (0, "") in
  {| hs_SuspendedUntil := suspended; hs_ExhaustedUntil := exhausted;
     hs_ExhaustedReason := reason;
     hs_CapacityExhausted := false; hs_CapacityResetAt := 0; hs_CapacitySource := "";
     hs_ThrottledUntil := 0; hs_ThrottleStreak := 0; hs_ThrottleReason := "" |}.

(** ** Capacity and assessment *)

Definition window_exhausted (w : quotaWindow) (threshold : Z) : bool :=
  atOrAboveThreshold (qw_ConsumedMicrocredits w) (qw_BucketMicrocredits w) threshold.

Definition quotaCapacityHealth (s : accountHealthState) (v : accountQuotaView) (threshold : Z)
    : accountHealthState :=
  let fiveHourExhausted := window_exhausted (qv_FiveHour v) threshold in
  let weeklyExhausted := window_exhausted (qv_Weekly v) threshold in
  if fiveHourExhausted || weeklyExhausted then
    let resetAt := if fiveHourExhausted then qw_ResetsAt (qv_FiveHour v) else 0 in
    let resetAt :=
      if weeklyExhausted
         && (time_IsZero resetAt || time_After (qw_ResetsAt (qv_Weekly v)) resetAt)
      then qw_ResetsAt (qv_Weekly v) else resetAt in
    set_capacity true resetAt (boundedHealthReason (qv_Source v +:+ " quota threshold")) s
  else set_capacity false 0 (boundedHealthReason (qv_Source v)) s.

Definition assess (s : accountHealthState) (item : account) (now : Time) : accountHealth :=
  if ac_Disabled item then
    {| ah_Status := healthDisabled; ah_Reason := "administratively disabled"; ah_ResetAt := 0 |}
  else if time_After (hs_SuspendedUntil s) now then
    {| ah_Status := healthSuspended; ah_Reason := "upstream authentication failure";
       ah_ResetAt := hs_SuspendedUntil s |}
  else if time_After (hs_ExhaustedUntil s) now then
    {| ah_Status := healthExhausted; ah_Reason := hs_ExhaustedReason s;
       ah_ResetAt := hs_ExhaustedUntil s |}
  else if hs_CapacityExhausted s then
    {| ah_Status := healthExhausted;
       ah_Reason := if decide (hs_CapacitySource s = "") then "quota threshold reached"
                    else hs_CapacitySource s;
       ah_ResetAt := if time_After (hs_CapacityResetAt s) now then hs_CapacityResetAt s else 0 |}
  else if time_After (hs_ThrottledUntil s) now then
    {| ah_Status := healthThrottled; ah_Reason := hs_ThrottleReason s;
       ah_ResetAt := hs_ThrottledUntil s |}
  else {| ah_Status := healthHealthy; ah_Reason := ""; ah_ResetAt := 0 |}.

(** ** The ladder *)

(** The delays of the ladder: 5, 10, 20, 40 seconds, then a minute. *)
Definition ladder_delay (streak : Z) : Duration :=
  Z.min minute (5 * second * 2 ^ (streak - 1)).

(** Any further fuel gives the same delay: the loop has stopped. *)
Lemma requestRateBackoff_eq streak fallback :
  1 <= streak <= requestRateMaxThrottles →
  requestRateBackoff streak fallback =
    if 0 <? fallback then Z.min (ladder_delay streak) fallback else ladder_delay streak.
Proof.
  unfold requestRateMaxThrottles. intros H.
  assert (streak = 1 ∨ streak = 2 ∨ streak = 3 ∨ streak = 4 ∨ streak = 5) as Hs by lia.
  unfold requestRateBackoff.
  destruct_or! Hs; subst; (destruct (0 <? fallback); [f_equal|]; vm_compute; reflexivity).
Qed.

Lemma backoff_loop_capped n m step streak delay :
  requestRateBackoffCap <= delay →
  backoff_loop n step streak delay = delay ∧ backoff_loop m step streak delay = delay.
Proof.
  intros H. assert ((step <? streak) && (delay <? requestRateBackoffCap) = false) as E.
  { rewrite (proj2 (Z.ltb_ge delay _)) by done. apply andb_false_r. }
  split; [destruct n|destruct m]; cbn [backoff_loop]; by rewrite ?E.
Qed.

(** Four doublings reach the cap: the fuel of [requestRateBackoff] is enough for
    every streak. *)
Lemma backoff_loop_enough n streak :
  in_int64 streak →
  backoff_loop (4 + n) 1 streak requestRateBackoffBase
  = backoff_loop 4 1 streak requestRateBackoffBase.
Proof.
  intros Hs. unfold requestRateBackoffBase. cbn [Nat.add backoff_loop].
  repeat match goal with
  | |- context [if ?b then _ else _] => destruct b eqn:?; [|reflexivity]
  end.
  apply (backoff_loop_capped n 0). by vm_compute.
Qed.

Lemma requestRateBackoff_range streak fallback :
  in_int64 streak → 0 < fallback →
  0 < requestRateBackoff streak fallback <= Z.min requestRateBackoffCap fallback.
Proof.
  intros Hs Hf. unfold requestRateBackoff. rewrite (proj2 (Z.ltb_lt 0 fallback)) by done.
  change 8%nat with (4 + 4)%nat. rewrite backoff_loop_enough by done.
  assert (0 < backoff_loop 4 1 streak requestRateBackoffBase); [|unfold requestRateBackoffCap, minute, second in *; lia].
  unfold requestRateBackoffBase. cbn [backoff_loop].
  repeat match goal with
  | |- context [if ?b then _ else _] => destruct b; [|by vm_compute]
  end. by vm_compute.
Qed.

(** What the account's throttle state always satisfies. *)
Definition throttle_ok (s : accountHealthState) : Prop :=
  0 <= hs_ThrottleStreak s <= requestRateMaxThrottles.

Lemma throttle_preserves_ok s now hintedAt fallback :
  throttle_ok s → throttle_ok (throttle s now hintedAt fallback).2.
Proof.
  unfold throttle_ok, throttle, requestRateMaxThrottles. intros Hs.
  destruct (time_After (hs_ThrottledUntil s) now); [by case_match|].
  set (streak := if _ && _ then _ else _).
  assert (0 <= streak <= 5) by (subst streak; destruct (_ && _); lia).
  destruct (Z.leb_spec 5 streak); [simpl; lia|].
  destruct (time_After hintedAt now); simpl; rewrite wrap64_id;
    unfold in_int64, int64_min, int64_max; lia.
Qed.

(** The part of a health state that a restart keeps. *)
Definition durable (s : accountHealthState) : accountHealthState :=
  clearThrottle (set_capacity false 0 "" s).

(** ** Properties *)

(** The request-rate ladder: a burst of rate-limited responses, each after
    the previous throttle ran out but before the streak decays, and without a
    hint, backs off for 5, 10, 20, 40 and 60 seconds (never more than the
    fallback), and the sixth asks for the conservative cooldown and clears the
    ladder; a response while the throttle is active changes neither streak nor
    deadline, and a decayed streak starts from the first step again. *)
Theorem throttle_ladder s now fallback :
  0 < fallback → throttle_ok s → 0 <= now → 0 <= hs_ThrottledUntil s →
  in_int64 (now - hs_ThrottledUntil s) →
  throttle s now 0 fallback =
    if decide (now < hs_ThrottledUntil s) then (false, s)
    else
      let streak := if decide (requestRateStreakDecay <= now - hs_ThrottledUntil s) then 0
                    else hs_ThrottleStreak s in
      if decide (streak = requestRateMaxThrottles) then (true, clearThrottle s)
      else (false, set_throttle (now + Z.min fallback (ladder_delay (streak + 1)))
                     (streak + 1) "request-rate backoff" s).
Proof.
  unfold throttle_ok, requestRateMaxThrottles. intros Hf Hs Hnow Huntil Hgap.
  unfold throttle, time_After. rewrite time_Sub_small by done.
  rewrite (proj2 (Z.ltb_ge now 0)), (proj2 (Z.ltb_ge (hs_ThrottledUntil s) 0)) by done.
  destruct (Z.ltb_spec now (hs_ThrottledUntil s)) as [Hact|Hact];
    [by rewrite decide_True by done|rewrite decide_False by lia].
  set (streak := if (0 <? _) && _ then _ else _).
  assert (streak = if decide (requestRateStreakDecay <= now - hs_ThrottledUntil s) then 0
                   else hs_ThrottleStreak s) as Hstreak.
  { subst streak. destruct (Z.ltb_spec 0 (hs_ThrottleStreak s)),
      (Z.leb_spec requestRateStreakDecay (now - hs_ThrottledUntil s));
      simpl; case_decide; lia. }
  cbv zeta. rewrite <- Hstreak.
  assert (0 <= streak <= 5) as Hb by (rewrite Hstreak; case_decide; lia).
  clearbody streak. clear Hstreak. unfold requestRateMaxThrottles. destruct (Z.leb_spec 5 streak); destruct (decide (streak = 5)); try lia; [done|].
  rewrite wrap64_id by (unfold in_int64, int64_min, int64_max; lia).
  rewrite requestRateBackoff_eq by (unfold requestRateMaxThrottles; lia).
  rewrite (proj2 (Z.ltb_lt 0 fallback)) by done. by rewrite Z.min_comm.
Qed.

(** Five rate-limited responses, a second after each throttle ended, and a sixth. *)
Lemma throttle_ladder_witness :
  let s1 := (throttle zero_health demo_now 0 defaultFallback).2 in
  let s5 := set_throttle (demo_now - second) 5 "request-rate backoff" s1 in
  hs_ThrottledUntil s1 = demo_now + 5 * second ∧ hs_ThrottleStreak s1 = 1
  ∧ throttle s5 demo_now 0 defaultFallback = (true, clearThrottle s5).
Proof.
  cbv zeta. split; [vm_compute; reflexivity|split; [vm_compute; reflexivity|]].
  set (s5 := set_throttle _ _ _ _).
  rewrite (throttle_ladder s5 demo_now defaultFallback).
  - rewrite decide_False by (vm_compute; intuition discriminate). vm_compute. reflexivity.
  - vm_compute. reflexivity.
  - split; vm_compute; discriminate.
  - vm_compute. discriminate.
  - vm_compute. discriminate.
  - split; vm_compute; discriminate.
Defined.

(** A restart forgets nothing that matters and invents nothing: a health
    state saved at one time and restored at a later one makes the same
    assessment at every later time as the state before the restart with its
    in-memory capacity and throttle cleared (which are recomputed), with the
    same deadline. *)
Theorem persisted_roundtrip s item saved restored t :
  saved <= restored <= t → 0 <= restored →
  let s' := restorePersistedHealth (persisted s saved).1 restored in
  ah_Status (assess s' item t) = ah_Status (assess (durable s) item t)
  ∧ ah_ResetAt (assess s' item t) = ah_ResetAt (assess (durable s) item t).
Proof.
  intros Ht H0. cbv zeta.
  assert (∀ dl, let dl1 := if time_After dl saved then dl else 0 in
    let dl2 := if time_After dl1 restored then dl1 else 0 in
    time_After dl2 t = time_After dl t
    ∧ (time_After dl t = true → dl2 = dl)) as Hu.
  { intros dl. unfold time_After. cbv zeta.
    destruct (Z.ltb_spec saved dl); ltb_cases; (split; [|intros ?]; first [done|exfalso; lia|lia]). }
  destruct (Hu (hs_SuspendedUntil s)) as [Hs1 Hs2].
  destruct (Hu (hs_ExhaustedUntil s)) as [He1 He2].
  assert (hs_SuspendedUntil (restorePersistedHealth (persisted s saved).1 restored)
    = let dl1 := if time_After (hs_SuspendedUntil s) saved then hs_SuspendedUntil s else 0 in
      if time_After dl1 restored then dl1 else 0) as Es.
  { unfold restorePersistedHealth, persisted.
    by repeat (case_match; simplify_eq/=). }
  assert (hs_ExhaustedUntil (restorePersistedHealth (persisted s saved).1 restored)
    = let dl1 := if time_After (hs_ExhaustedUntil s) saved then hs_ExhaustedUntil s else 0 in
      if time_After dl1 restored then dl1 else 0) as Ee.
  { unfold restorePersistedHealth, persisted.
    by repeat (case_match; simplify_eq/=). }
  cbv zeta in Es, Ee, Hs1, Hs2, He1, He2. rewrite <- Es in Hs1, Hs2. rewrite <- Ee in He1, He2.
  unfold assess. rewrite Hs1, He1. destruct (ac_Disabled item); [done|]. simpl.
  assert (∀ s0, hs_CapacityExhausted (restorePersistedHealth s0 restored) = false
    ∧ hs_ThrottledUntil (restorePersistedHealth s0 restored) = 0) as Hmem.
  { intros s0. unfold restorePersistedHealth. by repeat (case_match; simplify_eq/=). }
  destruct (Hmem (persisted s saved).1) as [-> ->].
  destruct (time_After (hs_SuspendedUntil s) t) eqn:?; [simpl; auto|].
  destruct (time_After (hs_ExhaustedUntil s) t) eqn:?; [simpl; auto|]. simpl. by destruct (time_After 0 t).
Qed.

Definition demo_account : account := {|
  ac_Identity := "i"; ac_Name := "team"; ac_KeySuffix := "alpha1"; ac_Plan := "pro";
  ac_Disabled := false; ac_FiveHourCredits := 12000; ac_WeeklyCredits := 60000;
  ac_ClaudeAuthID := "c"; ac_OpenAIAuthID := "o"; ac_claudeAuthIDs := ["c"];
  ac_key := "key-alpha1"; ac_planExplicit := false; ac_fiveHourCreditsExplicit := false;
  ac_weeklyCreditsExplicit := false |}.

Definition demo_exhausted : accountHealthState :=
  exhaustUntil zero_health (demo_now + hour) "conservative rate-limit cooldown".

Lemma persisted_roundtrip_witness :
  ah_Status (assess demo_exhausted demo_account (demo_now + minute)) = healthExhausted
  ∧ ah_ResetAt (assess (restorePersistedHealth (persisted demo_exhausted demo_now).1
      (demo_now + second)) demo_account (demo_now + minute)) = demo_now + hour.
Proof.
  split; [vm_compute; reflexivity|].
  destruct (persisted_roundtrip demo_exhausted demo_account demo_now (demo_now + second)
    (demo_now + minute)) as [_ Hr].
  - vm_compute. split; discriminate.
  - vm_compute. discriminate.
  - rewrite Hr. vm_compute. reflexivity.
Defined.

(** Capacity is exhausted exactly when one of the two windows is at its
    threshold, and the reset reported then is the latest known reset of the
    exhausted windows, so that the account is not offered again before every
    exhausted window whose reset is known has been reset. *)
Theorem quotaCapacityHealth_reset s v threshold :
  0 <= qw_ResetsAt (qv_FiveHour v) → 0 <= qw_ResetsAt (qv_Weekly v) →
  let s' := quotaCapacityHealth s v threshold in
  let exhausted := filter (λ w, window_exhausted w threshold = true) [qv_FiveHour v; qv_Weekly v] in
  (hs_CapacityExhausted s' = true ↔ exhausted ≠ [])
  ∧ hs_CapacityResetAt s' = foldr (λ w acc, Z.max (qw_ResetsAt w) acc) 0 exhausted
  ∧ (∀ w, w ∈ exhausted → qw_ResetsAt w <= hs_CapacityResetAt s')
  ∧ durable s' = durable s.
Proof.
  intros Hf Hw. cbv zeta. unfold quotaCapacityHealth. rewrite !filter_cons, filter_nil.
  destruct (window_exhausted (qv_FiveHour v) threshold) eqn:?,
    (window_exhausted (qv_Weekly v) threshold) eqn:?; simpl; unfold time_IsZero, time_After.
  all: ltb_cases.
  all: simpl; (split_and!; [done|lia| |done]).
  all: intros w; rewrite ?elem_of_cons, elem_of_nil; intros Hin; destruct_or! Hin; subst;
    try done; lia.
Qed.

Definition demo_view (five week : quotaWindow) : accountQuotaView := {|
  qv_Source := "authoritative"; qv_FiveHour := five; qv_FiveHourError := ""; qv_Weekly := week;
  qv_ObservedAt := demo_now; qv_Stale := false; qv_Warning := ""; qv_CompleteSince := 0;
  qv_DeliveryWarning := false; qv_PersistenceWarning := false; qv_UnknownModelWarning := false;
  qv_DedupCollisionWarn := false |}.
Definition demo_window (consumed reset : Z) : quotaWindow :=
  {| qw_ConsumedMicrocredits := consumed; qw_BucketMicrocredits := 1000; qw_ResetsAt := reset |}.

Lemma quotaCapacityHealth_reset_witness :
  let v := demo_view (demo_window 990 (demo_now + hour)) (demo_window 980 (demo_now + day)) in
  hs_CapacityResetAt (quotaCapacityHealth zero_health v 97) = demo_now + day
  ∧ hs_CapacityExhausted (quotaCapacityHealth zero_health v 97) = true.
Proof.
  cbv zeta. set (v := demo_view _ _).
  destruct (quotaCapacityHealth_reset zero_health v 97) as (He & Hr & _).
  - vm_compute. discriminate.
  - vm_compute. discriminate.
  - split.
    + rewrite Hr. vm_compute. reflexivity.
    + apply He. vm_compute. discriminate.
Defined.

(** An account is healthy exactly when it is enabled and no suspension,
    exhaustion, capacity or throttle holds, and then stays healthy as time
    passes; an account that is not exhausted by capacity nor disabled becomes
    healthy once its deadlines have passed. *)
Theorem assess_recovers s item now later :
  now <= later →
  (ah_Status (assess s item now) = healthHealthy ↔
     ac_Disabled item = false ∧ hs_CapacityExhausted s = false
     ∧ hs_SuspendedUntil s <= now ∧ hs_ExhaustedUntil s <= now ∧ hs_ThrottledUntil s <= now)
  ∧ (ah_Status (assess s item now) = healthHealthy →
     ah_Status (assess s item later) = healthHealthy)
  ∧ (ac_Disabled item = false → hs_CapacityExhausted s = false →
     Z.max (hs_SuspendedUntil s) (Z.max (hs_ExhaustedUntil s) (hs_ThrottledUntil s)) <= later →
     ah_Status (assess s item later) = healthHealthy).
Proof.
  assert (∀ t, ah_Status (assess s item t) = healthHealthy ↔
     ac_Disabled item = false ∧ hs_CapacityExhausted s = false
     ∧ hs_SuspendedUntil s <= t ∧ hs_ExhaustedUntil s <= t ∧ hs_ThrottledUntil s <= t) as H.
  { intros t. unfold assess, time_After. destruct (ac_Disabled item); simpl; [by split; [|intros (? & _)]|].
    destruct (Z.ltb_spec t (hs_SuspendedUntil s)); simpl; [split; [done|lia]|].
    destruct (Z.ltb_spec t (hs_ExhaustedUntil s)); simpl; [split; [done|lia]|].
    destruct (hs_CapacityExhausted s); simpl; [by split; [|intros (_ & ? & _)]|].
    destruct (Z.ltb_spec t (hs_ThrottledUntil s)); simpl; [split; [done|lia]|].
    split; [intros _; by split_and!|done]. }
  intros Hle. split; [apply H|]. rewrite !H. split.
  - intros (? & ? & ? & ? & ?). split_and!; (done || lia).
  - intros ? ? ?. split_and!; (done || lia).
Qed.

Lemma assess_recovers_witness :
  ah_Status (assess demo_exhausted demo_account demo_now) ≠ healthHealthy
  ∧ ah_Status (assess demo_exhausted demo_account (demo_now + hour)) = healthHealthy.
Proof.
  split; [vm_compute; discriminate|].
  apply (assess_recovers demo_exhausted demo_account demo_now (demo_now + hour)).
  - vm_compute. discriminate.
  - reflexivity.
  - reflexivity.
  - vm_compute. discriminate.
Defined.

(** One iteration of the loop of [requestRateBackoff], on its step and delay;
    the loop ends where no iteration is possible. *)
Definition backoff_iteration (streak : Z) (before after : Z * Duration) : Prop :=
  before.1 < streak ∧ before.2 < requestRateBackoffCap
  ∧ after = (before.1 [+] 1, before.2 [*] 2).

(** With [n] as its fuel the loop stops by itself or has run [n] iterations. *)
Lemma backoff_loop_runs n step streak delay :
  ∃ k step', nsteps (backoff_iteration streak) k (step, delay)
               (step', backoff_loop n step streak delay)
  ∧ (k = n ∨ ∀ next, ¬ backoff_iteration streak (step', backoff_loop n step streak delay) next).
Proof.
  revert step delay. induction n as [|n IH]; intros step delay; cbn [backoff_loop].
  { exists 0%nat, step. split; [constructor|by left]. }
  destruct ((step <? streak) && (delay <? requestRateBackoffCap)) eqn:Hg.
  - apply andb_true_iff in Hg as [H1%Z.ltb_lt H2%Z.ltb_lt].
    destruct (IH (step [+] 1) (delay [*] 2)) as (k & step' & Hk & Hend).
    exists (S k), step'. split; [|destruct Hend as [-> |]; [by left|by right]].
    by econstructor.
  - exists 0%nat, step. split; [constructor|]. right. intros next (H1 & H2 & _). cbn in H1, H2.
    apply andb_false_iff in Hg as [Hg%Z.ltb_ge|Hg%Z.ltb_ge]; lia.
Qed.

Lemma backoff_iterations_bounded streak n state :
  nsteps (backoff_iteration streak) n (1, requestRateBackoffBase) state → (n ≤ 4)%nat.
Proof.
  intros Hn. destruct (decide (n ≤ 4)%nat) as [|Hn5]; [done|]. exfalso.
  assert (∃ k, n = (5 + k)%nat) as [k ->] by (exists (n - 5)%nat; lia).
  do 5 (inversion Hn as [|? ? y' ? (? & ? & Hy) Hn']; subst; clear Hn; rename Hn' into Hn).
  match goal with Hc : (_, _).2 < requestRateBackoffCap |- _ => idtac end.
  repeat match goal with Hc : _ < requestRateBackoffCap |- _ => vm_compute in Hc; try done; clear Hc end.
Qed.

(** The doubling loop of the backoff terminates: for every streak, the loop
    without a bound on its iterations runs into a state in which its condition is
    false, every run of it takes at most four iterations, and the delay it stops
    with is the one [requestRateBackoff] uses, which any larger fuel gives too. *)
Theorem requestRateBackoff_terminates streak :
  in_int64 streak →
  let start := (1, requestRateBackoffBase) in
  (∃ step, rtc (backoff_iteration streak) start
             (step, backoff_loop 8 1 streak requestRateBackoffBase)
    ∧ ∀ next, ¬ backoff_iteration streak (step, backoff_loop 8 1 streak requestRateBackoffBase) next)
  ∧ (∀ n state, nsteps (backoff_iteration streak) n start state → (n ≤ 4)%nat)
  ∧ ∀ n, (4 ≤ n)%nat → backoff_loop n 1 streak requestRateBackoffBase
                        = backoff_loop 8 1 streak requestRateBackoffBase.
Proof.
  intros Hs. cbv zeta. split; [|split].
  - destruct (backoff_loop_runs 8 1 streak requestRateBackoffBase) as (k & step & Hk & Hend).
    exists step. split; [by apply rtc_nsteps; exists k|]. destruct Hend as [-> |Hend]; [|exact Hend].
    apply backoff_iterations_bounded in Hk. lia.
  - intros n state. apply backoff_iterations_bounded.
  - intros n Hn. assert (∃ k, n = (4 + k)%nat) as [k ->] by (exists (n - 4)%nat; lia).
    change 8%nat with (4 + 4)%nat. by rewrite !backoff_loop_enough.
Qed.

Lemma requestRateBackoff_terminates_witness :
  backoff_loop 100 1 3 requestRateBackoffBase = backoff_loop 8 1 3 requestRateBackoffBase.
Proof.
  destruct (requestRateBackoff_terminates 3) as (_ & _ & Hn); [by vm_compute|]. apply Hn. lia.
Defined.
