(* ===== verification/Failures.v ===== *)
(** * Rate-limit responses (zai/failures.go)

    Which 429 responses are transient, and the search for a reset hint in the
    headers and the body of a failed request. The JSON decoder and the time
    syntaxes are the library's ([GoStd]). *)

From S2P Require Import Prelude GoStrings GoFloat Host Credits Quota Config Accounts Windows Health.

Definition maxFailureBodyBytes : Z := 16384.
Definition maxResetHintLength : Z := 256.
Definition maxResetHintFuture : Duration := 8 * day.

Definition transientRateLimitCodes : list string := ["1302"; "1305"].

Definition resetHeaderNames : list string :=
  ["Retry-After"; "X-RateLimit-Reset"; "X-Rate-Limit-Reset"; "RateLimit-Reset"].

Definition resetBodyKeys : list string :=
  ["retryafter"; "retryafterms"; "reset"; "resetat"; "resettime"; "nextresettime";
   "ratelimitreset"].

(** [resetKeyReplacer] deletes four characters. *)
Definition reset_separator (c : ascii) : bool :=
  bool_decide (c ∈ ["_"; "-"; "."; " "]%char).

Definition normalizeResetKey (key : string) : string :=
  str (filter (λ c, reset_separator c = false) (chars (ToLower (TrimSpace key)))).

Definition validResetAt (resetAt now : Time) : option Time :=
  if negb (time_After resetAt now) || time_After resetAt (time_Add now maxResetHintFuture)
  then None else Some resetAt.

Definition rateLimitReset (now : Time) (s : accountHealthState) (fallback : Duration)
    : Time * string :=
  if time_After (hs_CapacityResetAt s) now
  then (hs_CapacityResetAt s, "authoritative quota reset")
  else (time_Add now fallback, "conservative rate-limit cooldown").

Section WithStd.
Context `{GoStd}.

Definition parseRetryAfter (raw : string) (now : Time) : option Time :=
  let value := TrimSpace raw in
  if bool_decide (value = "") || (maxResetHintLength <? len value) then None else
  match ParseInt value with
  | Some seconds =>
      if (seconds <=? 0) || (maxResetHintFuture [/] second <? seconds) then None
      else validResetAt (time_Add now (seconds [*] second)) now
  | None =>
      match parse_http_time value with
      | Some parsed => validResetAt parsed now
      | None => None
      end
  end.

Definition parseResetValue (raw key : string) (now : Time) : option Time :=
  let value := TrimSpace raw in
  if bool_decide (value = "") || (maxResetHintLength <? len value) then None else
  match parse_rfc3339 value with
  | Some parsed => validResetAt parsed now
  | None =>
  match ParseInt value with
  | None => None
  | Some integer =>
      if integer <=? 0 then None else
      if bool_decide (key = "retryafter") then parseRetryAfter value now else
      if bool_decide (key = "retryafterms") then
        if maxResetHintFuture [/] millisecond <? integer then None
        else validResetAt (time_Add now (integer [*] millisecond)) now
      else if Contains key "ms" || (1000000000000 <=? integer)
      then validResetAt (time_UnixMilli integer) now
      else if 1000000000 <=? integer then validResetAt (time_Unix integer) now
      else if integer <=? maxResetHintFuture [/] second
      then validResetAt (time_Add now (integer [*] second)) now
      else None
  end end.

Definition parseBodyResetValue (value : any) (key : string) (now : Time) : option Time :=
  match value with
  | ANumber literal => parseResetValue literal key now
  | AFloat64 f => parseResetValue (format_float f) key now
  | AString s => parseResetValue s key now
  | _ => None
  end.

(** The first [Some] of [f] over a list: a loop that returns from its body. *)
Fixpoint first_some {A B} (f : A → option B) (l : list A) : option B :=
  match l with
  | [] => None
  | x :: l' => match f x with Some y => Some y | None => first_some f l' end
  end.

(** The search, with [levels] the number of levels it may still enter: the
    code's [depth] is [7 - levels], and [depth > 6] is [levels = 0]. *)
Fixpoint findResetValue (levels : nat) (value : any) (now : Time) : option (Time * string) :=
  match levels with
  | O => None
  | S levels' =>
      match value with
      | AMap entries =>
          first_some (λ '(key, item),
            let normalized := normalizeResetKey key in
            match (if bool_decide (normalized ∈ resetBodyKeys)
                   then parseBodyResetValue item normalized now else None) with
            | Some resetAt => Some (resetAt, "rate-limit response body")
            | None => findResetValue levels' item now
            end) entries
      | ASlice items => first_some (λ item, findResetValue levels' item now) items
      | _ => None
      end
  end.

Definition transientRateLimit (record : UsageRecord) : bool :=
  let body := uf_Body (ur_Failure record) in
  if negb (uf_StatusCode (ur_Failure record) =? 429) || (len body =? 0)
     || (maxFailureBodyBytes <? len body)
  then false else
  match decode_error_code body with
  | Some (AString s) => bool_decide (TrimSpace s ∈ transientRateLimitCodes)
  | Some (ANumber n) => bool_decide (n ∈ transientRateLimitCodes)
  | _ => false
  end.

(** The hint of one header. *)
Definition header_hint (record : UsageRecord) (now : Time) (name : string)
    : option (Time * string) :=
  first_some (λ value,
    if bool_decide (name = "Retry-After")
    then (λ resetAt, (resetAt, "retry-after header")) <$> parseRetryAfter value now
    else (λ resetAt, (resetAt, ToLower name +:+ " header")) <$> parseResetValue value name now)
    (header_Values (ur_ResponseHeaders record) name).

Definition parseRateLimitHint (record : UsageRecord) (now : Time) : option (Time * string) :=
  match first_some (header_hint record now) resetHeaderNames with
  | Some hint => Some hint
  | None =>
      let body := uf_Body (ur_Failure record) in
      if (len body =? 0) || (maxFailureBodyBytes <? len body) then None else
      match decode_any body with
      | Some value => findResetValue 7 value now
      | None => None
      end
  end.

End WithStd.

(** ** Lemmas *)

Lemma validResetAt_Some r now r' :
  validResetAt r now = Some r' → r' = r ∧ now < r <= now + maxResetHintFuture.
Proof.
  unfold validResetAt, time_After, time_Add. destruct (_ || _) eqn:E; [done|].
  intros [= <-]. crush_bool. lia.
Qed.

Definition hint_ok (now r : Time) : Prop := now < r <= now + maxResetHintFuture.

Lemma validResetAt_ok r now r' : validResetAt r now = Some r' → hint_ok now r'.
Proof. by intros [-> ?]%validResetAt_Some. Qed.

Lemma parseRetryAfter_ok `{GoStd} raw now r : parseRetryAfter raw now = Some r → hint_ok now r.
Proof.
  unfold parseRetryAfter. intros Hp.
  repeat (case_match; try done); by eapply validResetAt_ok.
Qed.

Lemma parseResetValue_ok `{GoStd} raw key now r :
  parseResetValue raw key now = Some r → hint_ok now r.
Proof.
  unfold parseResetValue. intros Hp.
  repeat (case_match; try done);
    first [by eapply validResetAt_ok|by eapply parseRetryAfter_ok].
Qed.

#[export] Hint Resolve validResetAt_ok parseRetryAfter_ok parseResetValue_ok : go.

Lemma parseBodyResetValue_ok `{GoStd} value key now r :
  parseBodyResetValue value key now = Some r → hint_ok now r.
Proof. destruct value; simpl; try done; eauto with go. Qed.

Lemma first_some_Some {A B} (f : A → option B) l y :
  first_some f l = Some y → ∃ x, x ∈ l ∧ f x = Some y.
Proof.
  induction l as [|x l IH]; simpl; [done|]. destruct (f x) as [z|] eqn:Hf.
  - intros [= ->]. exists x. split; [left|done].
  - intros (x' & ? & ?)%IH. exists x'. split; [by right|done].
Qed.

Lemma first_some_None {A B} (f : A → option B) l :
  first_some f l = None ↔ ∀ x, x ∈ l → f x = None.
Proof.
  induction l as [|x l IH]; simpl; [split; [set_solver|done]|]. split.
  - destruct (f x) eqn:Hf; [done|]. rewrite IH. intros Hl y [->|Hy]%elem_of_cons; auto.
  - intros Hall. rewrite (Hall x) by left. apply IH. intros y Hy. apply Hall. by right.
Qed.

(** ** Where a hint may be found in a body

    [entry_at levels value key item]: [item] is the value of an entry named
    [key] of an object reached from [value] by entering at most [levels] levels
    of objects and arrays. *)
Inductive entry_at : nat → any → string → any → Prop :=
| entry_here levels entries key item :
    (key, item) ∈ entries → entry_at (S levels) (AMap entries) key item
| entry_map levels entries key' item' key item :
    (key', item') ∈ entries → entry_at levels item' key item →
    entry_at (S levels) (AMap entries) key item
| entry_slice levels items item' key item :
    item' ∈ items → entry_at levels item' key item →
    entry_at (S levels) (ASlice items) key item.

(** The hint an entry of an allowed name gives. *)
Definition entry_hint `{GoStd} (now : Time) (key : string) (item : any) : option Time :=
  if decide (normalizeResetKey key ∈ resetBodyKeys)
  then parseBodyResetValue item (normalizeResetKey key) now else None.

Lemma findResetValue_some `{GoStd} levels value now r src :
  findResetValue levels value now = Some (r, src) →
  src = "rate-limit response body"
  ∧ ∃ key item, entry_at levels value key item ∧ entry_hint now key item = Some r.
Proof.
  revert value. induction levels as [|levels IH]; intros value Hfind; [done|].
  destruct value as [| | | | |items|entries]; try done; cbn [findResetValue] in Hfind;
    apply first_some_Some in Hfind.
  - destruct Hfind as (item & Hin & Hitem). apply IH in Hitem as (-> & key & it & ? & ?).
    split; [done|]. exists key, it. split; [by econstructor|done].
  - destruct Hfind as ([key item] & Hin & Hitem). cbv beta iota zeta in Hitem.
    destruct (if bool_decide _ then _ else _) as [r'|] eqn:Hhere in Hitem.
    + simplify_eq. split; [done|]. exists key, item. split; [by constructor|].
      unfold entry_hint. case_bool_decide; [by rewrite decide_True|done].
    + apply IH in Hitem as (-> & key' & it & ? & ?). split; [done|].
      exists key', it. split; [by econstructor|done].
Qed.

Lemma findResetValue_none `{GoStd} levels value now key item :
  findResetValue levels value now = None → entry_at levels value key item →
  entry_hint now key item = None.
Proof.
  intros Hnone Hat. revert Hnone.
  induction Hat as [levels entries key item Hin|levels entries key' item' key item Hin Hat IH
    |levels items item' key item Hin Hat IH]; cbn [findResetValue]; rewrite first_some_None;
    intros Hnone.
  - specialize (Hnone _ Hin). cbv beta iota zeta in Hnone. unfold entry_hint.
    destruct (if bool_decide _ then _ else _) eqn:Hhere in Hnone; [done|].
    case_bool_decide; [by rewrite decide_True|by rewrite decide_False].
  - specialize (Hnone _ Hin). cbv beta iota zeta in Hnone.
    destruct (if bool_decide _ then _ else _) in Hnone; [done|auto].
  - specialize (Hnone _ Hin). auto.
Qed.

(** ** Properties *)

(** No response can push an account's reset out of range: every hint taken
    from headers or body, whatever they hold, lies strictly after now and at most
    eight days ahead, and its source names a header or the body. *)
Theorem parseRateLimitHint_range `{GoStd} record now r src :
  parseRateLimitHint record now = Some (r, src) →
  now < r <= now + maxResetHintFuture
  ∧ (src = "retry-after header"
     ∨ src ∈ ["x-ratelimit-reset header"; "x-rate-limit-reset header"; "ratelimit-reset header"]
     ∨ src = "rate-limit response body").
Proof.
  unfold parseRateLimitHint. destruct (first_some _ _) as [hint|] eqn:Hfirst; intros Hp.
  - simplify_eq. apply first_some_Some in Hfirst as (name & Hname & Hfirst).
    apply first_some_Some in Hfirst as (value & _ & Hval).
    unfold resetHeaderNames in Hname. rewrite !elem_of_cons, elem_of_nil in Hname. case_bool_decide as Hra.
    + apply fmap_Some in Hval as (r' & Hr & [= -> ->]).
      split; [by eapply parseRetryAfter_ok|by left].
    + apply fmap_Some in Hval as (r' & Hr & [= -> ->]).
      split; [by eapply parseResetValue_ok|]. right. left.
      destruct Hname as [?|[->|[->|[->|[]]]]]; [done|..]; vm_compute; set_solver.
  - case_match; [done|]. destruct (decode_any _); [|done].
    apply findResetValue_some in Hp as (-> & key & item & _ & Hhint).
    split; [|by right; right]. unfold entry_hint in Hhint. case_decide; [|done].
    by eapply parseBodyResetValue_ok.
Qed.

Definition demo_failed (body : string) (headers : Header) : UsageRecord := {|
  ur_Provider := "claude"; ur_Model := "glm-5.3"; ur_Alias := ""; ur_AuthID := "auth-1";
  ur_RequestedAt := demo_now; ur_Latency := second; ur_Failed := true;
  ur_Failure := {| uf_StatusCode := 429; uf_Body := body |};
  ur_Detail := ur_Detail demo_record; ur_ResponseHeaders := headers |}.

Lemma parseRateLimitHint_range_witness :
  parseRateLimitHint (H := DemoStd.demo_std) (demo_failed "" [("Retry-After", [" 90 "])]) demo_now
    = Some (demo_now + 90 * second, "retry-after header")
  ∧ demo_now < demo_now + 90 * second <= demo_now + maxResetHintFuture.
Proof.
  assert (H : parseRateLimitHint (H := DemoStd.demo_std)
    (demo_failed "" [("Retry-After", [" 90 "])]) demo_now
    = Some (demo_now + 90 * second, "retry-after header")) by (vm_compute; reflexivity).
  split; [exact H|].
  exact (proj1 (parseRateLimitHint_range (H := DemoStd.demo_std) _ _ _ _ H)).
Defined.

(** The body search is exact: whatever order the entries of an object are
    visited in, it finds a hint exactly when some entry of an allowed name, at
    most seven levels deep, has a value that parses to a reset in range; the
    hint returned is that of such an entry. *)
Theorem findResetValue_exact `{GoStd} value now :
  match findResetValue 7 value now with
  | Some (r, src) =>
      ∃ key item, entry_at 7 value key item ∧ entry_hint now key item = Some r
        ∧ now < r <= now + maxResetHintFuture
  | None => ∀ key item, entry_at 7 value key item → entry_hint now key item = None
  end.
Proof.
  destruct (findResetValue 7 value now) as [[r src]|] eqn:Hfind.
  - apply findResetValue_some in Hfind as (_ & key & item & Hat & Hhint).
    exists key, item. split_and!; try done; unfold entry_hint in Hhint;
      (case_decide; [|done]); by eapply parseBodyResetValue_ok.
  - intros key item Hat. by eapply findResetValue_none.
Qed.

(** A response counts as transient exactly when it is a 429 with a body of
    at most 16 KiB whose only JSON value carries one of the two documented codes
    as [error.code]; every other failure takes the conservative path. *)
Theorem transientRateLimit_exact `{GoStd} record :
  transientRateLimit record = true ↔
  uf_StatusCode (ur_Failure record) = 429
  ∧ 0 < len (uf_Body (ur_Failure record)) <= maxFailureBodyBytes
  ∧ ∃ code, code ∈ transientRateLimitCodes
    ∧ (decode_error_code (uf_Body (ur_Failure record)) = Some (ANumber code)
       ∨ ∃ s, TrimSpace s = code
         ∧ decode_error_code (uf_Body (ur_Failure record)) = Some (AString s)).
Proof.
  unfold transientRateLimit. set (body := uf_Body _).
  assert (0 <= len body) by (unfold len; lia).
  destruct (_ || _ || _) eqn:E.
  - split; [done|]. intros (Hs & Hl & _). rewrite Hs, Z.eqb_refl in E. simpl in E.
    crush_bool. destruct E; crush_bool; lia.
  - crush_bool. assert (0 < len body <= maxFailureBodyBytes) by lia. split.
    + intros Hd. split_and!; [done|lia|lia|].
      destruct (decode_error_code body) as [[| |lit| |t| |]|]; try done;
        apply bool_decide_eq_true in Hd.
      * exists lit. auto.
      * exists (TrimSpace t). split; [done|]. right. by exists t.
    + intros (_ & _ & code & Hcode & [->|(s & <- & ->)]); by apply bool_decide_eq_true.
Qed.
