(* ===== verification/SecureStore.v ===== *)
(** * The secure store (securestore/securestore.go, securestore_linux.go)

    A directory of JSON files that is read and changed one file at a time. A
    file is its decoded value (the type [C]): the store writes the encoding of a
    value and decodes exactly one value when it reads, so that a file either
    holds the value written or is corrupt; [decodes] of the client says which
    values it accepts. A change is a rename or an unlink, atomic for readers and
    durable once the directory is synchronised. After a crash any part of the
    changes that were not synchronised may be lost, in any combination. Every
    system call may fail. Permissions, symbolic links and path components are
    among the checks whose failure is a fault before any change. *)

From S2P Require Import Prelude GoStrings.

Definition maxFileSize : Z := 8388608.

(** [OutcomeOf]: what [errors.As] finds along the wrapping. *)
Fixpoint OutcomeOf (e : error) : WriteOutcome :=
  match e with
  | EWrite o _ => o
  | EWrap _ inner | EPending inner => OutcomeOf inner
  | _ => WriteNotCommitted
  end.

(** [filepath.Base(name) == name], and neither empty nor a dot. *)
Definition valid_name (name : string) : bool :=
  negb (bool_decide (name = "")) && negb (bool_decide (name = "."))
  && negb (bool_decide ("/"%char ∈ chars name)).

(** Where a call fails: before it changes anything, when the directory is
    synchronised, or in the final check of the directory. *)
Inductive fault :=
| FNone
| FBefore (msg : string)
| FSync (msg : string)
| FAfter (msg : string).

Section Store.
Context {C : Type}.

Inductive change :=
| Put (name : string) (c : C)
| Del (name : string).

Definition apply_change (m : gmap string C) (ch : change) : gmap string C :=
  match ch with Put name c => <[name := c]> m | Del name => delete name m end.

Definition apply_changes : gmap string C → list change → gmap string C := foldl apply_change.

(** The store: the directory as it was last synchronised, the changes since,
    and whether the store is closed. *)
Record Store := {
  st_durable : gmap string C;
  st_pending : list change;
  st_closed : bool;
}.

(** What a reader sees. *)
Definition contents (s : Store) : gmap string C := apply_changes (st_durable s) (st_pending s).

Definition syncDir (s : Store) : Store :=
  {| st_durable := contents s; st_pending := []; st_closed := st_closed s |}.

Definition push (ch : change) (s : Store) : Store :=
  {| st_durable := st_durable s; st_pending := st_pending s ++ [ch]; st_closed := st_closed s |}.

(** What a crash may leave: the synchronised directory and any part of the
    changes made since. *)
Definition crashed (s : Store) (m : gmap string C) : Prop :=
  ∃ kept, kept `sublist_of` st_pending s ∧ m = apply_changes (st_durable s) kept.

(** A store opened on a directory. *)
Definition New (m : gmap string C) : Store :=
  {| st_durable := m; st_pending := []; st_closed := false |}.

Definition sync_error (msg : string) : error :=
  EWrite WriteNeedsRecovery (EWrap "sync secure store directory: " (EText msg)).

(** [securePathLocked] *)
Definition checked {A} (s : Store) (name : string) (call : res A * Store) : res A * Store :=
  if st_closed s then (errorf "secure store is not initialized", s)
  else if negb (valid_name name) then (errorf "invalid store file name", s) else call.

Definition WriteJSON (name : string) (value : C) (f : fault) (s : Store) : res unit * Store :=
  checked s name
    match f with
    | FBefore msg => (errorf msg, s)
    | FNone => (Ok (), syncDir (push (Put name value) s))
    | FSync msg => (Err (sync_error msg), push (Put name value) s)
    | FAfter msg => (errorf msg, syncDir (push (Put name value) s))
    end.

Definition RemoveJSON (name : string) (f : fault) (s : Store) : res unit * Store :=
  checked s name
    match f, contents s !! name with
    | FBefore msg, _ => (errorf msg, s)
    | FAfter msg, None => (errorf msg, s)
    | _, None => (Ok (), s)
    | FNone, Some _ => (Ok (), syncDir (push (Del name) s))
    | FSync msg, Some _ => (Err (sync_error msg), push (Del name) s)
    | FAfter msg, Some _ => (errorf msg, syncDir (push (Del name) s))
    end.

(** [None] when the file does not exist. *)
Definition ReadJSONIfExists (name : string) (f : fault) (s : Store) : res (option C) * Store :=
  checked s name
    match f with
    | FNone => (Ok (contents s !! name), s)
    | FBefore msg | FSync msg | FAfter msg => (errorf msg, s)
    end.

Definition Flush (f : fault) (s : Store) : res unit * Store :=
  if st_closed s then (errorf "secure store is not initialized", s) else
  match f with
  | FNone => (Ok (), syncDir s)
  | FBefore msg | FSync msg | FAfter msg => (errorf msg, s)
  end.

Definition Close (s : Store) : Store :=
  {| st_durable := st_durable s; st_pending := st_pending s; st_closed := true |}.

(** ** Programs over a store

    A program is a tree of store calls; each call consumes one fault. *)
Inductive prog (A : Type) :=
| Ret (a : A)
| PRead (name : string) (k : res (option C) → prog A)
| PWrite (name : string) (value : C) (k : res unit → prog A)
| PRemove (name : string) (k : res unit → prog A)
| PFlush (k : res unit → prog A).
Arguments Ret {A} a.
Arguments PRead {A} name k.
Arguments PWrite {A} name value k.
Arguments PRemove {A} name k.
Arguments PFlush {A} k.

(** One call. *)
Definition step {A} (f : fault) (ps : prog A * Store) : option (prog A * Store) :=
  match ps.1 with
  | Ret _ => None
  | PRead name k => let '(r, s) := ReadJSONIfExists name f ps.2 in Some (k r, s)
  | PWrite name value k => let '(r, s) := WriteJSON name value f ps.2 in Some (k r, s)
  | PRemove name k => let '(r, s) := RemoveJSON name f ps.2 in Some (k r, s)
  | PFlush k => let '(r, s) := Flush f ps.2 in Some (k r, s)
  end.

Definition pstep {A} (ps ps' : prog A * Store) : Prop := ∃ f, step f ps = Some ps'.

(** A run: the faults in the order of the calls, none after the last one given. *)
Fixpoint run {A} (faults : list fault) (p : prog A) (s : Store) : A * Store :=
  match p with
  | Ret a => (a, s)
  | PRead name k =>
      let '(r, s) := ReadJSONIfExists name (default FNone (head faults)) s in
      run (tail faults) (k r) s
  | PWrite name value k =>
      let '(r, s) := WriteJSON name value (default FNone (head faults)) s in
      run (tail faults) (k r) s
  | PRemove name k =>
      let '(r, s) := RemoveJSON name (default FNone (head faults)) s in
      run (tail faults) (k r) s
  | PFlush k =>
      let '(r, s) := Flush (default FNone (head faults)) s in run (tail faults) (k r) s
  end.

(** ** Reasoning about programs and crashes

    [wp I Q p s]: run from [s] with any faults, [p] keeps the crash condition
    [I] at every point and ends in a result and a store that satisfy [Q]. *)
Fixpoint wp {A} (I : Store → Prop) (Q : A → Store → Prop) (p : prog A) (s : Store) : Prop :=
  I s ∧
  match p with
  | Ret a => Q a s
  | PRead name k => ∀ f, let '(r, s') := ReadJSONIfExists name f s in wp I Q (k r) s'
  | PWrite name value k => ∀ f, let '(r, s') := WriteJSON name value f s in wp I Q (k r) s'
  | PRemove name k => ∀ f, let '(r, s') := RemoveJSON name f s in wp I Q (k r) s'
  | PFlush k => ∀ f, let '(r, s') := Flush f s in wp I Q (k r) s'
  end.

Lemma wp_step {A} I Q (p : prog A) s f p' s' :
  wp I Q p s → step f (p, s) = Some (p', s') → wp I Q p' s'.
Proof.
  unfold step. destruct p; simpl; [done|..]; intros [_ Hwp] Hstep; specialize (Hwp f);
    by match type of Hwp with context [match ?call with _ => _ end] =>
      destruct call; simplify_eq end.
Qed.

(** Whatever happens, at every point reached the crash condition holds, and a
    finished program satisfies its postcondition. *)
Lemma wp_adequate {A} I Q (p : prog A) s p' s' :
  wp I Q p s → rtc pstep (p, s) (p', s') →
  I s' ∧ ∀ a, p' = Ret a → Q a s'.
Proof.
  intros Hwp Hsteps. remember (p, s) as ps eqn:Hps. remember (p', s') as ps' eqn:Hps'.
  revert p s p' s' Hwp Hps Hps'.
  induction Hsteps as [ps|ps [p1 s1] ps' [f Hstep] _ IH]; intros p s p' s' Hwp -> Heq.
  - simplify_eq. destruct p'; simpl in Hwp; (split; [tauto|]); intros; simplify_eq; tauto.
  - eapply IH; [by eapply wp_step|done|done].
Qed.

(** The executable run is one of the step sequences. *)
Lemma run_steps {A} faults (p : prog A) s :
  rtc pstep (p, s) (Ret (run faults p s).1, (run faults p s).2).
Proof.
  revert faults s. induction p as [a|name k IH|name value k IH|name k IH|k IH];
    intros faults s; simpl; [done|..];
    match goal with |- context [match ?call with _ => _ end] =>
      destruct call as [r s'] eqn:Hcall end;
    (eapply rtc_l; [exists (default FNone (head faults)); unfold step; simpl; by rewrite Hcall|];
     apply IH).
Qed.

Lemma wp_run {A} I Q (p : prog A) s faults :
  wp I Q p s → I (run faults p s).2 ∧ Q (run faults p s).1 (run faults p s).2.
Proof.
  intros Hwp. destruct (wp_adequate _ _ _ _ _ _ Hwp (run_steps faults p s)). eauto.
Qed.

(** ** Crashes *)

Lemma crashed_New m : crashed (New m) m.
Proof. by exists []. Qed.

Lemma crashed_sync s m : crashed (syncDir s) m ↔ m = contents s.
Proof.
  split.
  - intros (kept & Hk & ->). simpl in *. by apply sublist_nil_r in Hk as ->.
  - intros ->. by exists [].
Qed.

Lemma contents_push ch s : contents (push ch s) = apply_change (contents s) ch.
Proof. unfold contents, push, apply_changes. simpl. by rewrite foldl_snoc. Qed.

(** A crash after one more change: with or without it. *)
Lemma crashed_push ch s m :
  crashed (push ch s) m ↔ crashed s m ∨ ∃ m0, crashed s m0 ∧ m = apply_change m0 ch.
Proof.
  unfold crashed, push, apply_changes. simpl. split.
  - intros (kept & Hk & ->). apply sublist_app_r in Hk as (k1 & k2 & -> & Hk1 & Hk2).
    rewrite sublist_cons_r in Hk2. destruct Hk2 as [->%sublist_nil_r|(k3 & -> & ->%sublist_nil_r)].
    + left. exists k1. by rewrite app_nil_r.
    + right. rewrite foldl_snoc. eauto.
  - intros [(kept & Hk & ->)|(m0 & (kept & Hk & ->) & ->)].
    + exists kept. split; [by apply sublist_inserts_r|done].
    + exists (kept ++ [ch]). split; [by apply sublist_app|]. by rewrite foldl_snoc.
Qed.

Lemma crashed_contents s : crashed s (contents s).
Proof. by exists (st_pending s). Qed.

(** *** Proof rules

    [crashing P Pc s]: the store is open, every crash leaves a directory in [P],
    and the directory as readers see it is in [Pc]. *)
Record crashing (P Pc : gmap string C → Prop) (s : Store) : Prop := {
  cr_open : st_closed s = false;
  cr_crash m : crashed s m → P m;
  cr_now : Pc (contents s);
}.

Lemma crashing_weaken (P Pc P' Pc' : gmap string C → Prop) s :
  crashing P Pc s → (∀ m, P m → P' m) → (∀ m, Pc m → Pc' m) → crashing P' Pc' s.
Proof. intros [? ? ?] ? ?. split; auto. Qed.

Lemma crashing_sync P Pc s : crashing P Pc s → crashing Pc Pc (syncDir s).
Proof.
  intros [Ho _ Hn]. split; [done| |done]. by intros m ->%crashed_sync.
Qed.

Lemma crashing_push (P Pc P' Pc' : gmap string C → Prop) ch s :
  crashing P Pc s →
  (∀ m, P m → P' m ∧ P' (apply_change m ch)) → (∀ m, Pc m → Pc' (apply_change m ch)) →
  crashing P' Pc' (push ch s).
Proof.
  intros [Ho Hc Hn] HP HPc. split; [done| |].
  - intros m [Hm|(m0 & Hm & ->)]%crashed_push; naive_solver.
  - rewrite contents_push. auto.
Qed.

Lemma crashing_New (P : gmap string C → Prop) m : P m → crashing P P (New m).
Proof. intros Hm. split; [done| |done]. by intros m' (kept & ->%sublist_nil_r & ->). Qed.

(** The crash condition [I] is a condition on the directory. *)
Definition always (Ip : gmap string C → Prop) (s : Store) : Prop := ∀ m, crashed s m → Ip m.

Lemma crashing_always (P Pc Ip : gmap string C → Prop) s :
  crashing P Pc s → (∀ m, P m → Ip m) → always Ip s.
Proof. intros [_ Hc _] HP m Hm. auto. Qed.

Section Rules.
Context {A : Type} (Ip : gmap string C → Prop) (Q : A → Store → Prop).

Lemma wp_ret P Pc a s :
  crashing P Pc s → (∀ m, P m → Ip m) → Q a s → wp (always Ip) Q (Ret a) s.
Proof. intros Hs HI HQ. split; [by eapply crashing_always|done]. Qed.

Lemma wp_read P Pc name k s :
  valid_name name = true → crashing P Pc s → (∀ m, P m → Ip m) →
  (∀ msg, wp (always Ip) Q (k (errorf msg)) s) →
  wp (always Ip) Q (k (Ok (contents s !! name))) s →
  wp (always Ip) Q (PRead name k) s.
Proof.
  intros Hname Hs HI He Hk. split; [by eapply crashing_always|].
  intros f. unfold ReadJSONIfExists, checked. rewrite (cr_open _ _ _ Hs), Hname. simpl.
  by destruct f.
Qed.

Lemma wp_write P Pc P' Pc' name value k s :
  valid_name name = true → crashing P Pc s → (∀ m, P m → Ip m) →
  (∀ m, P m → P' m ∧ P' (<[name := value]> m)) → (∀ m, Pc m → Pc' (<[name := value]> m)) →
  (∀ msg, wp (always Ip) Q (k (errorf msg)) s) →
  (∀ msg s', crashing P' Pc' s' → wp (always Ip) Q (k (Err (sync_error msg))) s') →
  (∀ r s', crashing Pc' Pc' s' → (r = Ok () ∨ ∃ msg, r = errorf msg) →
     wp (always Ip) Q (k r) s') →
  wp (always Ip) Q (PWrite name value k) s.
Proof.
  intros Hname Hs HI HP HPc Hbefore Hsync Hdone. split; [by eapply crashing_always|].
  assert (crashing P' Pc' (push (Put name value) s)) as Hpush by by eapply crashing_push.
  intros f. unfold WriteJSON, checked. rewrite (cr_open _ _ _ Hs), Hname. simpl.
  destruct f; eauto using crashing_sync.
Qed.

Lemma wp_remove P Pc P' Pc' name k s :
  valid_name name = true → crashing P Pc s → (∀ m, P m → Ip m) →
  (∀ m, P m → P' m ∧ P' (delete name m)) → (∀ m, Pc m → Pc' m ∧ Pc' (delete name m)) →
  (∀ r s', crashing P' Pc' s' → wp (always Ip) Q (k r) s') →
  (∀ m, Pc' m → P' m) →
  wp (always Ip) Q (PRemove name k) s.
Proof.
  intros Hname Hs HI HP HPc Hk HPc'. split; [by eapply crashing_always|].
  assert (crashing P' Pc' s) as Hs'.
  { eapply crashing_weaken; [done|intros m Hm; by apply HP|intros m Hm; by apply HPc]. }
  assert (crashing P' Pc' (push (Del name) s)) as Hpush.
  { apply (crashing_push P Pc); [done|done|]. intros m Hm. by apply HPc. }
  assert (crashing P' Pc' (syncDir (push (Del name) s))) as Hsync.
  { eapply crashing_weaken; [by eapply crashing_sync|done|done]. }
  intros f. unfold RemoveJSON, checked. rewrite (cr_open _ _ _ Hs), Hname. simpl.
  destruct f, (contents s !! name); auto.
Qed.

Lemma wp_flush P Pc k s :
  crashing P Pc s → (∀ m, P m → Ip m) →
  (∀ msg, wp (always Ip) Q (k (errorf msg)) s) →
  (∀ s', crashing Pc Pc s' → wp (always Ip) Q (k (Ok ())) s') →
  wp (always Ip) Q (PFlush k) s.
Proof.
  intros Hs HI He Hk. split; [by eapply crashing_always|].
  intros f. unfold Flush. rewrite (cr_open _ _ _ Hs). simpl.
  destruct f; auto. by eapply Hk, crashing_sync.
Qed.

End Rules.

(** Single calls of a run on an open store. *)
Lemma run_read {A} name (k : res (option C) → prog A) fs s :
  st_closed s = false → valid_name name = true →
  run (FNone :: fs) (PRead name k) s = run fs (k (Ok (contents s !! name))) s.
Proof. intros Ho Hn. simpl. unfold ReadJSONIfExists, checked. by rewrite Ho, Hn. Qed.

Lemma run_write {A} name c (k : res unit → prog A) fs s :
  st_closed s = false → valid_name name = true →
  run (FNone :: fs) (PWrite name c k) s = run fs (k (Ok ())) (syncDir (push (Put name c) s)).
Proof. intros Ho Hn. simpl. unfold WriteJSON, checked. by rewrite Ho, Hn. Qed.

Lemma run_write_sync {A} name c (k : res unit → prog A) msg fs s :
  st_closed s = false → valid_name name = true →
  run (FSync msg :: fs) (PWrite name c k) s
  = run fs (k (Err (sync_error msg))) (push (Put name c) s).
Proof. intros Ho Hn. simpl. unfold WriteJSON, checked. by rewrite Ho, Hn. Qed.

Lemma run_remove_before {A} name (k : res unit → prog A) msg fs s :
  st_closed s = false → valid_name name = true →
  run (FBefore msg :: fs) (PRemove name k) s = run fs (k (errorf msg)) s.
Proof. intros Ho Hn. simpl. unfold RemoveJSON, checked. by rewrite Ho, Hn. Qed.

Lemma run_remove_sync {A} name c (k : res unit → prog A) msg fs s :
  st_closed s = false → valid_name name = true → contents s !! name = Some c →
  run (FSync msg :: fs) (PRemove name k) s = run fs (k (Err (sync_error msg))) (push (Del name) s).
Proof. intros Ho Hn Hc. simpl. unfold RemoveJSON, checked. by rewrite Ho, Hn, Hc. Qed.

End Store.

Arguments change : clear implicits.
Arguments Store : clear implicits.
Arguments prog : clear implicits.
Arguments Ret {C A} a.
Arguments PRead {C A} name k.
Arguments PWrite {C A} name value k.
Arguments PRemove {C A} name k.
Arguments PFlush {C A} k.
#[global] Arguments wp {C A} I Q p s : simpl never.
