(* ===== verification/SecureDir.v ===== *)
(** * The secure store over system calls (securestore/securestore.go, securestore_linux.go)

    How the store reads, writes and removes a file: the checks of the directory and
    of the target, the temporary file, its synchronisation, the rename and the
    synchronisation of the directory, each of which may fail, over a directory whose
    unsynchronised changes and unsynchronised file contents a crash can lose. The
    theorems show that this implements the contract of [SecureStore]. *)

From S2P Require Import Prelude GoStrings SecureStore.

(** ** The directory

    A file is an inode; [in_synced] says whether its data would survive a crash.
    Entries of the directory change by a creation, a rename or an unlink; those since
    the last synchronisation are pending. The inodes are numbered in creation order. *)

Inductive file_kind := KRegular | KSymlink | KOther.

#[global] Instance file_kind_eq_dec : EqDecision file_kind.
Proof. solve_decision. Defined.

Record inode := {
  in_kind : file_kind;
  in_perm : Z;
  in_data : string;
  in_synced : bool;
}.

Inductive entry_change :=
| EntryCreate (name : string) (ino : nat)
| EntryMove (from to : string) (ino : nat)
| EntryUnlink (name : string).

Record secureDir := {
  sd_inodes : list inode;
  sd_durable : gmap string nat;
  sd_pending : list entry_change;
  sd_closed : bool;
}.

Definition entry_apply (m : gmap string nat) (ch : entry_change) : gmap string nat :=
  match ch with
  | EntryCreate name ino => <[name := ino]> m
  | EntryMove from to ino => <[to := ino]> (delete from m)
  | EntryUnlink name => delete name m
  end.

(** What a call on the open directory sees. *)
Definition entries (d : secureDir) : gmap string nat :=
  foldl entry_apply (sd_durable d) (sd_pending d).

Definition file_at (d : secureDir) (name : string) : option inode :=
  ino ← entries d !! name; sd_inodes d !! ino.

Definition push_entry (ch : entry_change) (d : secureDir) : secureDir :=
  {| sd_inodes := sd_inodes d; sd_durable := sd_durable d; sd_pending := sd_pending d ++ [ch];
     sd_closed := sd_closed d |}.

Definition set_inodes (inodes : list inode) (d : secureDir) : secureDir :=
  {| sd_inodes := inodes; sd_durable := sd_durable d; sd_pending := sd_pending d;
     sd_closed := sd_closed d |}.

(** ** System calls

    A call gives its result and the directory after it. What fails for a reason
    outside the directory is an [answer]. *)

Abbreviation answer := (option string) (only parsing).

Inductive errno := ENOENT | EEXIST | EFault (msg : string).

Definition errno_error (e : errno) : error :=
  EText match e with
        | ENOENT => "no such file or directory" | EEXIST => "file exists" | EFault msg => msg
        end.

(** A computation over the directory, with the directories it passed through: a
    crash can happen in any of them. *)
Definition IO (A : Type) : Type := secureDir → A * secureDir * list secureDir.

Definition io_ret {A} (a : A) : IO A := λ d, (a, d, []).

Definition io_bind {A B} (m : IO A) (f : A → IO B) : IO B := λ d,
  let '(a, d1, trace1) := m d in
  let '(b, d2, trace2) := f a d1 in
  (b, d2, trace1 ++ trace2).

(** The early return on an error. *)
Definition io_try {A B} (m : IO (res A)) (f : A → IO (res B)) : IO (res B) :=
  io_bind m (λ r, match r with Ok a => f a | Err e => io_ret (Err e) end).

Definition io_pure {A} (r : secureDir → A) : IO A := λ d, (r d, d, []).

Definition io_sys {A} (a : A) (f : secureDir → secureDir) : IO A := λ d, (a, f d, [f d]).

Notation "x ⟵ m ; f" := (io_bind m (λ x, f)) (at level 100, m at next level, right associativity).
Notation "x ⟸ m ; f" := (io_try m (λ x, f)) (at level 100, m at next level, right associativity).

(** [unix.Fstatat] without following links *)
Definition fstatat (a : answer) (name : string) (d : secureDir) : inode + errno :=
  match a, file_at d name with
  | Some msg, _ => inr (EFault msg)
  | None, Some f => inl f
  | None, None => inr ENOENT
  end.

(** [unix.Openat] with [O_CREAT|O_EXCL] *)
Definition create_excl (a : answer) (name : string) : IO (nat + errno) := λ d,
  match a with
  | Some msg => io_ret (inr (EFault msg)) d
  | None =>
      match entries d !! name with
      | Some _ => io_ret (inr EEXIST) d
      | None =>
          let ino := length (sd_inodes d) in
          let file := {| in_kind := KRegular; in_perm := 384; in_data := ""; in_synced := false |} in
          io_sys (inl ino)
            (λ d, push_entry (EntryCreate name ino) (set_inodes (sd_inodes d ++ [file]) d)) d
      end
  end.

Definition set_data (ino : nat) (data : string) (d : secureDir) : secureDir :=
  set_inodes (alter (λ f, {| in_kind := in_kind f; in_perm := in_perm f; in_data := data;
                             in_synced := false |}) ino (sd_inodes d)) d.

Definition set_synced (ino : nat) (d : secureDir) : secureDir :=
  set_inodes (alter (λ f, {| in_kind := in_kind f; in_perm := in_perm f; in_data := in_data f;
                             in_synced := true |}) ino (sd_inodes d)) d.

(** A write that fails may have written a part. *)
Definition write_file (a : option (nat * string)) (ino : nat) (data : string) : IO (res unit) :=
  match a with
  | None => io_sys (Ok ()) (set_data ino data)
  | Some (n, msg) => io_sys (errorf msg) (set_data ino (prefix_bytes n data))
  end.

Definition fsync_file (a : answer) (ino : nat) : IO (res unit) :=
  match a with None => io_sys (Ok ()) (set_synced ino) | Some msg => io_ret (errorf msg) end.

Definition close_file (a : answer) : IO (res unit) :=
  io_ret match a with None => Ok () | Some msg => errorf msg end.

Definition renameat (a : answer) (from to : string) : IO (res unit) := λ d,
  match a, entries d !! from with
  | Some msg, _ => io_ret (errorf msg) d
  | None, None => io_ret (Err (errno_error ENOENT)) d
  | None, Some ino => io_sys (Ok ()) (push_entry (EntryMove from to ino)) d
  end.

Definition unlinkat (a : answer) (name : string) : IO (unit + errno) := λ d,
  match a, entries d !! name with
  | Some msg, _ => io_ret (inr (EFault msg)) d
  | None, None => io_ret (inr ENOENT) d
  | None, Some _ => io_sys (inl ()) (push_entry (EntryUnlink name)) d
  end.

Definition sync_entries (d : secureDir) : secureDir :=
  {| sd_inodes := sd_inodes d; sd_durable := entries d; sd_pending := []; sd_closed := sd_closed d |}.

(** [syncDirLocked] *)
Definition syncDirLocked (a : answer) : IO (res unit) :=
  match a with None => io_sys (Ok ()) sync_entries | Some msg => io_ret (errorf msg) end.

(** ** The checks of the directory *)

Record file_info := { fi_symlink : bool; fi_dir : bool; fi_perm : Z }.

Inductive lstat_result := LFound (info : file_info) | LMissing | LFailed (msg : string).

(** What the host answers about the path of the store, its components from the
    last to the first, and about the opened directory: an answer, or the message
    of a failure. *)
Record path_view := {
  pv_dir : list string;
  pv_lstat : list string → lstat_result;
  pv_eval : list string → list string + string;
  pv_handle : file_info + string;
  pv_same : bool;
}.

Fixpoint RejectSymlinkPathComponents (v : path_view) (clean : list string) : res unit :=
  match pv_lstat v clean with
  | LFound _ =>
      match pv_eval v clean with
      | inr msg => Err (EWrap "inspect secure store parent: " (EText msg))
      | inl resolved =>
          if bool_decide (resolved = clean) then Ok ()
          else errorf "secure store parent contains a symlink"
      end
  | LFailed msg => Err (EWrap "inspect secure store parent: " (EText msg))
  | LMissing => match clean with [] => Ok () | _ :: parent => RejectSymlinkPathComponents v parent end
  end.

Definition validateDirectoryLocked (v : path_view) (d : secureDir) : res unit :=
  if sd_closed d then errorf "secure store is not initialized" else
  match pv_lstat v (pv_dir v) with
  | LMissing => Err (EWrap "inspect secure store directory: " (errno_error ENOENT))
  | LFailed msg => Err (EWrap "inspect secure store directory: " (EText msg))
  | LFound path =>
      match pv_handle v with
      | inr msg => Err (EWrap "inspect opened secure store directory: " (EText msg))
      | inl handle =>
          if fi_symlink path || negb (fi_dir path) || negb (fi_dir handle)
          then errorf "secure store path is not a directory" else
          if negb (fi_perm path =? 448) || negb (fi_perm handle =? 448)
          then errorf "secure store directory has insecure permissions" else
          if negb (pv_same v) then errorf "secure store directory was replaced" else
          RejectSymlinkPathComponents v (tail (pv_dir v))
      end
  end.

(** [ensureSecureDirectory], with what the two changing calls answer. *)
Definition ensureSecureDirectory (v : path_view) (mkdir chmod : answer) : res unit :=
  _ ← RejectSymlinkPathComponents v (tail (pv_dir v));
  _ ← match pv_lstat v (pv_dir v) with
      | LFound info =>
          if fi_symlink info || negb (fi_dir info)
          then errorf "secure store path is not a directory" else Ok ()
      | LMissing => Ok ()
      | LFailed msg => Err (EWrap "inspect secure store directory: " (EText msg))
      end;
  match mkdir, chmod with
  | Some msg, _ => Err (EWrap "create secure store directory: " (EText msg))
  | None, Some msg => Err (EWrap "chmod secure store directory: " (EText msg))
  | None, None => Ok ()
  end.

(** ** Reading *)

(** [securePathLocked] *)
Definition securePathLocked (name : string) (d : secureDir) : res unit :=
  if sd_closed d then errorf "secure store is not initialized"
  else if negb (valid_name name) then errorf "invalid store file name" else Ok ().

Definition file_error {A} (what name : string) (e : error) : res A :=
  Err (EWrap (what +:+ " " +:+ name +:+ ": ") e).

(** [openFileAt]: [O_NOFOLLOW] refuses a symbolic link. *)
Definition openFileAt (a : answer) (name : string) (d : secureDir) : inode + errno :=
  match fstatat a name d with
  | inl f => if bool_decide (in_kind f = KSymlink) then inr (EFault "too many levels of symbolic links")
             else inl f
  | inr e => inr e
  end.

Record read_answers := {
  ra_view : path_view;
  ra_open : answer;
  ra_stat : answer;
  ra_read : answer;
}.

Section Store.
Context {C : Type} (json_Marshal : C → string + string).
(** One value and nothing after it, without unknown fields, of the type the caller
    reads the file as, which is a function of the file's name. *)
Context (json_Decode : string → string → option C).

Definition ReadJSONIfExists (a : read_answers) (name : string) (d : secureDir) : res (option C) :=
  _ ← securePathLocked name d;
  _ ← validateDirectoryLocked (ra_view a) d;
  match openFileAt (ra_open a) name d with
  | inr ENOENT => Ok None
  | inr e => file_error "open" name (errno_error e)
  | inl f =>
      match ra_stat a with
      | Some msg => file_error "stat" name (EText msg)
      | None =>
          if negb (bool_decide (in_kind f = KRegular)) then errorf (name +:+ " is not a regular file") else
          if negb (in_perm f =? 384) then errorf (name +:+ " has insecure permissions") else
          if maxFileSize <? len (in_data f) then errorf (name +:+ " exceeds maximum size") else
          match ra_read a with
          | Some msg => file_error "read" name (EText msg)
          | None =>
              if len (in_data f) =? 0 then errorf ("decode " +:+ name +:+ ": empty file") else
              match json_Decode name (in_data f) with
              | None => errorf ("decode " +:+ name +:+ ": corrupt state")
              | Some c => Ok (Some c)
              end
          end
      end
  end.

(** ** Writing *)

Definition rejectExistingTargetAt (a : answer) (name : string) (d : secureDir) : res unit :=
  match fstatat a name d with
  | inr ENOENT => Ok ()
  | inr e => Err (EWrap "inspect target: " (errno_error e))
  | inl f =>
      match in_kind f with
      | KRegular => Ok ()
      | KSymlink => errorf "refusing symlink target"
      | KOther => errorf "target is not a regular file"
      end
  end.

(** The loop of [createTempAt]: the random suffix of each attempt in hexadecimal,
    or the failure to draw it, and what its creation is answered. *)
Fixpoint create_temp (attempt : nat → (string + string) * answer) (n left : nat) (name : string)
    : IO (res (string * nat)) :=
  match left with
  | O => io_ret (errorf ("create temporary " +:+ name +:+ ": name collision"))
  | S left' =>
      match (attempt n).1 with
      | inr msg => io_ret (Err (EWrap ("generate temporary " +:+ name +:+ " name: ") (EText msg)))
      | inl suffix =>
          let tempName := "." +:+ name +:+ ".tmp-" +:+ suffix in
          r ⟵ create_excl (attempt n).2 tempName;
          match r with
          | inl ino => io_ret (Ok (tempName, ino))
          | inr EEXIST => create_temp attempt (S n) left' name
          | inr e => io_ret (file_error "create temporary" name (errno_error e))
          end
      end
  end.

Definition createTempAt (attempt : nat → (string + string) * answer) (name : string)
    : IO (res (string * nat)) := create_temp attempt 0 100 name.

Record write_answers := {
  wa_before : path_view;
  wa_inspect : answer;
  wa_attempt : nat → (string + string) * answer;
  wa_write : option (nat * string);
  wa_sync : answer;
  wa_close : answer;
  wa_reinspect : answer;
  wa_rename : answer;
  wa_unlink : answer;
  wa_syncDir : answer;
  wa_after : path_view;
}.

Definition named {A} (what name : string) (m : IO (res A)) : IO (res A) :=
  r ⟵ m; io_ret (match r with Ok x => Ok x | Err e => file_error what name e end).

(** The temporary file, from its first byte to its rename. *)
Definition replace_target (a : write_answers) (name tempName : string) (ino : nat) (data : string)
    : IO (res unit) :=
  _ ⟸ named "write temporary" name (write_file (wa_write a) ino data);
  _ ⟸ named "sync temporary" name (fsync_file (wa_sync a) ino);
  _ ⟸ named "close temporary" name (close_file (wa_close a));
  _ ⟸ io_pure (rejectExistingTargetAt (wa_reinspect a) name);
  named "replace" name (renameat (wa_rename a) tempName name).

Definition sync_after (a : answer) : IO (res unit) :=
  r ⟵ syncDirLocked a;
  io_ret (match r with
          | Ok _ => Ok ()
          | Err e => Err (EWrite WriteNeedsRecovery (EWrap "sync secure store directory: " e))
          end).

(** The deferred function removes the temporary file of a write that was not
    committed and ignores what that is answered. *)
Definition writeJSONAt (a : write_answers) (name data : string) : IO (res unit) :=
  _ ⟸ io_pure (rejectExistingTargetAt (wa_inspect a) name);
  temp ⟸ createTempAt (wa_attempt a) name;
  r ⟵ replace_target a name temp.1 temp.2 data;
  match r with
  | Err e => _ ⟵ unlinkat (wa_unlink a) temp.1; io_ret (Err e)
  | Ok _ => sync_after (wa_syncDir a)
  end.

Definition newline : string := str ["010"%char].

Definition WriteJSON (a : write_answers) (name : string) (value : C) : IO (res unit) :=
  _ ⟸ io_pure (securePathLocked name);
  _ ⟸ io_pure (validateDirectoryLocked (wa_before a));
  match json_Marshal value with
  | inr msg => io_ret (file_error "encode" name (EText msg))
  | inl text =>
      let data := text +:+ newline in
      if maxFileSize <? len data then io_ret (errorf (name +:+ " exceeds maximum size")) else
      _ ⟸ writeJSONAt a name data;
      io_pure (validateDirectoryLocked (wa_after a))
  end.

(** ** Removing, flushing, closing *)

Record remove_answers := {
  da_before : path_view;
  da_unlink : answer;
  da_syncDir : answer;
  da_after : path_view;
}.

Definition removeJSONAt (a : remove_answers) (name : string) : IO (res unit) :=
  r ⟵ unlinkat (da_unlink a) name;
  match r with
  | inr ENOENT => io_ret (Ok ())
  | inr e => io_ret (file_error "remove" name (errno_error e))
  | inl _ => sync_after (da_syncDir a)
  end.

Definition RemoveJSON (a : remove_answers) (name : string) : IO (res unit) :=
  _ ⟸ io_pure (securePathLocked name);
  _ ⟸ io_pure (validateDirectoryLocked (da_before a));
  _ ⟸ removeJSONAt a name;
  io_pure (validateDirectoryLocked (da_after a)).

Definition Flush (v : path_view) (a : answer) : IO (res unit) :=
  _ ⟸ io_pure (validateDirectoryLocked v);
  syncDirLocked a.

Definition Close (d : secureDir) : secureDir :=
  {| sd_inodes := sd_inodes d; sd_durable := sd_durable d; sd_pending := sd_pending d;
     sd_closed := true |}.

End Store.

(** ** Opening and closing *)

(** The check of the path that [New] and [EnsureEmptyProviderDir] begin with; [Clean]
    and [IsAbs] are those of path/filepath. *)
Definition clean_path (Clean : string → string) (IsAbs : string → bool) (dir : string) : res string :=
  let clean := Clean (TrimSpace dir) in
  if bool_decide (clean = ".") || negb (IsAbs clean)
  then errorf "secure store dir must be an absolute path" else Ok clean.

(** [EnsureEmptyProviderDir]; the host is asked about the cleaned path. *)
Definition EnsureEmptyProviderDir (Clean : string → string) (IsAbs : string → bool)
    (v : string → path_view) (mkdir chmod : answer) (dir : string) : res unit :=
  clean ← clean_path Clean IsAbs dir;
  ensureSecureDirectory (v clean) mkdir chmod.

(** [New], on a directory that holds [d]. *)
Definition New (Clean : string → string) (IsAbs : string → bool) (v : string → path_view)
    (mkdir chmod open : answer) (dir : string) (d : secureDir) : res secureDir :=
  clean ← clean_path Clean IsAbs dir;
  _ ← ensureSecureDirectory (v clean) mkdir chmod;
  match open with
  | Some msg => Err (EWrap "open secure store directory: " (EText msg))
  | None =>
      Ok {| sd_inodes := sd_inodes d; sd_durable := sd_durable d; sd_pending := sd_pending d;
            sd_closed := false |}
  end.

(** ** Computations and their traces *)

(** From [d], [m] ends in a result and a directory that satisfy [Q] and passes only
    through directories that satisfy [I]. *)
Definition io_ok {A} (I : secureDir → Prop) (Q : A → secureDir → Prop) (m : IO A) (d : secureDir) : Prop :=
  let '(a, d', trace) := m d in Q a d' ∧ Forall I trace.

Section IoRules.
Context (I : secureDir → Prop).

Lemma io_ok_ret {A} (Q : A → secureDir → Prop) a d : Q a d → io_ok I Q (io_ret a) d.
Proof. intros HQ. split; [done|constructor]. Qed.

Lemma io_ok_sys {A} (Q : A → secureDir → Prop) a f d : Q a (f d) → I (f d) → io_ok I Q (io_sys a f) d.
Proof. intros HQ HI. split; [done|by constructor]. Qed.

Lemma io_ok_bind {A B} (Q : B → secureDir → Prop) (m : IO A) (f : A → IO B) d :
  io_ok I (λ a d', io_ok I Q (f a) d') m d → io_ok I Q (io_bind m f) d.
Proof.
  unfold io_ok, io_bind. destruct (m d) as [[a d1] t1]. destruct (f a d1) as [[b d2] t2].
  intros [[HQ H2] H1]. split; [done|]. by apply Forall_app.
Qed.

Lemma io_ok_try {A B} (Q : res B → secureDir → Prop) (m : IO (res A)) (f : A → IO (res B)) d :
  io_ok I (λ r d', match r with Ok a => io_ok I Q (f a) d' | Err e => Q (Err e) d' end) m d →
  io_ok I Q (io_try m f) d.
Proof.
  intros Hm. apply io_ok_bind. revert Hm. unfold io_ok at 1 3. destruct (m d) as [[[a|e] d1] t1].
  - done.
  - intros [HQ Ht]. split; [|done]. by apply io_ok_ret.
Qed.

Lemma io_ok_weaken {A} (Q Q' : A → secureDir → Prop) (m : IO A) d :
  io_ok I Q m d → (∀ a d', Q a d' → Q' a d') → io_ok I Q' m d.
Proof. unfold io_ok. destruct (m d) as [[a d1] t1]. intros [HQ Ht] Himp. split; auto. Qed.

Lemma io_ok_passes {A} (I' : secureDir → Prop) (Q : A → secureDir → Prop) (m : IO A) d :
  io_ok I Q m d → (∀ x, I x → I' x) → io_ok I' Q m d.
Proof.
  unfold io_ok. destruct (m d) as [[a d1] t1]. intros [HQ Ht] Himp. split; [done|].
  by eapply Forall_impl.
Qed.

Lemma io_ok_at {A} (Q : A → secureDir → Prop) (m' m : IO A) d :
  m d = m' d → io_ok I Q m' d → io_ok I Q m d.
Proof. unfold io_ok. by intros ->. Qed.

Lemma io_ok_pure {A} (Q : A → secureDir → Prop) (r : secureDir → A) d : Q (r d) d → io_ok I Q (io_pure r) d.
Proof. intros HQ. split; [done|constructor]. Qed.

End IoRules.

(** ** The contract *)

(** The names clients use: temporary files start with a dot. *)
Definition tracked (name : string) : Prop := head (chars name) ≠ Some "."%char.

#[global] Instance tracked_dec name : Decision (tracked name).
Proof. unfold tracked. apply _. Defined.

(** What a crash leaves of a directory: any part of its pending changes, and any
    data in the files that were not synchronised. *)
Definition dir_crashed (d d' : secureDir) : Prop :=
  ∃ kept, kept `sublist_of` sd_pending d
    ∧ sd_durable d' = foldl entry_apply (sd_durable d) kept ∧ sd_pending d' = []
    ∧ sd_closed d' = false
    ∧ Forall2 (λ f f', in_synced f = true → f' = f) (sd_inodes d) (sd_inodes d').

Section Refinement.
Context {C : Type} (json_Marshal : C → string + string) (json_Decode : string → string → option C).

(** [value] is read back as it was written. An encoder of texts changes some, those
    that are not UTF-8, so that this is asked of the values written. *)
Definition round_trips (name : string) (value : C) : Prop :=
  ∀ text, json_Marshal value = inl text → json_Decode name (text +:+ newline) = Some value.

(** The value of a file that every check of a read accepts. *)
Definition value_at (inodes : list inode) (name : string) (ino : nat) : option C :=
  f ← inodes !! ino;
  if bool_decide (in_kind f = KRegular) && (in_perm f =? 384) && in_synced f
     && (len (in_data f) <=? maxFileSize) && negb (len (in_data f) =? 0)
  then json_Decode name (in_data f) else None.

Definition abs_change (inodes : list inode) (ch : entry_change) : option (change C) :=
  match ch with
  | EntryCreate _ _ => None
  | EntryMove _ to ino => Put to <$> value_at inodes to ino
  | EntryUnlink name => if decide (tracked name) then Some (Del name) else None
  end.

Definition change_ok (inodes : list inode) (ch : entry_change) : Prop :=
  match ch with
  | EntryCreate name _ => ¬ tracked name
  | EntryMove from to ino => ¬ tracked from ∧ tracked to ∧ is_Some (value_at inodes to ino)
  | EntryUnlink _ => True
  end.

Definition agree (inodes : list inode) (em : gmap string nat) (cm : gmap string C) : Prop :=
  ∀ name, tracked name → cm !! name = em !! name ≫= value_at inodes name
    ∧ ∀ ino, em !! name = Some ino → is_Some (value_at inodes name ino).

(** The directory implements the store of the contract: the same values under the
    tracked names, in the synchronised directory and in each pending change. *)
Record implements (d : secureDir) (s : Store C) : Prop := {
  im_closed : st_closed s = sd_closed d;
  im_durable : agree (sd_inodes d) (sd_durable d) (st_durable s);
  im_pending : st_pending s = omap (abs_change (sd_inodes d)) (sd_pending d);
  im_ok : Forall (change_ok (sd_inodes d)) (sd_pending d);
}.

Lemma agree_apply inodes em cm ch :
  agree inodes em cm → change_ok inodes ch →
  agree inodes (entry_apply em ch)
    (match abs_change inodes ch with Some c => apply_change cm c | None => cm end).
Proof.
  intros Hag Hok. destruct ch as [n ino|from to ino|n]; cbn [entry_apply abs_change change_ok] in *.
  - intros name Hn. rewrite lookup_insert_ne by (intros ?; subst; done). by apply Hag.
  - destruct Hok as (Hfrom & Hto & [c Hc]). rewrite Hc. cbn [fmap option_fmap option_map apply_change].
    intros name Hn. destruct (decide (to = name)) as [->|].
    + rewrite !lookup_insert_eq. split; [by rewrite <- Hc|]. intros i [= <-]. by eexists.
    + rewrite !lookup_insert_ne, lookup_delete_ne by (intros ?; subst; done). by apply Hag.
  - intros name Hn. destruct (decide (tracked n)); cbn [apply_change].
    + destruct (decide (n = name)) as [->|].
      * rewrite !lookup_delete_eq. by split.
      * rewrite !lookup_delete_ne by done. by apply Hag.
    + rewrite lookup_delete_ne by (intros ?; subst; done). by apply Hag.
Qed.

Lemma agree_fold inodes chs em cm :
  agree inodes em cm → Forall (change_ok inodes) chs →
  agree inodes (foldl entry_apply em chs) (apply_changes cm (omap (abs_change inodes) chs)).
Proof.
  intros Hag Hok. revert em cm Hag. induction Hok as [|ch chs Hch Hok IH]; intros em cm Hag; [done|].
  cbn [foldl omap list_omap]. pose proof (agree_apply _ _ _ _ Hag Hch) as Hag'.
  destruct (abs_change inodes ch); by apply IH.
Qed.

Lemma implements_entries d s : implements d s → agree (sd_inodes d) (entries d) (contents s).
Proof.
  intros [_ Hd Hp Hok]. unfold contents. rewrite Hp. by apply agree_fold.
Qed.

(** Inodes change only in files without a value. *)
Definition extends (inodes inodes' : list inode) : Prop :=
  ∀ name ino c, value_at inodes name ino = Some c → value_at inodes' name ino = Some c.

Lemma agree_extends inodes inodes' em cm :
  extends inodes inodes' → agree inodes em cm → agree inodes' em cm.
Proof.
  intros Hext Hag name Hn. destruct (Hag name Hn) as [Heq Hsome]. rewrite Heq. split.
  - destruct (em !! name) as [ino|] eqn:He; [|done]. destruct (Hsome ino eq_refl) as [c Hc].
    cbn [mbind option_bind]. by rewrite Hc, (Hext _ _ _ Hc).
  - intros ino He. destruct (Hsome ino He) as [c Hc]. exists c. by apply Hext.
Qed.

Lemma abs_extends inodes inodes' ch :
  extends inodes inodes' → change_ok inodes ch →
  change_ok inodes' ch ∧ abs_change inodes' ch = abs_change inodes ch.
Proof.
  intros Hext. destruct ch as [n ino|from to ino|n]; cbn; [done| |done].
  intros (Hf & Ht & [c Hc]). rewrite Hc, (Hext _ _ _ Hc). by eauto.
Qed.

Lemma pending_extends inodes inodes' chs :
  extends inodes inodes' → Forall (change_ok inodes) chs →
  Forall (change_ok inodes') chs
  ∧ omap (abs_change inodes') chs = omap (abs_change inodes) chs.
Proof.
  intros Hext Hok. induction Hok as [|ch chs Hch _ [IH1 IH2]]; [done|].
  destruct (abs_extends _ _ _ Hext Hch) as [H1 H2]. split; [by constructor|].
  cbn [omap list_omap]. by rewrite H2, IH2.
Qed.

Lemma implements_extends d inodes s :
  extends (sd_inodes d) inodes → implements d s → implements (set_inodes inodes d) s.
Proof.
  intros Hext [Hc Hd Hp Hok]. destruct (pending_extends _ _ _ Hext Hok) as [H1 H2].
  split; cbn [set_inodes sd_inodes sd_durable sd_pending sd_closed]; [done| | |done].
  - by eapply agree_extends.
  - by rewrite H2.
Qed.

Lemma implements_push d s ch :
  implements d s → change_ok (sd_inodes d) ch →
  implements (push_entry ch d)
    (match abs_change (sd_inodes d) ch with Some c => push c s | None => s end).
Proof.
  intros [Hc Hd Hp Hok] Hch.
  assert (omap (abs_change (sd_inodes d)) [ch]
    = match abs_change (sd_inodes d) ch with Some c => [c] | None => [] end) as Hone
    by (cbn; by destruct (abs_change _ ch)).
  destruct (abs_change (sd_inodes d) ch) as [c|] eqn:Habs; split;
    cbn [push_entry push sd_inodes sd_durable sd_pending sd_closed st_closed st_durable st_pending];
    try done; try (by apply Forall_app; split; [|constructor]).
  - by rewrite omap_app, Hone, Hp.
  - by rewrite omap_app, Hone, app_nil_r.
Qed.

Lemma implements_sync d s : implements d s → implements (sync_entries d) (syncDir s).
Proof.
  intros Him. pose proof (implements_entries d s Him) as Hag. destruct Him as [Hc Hd Hp Hok].
  split; cbn [sync_entries syncDir sd_inodes sd_durable sd_pending sd_closed st_closed st_durable
    st_pending]; done.
Qed.

Lemma omap_sublist {A B} (f : A → option B) l k : l `sublist_of` k → omap f l `sublist_of` omap f k.
Proof.
  induction 1 as [|x l k _ IH|x l k _ IH]; cbn [omap list_omap]; [done| |].
  - destruct (f x); [by apply sublist_skip|done].
  - destruct (f x); [by apply sublist_cons|done].
Qed.

(** A crash of the directory is a crash of the store it implements. *)
Lemma implements_crashed d s d' :
  implements d s → dir_crashed d d' → ∃ m, crashed s m ∧ implements d' (SecureStore.New m).
Proof.
  intros [Hc Hd Hp Hok] (kept & Hk & Hdur & Hpend & Hcl & Hino).
  assert (extends (sd_inodes d) (sd_inodes d')) as Hext.
  { intros name ino c. unfold value_at. destruct (sd_inodes d !! ino) as [f|] eqn:Hf; [|done].
    destruct (Forall2_lookup_l _ _ _ _ _ Hino Hf) as (f' & -> & Hsame). cbn [mbind option_bind].
    intros Hv. assert (in_synced f = true) as Hsync by (destruct (in_synced f); [done|];
      revert Hv; rewrite andb_false_r; done). by rewrite (Hsame Hsync). }
  assert (Forall (change_ok (sd_inodes d)) kept) as Hkok.
  { apply Forall_forall. intros ch Hin. apply (proj1 (Forall_forall _ _) Hok).
    by eapply elem_of_sublist. }
  exists (apply_changes (st_durable s) (omap (abs_change (sd_inodes d)) kept)). split.
  - exists (omap (abs_change (sd_inodes d)) kept). split; [|done]. rewrite Hp. by apply omap_sublist.
  - split; cbn [SecureStore.New st_closed st_durable st_pending]; [done| |by rewrite Hpend|by rewrite Hpend].
    rewrite Hdur. eapply agree_extends; [done|]. by apply agree_fold.
Qed.

(** ** Errors before anything is committed *)

Definition uncommitted {A} (r : res A) : Prop :=
  match r with Ok _ => True | Err e => OutcomeOf e = WriteNotCommitted end.

Lemma reject_path_uncommitted v clean : uncommitted (RejectSymlinkPathComponents v clean).
Proof.
  induction clean as [|c clean IH]; cbn [RejectSymlinkPathComponents]; repeat case_match; try done.
Qed.

Lemma validate_uncommitted v d : uncommitted (validateDirectoryLocked v d).
Proof.
  unfold validateDirectoryLocked. repeat case_match; try done. apply reject_path_uncommitted.
Qed.

Lemma reject_target_uncommitted a name d : uncommitted (rejectExistingTargetAt a name d).
Proof. unfold rejectExistingTargetAt. repeat case_match; done. Qed.

Definition same_result {A} (r r' : res A) : Prop :=
  match r, r' with
  | Ok x, Ok y => x = y
  | Err e, Err e' => error_text e = error_text e' ∧ OutcomeOf e = OutcomeOf e'
  | _, _ => False
  end.

(** ** Writing *)

Lemma entries_push ch d : entries (push_entry ch d) = entry_apply (entries d) ch.
Proof. unfold entries. cbn [push_entry sd_durable sd_pending]. by rewrite foldl_snoc. Qed.

(** Changing a file without a value extends the inodes. *)
Lemma extends_alter inodes f ino :
  (∀ name, value_at inodes name ino = None) → extends inodes (alter f ino inodes).
Proof.
  intros Hno name i c Hc. destruct (decide (ino = i)) as [->|]; [by rewrite Hno in Hc|].
  unfold value_at in *. by rewrite list_lookup_alter_ne.
Qed.

Lemma extends_app inodes file : extends inodes (inodes ++ [file]).
Proof.
  intros name i c. unfold value_at. destruct (inodes !! i) as [f|] eqn:Hf; [|done].
  by rewrite (lookup_app_l_Some _ _ _ _ Hf).
Qed.

(** A call that changes the store passes through these directories: nothing
    happened, the change is pending, or it is synchronised. *)
Definition passing (s p : Store C) (d : secureDir) : Prop :=
  implements d s ∨ implements d p ∨ implements d (syncDir p).

Section Write.
Context (s : Store C) (name : string) (value : C).

Definition put_pending : Store C := push (Put name value) s.

Definition during : secureDir → Prop := passing s put_pending.

(** The temporary file [t]. *)
Definition temp_at (t : string) (ino : nat) (data : string) (synced : bool) (d : secureDir) : Prop :=
  implements d s ∧ ¬ tracked t ∧ entries d !! t = Some ino
  ∧ sd_inodes d !! ino
    = Some {| in_kind := KRegular; in_perm := 384; in_data := data; in_synced := synced |}.

Lemma temp_unsynced t ino data d :
  temp_at t ino data false d → ∀ n, value_at (sd_inodes d) n ino = None.
Proof. intros (_ & _ & _ & Hi) n. unfold value_at. by rewrite Hi. Qed.

Lemma temp_alter t ino data data' synced f d :
  temp_at t ino data false d →
  f {| in_kind := KRegular; in_perm := 384; in_data := data; in_synced := false |}
    = {| in_kind := KRegular; in_perm := 384; in_data := data'; in_synced := synced |} →
  temp_at t ino data' synced (set_inodes (alter f ino (sd_inodes d)) d).
Proof.
  intros Ht Hf. pose proof (temp_unsynced _ _ _ _ Ht) as Hno. destruct Ht as (Him & Hn & He & Hi).
  split; [by apply implements_extends; [apply extends_alter|]|]. do 2 (split; [done|]).
  cbn [set_inodes sd_inodes]. by rewrite list_lookup_alter_eq, Hi, <- Hf.
Qed.

Lemma create_spec attempt n left d :
  implements d s →
  io_ok during (λ r d', match r with
    | Ok temp => temp_at temp.1 temp.2 "" false d'
    | Err e => OutcomeOf e = WriteNotCommitted ∧ implements d' s
    end) (create_temp attempt n left name) d.
Proof.
  intros Him. revert n. induction left as [|left IH]; intros n; cbn [create_temp].
  { by apply io_ok_ret. }
  destruct (attempt n) as [[suffix|msg] a]; cbn [fst snd]; [|by apply io_ok_ret].
  set (t := "." +:+ name +:+ ".tmp-" +:+ suffix).
  assert (¬ tracked t) as Ht by (intros Ht; by apply Ht).
  apply io_ok_bind. destruct a as [msg|].
  { apply (io_ok_at _ _ (io_ret (inr (EFault msg)))); [done|]. by apply io_ok_ret, io_ok_ret. }
  destruct (entries d !! t) as [ino|] eqn:He.
  { apply (io_ok_at _ _ (io_ret (inr EEXIST))); [by unfold create_excl; rewrite He|].
    apply io_ok_ret, IH. }
  set (file := {| in_kind := KRegular; in_perm := 384; in_data := ""; in_synced := false |}).
  set (d1 := set_inodes (sd_inodes d ++ [file]) d).
  assert (implements d1 s) as Him1.
  { apply implements_extends; [apply extends_app|done]. }
  pose proof (implements_push d1 s (EntryCreate t (length (sd_inodes d))) Him1 Ht) as Him2.
  cbn [abs_change] in Him2.
  apply (io_ok_at _ _ (io_sys (inl (length (sd_inodes d))) (λ d, push_entry
    (EntryCreate t (length (sd_inodes d))) (set_inodes (sd_inodes d ++ [file]) d))));
    [by unfold create_excl; rewrite He|].
  apply io_ok_sys; [|by left].
  apply io_ok_ret. split; [done|]. split; [done|]. rewrite entries_push. cbn [entry_apply fst snd].
  split; [by rewrite lookup_insert_eq|]. cbn [push_entry d1 set_inodes sd_inodes].
  by rewrite lookup_app_r, Nat.sub_diag by lia.
Qed.

Lemma fill_spec a t ino data d :
  tracked name → value_at [{| in_kind := KRegular; in_perm := 384; in_data := data;
    in_synced := true |}] name 0 = Some value →
  temp_at t ino "" false d →
  io_ok during (λ r d', match r with
    | Ok _ => implements d' put_pending
    | Err e => OutcomeOf e = WriteNotCommitted ∧ implements d' s ∧ ¬ tracked t
    end) (replace_target a name t ino data) d.
Proof.
  intros Hname Hvalue Ht. unfold replace_target, named.
  apply io_ok_try, io_ok_bind. unfold write_file. destruct (wa_write a) as [[n msg]|].
  { apply (temp_alter _ _ _ (prefix_bytes n data) false
      (λ f, {| in_kind := in_kind f; in_perm := in_perm f; in_data := prefix_bytes n data;
               in_synced := false |})) in Ht; [|done].
    apply io_ok_sys; [|left; apply Ht]. apply io_ok_ret. split; [done|]. split; apply Ht. }
  apply (temp_alter _ _ _ data false
    (λ f, {| in_kind := in_kind f; in_perm := in_perm f; in_data := data; in_synced := false |})) in Ht;
    [|done].
  apply io_ok_sys; [|left; apply Ht]. apply io_ok_ret. fold (set_data ino data d) in *.
  set (d1 := set_data ino data d) in *. clearbody d1.
  apply io_ok_try, io_ok_bind. unfold fsync_file. destruct (wa_sync a) as [msg|].
  { apply io_ok_ret, io_ok_ret. split; [done|]. split; apply Ht. }
  apply (temp_alter _ _ _ data true
    (λ f, {| in_kind := in_kind f; in_perm := in_perm f; in_data := in_data f; in_synced := true |})) in Ht;
    [|done].
  apply io_ok_sys; [|left; apply Ht]. apply io_ok_ret. fold (set_synced ino d1) in *.
  set (d2 := set_synced ino d1) in *. clearbody d2.
  apply io_ok_try, io_ok_bind. unfold close_file. destruct (wa_close a) as [msg|];
    apply io_ok_ret, io_ok_ret; [split; [done|]; split; apply Ht|].
  apply io_ok_try, io_ok_pure. pose proof (reject_target_uncommitted (wa_reinspect a) name d2) as Hu.
  destruct (rejectExistingTargetAt _ _ _) as [[]|e]; [|split; [done|]; split; apply Ht].
  apply io_ok_bind. destruct (wa_rename a) as [msg|].
  { apply (io_ok_at _ _ (io_ret (errorf msg))); [done|]. apply io_ok_ret, io_ok_ret.
    split; [done|]. split; apply Ht. }
  destruct Ht as (Him & Htn & He & Hi).
  apply (io_ok_at _ _ (io_sys (Ok ()) (push_entry (EntryMove t name ino))));
    [by unfold renameat; rewrite He|].
  assert (value_at (sd_inodes d2) name ino = Some value) as Hv.
  { revert Hvalue. unfold value_at. by rewrite Hi. }
  pose proof (implements_push d2 s (EntryMove t name ino) Him) as Hpush.
  cbn [abs_change change_ok] in Hpush. rewrite Hv in Hpush. specialize (Hpush ltac:(eauto)).
  apply io_ok_sys; [by apply io_ok_ret|]. right. by left.
Qed.

Lemma unlink_temp a t d :
  implements d s → ¬ tracked t → io_ok during (λ _ d', implements d' s) (unlinkat a t) d.
Proof.
  intros Him Ht. destruct a as [msg|].
  { by apply (io_ok_at _ _ (io_ret (inr (EFault msg)))), io_ok_ret. }
  destruct (entries d !! t) as [ino|] eqn:He.
  - apply (io_ok_at _ _ (io_sys (inl ()) (push_entry (EntryUnlink t))));
      [by unfold unlinkat; rewrite He|].
    pose proof (implements_push d s (EntryUnlink t) Him I) as Hp. cbn [abs_change] in Hp.
    rewrite decide_False in Hp by done. by apply io_ok_sys; [|left].
  - apply (io_ok_at _ _ (io_ret (inr ENOENT))); [by unfold unlinkat; rewrite He|]. by apply io_ok_ret.
Qed.

Lemma sync_spec (I : secureDir → Prop) a p d :
  implements d p → (∀ x, implements x (syncDir p) → I x) →
  io_ok I (λ r d', match r with
    | Ok _ => implements d' (syncDir p)
    | Err e => (∃ msg, e = sync_error msg) ∧ implements d' p
    end) (sync_after a) d.
Proof.
  intros Him HI. unfold sync_after. apply io_ok_bind. unfold syncDirLocked. destruct a as [msg|].
  - apply io_ok_ret, io_ok_ret. split; [by exists msg|done].
  - pose proof (implements_sync d p Him). apply io_ok_sys; [by apply io_ok_ret|by apply HI].
Qed.

(** What a write leaves: nothing, the value pending, or the value synchronised. *)
Definition written_or_not (r : res unit) (d : secureDir) : Prop :=
  match r with
  | Ok _ => implements d (syncDir put_pending)
  | Err e => OutcomeOf e = WriteNotCommitted ∧ implements d s
             ∨ (∃ msg, e = sync_error msg) ∧ implements d put_pending
  end.

Lemma writeJSONAt_spec a data d :
  tracked name → value_at [{| in_kind := KRegular; in_perm := 384; in_data := data;
    in_synced := true |}] name 0 = Some value →
  implements d s → io_ok during written_or_not (writeJSONAt a name data) d.
Proof.
  intros Hname Hvalue Him. unfold writeJSONAt. apply io_ok_try, io_ok_pure.
  pose proof (reject_target_uncommitted (wa_inspect a) name d) as Hu.
  destruct (rejectExistingTargetAt _ _ _) as [[]|e]; [|by left].
  apply io_ok_try. eapply io_ok_weaken; [by apply create_spec|].
  intros [[t ino]|e] d1 Ht; cbn [fst snd] in *; [|left; exact Ht].
  apply io_ok_bind. eapply io_ok_weaken; [by apply fill_spec|].
  intros [[]|e] d2 Hr.
  - eapply io_ok_weaken; [apply sync_spec; [exact Hr|by right; right]|].
    intros [[]|e] d3; [done|by right].
  - destruct Hr as (Ho & Him2 & Htn). apply io_ok_bind.
    eapply io_ok_weaken; [by apply unlink_temp|]. intros result d3 Him3. apply io_ok_ret. by left.
Qed.

(** The outcome is one the contract gives for some fault. *)
Definition write_done (r : res unit) (d : secureDir) : Prop :=
  ∃ f, same_result r (SecureStore.WriteJSON name value f s).1
    ∧ implements d (SecureStore.WriteJSON name value f s).2.

Lemma write_checked r d :
  st_closed s = false → valid_name name = true → implements d s → uncommitted r →
  (∃ e, r = Err e) → write_done r d.
Proof.
  intros Ho Hn Him Hu [e ->]. exists (FBefore (error_text e)).
  unfold SecureStore.WriteJSON, checked. rewrite Ho, Hn. by split_and!.
Qed.

Lemma WriteJSON_spec a d :
  round_trips name value →
  tracked name → implements d s →
  io_ok (passing s (SecureStore.WriteJSON name value (FSync "") s).2) write_done
    (WriteJSON json_Marshal a name value) d.
Proof.
  intros Hjson Hname Him. unfold WriteJSON. apply io_ok_try, io_ok_pure.
  unfold securePathLocked. rewrite <- (im_closed _ _ Him). destruct (st_closed s) eqn:Ho.
  { exists FNone. unfold SecureStore.WriteJSON, checked. rewrite Ho. by split_and!. }
  destruct (valid_name name) eqn:Hn; cbn [negb].
  2: { exists FNone. unfold SecureStore.WriteJSON, checked. rewrite Ho, Hn. by split_and!. }
  replace (SecureStore.WriteJSON name value (FSync "") s).2 with put_pending
    by (unfold SecureStore.WriteJSON, checked; by rewrite Ho, Hn).
  apply io_ok_try, io_ok_pure. pose proof (validate_uncommitted (wa_before a) d) as Hu.
  destruct (validateDirectoryLocked _ _) as [[]|e]; [|by apply write_checked; eauto].
  destruct (json_Marshal value) as [text|msg] eqn:Hm; [|by apply io_ok_ret, write_checked; eauto].
  cbv zeta. destruct (Z.ltb_spec maxFileSize (len (text +:+ newline))) as [Hlen|Hlen].
  { by apply io_ok_ret, write_checked; eauto. }
  apply io_ok_try. eapply io_ok_weaken; [apply (writeJSONAt_spec a (text +:+ newline) d); [done| |done]|].
  - unfold value_at. cbn [lookup list_lookup mbind option_bind in_kind in_perm in_data in_synced].
    rewrite bool_decide_eq_true_2, (proj2 (Z.leb_le _ _)) by done.
    replace (len (text +:+ newline) =? 0) with false; [by apply Hjson|].
    symmetry. apply Z.eqb_neq. unfold len. rewrite <- length_chars, chars_app, length_app.
    change (length (chars newline)) with 1%nat. lia.
  - assert (∀ f r d, same_result r (SecureStore.WriteJSON name value f s).1 →
      implements d (SecureStore.WriteJSON name value f s).2 → write_done r d) as Hdone by (intros f ? ? ? ?; by exists f).
    unfold SecureStore.WriteJSON, checked in Hdone. rewrite Ho, Hn in Hdone. cbn [negb] in Hdone.
    intros [[]|e] d1 Hr; cbn [written_or_not] in Hr.
    + apply io_ok_pure. pose proof (validate_uncommitted (wa_after a) d1) as Hu1.
      destruct (validateDirectoryLocked (wa_after a) d1) as [[]|e]; [by apply (Hdone FNone)|].
      by apply (Hdone (FAfter (error_text e))).
    + destruct Hr as [[Hr Him1]|[[msg ->] Him1]]; [by apply write_checked; eauto|].
      by apply (Hdone (FSync msg)).
Qed.

End Write.

(** ** Removing, reading, flushing *)

(** The contract's answer to a fault, on an open store. *)
Ltac contract f Ho Hn :=
  exists f; unfold SecureStore.RemoveJSON, SecureStore.ReadJSONIfExists, checked;
  rewrite Ho, ?Hn; cbn [negb].

Lemma RemoveJSON_spec s name a d :
  tracked name → implements d s →
  io_ok (passing s (SecureStore.RemoveJSON name (FSync "") s).2)
    (λ r d', ∃ f, same_result r (SecureStore.RemoveJSON name f s).1
       ∧ implements d' (SecureStore.RemoveJSON name f s).2)
    (RemoveJSON a name) d.
Proof.
  intros Hname Him. unfold RemoveJSON, securePathLocked.
  apply io_ok_try, io_ok_pure. rewrite <- (im_closed _ _ Him).
  destruct (st_closed s) eqn:Ho; [by contract FNone Ho Ho|].
  destruct (valid_name name) eqn:Hn; cbn [negb]; [|by contract FNone Ho Hn].
  assert (∀ e d', OutcomeOf e = WriteNotCommitted → implements d' s →
    ∃ f, same_result (Err e : res unit) (SecureStore.RemoveJSON name f s).1
      ∧ implements d' (SecureStore.RemoveJSON name f s).2) as Hbefore.
  { intros e d' He Hd'. by contract (FBefore (error_text e)) Ho Hn. }
  apply io_ok_try, io_ok_pure. pose proof (validate_uncommitted (da_before a) d) as Hu.
  destruct (validateDirectoryLocked _ _) as [[]|e]; [|by apply Hbefore].
  destruct (implements_entries d s Him name Hname) as [Hlook Hsome].
  apply io_ok_try. unfold removeJSONAt. apply io_ok_bind. destruct (da_unlink a) as [msg|].
  { apply (io_ok_at _ _ (io_ret (inr (EFault msg)))); [done|]. apply io_ok_ret, io_ok_ret.
    by apply Hbefore. }
  destruct (entries d !! name) as [ino|] eqn:He.
  - destruct (Hsome ino eq_refl) as [c Hc]. cbn [mbind option_bind] in Hlook. rewrite Hc in Hlook.
    apply (io_ok_at _ _ (io_sys (inl ()) (push_entry (EntryUnlink name))));
      [by unfold unlinkat; rewrite He|].
    pose proof (implements_push d s (EntryUnlink name) Him I) as Hp. cbn [abs_change] in Hp.
    rewrite decide_True in Hp by done.
    replace (SecureStore.RemoveJSON name (FSync "") s).2 with (push (Del name) s)
      by (unfold SecureStore.RemoveJSON, checked; by rewrite Ho, Hn, Hlook).
    apply io_ok_sys; [|by right; left].
    eapply io_ok_weaken; [apply sync_spec; [exact Hp|by right; right]|].
    intros [[]|e] d1; [|by intros [[msg ->] Him1]; contract (FSync msg) Ho Hn; rewrite Hlook].
    intros Him1. apply io_ok_pure. pose proof (validate_uncommitted (da_after a) d1) as Hu1.
    destruct (validateDirectoryLocked (da_after a) d1) as [[]|e];
      [by contract FNone Ho Hn; rewrite Hlook|].
    by contract (FAfter (error_text e)) Ho Hn; rewrite Hlook.
  - cbn [mbind option_bind] in Hlook. apply (io_ok_at _ _ (io_ret (inr ENOENT)));
      [by unfold unlinkat; rewrite He|].
    apply io_ok_ret, io_ok_ret. apply io_ok_pure.
    pose proof (validate_uncommitted (da_after a) d) as Hu1.
    destruct (validateDirectoryLocked (da_after a) d) as [[]|e];
      [by contract FNone Ho Hn; rewrite Hlook|].
    by contract (FAfter (error_text e)) Ho Hn; rewrite Hlook.
Qed.

Lemma value_checks inodes name ino c :
  value_at inodes name ino = Some c →
  ∃ f, inodes !! ino = Some f ∧ in_kind f = KRegular ∧ (in_perm f =? 384) = true
    ∧ (maxFileSize <? len (in_data f)) = false ∧ (len (in_data f) =? 0) = false
    ∧ json_Decode name (in_data f) = Some c.
Proof.
  unfold value_at. destruct (inodes !! ino) as [f|]; [|done]. cbn [mbind option_bind].
  destruct (_ && _) eqn:Hc; [|done]. intros Hd. exists f.
  apply andb_true_iff in Hc as [Hc Hz]. apply andb_true_iff in Hc as [Hc Hl].
  apply andb_true_iff in Hc as [Hc _]. apply andb_true_iff in Hc as [Hk Hp].
  split; [done|]. split; [by apply bool_decide_eq_true in Hk|]. split; [done|].
  split; [apply Z.ltb_ge; by apply Z.leb_le|]. split; [by apply negb_true_iff|done].
Qed.

Lemma ReadJSON_spec s name a d :
  tracked name → implements d s →
  ∃ f, same_result (ReadJSONIfExists json_Decode a name d)
         (SecureStore.ReadJSONIfExists name f s).1
       ∧ (SecureStore.ReadJSONIfExists name f s).2 = s.
Proof.
  intros Hname Him. unfold ReadJSONIfExists, securePathLocked. rewrite <- (im_closed _ _ Him).
  destruct (st_closed s) eqn:Ho; [by contract FNone Ho Ho|].
  destruct (valid_name name) eqn:Hn; cbn [negb mbind res_bind]; [|by contract FNone Ho Hn].
  assert (∀ e, OutcomeOf e = WriteNotCommitted →
    ∃ f, same_result (Err e : res (option C)) (SecureStore.ReadJSONIfExists name f s).1
      ∧ (SecureStore.ReadJSONIfExists name f s).2 = s) as Hbefore.
  { intros e He. by contract (FBefore (error_text e)) Ho Hn. }
  pose proof (validate_uncommitted (ra_view a) d) as Hu.
  destruct (validateDirectoryLocked _ _) as [[]|e]; [|by apply Hbefore]. cbn [mbind res_bind].
  destruct (implements_entries d s Him name Hname) as [Hlook Hsome]. unfold openFileAt, fstatat, file_at.
  destruct (ra_open a) as [msg|]; [by apply Hbefore|].
  destruct (entries d !! name) as [ino|]; cbn [mbind option_bind] in *;
    [|by contract FNone Ho Hn; rewrite Hlook].
  destruct (Hsome ino eq_refl) as [c Hc]. rewrite Hc in Hlook.
  destruct (value_checks _ _ _ _ Hc) as (f & -> & Hk & Hperm & Hlen & Hnonempty & Hdecode).
  rewrite Hk, (bool_decide_eq_false_2 (KRegular = KSymlink)) by done.
  destruct (ra_stat a) as [msg|]; [by apply Hbefore|].
  rewrite Hk, bool_decide_eq_true_2, Hperm, Hlen by done. cbn [negb].
  destruct (ra_read a) as [msg|]; [by apply Hbefore|]. rewrite Hnonempty, Hdecode.
  contract FNone Ho Hn. by rewrite Hlook.
Qed.

Lemma Flush_spec s v a d :
  implements d s →
  io_ok (λ x, implements x s ∨ implements x (syncDir s))
    (λ r d', ∃ f, same_result r (SecureStore.Flush f s).1 ∧ implements d' (SecureStore.Flush f s).2)
    (Flush v a) d.
Proof.
  intros Him. unfold Flush, SecureStore.Flush. apply io_ok_try, io_ok_pure.
  pose proof (validate_uncommitted v d) as Hu.
  assert (st_closed s = true → validateDirectoryLocked v d = errorf "secure store is not initialized") as Hcl.
  { rewrite (im_closed _ _ Him). unfold validateDirectoryLocked. by intros ->. }
  destruct (st_closed s); [rewrite Hcl by done; by exists FNone|].
  destruct (validateDirectoryLocked v d) as [[]|e]; [|by exists (FBefore (error_text e))].
  pose proof (implements_sync d s Him) as Hs. unfold syncDirLocked. destruct a as [msg|].
  - apply io_ok_ret. by exists (FSync msg).
  - apply io_ok_sys; [by exists FNone|by right].
Qed.

(** ** The calls *)

Inductive call :=
| CallRead (a : read_answers) (name : string)
| CallWrite (a : write_answers) (name : string) (value : C)
| CallRemove (a : remove_answers) (name : string)
| CallFlush (v : path_view) (a : answer).

Definition no_value (r : res unit) : res (option C) := (λ _, None) <$> r.

(** A call, with what the system answers it. *)
Definition perform (c : call) : IO (res (option C)) :=
  match c with
  | CallRead a name => io_pure (ReadJSONIfExists json_Decode a name)
  | CallWrite a name value => r ⟵ WriteJSON json_Marshal a name value; io_ret (no_value r)
  | CallRemove a name => r ⟵ RemoveJSON a name; io_ret (no_value r)
  | CallFlush v a => r ⟵ Flush v a; io_ret (no_value r)
  end.

(** The same call of the contract, with a fault. *)
Definition promised (c : call) (f : fault) (s : Store C) : res (option C) * Store C :=
  match c with
  | CallRead _ name => SecureStore.ReadJSONIfExists name f s
  | CallWrite _ name value => let '(r, s) := SecureStore.WriteJSON name value f s in (no_value r, s)
  | CallRemove _ name => let '(r, s) := SecureStore.RemoveJSON name f s in (no_value r, s)
  | CallFlush _ _ => let '(r, s) := SecureStore.Flush f s in (no_value r, s)
  end.

(** The store with the change of a call pending, if it makes one. *)
Definition half_done (c : call) (s : Store C) : Store C := (promised c (FSync "") s).2.

(** A client's name, and a value that is read back. *)
Definition call_ok (c : call) : Prop :=
  match c with
  | CallRead _ name | CallRemove _ name => tracked name
  | CallWrite _ name value => tracked name ∧ round_trips name value
  | CallFlush _ _ => True
  end.

Lemma no_value_same r r' : same_result r r' → same_result (no_value r) (no_value r').
Proof. by destruct r, r'. Qed.

Lemma perform_spec c d s :
  call_ok c → implements d s →
  io_ok (passing s (half_done c s))
    (λ r d', ∃ f, same_result r (promised c f s).1 ∧ implements d' (promised c f s).2) (perform c) d.
Proof.
  intros Ht Him. unfold half_done.
  destruct c as [a name|a name value|a name|v a]; cbn [perform promised call_ok] in *.
  - apply io_ok_pure. destruct (ReadJSON_spec s name a d Ht Him) as (f & Hr & Hs). exists f.
    by rewrite Hs.
  - destruct Ht as [Ht Hround]. apply io_ok_bind.
    pose proof (WriteJSON_spec s name value a d Hround Ht Him) as Hw.
    destruct (SecureStore.WriteJSON name value (FSync "") s) as [r0 s0].
    eapply io_ok_weaken; [exact Hw|]. intros r d' (f & Hr & Hs). apply io_ok_ret. exists f.
    destruct (SecureStore.WriteJSON _ _ _ _). split; [by apply no_value_same|done].
  - apply io_ok_bind. pose proof (RemoveJSON_spec s name a d Ht Him) as Hw.
    destruct (SecureStore.RemoveJSON name (FSync "") s) as [r0 s0].
    eapply io_ok_weaken; [exact Hw|]. intros r d' (f & Hr & Hs). apply io_ok_ret. exists f.
    destruct (SecureStore.RemoveJSON _ _ _). split; [by apply no_value_same|done].
  - apply io_ok_bind. eapply io_ok_weaken; [eapply io_ok_passes; [by apply Flush_spec|]|].
    + assert ((let '(r, s0) := SecureStore.Flush (FSync "") s in (no_value r, s0)).2 = s) as ->
        by (unfold SecureStore.Flush; by destruct (st_closed s)).
      intros x [Hx|Hx]; [by left|by right; right].
    + intros r d' (f & Hr & Hs). apply io_ok_ret. exists f.
      destruct (SecureStore.Flush _ _). split; [by apply no_value_same|done].
Qed.

Lemma passing_crashed s p x x' :
  passing s p x → dir_crashed x x' →
  ∃ m, implements x' (SecureStore.New m) ∧ (crashed s m ∨ crashed p m).
Proof.
  intros [Hs|[Hs|Hs]] Hcrash; destruct (implements_crashed _ _ _ Hs Hcrash) as (m & Hm & Hi); eauto.
  apply crashed_sync in Hm as ->. exists (contents p). split; [done|]. right. apply crashed_contents.
Qed.

(** The store over system calls implements its contract. Whatever the system
    answers, a call on a directory that implements a store of the contract returns
    what the contract returns for some fault, with the same text and outcome, and
    leaves a directory that implements what the contract leaves; and a crash at any
    system call of it leaves a directory that implements what a crash of the
    contract's store leaves, before the change or with the change pending: never a
    part of a value, never a temporary file under a client's name. *)
Theorem store_refines c d s :
  call_ok c → implements d s →
  let '(r, d', trace) := perform c d in
  (∃ f, same_result r (promised c f s).1 ∧ implements d' (promised c f s).2)
  ∧ ∀ x x', x ∈ d :: trace → dir_crashed x x' →
      ∃ m, implements x' (SecureStore.New m) ∧ (crashed s m ∨ crashed (half_done c s) m).
Proof.
  intros Ht Him. pose proof (perform_spec c d s Ht Him) as Hp. unfold io_ok in Hp.
  destruct (perform c d) as [[r d'] trace]. destruct Hp as [Hr Htrace]. split; [done|].
  intros x x' Hx. eapply passing_crashed.
  apply elem_of_cons in Hx as [->|Hx]; [by left|]. by apply (proj1 (Forall_forall _ _) Htrace).
Qed.

End Refinement.

(** ** Evaluation on a small directory *)

(** Values are texts, encoded between quotes. *)
Definition demo_marshal (v : string) : string + string := inl ("'" +:+ v +:+ "'").

Definition demo_decode (name s : string) : option string :=
  match chars s with
  | "'"%char :: l =>
      match rev l with "010"%char :: "'"%char :: l => Some (str (rev l)) | _ => None end
  | _ => None
  end.

Definition demo_view : path_view :=
  let secure := {| fi_symlink := false; fi_dir := true; fi_perm := 448 |} in
  {| pv_dir := ["store"; "data"]; pv_lstat _ := LFound secure; pv_eval path := inl path;
     pv_handle := inl secure; pv_same := true |}.

Definition demo_write : write_answers :=
  {| wa_before := demo_view; wa_inspect := None; wa_attempt n := (inl (if decide (n = 0%nat) then "aa" else "bb"), None);
     wa_write := None; wa_sync := None; wa_close := None; wa_reinspect := None; wa_rename := None;
     wa_unlink := None; wa_syncDir := Some "input/output error"; wa_after := demo_view |}.

(** A leftover temporary file takes the name of the first attempt. *)
Definition demo_dir : secureDir :=
  let file data := {| in_kind := KRegular; in_perm := 384; in_data := data; in_synced := true |} in
  {| sd_inodes := [file ("'old'" +:+ newline); file "torn"];
     sd_durable := {["a.json" := 0%nat; ".a.json.tmp-aa" := 1%nat]}; sd_pending := [];
     sd_closed := false |}.

Lemma demo_round_trips name v : round_trips demo_marshal demo_decode name v.
Proof.
  intros text [= <-]. unfold demo_decode. rewrite !chars_app. change (chars newline) with ["010"%char].
  change (chars "'") with ["'"%char]. cbn [app]. rewrite !rev_app_distr. cbn [rev app].
  by rewrite rev_involutive, str_chars.
Qed.

Lemma demo_call_ok : call_ok demo_marshal demo_decode (CallWrite demo_write "a.json" "new").
Proof. split; [discriminate|apply demo_round_trips]. Qed.

Lemma demo_implements : implements demo_decode demo_dir (SecureStore.New {["a.json" := "old"]}).
Proof.
  split; [done| |done|constructor]. intros name Hn. cbn [demo_dir sd_durable sd_inodes SecureStore.New st_durable].
  destruct (decide (name = "a.json")) as [->|Hne].
  - split; [vm_compute; reflexivity|]. intros ino Hi. vm_compute in Hi. injection Hi as <-.
    exists "old". vm_compute. reflexivity.
  - rewrite lookup_singleton_ne, lookup_insert_ne by done.
    rewrite lookup_singleton_ne by (intros <-; by apply Hn). by split.
Qed.

Lemma store_refines_witness :
  let '(r, d', trace) := perform demo_marshal demo_decode (CallWrite demo_write "a.json" "new") demo_dir in
  (∃ m, implements demo_decode {| sd_inodes := sd_inodes d'; sd_durable := sd_durable d';
          sd_pending := []; sd_closed := false |} (SecureStore.New m))
  ∧ r = Err (sync_error "input/output error") ∧ length trace = 4%nat.
Proof.
  pose proof (store_refines demo_marshal demo_decode (CallWrite demo_write "a.json" "new") demo_dir
    (SecureStore.New {["a.json" := "old"]})
    demo_call_ok demo_implements) as Hr.
  destruct (perform _ _ _ _) as [[r d'] trace] eqn:Hp. destruct Hr as [_ Hcrash].
  assert (d' ∈ demo_dir :: trace) as Hin.
  { vm_compute in Hp. injection Hp as <- <- <-. right. do 3 right. left. }
  split.
  - set (x := {| sd_inodes := _ |}). destruct (Hcrash d' x Hin) as (m & Hm & _); [|by exists m].
    exists []. split; [apply sublist_nil_l|]. do 3 (split; [done|]).
    cbn [x sd_inodes]. clear. induction (sd_inodes d'); constructor; auto.
  - vm_compute in Hp. injection Hp as <- <- <-. split; [vm_compute; reflexivity|reflexivity].
Defined.
