(* ===== verification/SecureRun.v ===== *)
(** * Programs over the directory (securestore/, composed as its clients do)

    A program of [SecureStore] whose calls are those of [SecureDir], each with what
    the system answers it. Everything the directory goes through while the program
    runs is matched by steps of the program over the contract's store, so that what
    is proved of a program by the rules of [SecureStore] holds of the directory. *)

From S2P Require Import Prelude GoStrings SecureStore SecureDir.

(** What the system answers the call a program makes. *)
Record sys_answers := {
  sy_read : read_answers;
  sy_write : write_answers;
  sy_remove : remove_answers;
  sy_flush : path_view * option string;
}.

Section Run.
Context {C : Type} (json_Marshal : C → string + string) (json_Decode : string → string → option C).

#[local] Abbreviation implements := (implements json_Decode).
#[local] Abbreviation passing := (passing json_Decode).

(** The calls are numbered from [n]. *)
Fixpoint run_dir {A} (sys : nat → sys_answers) (n : nat) (p : prog C A) : IO A :=
  match p with
  | Ret a => io_ret a
  | PRead name k =>
      r ⟵ io_pure (ReadJSONIfExists json_Decode (sy_read (sys n)) name);
      run_dir sys (S n) (k r)
  | PWrite name value k =>
      r ⟵ WriteJSON json_Marshal (sy_write (sys n)) name value; run_dir sys (S n) (k r)
  | PRemove name k => r ⟵ RemoveJSON (sy_remove (sys n)) name; run_dir sys (S n) (k r)
  | PFlush k =>
      r ⟵ Flush (sy_flush (sys n)).1 (sy_flush (sys n)).2; run_dir sys (S n) (k r)
  end.

(** ** Related programs

    The directory's errors have the text and the outcome of the contract's, and need
    not be the same values: two programs are related when they make the same calls
    whatever such results they get, and end in results related by [R]. The names are
    a client's, the values written are read back, and the values read were decoded. *)
Definition decoded (name : string) (r : res (option C)) : Prop :=
  ∀ c, r = Ok (Some c) → ∃ text, json_Decode name text = Some c.

Fixpoint related {A B} (R : A → B → Prop) (p : prog C A) (p' : prog C B) : Prop :=
  match p, p' with
  | Ret a, Ret b => R a b
  | PRead name k, PRead name' k' =>
      name = name' ∧ tracked name
      ∧ ∀ r r', same_result r r' → decoded name r → related R (k r) (k' r')
  | PWrite name value k, PWrite name' value' k' =>
      name = name' ∧ value = value' ∧ tracked name ∧ round_trips json_Marshal json_Decode name value
      ∧ ∀ r r', same_result r r' → related R (k r) (k' r')
  | PRemove name k, PRemove name' k' =>
      name = name' ∧ tracked name ∧ ∀ r r', same_result r r' → related R (k r) (k' r')
  | PFlush k, PFlush k' => ∀ r r', same_result r r' → related R (k r) (k' r')
  | _, _ => False
  end.

(** The stores a program reaches, and the directories that a call between two of
    them passes through. *)
Definition reached {B} (ps : prog C B * Store C) (s : Store C) : Prop :=
  ∃ p, rtc pstep ps (p, s).

Definition visited {B} (ps : prog C B * Store C) (x : secureDir) : Prop :=
  ∃ s p, reached ps s ∧ reached ps p ∧ passing s p x.

Definition finished {A B} (R : A → B → Prop) (ps : prog C B * Store C) (a : A) (d : secureDir) : Prop :=
  ∃ b s, rtc pstep ps (Ret b, s) ∧ R a b ∧ implements d s.

Lemma reached_step {B} (ps ps' : prog C B * Store C) s :
  pstep ps ps' → reached ps' s → reached ps s.
Proof. intros Hs (p & Hp). exists p. by eapply rtc_l. Qed.

Lemma visited_step {B} (ps ps' : prog C B * Store C) x :
  pstep ps ps' → visited ps' x → visited ps x.
Proof. intros Hs (s & p & H1 & H2 & Hx). exists s, p. eauto using reached_step. Qed.

Lemma finished_step {A B} (R : A → B → Prop) ps ps' a d :
  pstep ps ps' → finished R ps' a d → finished R ps a d.
Proof. intros Hs (b & s & Hr & Ha). exists b, s. split; [by eapply rtc_l|done]. Qed.

Lemma reached_self {B} (p : prog C B) s : reached (p, s) s.
Proof. by exists p. Qed.

Lemma read_decoded a name d : decoded name (ReadJSONIfExists json_Decode a name d).
Proof.
  intros c. unfold ReadJSONIfExists, file_error. destruct (securePathLocked _ _); [|done].
  cbn [mbind res_bind]. destruct (validateDirectoryLocked _ _); [|done]. cbn [mbind res_bind].
  destruct (openFileAt _ _ _) as [f|[]]; try done. destruct (ra_stat a); [done|].
  repeat (case_match; try done). intros [= <-]. eauto.
Qed.

(** One call [m] of the directory and the same call [m'] of the contract, and what
    follows them. *)
Lemma run_call {A B E} (R : A → B → Prop) (p' : prog C B) (m : IO (res E))
    (m' : fault → res E * Store C) (g : res E → IO A) (k' : res E → prog C B)
    (P : res E → Prop) d s :
  implements d s →
  (∀ f, pstep (p', s) (k' (m' f).1, (m' f).2)) →
  io_ok (passing s (m' (FSync "")).2)
    (λ r d', P r ∧ ∃ f, same_result r (m' f).1 ∧ implements d' (m' f).2) m d →
  (∀ r r' d' s', P r → same_result r r' → implements d' s' →
    io_ok (visited (k' r', s')) (finished R (k' r', s')) (g r) d') →
  io_ok (visited (p', s)) (finished R (p', s)) (r ⟵ m; g r) d.
Proof.
  intros Him Hstep Hm Hg. apply io_ok_bind.
  eapply io_ok_weaken; [eapply io_ok_passes; [exact Hm|]|].
  - intros x Hx. exists s, (m' (FSync "")).2. split; [apply reached_self|]. split; [|done].
    eapply reached_step; [apply Hstep|apply reached_self].
  - intros r d' (HP & f & Hr & Hd'). specialize (Hg _ _ _ _ HP Hr Hd').
    eapply io_ok_weaken; [eapply io_ok_passes; [exact Hg|]|].
    + intros x. apply visited_step, Hstep.
    + intros a d''. apply finished_step, Hstep.
Qed.

Lemma run_dir_spec {A B} (R : A → B → Prop) sys (p : prog C A) n (p' : prog C B) d s :
  related R p p' → implements d s →
  io_ok (visited (p', s)) (finished R (p', s)) (run_dir sys n p) d.
Proof.
  revert n p' d s.
  induction p as [a|name k IH|name value k IH|name k IH|k IH];
    intros n [b|name' k'|name' value' k'|name' k'|k'] d s; cbn [related]; try done.
  - intros HR Him. apply io_ok_ret. by exists b, s.
  - intros (-> & Ht & Hk) Him. cbn [run_dir].
    apply (run_call R _ _ (λ f, SecureStore.ReadJSONIfExists name' f s) _ k' (decoded name'));
      [done| | |].
    + intros f. exists f. unfold step. cbn [fst snd]. by destruct (SecureStore.ReadJSONIfExists _ _ _).
    + apply io_ok_pure. destruct (ReadJSON_spec json_Decode s name' (sy_read (sys n)) d Ht Him)
        as (f & Hr & Hs). split; [apply read_decoded|]. exists f. by rewrite Hs.
    + intros r r' d' s' HP Hr Hd'. apply IH; [by apply Hk|done].
  - intros (-> & -> & Ht & Hround & Hk) Him. cbn [run_dir].
    apply (run_call R _ _ (λ f, SecureStore.WriteJSON name' value' f s) _ k' (λ _, True)); [done| | |].
    + intros f. exists f. unfold step. cbn [fst snd]. by destruct (SecureStore.WriteJSON _ _ _ _).
    + eapply io_ok_weaken; [by apply WriteJSON_spec|by intros r d' Hr; split].
    + intros r r' d' s' _ Hr Hd'. apply IH; [by apply Hk|done].
  - intros (-> & Ht & Hk) Him. cbn [run_dir].
    apply (run_call R _ _ (λ f, SecureStore.RemoveJSON name' f s) _ k' (λ _, True)); [done| | |].
    + intros f. exists f. unfold step. cbn [fst snd]. by destruct (SecureStore.RemoveJSON _ _ _).
    + eapply io_ok_weaken; [by apply RemoveJSON_spec|by intros r d' Hr; split].
    + intros r r' d' s' _ Hr Hd'. apply IH; [by apply Hk|done].
  - intros Hk Him. cbn [run_dir].
    apply (run_call R _ _ (λ f, SecureStore.Flush f s) _ k' (λ _, True)); [done| | |].
    + intros f. exists f. unfold step. cbn [fst snd]. by destruct (SecureStore.Flush _ _).
    + eapply io_ok_weaken; [eapply io_ok_passes; [exact (Flush_spec json_Decode s _ _ d Him)|]|by intros r d' Hr; split].
      replace (SecureStore.Flush (FSync "") s).2 with s
        by (unfold SecureStore.Flush; by destruct (st_closed s)).
      intros x [Hx|Hx]; [by left|by right; right].
    + intros r r' d' s' _ Hr Hd'. apply IH; [by apply Hk|done].
Qed.

Lemma visited_crashed {B} (ps : prog C B * Store C) x x' :
  visited ps x → dir_crashed x x' →
  ∃ s m, reached ps s ∧ crashed s m ∧ implements x' (SecureStore.New m).
Proof.
  intros (s & p & Hs & Hp & Hx) Hcrash.
  destruct (passing_crashed json_Decode s p x x' Hx Hcrash) as (m & Him & [Hm|Hm]); eauto.
Qed.

(** What the rules of [SecureStore] prove of a program holds of its run over the
    directory: of every crash of it, and of its result. *)
Lemma run_dir_wp {A B} (R : A → B → Prop) (Ip : gmap string C → Prop) (Q : B → Store C → Prop)
    sys n (p : prog C A) (p' : prog C B) d s :
  related R p p' → implements d s → wp (always Ip) Q p' s →
  let '(a, d', trace) := run_dir sys n p d in
  (∃ b s', R a b ∧ implements d' s' ∧ always Ip s' ∧ Q b s')
  ∧ ∀ x x', x ∈ d :: trace → dir_crashed x x' → ∃ m, Ip m ∧ implements x' (SecureStore.New m).
Proof.
  intros Hrel Him Hwp. pose proof (run_dir_spec R sys p n p' d s Hrel Him) as Hrun. unfold io_ok in Hrun.
  destruct (run_dir sys n p d) as [[a d'] trace]. destruct Hrun as [(b & s' & Hsteps & HR & Hd') Htrace].
  split.
  - exists b, s'. split; [done|]. split; [done|].
    destruct (wp_adequate _ _ _ _ _ _ Hwp Hsteps) as [HI HQ]. split; [done|by apply HQ].
  - intros x x' Hx Hcrash. assert (visited (p', s) x) as Hv.
    { apply elem_of_cons in Hx as [->|Hx]; [|by apply (proj1 (Forall_forall _ _) Htrace)].
      exists s, s. split; [apply reached_self|]. split; [apply reached_self|by left]. }
    destruct (visited_crashed _ _ _ Hv Hcrash) as (s1 & m & (p1 & Hr) & Hm & Hi).
    exists m. split; [|done]. by apply (proj1 (wp_adequate _ _ _ _ _ _ Hwp Hr)).
Qed.

(** C8: A program over system calls implements the same program over the contract.
    Whatever the system answers to any of its calls, the run over the directory ends
    as some run over the contract's store ends, with a related result and a directory
    that implements the store; and a crash at any system call of any of its calls
    leaves a directory that implements what a crash of a store the program reaches
    leaves. *)
Theorem run_dir_refines {A B} (R : A → B → Prop) sys n (p : prog C A) (p' : prog C B) d s :
  related R p p' → implements d s →
  let '(a, d', trace) := run_dir sys n p d in
  (∃ b s', rtc pstep (p', s) (Ret b, s') ∧ R a b ∧ implements d' s')
  ∧ ∀ x x', x ∈ d :: trace → dir_crashed x x' →
      ∃ p1 s1 m, rtc pstep (p', s) (p1, s1) ∧ crashed s1 m ∧ implements x' (SecureStore.New m).
Proof.
  intros Hrel Him. pose proof (run_dir_spec R sys p n p' d s Hrel Him) as Hrun. unfold io_ok in Hrun.
  destruct (run_dir sys n p d) as [[a d'] trace]. destruct Hrun as [Hfin Htrace].
  split; [exact Hfin|]. intros x x' Hx Hcrash. assert (visited (p', s) x) as Hv.
  { apply elem_of_cons in Hx as [->|Hx]; [|by apply (proj1 (Forall_forall _ _) Htrace)].
    exists s, s. split; [apply reached_self|]. split; [apply reached_self|by left]. }
  destruct (visited_crashed _ _ _ Hv Hcrash) as (s1 & m & (p1 & Hr) & Hm & Hi). eauto 6.
Qed.

End Run.

(** ** Evaluation *)

Definition demo_sys (n : nat) : sys_answers :=
  {| sy_read := {| ra_view := demo_view; ra_open := None; ra_stat := None; ra_read := None |};
     sy_write := demo_write;
     sy_remove := {| da_before := demo_view; da_unlink := None; da_syncDir := None; da_after := demo_view |};
     sy_flush := (demo_view, None) |}.

(** Write, flush when the write is not known to be durable, and read back. *)
Definition demo_prog : prog string (res (option string)) :=
  PWrite "a.json" "new" (λ r,
    match r with
    | Ok _ => PRead "a.json" Ret
    | Err e =>
        if bool_decide (OutcomeOf e = WriteNeedsRecovery)
        then PFlush (λ _, PRead "a.json" Ret) else Ret (Err e)
    end).

Lemma demo_prog_related : related demo_marshal demo_decode same_result demo_prog demo_prog.
Proof.
  split; [done|]. split; [done|]. split; [discriminate|]. split; [apply demo_round_trips|].
  intros [u|e] [u'|e'] Hr; [by split_and!| | |]; try done. destruct Hr as [Ht Ho].
  cbn [related]. rewrite <- Ho. case_bool_decide; [|by split]. intros r r' _. by split_and!.
Qed.

Lemma run_dir_refines_witness :
  let '(a, d', trace) := run_dir demo_marshal demo_decode demo_sys 0 demo_prog demo_dir in
  a = Ok (Some "new") ∧ length trace = 5%nat ∧ sd_pending d' = []
  ∧ ∃ s', implements demo_decode d' s' ∧ st_pending s' = [].
Proof.
  pose proof (run_dir_refines demo_marshal demo_decode same_result demo_sys 0 demo_prog demo_prog demo_dir
    _ demo_prog_related demo_implements) as Hr.
  destruct (run_dir _ _ _ _ _ _) as [[a d'] trace] eqn:Hrun.
  destruct Hr as [(b & s' & _ & _ & Him) _]. vm_compute in Hrun.
  assert (sd_pending d' = []) as Hp by (by injection Hrun as _ <- _).
  split; [by injection Hrun as <- _ _|]. split; [by injection Hrun as _ _ <-|]. split; [done|].
  exists s'. split; [done|]. by rewrite (im_pending _ _ _ Him), Hp.
Defined.
