(* ===== verification/Settings.v ===== *)
(** * Stored settings and state (zai/settings.go)

    The files the module keeps in its secure store: the settings of the
    management interface, the persisted quota and health state, their
    validation, and the two-phase commit of a settings change. A file is its
    decoded value; [json.Marshal] is the parameter [marshal_settings], used only
    under the digest that identifies a settings file. *)

From stdpp Require Import sorting.
From S2P Require Import Prelude GoStrings GoFloat Host Credits Quota Config Accounts Windows Health SecureStore.

Definition maxPersistedClockSkew : Duration := 5 * minute.
Definition settingsRecoveryVersion : Z := 1.
Definition persistedStateVersion : Z := 2.
Definition legacyPersistedStateVersion : Z := 1.
(** zai/management.go *)
Definition minQuotaTimeout : Duration := second.
Definition maxQuotaTimeout : Duration := 30 * second.

Record accountSetting := {
  as_Name : string;
  as_Plan : string;
  as_Disabled : option bool;
  as_FiveHourCredits : Z;
  as_WeeklyCredits : Z;
}.

Record settingsFile := {
  sf_Version : Z;
  sf_Accounts : gmap string accountSetting;
  sf_ThresholdPercent : option Z;
  sf_PollingInterval : string;
  sf_AuthoritativeMaxAge : string;
  sf_Timeout : string;
}.

(** The zero value of the struct, which a missing file decodes to. *)
Definition zero_settings : settingsFile :=
  {| sf_Version := 0; sf_Accounts := ∅; sf_ThresholdPercent := None; sf_PollingInterval := "";
     sf_AuthoritativeMaxAge := ""; sf_Timeout := "" |}.

Record persistedState := {
  ps_Version : Z;
  ps_Accounts : gmap string accountQuotaState;
  ps_Health : gmap string persistedHealthState;
  ps_Generation : Z;
  ps_RuntimeGeneration : Z;
}.

Definition zero_persisted : persistedState :=
  {| ps_Version := 0; ps_Accounts := ∅; ps_Health := ∅; ps_Generation := 0;
     ps_RuntimeGeneration := 0 |}.

Record settingsRecovery := {
  sr_Version : Z;
  sr_PreviousDigest : string;
  sr_Desired : option settingsFile;
}.

(** What a file of the store holds. *)
Inductive file_content :=
| CSettings (s : settingsFile)
| CRecovery (r : settingsRecovery)
| CState (s : persistedState)
| CCorrupt.

Definition settingsRecoveryName : string := "settings.recovery.json".

(** ** Validation of the state *)

Definition validateAccountIdentity (identity : string) : res unit :=
  if negb (len identity =? 64) then errorf "state.json contains invalid account identity" else
  if negb (hex_decodes identity) then errorf "state.json contains invalid account identity" else
  Ok ().

Definition validatePersistedHealthState (state : persistedHealthState) : res unit :=
  let bad_time t :=
    negb (time_IsZero t) && ((time_Year t <? 2000) || (9999 <? time_Year t)) in
  if bad_time (ph_SuspendedUntil state) then errorf "invalid suspension time" else
  if bad_time (ph_ExhaustedUntil state) then errorf "invalid exhaustion time" else
  if negb (time_IsZero (ph_ExhaustedUntil state))
     && bool_decide (TrimSpace (ph_ExhaustedReason state) = "")
  then errorf "missing exhaustion reason" else
  if 96 <? len (ph_ExhaustedReason state) then errorf "invalid exhaustion reason" else Ok ().

(** One window of an authoritative snapshot. *)
Definition validateWindow (observedAt : Time) (window : quotaWindow) : res unit :=
  if (qw_ConsumedMicrocredits window <? 0) || (qw_BucketMicrocredits window <=? 0)
     || (qw_BucketMicrocredits window <? qw_ConsumedMicrocredits window)
  then errorf "invalid authoritative quota" else
  if negb (time_IsZero (qw_ResetsAt window)) && negb (time_After (qw_ResetsAt window) observedAt)
  then errorf "invalid authoritative quota" else Ok ().

Definition validateAuthoritative (snap : quotaSnapshot) (futureLimit : Time) : res unit :=
  if time_IsZero (sn_ObservedAt snap) || (time_Year (sn_ObservedAt snap) <? 2000)
     || time_After (sn_ObservedAt snap) futureLimit
  then errorf "invalid authoritative observation time" else
  if 240 <? len (sn_FiveHourError snap) then errorf "invalid authoritative quota" else
  if bool_decide (sn_FiveHourError snap = "") then
    _ ← validateWindow (sn_ObservedAt snap) (sn_Weekly snap);
    validateWindow (sn_ObservedAt snap) (sn_FiveHour snap)
  else if negb (bool_decide (sn_FiveHour snap = zero_window))
  then errorf "invalid authoritative quota"
  else validateWindow (sn_ObservedAt snap) (sn_Weekly snap).

(** One iteration of the loop over the events; the state is [last]. *)
Definition validateEvent (futureLimit : Time) (last : Time) (event : creditEvent) : res Time :=
  if time_IsZero (ev_At event) || time_After (ev_At event) futureLimit
     || (ev_Microcredits event <=? 0) || bool_decide (normalizeModelName (ev_Model event) = "")
     || (negb (time_IsZero last) && time_Before (ev_At event) last)
  then errorf "invalid credit event" else Ok (ev_At event).

Definition validateDedupHash (hash : string) : res unit :=
  if negb (len hash =? 64) then errorf "invalid dedup hash" else
  if negb (hex_decodes hash) then errorf "invalid dedup hash" else Ok ().

Definition validateAccountQuotaState (state : accountQuotaState) (now : Time) : res unit :=
  let futureLimit := time_Add now maxPersistedClockSkew in
  if (qs_ConsecutiveFailures state <? 0) || (maxDedupHashes <? length (qs_DedupHashes state))%nat
  then errorf "invalid polling metadata" else
  _ ← match qs_Authoritative state with
      | Some snap => validateAuthoritative snap futureLimit
      | None => Ok ()
      end;
  _ ← foldl_res (validateEvent futureLimit) 0 (qs_Events state);
  foldl_res (λ _, validateDedupHash) () (qs_DedupHashes state).

(** The error of a check, replaced by one text. *)
Definition as_error {A} (msg : string) (r : res A) : res A :=
  match r with Ok a => Ok a | Err _ => errorf msg end.

Definition validatePersistedStateAt (state : persistedState) (now : Time) : res unit :=
  if (ps_Version state =? 0) && bool_decide (ps_Accounts state = ∅)
     && bool_decide (ps_Health state = ∅)
  then Ok () else
  if negb (ps_Version state =? legacyPersistedStateVersion)
     && negb (ps_Version state =? persistedStateVersion)
  then errorf "state.json has unsupported version" else
  if (ps_Version state =? legacyPersistedStateVersion)
     && negb (bool_decide (ps_Health state = ∅))
  then errorf "state.json has unsupported health data" else
  _ ← foldl_res (λ _ kv,
        _ ← validateAccountIdentity kv.1;
        as_error "state.json contains invalid account state"
          (validateAccountQuotaState kv.2 now)) () (map_to_list (ps_Accounts state));
  foldl_res (λ _ kv,
    _ ← validateAccountIdentity kv.1;
    as_error "state.json contains invalid health state"
      (validatePersistedHealthState kv.2)) () (map_to_list (ps_Health state)).

(** ** Settings *)

Definition settingsEmpty (settings : settingsFile) : bool :=
  bool_decide (sf_Accounts settings = ∅)
  && bool_decide (sf_ThresholdPercent settings = None)
  && bool_decide (sf_PollingInterval settings = "")
  && bool_decide (sf_AuthoritativeMaxAge settings = "")
  && bool_decide (sf_Timeout settings = "").

Definition validateStoredSetting (stored : accountSetting) : res unit :=
  let plan := normalizePlan (as_Plan stored) in
  if negb (bool_decide (as_Plan stored = "")) && bool_decide (plan = "")
  then errorf "invalid plan" else
  if (as_FiveHourCredits stored <? 0) || (as_WeeklyCredits stored <? 0)
  then errorf "negative credit bucket" else
  if ((0 <? as_FiveHourCredits stored) && negb (validCreditBucket (as_FiveHourCredits stored)))
     || ((0 <? as_WeeklyCredits stored) && negb (validCreditBucket (as_WeeklyCredits stored)))
  then errorf "credit bucket exceeds supported range" else
  if bool_decide (plan = "custom")
     && ((as_FiveHourCredits stored <=? 0) || (as_WeeklyCredits stored <=? 0))
  then errorf "custom plan requires both credit buckets" else Ok ().

(** One iteration of [validateAccounts]; the state is [seenNames]. *)
Definition validateAccount (seenNames : gset string) (item : account) : res (gset string) :=
  if bool_decide (TrimSpace (ac_Name item) = "") then errorf "account has no name" else
  if bool_decide (normalizePlan (ac_Plan item) = "") then errorf "account has invalid plan" else
  if negb (validCreditBucket (ac_FiveHourCredits item))
     || negb (validCreditBucket (ac_WeeklyCredits item))
  then errorf "account has non-positive or out-of-range credit bucket" else
  let nameKey := ToLower (TrimSpace (ac_Name item)) in
  if bool_decide (nameKey ∈ seenNames) then errorf "duplicate account name"
  else Ok ({[nameKey]} ∪ seenNames).

Definition validateAccounts (accounts : list account) : res unit :=
  _ ← foldl_res validateAccount ∅ accounts; Ok ().

(** The update of one account by its stored setting. *)
Definition applyStoredSetting (item : account) (stored : accountSetting) : account :=
  let name := TrimSpace (as_Name stored) in
  let plan := normalizePlan (as_Plan stored) in
  let buckets := if decide (plan = "") then None else planBuckets !! plan in
  {| ac_Identity := ac_Identity item;
     ac_Name := if decide (name = "") then ac_Name item else name;
     ac_KeySuffix := ac_KeySuffix item;
     ac_Plan := if decide (plan = "") then ac_Plan item else plan;
     ac_Disabled := default (ac_Disabled item) (as_Disabled stored);
     ac_FiveHourCredits :=
       if 0 <? as_FiveHourCredits stored then as_FiveHourCredits stored
       else match buckets with Some b => cb_FiveHour b | None => ac_FiveHourCredits item end;
     ac_WeeklyCredits :=
       if 0 <? as_WeeklyCredits stored then as_WeeklyCredits stored
       else match buckets with Some b => cb_Weekly b | None => ac_WeeklyCredits item end;
     ac_ClaudeAuthID := ac_ClaudeAuthID item; ac_OpenAIAuthID := ac_OpenAIAuthID item;
     ac_claudeAuthIDs := ac_claudeAuthIDs item; ac_key := ac_key item;
     ac_planExplicit := ac_planExplicit item || negb (bool_decide (plan = ""));
     ac_fiveHourCreditsExplicit :=
       ac_fiveHourCreditsExplicit item || (0 <? as_FiveHourCredits stored);
     ac_weeklyCreditsExplicit :=
       ac_weeklyCreditsExplicit item || (0 <? as_WeeklyCredits stored) |}.

Definition check_stored (kv : string * accountSetting) : res unit :=
  if negb (len kv.1 =? 64) || negb (hex_decodes kv.1)
  then errorf "settings.json contains invalid account identity"
  else as_error "settings.json contains invalid account settings" (validateStoredSetting kv.2).

Section WithStd.
Context `{GoStd}.
Context (marshal_settings : settingsFile → string).

Definition applyStoredConfig (cfg : pluginConfig) (settings : settingsFile) : res pluginConfig :=
  let threshold := default (pc_ThresholdPercent cfg) (sf_ThresholdPercent settings) in
  if bool_decide (is_Some (sf_ThresholdPercent settings))
     && ((threshold <? 1) || (100 <? threshold))
  then errorf "settings.json contains invalid threshold_percent" else
  refresh ← if bool_decide (sf_PollingInterval settings = "") then Ok (pc_QuotaRefresh cfg) else
    match parsePositiveDuration "polling_interval" (sf_PollingInterval settings)
            (pc_QuotaRefresh cfg) with
    | Ok d => if (d <? minute) || (3 * minute <? d)
              then errorf "settings.json contains invalid polling_interval" else Ok d
    | Err _ => errorf "settings.json contains invalid polling_interval"
    end;
  maxAge ← if bool_decide (sf_AuthoritativeMaxAge settings = "")
    then Ok (pc_AuthoritativeMaxAge cfg)
    else as_error "settings.json contains invalid authoritative_max_age"
      (parsePositiveDuration "authoritative_max_age" (sf_AuthoritativeMaxAge settings)
         (pc_AuthoritativeMaxAge cfg));
  if maxAge <=? maxPollInterval refresh
  then errorf "settings.json authoritative_max_age must exceed maximum polling jitter" else
  timeout ← if bool_decide (sf_Timeout settings = "") then Ok (pc_QuotaTimeout cfg) else
    match parsePositiveDuration "timeout" (sf_Timeout settings) (pc_QuotaTimeout cfg) with
    | Ok d => if (d <? minQuotaTimeout) || (maxQuotaTimeout <? d)
              then errorf "settings.json contains invalid timeout" else Ok d
    | Err _ => errorf "settings.json contains invalid timeout"
    end;
  Ok {| pc_CPAConfigPath := pc_CPAConfigPath cfg; pc_QuotaRefresh := refresh;
        pc_AuthoritativeMaxAge := maxAge; pc_QuotaTimeout := timeout;
        pc_ThresholdPercent := threshold; pc_SuspendDuration := pc_SuspendDuration cfg;
        pc_FallbackCooldown := pc_FallbackCooldown cfg;
        pc_StateRetention := pc_StateRetention cfg; pc_DefaultPlan := pc_DefaultPlan cfg;
        pc_Accounts := pc_Accounts cfg |}.

(** The configuration the settings are checked against. *)
Definition settings_base_config : pluginConfig :=
  {| pc_CPAConfigPath := ""; pc_QuotaRefresh := defaultQuotaRefresh;
     pc_AuthoritativeMaxAge := defaultAuthoritativeMaxAge;
     pc_QuotaTimeout := defaultQuotaTimeout; pc_ThresholdPercent := defaultThreshold;
     pc_SuspendDuration := 0; pc_FallbackCooldown := 0; pc_StateRetention := 0;
     pc_DefaultPlan := ""; pc_Accounts := [] |}.

Definition validateSettingsFile (settings : settingsFile) : res unit :=
  if (sf_Version settings =? 0) && settingsEmpty settings then Ok () else
  if negb (sf_Version settings =? 1) then errorf "settings.json has unsupported version" else
  _ ← applyStoredConfig settings_base_config settings; Ok ().

Definition applyStoredSettings (accounts : list account) (settings : settingsFile)
    : res (list account) :=
  if (sf_Version settings =? 0) && settingsEmpty settings then Ok accounts else
  if negb (sf_Version settings =? 1) then errorf "settings.json has unsupported version" else
  _ ← applyStoredConfig settings_base_config settings;
  _ ← foldl_res (λ _, check_stored) () (map_to_list (sf_Accounts settings));
  let accounts := (λ item,
    match sf_Accounts settings !! ac_Identity item with
    | Some stored => applyStoredSetting item stored
    | None => item
    end) <$> accounts in
  _ ← validateAccounts accounts;
  Ok accounts.

Definition settingsDigest (settings : settingsFile) : string :=
  sha256_hex (marshal_settings settings).

(** ** The store's programs *)

Abbreviation sprog := (prog file_content).

(** The decoded and validated content of settings.json. *)
Definition decode_settings (c : option file_content) : res settingsFile :=
  match c with
  | None => _ ← validateSettingsFile zero_settings; Ok zero_settings
  | Some (CSettings settings) => _ ← validateSettingsFile settings; Ok settings
  | Some _ => errorf "decode settings.json: corrupt state"
  end.

Definition loadSettings {A} (k : res settingsFile → sprog A) : sprog A :=
  PRead "settings.json" (λ r, k (c ← r; decode_settings c)).

Definition recovery_marker (previous : settingsFile) (desired : option settingsFile)
    : file_content :=
  CRecovery {| sr_Version := settingsRecoveryVersion;
               sr_PreviousDigest := settingsDigest previous; sr_Desired := desired |}.

(** From the write of settings.json on. *)
Definition commitSettings (settings : settingsFile) : sprog (res unit) :=
  PWrite "settings.json" (CSettings settings) (λ r,
    match r with
    | Ok _ =>
        PRemove settingsRecoveryName (λ r,
          match r with
          | Ok _ => Ret (Ok ())
          | Err e =>
              if bool_decide (OutcomeOf e = WriteNeedsRecovery) then Ret (Ok ())
              else Ret (Err (EWrap "clear settings recovery: " e))
          end)
    | Err e =>
        let pending := Err (EPending (EWrap "commit settings: " e)) in
        if bool_decide (OutcomeOf e = WriteNeedsRecovery)
        then PFlush (λ f, Ret (if is_Ok f then Ok () else pending))
        else Ret pending
    end).

Definition saveSettings (settings : settingsFile) : sprog (res unit) :=
  loadSettings (λ r,
    match r with
    | Err e =>
        Ret (if Contains (error_text e) "too many levels of symbolic links"
             then errorf "refusing symlink target" else Err e)
    | Ok previous =>
        PWrite settingsRecoveryName (recovery_marker previous None) (λ r,
        match r with
        | Err e => Ret (Err (EWrap "stage settings recovery: " e))
        | Ok _ =>
        PWrite settingsRecoveryName (recovery_marker previous (Some settings)) (λ r,
        match r with
        | Ok _ => commitSettings settings
        | Err e =>
            if negb (bool_decide (OutcomeOf e = WriteNeedsRecovery))
            then Ret (Err (EWrap "prepare settings recovery: " e))
            else PFlush (λ f,
              match f with
              | Ok _ => commitSettings settings
              | Err _ =>
                  loadSettings (λ current,
                    match current with
                    | Ok current =>
                        if bool_decide (settingsDigest current = settingsDigest settings)
                        then Ret (Ok ())
                        else Ret (Err (EPending (EWrap "prepare settings recovery: " e)))
                    | Err _ => Ret (Err (EPending (EWrap "prepare settings recovery: " e)))
                    end)
              end)
        end)
        end)
    end).

Definition recoverSettings : sprog (res settingsFile) :=
  loadSettings (λ r,
    match r with
    | Err e => Ret (Err e)
    | Ok settings =>
        PRead settingsRecoveryName (λ r,
        match r with
        | Err e => Ret (Err e)
        | Ok None => Ret (Ok settings)
        | Ok (Some (CRecovery recovery)) =>
            if negb (sr_Version recovery =? settingsRecoveryVersion)
            then Ret (errorf "settings recovery marker is invalid") else
            let mismatch := errorf "settings recovery marker does not match settings.json" in
            match sr_Desired recovery with
            | None =>
                if negb (bool_decide (settingsDigest settings = sr_PreviousDigest recovery))
                then Ret mismatch
                else PRemove settingsRecoveryName (λ _, Ret (Ok settings))
            | Some desired =>
                if negb (is_Ok (validateSettingsFile desired))
                then Ret (errorf "settings recovery marker is invalid")
                else if bool_decide (settingsDigest settings = sr_PreviousDigest recovery)
                then PWrite "settings.json" (CSettings desired) (λ w,
                  match w with
                  | Err e =>
                      if negb (bool_decide (OutcomeOf e = WriteNeedsRecovery))
                      then Ret (Err (EWrap "roll forward settings recovery: " e))
                      else PRemove settingsRecoveryName (λ _, Ret (Ok desired))
                  | Ok _ => PRemove settingsRecoveryName (λ _, Ret (Ok desired))
                  end)
                else if bool_decide (settingsDigest settings = settingsDigest desired)
                then PRemove settingsRecoveryName (λ _, Ret (Ok desired))
                else Ret mismatch
            end
        | Ok (Some _) => Ret (errorf "decode settings.recovery.json: corrupt state")
        end)
    end).

Definition loadStateAt {A} (now : Time) (k : res persistedState → sprog A) : sprog A :=
  PRead "state.json" (λ r, k (
    c ← r;
    match c with
    | None => _ ← validatePersistedStateAt zero_persisted now; Ok zero_persisted
    | Some (CState state) => _ ← validatePersistedStateAt state now; Ok state
    | Some _ => errorf "decode state.json: corrupt state"
    end)).

(** The generations are not encoded: they are read back as 0. *)
Definition stored_state (state : persistedState) : persistedState :=
  {| ps_Version := ps_Version state; ps_Accounts := ps_Accounts state;
     ps_Health := ps_Health state; ps_Generation := 0; ps_RuntimeGeneration := 0 |}.

Definition saveState (state : persistedState) (now : Time) : sprog (res unit) :=
  match validatePersistedStateAt state now with
  | Err e => Ret (Err e)
  | Ok _ => PWrite "state.json" (CState (stored_state state)) Ret
  end.

End WithStd.

(** ** The two-phase commit *)

Section Commit.
Context `{GoStd}.
Context (marshal_settings : settingsFile → string).

#[local] Abbreviation digest := (settingsDigest marshal_settings).

(** The directory's settings, and what recovery makes of the directory. *)
Definition loaded (m : gmap string file_content) : res settingsFile :=
  decode_settings (m !! "settings.json").

Definition recovered (m : gmap string file_content) : res settingsFile :=
  (run [] (recoverSettings marshal_settings) (New m)).1.

(** A directory on which recovery gives [s] whatever part of it it completes. *)
Definition holds (s : settingsFile) (m : gmap string file_content) : Prop :=
  loaded m = Ok s ∧
  (m !! settingsRecoveryName = None
   ∨ m !! settingsRecoveryName = Some (recovery_marker marshal_settings s None)
   ∨ ∃ prev, m !! settingsRecoveryName = Some (CRecovery {|
       sr_Version := settingsRecoveryVersion; sr_PreviousDigest := prev; sr_Desired := Some s |})).

Definition valid (s : settingsFile) : Prop := validateSettingsFile s = Ok ().

Lemma loaded_valid m s : loaded m = Ok s → valid s.
Proof.
  unfold loaded, valid, decode_settings. destruct (m !! "settings.json") as [[]|]; try done.
  - destruct (validateSettingsFile _) as [[]|] eqn:E; [|done]. by intros [= <-].
  - destruct (validateSettingsFile _) as [[]|] eqn:E; [|done]. by intros [= <-].
Qed.

Lemma loaded_put m s : valid s → loaded (<["settings.json" := CSettings s]> m) = Ok s.
Proof. intros Hv. unfold loaded. rewrite lookup_insert_eq. simpl. by rewrite Hv. Qed.

Lemma loaded_marker m c : loaded (<[settingsRecoveryName := c]> m) = loaded m.
Proof. unfold loaded. by rewrite lookup_insert_ne. Qed.

Lemma loaded_unmark m : loaded (delete settingsRecoveryName m) = loaded m.
Proof. unfold loaded. by rewrite lookup_delete_ne. Qed.

(** Recovery as a function of the directory. *)
Lemma recovered_eq m :
  recovered m =
  match loaded m with
  | Err e => Err e
  | Ok s =>
      match m !! settingsRecoveryName with
      | None => Ok s
      | Some (CRecovery r) =>
          if negb (sr_Version r =? settingsRecoveryVersion)
          then errorf "settings recovery marker is invalid" else
          match sr_Desired r with
          | None =>
              if bool_decide (digest s = sr_PreviousDigest r) then Ok s
              else errorf "settings recovery marker does not match settings.json"
          | Some desired =>
              if negb (is_Ok (validateSettingsFile desired))
              then errorf "settings recovery marker is invalid" else
              if bool_decide (digest s = sr_PreviousDigest r)
                 || bool_decide (digest s = digest desired) then Ok desired
              else errorf "settings recovery marker does not match settings.json"
          end
      | Some _ => errorf "decode settings.recovery.json: corrupt state"
      end
  end.
Proof.
  unfold recovered, recoverSettings, loadSettings. cbn [run].
  assert (∀ name (s : Store file_content), st_closed s = false → valid_name name = true →
    ReadJSONIfExists name FNone s = (Ok (contents s !! name), s)) as Hread.
  { intros name s Ho Hn. unfold ReadJSONIfExists, checked. by rewrite Ho, Hn. }
  rewrite Hread by done. change (contents (New m)) with m. cbn [mbind res_bind].
  change (decode_settings (m !! "settings.json")) with (loaded m).
  destruct (loaded m) as [s|e]; [|done]. cbn [run]. rewrite Hread by done.
  change (contents (New m)) with m.
  destruct (m !! settingsRecoveryName) as [[|r| |]|]; try done.
  destruct (negb (sr_Version r =? settingsRecoveryVersion)); [done|].
  destruct (sr_Desired r) as [desired|].
  - destruct (negb (is_Ok _)); [done|].
    destruct (bool_decide (digest s = sr_PreviousDigest r)); simpl.
    + destruct (RemoveJSON _ _ _). done.
    + destruct (bool_decide (digest s = digest desired)); simpl; [|done].
      by destruct (RemoveJSON _ _ _).
  - destruct (bool_decide _); simpl; [|done]. by destruct (RemoveJSON _ _ _).
Qed.

Lemma holds_recovered s m : holds s m → recovered m = Ok s.
Proof.
  intros [Hl Hmark]. pose proof (loaded_valid _ _ Hl) as Hv. rewrite recovered_eq, Hl.
  destruct Hmark as [->|[->|(prev & ->)]]; simpl; [done| |].
  - by rewrite bool_decide_eq_true_2.
  - rewrite Hv. simpl. by rewrite (bool_decide_eq_true_2 (digest s = digest s)), orb_true_r.
Qed.

(** The stages of a change from [previous] to [desired], as conditions on the
    directory a crash may leave. *)
Section Stages.
Context (previous desired : settingsFile) (Hprev : valid previous) (Hdes : valid desired).

Definition staged (m : gmap string file_content) : Prop :=
  loaded m = Ok previous
  ∧ m !! settingsRecoveryName = Some (recovery_marker marshal_settings previous None).

Definition marked (m : gmap string file_content) : Prop :=
  m !! settingsRecoveryName = Some (recovery_marker marshal_settings previous (Some desired)).

Definition prepared (m : gmap string file_content) : Prop := loaded m = Ok previous ∧ marked m.

Definition committing (m : gmap string file_content) : Prop :=
  (loaded m = Ok previous ∨ loaded m = Ok desired) ∧ marked m.

Definition committed (m : gmap string file_content) : Prop :=
  loaded m = Ok desired ∧ (marked m ∨ m !! settingsRecoveryName = None).

Lemma holds_staged m :
  holds previous m →
  staged (<[settingsRecoveryName := recovery_marker marshal_settings previous None]> m).
Proof. intros [Hl _]. split; [by rewrite loaded_marker|apply lookup_insert_eq]. Qed.

Lemma staged_holds m : staged m → holds previous m.
Proof. intros [Hl Hm]. split; [done|]. right. by left. Qed.

Lemma mark_prepared m :
  loaded m = Ok previous →
  prepared (<[settingsRecoveryName := recovery_marker marshal_settings previous (Some desired)]> m).
Proof. intros Hl. split; [by rewrite loaded_marker|apply lookup_insert_eq]. Qed.

Lemma put_committing m :
  marked m → loaded (<["settings.json" := CSettings desired]> m) = Ok desired
  ∧ marked (<["settings.json" := CSettings desired]> m).
Proof. intros Hm. split; [by apply loaded_put|]. unfold marked. by rewrite lookup_insert_ne. Qed.

Lemma committing_recovered m : committing m → recovered m = Ok desired.
Proof.
  intros [Hl Hm]. rewrite recovered_eq, Hm. simpl. rewrite Hdes. simpl.
  destruct Hl as [-> | ->].
  - by rewrite (bool_decide_eq_true_2 (digest previous = digest previous)).
  - by rewrite (bool_decide_eq_true_2 (digest desired = digest desired)), orb_true_r.
Qed.

Lemma committed_recovered m : committed m → recovered m = Ok desired.
Proof.
  intros [Hl [Hm|Hm]]; [apply committing_recovered; split; [by right|done]|].
  by rewrite recovered_eq, Hl, Hm.
Qed.

Lemma committed_holds m : committed m → holds desired m.
Proof.
  intros [Hl [Hm|Hm]]; split; try done; [|by left]. right. right. by exists (digest previous).
Qed.

(** Never anything but the old or the new settings, in the file and after recovery. *)
Definition one_of (r : res settingsFile) : Prop := r = Ok previous ∨ r = Ok desired.

Definition either (m : gmap string file_content) : Prop := one_of (loaded m) ∧ one_of (recovered m).

Lemma holds_either m : holds previous m → either m.
Proof. intros Hm. split; left; [apply Hm|by apply holds_recovered]. Qed.

Lemma committing_either m : committing m → either m.
Proof. intros Hm. split; [apply Hm|right; by apply committing_recovered]. Qed.

Lemma committed_either m : committed m → either m.
Proof. intros Hm. split; right; [apply Hm|by apply committed_recovered]. Qed.

(** Without the marker, recovery gives what is in the file. *)
Lemma either_unmark m : one_of (loaded m) → either (delete settingsRecoveryName m).
Proof.
  intros Hl. assert (loaded (delete settingsRecoveryName m) = loaded m) as Hd by apply loaded_unmark.
  split; rewrite ?recovered_eq, Hd; [done|]. rewrite lookup_delete_eq. by destruct (loaded m).
Qed.

(** What a result of [saveSettings] promises about every later crash. *)
Definition save_post (r : res unit) (s : Store file_content) : Prop :=
  match r with
  | Ok _ => ∀ m, crashed s m → ∃ s', recovered m = Ok s' ∧ digest s' = digest desired
  | Err (EPending (EWrap prefix _)) =>
      prefix = "commit settings: " → ∀ m, crashed s m → recovered m = Ok desired
  | Err _ => True
  end.

Lemma save_post_ok s :
  (∀ m, crashed s m → recovered m = Ok desired) → save_post (Ok ()) s.
Proof. intros Hs m Hm. eauto. Qed.

Lemma commit_wp s :
  crashing prepared prepared s →
  wp (always either) save_post (commitSettings desired) s.
Proof.
  intros Hs. unfold commitSettings.
  assert (∀ m, prepared m → committing m) as Hpc by (intros m [? ?]; split; auto).
  pose proof committing_either as Hce. pose proof committed_either as Hde.
  apply wp_write with (P := prepared) (Pc := prepared) (P' := committing) (Pc' := committed);
    [done|done|auto| | | | |].
  - intros m Hm. split; [auto|]. destruct Hm as [_ Hm]. apply put_committing in Hm as [? ?].
    split; auto.
  - intros m [_ Hm]. apply put_committing in Hm as [? ?]. split; auto.
  - intros msg. simpl. apply wp_ret with prepared prepared; [done|auto|].
    intros _ m Hm. apply committing_recovered, Hpc, (cr_crash _ _ _ Hs m Hm).
  - intros msg s' Hs'. simpl. apply wp_flush with committing committed; [done|done| |].
    + intros msg'. simpl. apply wp_ret with committing committed; [done|done|].
      intros _ m Hm. apply committing_recovered, (cr_crash _ _ _ Hs' m Hm).
    + intros s'' Hs''. simpl. apply wp_ret with committed committed; [done|done|].
      apply save_post_ok. intros m Hm. apply committed_recovered, (cr_crash _ _ _ Hs'' m Hm).
  - intros r s' Hs' [-> | [msg ->]].
    + apply wp_remove with (P := committed) (Pc := committed) (P' := committed) (Pc' := committed);
        [done|done|done| | | |done].
      * intros m Hm. split; [done|]. destruct Hm as [Hl _].
        split; [by rewrite loaded_unmark|right; apply lookup_delete_eq].
      * intros m Hm. split; [done|]. destruct Hm as [Hl _].
        split; [by rewrite loaded_unmark|right; apply lookup_delete_eq].
      * intros r s'' Hs''.
        assert (save_post (Ok ()) s'') as Hok.
        { apply save_post_ok. intros m Hm. apply committed_recovered, (cr_crash _ _ _ Hs'' m Hm). }
        destruct r as [|e]; [by apply wp_ret with committed committed|].
        case_bool_decide; by apply wp_ret with committed committed.
    + simpl. apply wp_ret with committed committed; [done|done|].
      intros _ m Hm. apply committed_recovered, (cr_crash _ _ _ Hs' m Hm).
Qed.

Lemma save_wp s :
  crashing (holds previous) (holds previous) s →
  wp (always either) save_post (saveSettings marshal_settings desired) s.
Proof.
  intros Hs. unfold saveSettings, loadSettings.
  pose proof holds_either as Hhe.
  assert (∀ m, prepared m → either m) as Hpe.
  { intros m [? ?]. apply committing_either. split; auto. }
  assert (∀ m, staged m → either m) as Hse by (intros; by apply Hhe, staged_holds).
  apply wp_read with (holds previous) (holds previous); [done|done|done| |].
  { intros msg. simpl. by apply wp_ret with (holds previous) (holds previous); [| |case_match]. }
  pose proof (cr_now _ _ _ Hs) as [Hload _]. unfold loaded in Hload.
  cbn [mbind res_bind]. rewrite Hload.
  apply wp_write with (P := holds previous) (Pc := holds previous)
    (P' := holds previous) (Pc' := staged); [done|done|done| | | | |].
  - intros m Hm. split; [done|]. by apply staged_holds, holds_staged.
  - intros m Hm. by apply holds_staged.
  - intros msg. by apply wp_ret with (holds previous) (holds previous).
  - intros msg s' Hs'. by apply wp_ret with (holds previous) staged.
  - intros r s' Hs' [-> | [msg ->]]; [|by apply wp_ret with staged staged].
    apply wp_write with (P := staged) (Pc := staged) (P' := λ m, staged m ∨ prepared m)
      (Pc' := prepared); [done|done|done| | | | |].
    + intros m Hm. split; [by left|]. right. apply mark_prepared, Hm.
    + intros m Hm. apply mark_prepared, Hm.
    + intros msg. simpl. by apply wp_ret with staged staged.
    + intros msg s'' Hs''. simpl.
      assert (∀ m, staged m ∨ prepared m → either m) as Hspe by (intros m [?|?]; auto).
      apply wp_flush with (λ m, staged m ∨ prepared m) prepared; [done|done| |].
      * intros msg'. apply wp_read with (λ m, staged m ∨ prepared m) prepared; [done|done|done| |].
        { intros msg''. by apply wp_ret with (λ m, staged m ∨ prepared m) prepared. }
        pose proof (cr_now _ _ _ Hs'') as [Hload' _]. unfold loaded in Hload'.
        cbn [mbind res_bind]. rewrite Hload'. case_bool_decide as Hdig.
        -- apply wp_ret with (λ m, staged m ∨ prepared m) prepared; [done|done|].
           intros m Hm. destruct (Hspe m (cr_crash _ _ _ Hs'' m Hm)) as [_ [?|?]]; eauto.
        -- by apply wp_ret with (λ m, staged m ∨ prepared m) prepared.
      * intros s3 Hs3. by apply commit_wp.
    + intros r s'' Hs'' [-> | [msg ->]]; [by apply commit_wp|].
      simpl. by apply wp_ret with prepared prepared.
Qed.

(** The removal of the marker, on any directory with settings of the change. *)
Lemma unmark_wp P s (k : res unit → prog file_content (res settingsFile)) found (Q : settingsFile → Prop) :
  crashing P P s → (∀ m, P m → either m) → (∀ r, k r = Ret (Ok found)) → Q found →
  wp (always either) (λ r _, ∀ f, r = Ok f → Q f) (PRemove settingsRecoveryName k) s.
Proof.
  intros Hs HP Hk HQ.
  assert (∀ m, P m → either m ∧ either (delete settingsRecoveryName m)) as HPf.
  { intros m Hm%HP. split; [done|]. apply either_unmark, Hm. }
  apply wp_remove with (P := P) (Pc := P) (P' := either) (Pc' := either); auto.
  intros r s1 Hs1. rewrite Hk. apply wp_ret with either either; [done|done|]. by intros ? [= <-].
Qed.

(** Recovery of a directory that a crash left, under any failures: an error, or what
    recovery without failures gives; and whatever a crash leaves of it is again the
    old or the new settings. *)
Lemma recover_again_wp m0 :
  either m0 →
  wp (always either) (λ r _, ∀ found, r = Ok found → recovered m0 = Ok found)
    (recoverSettings marshal_settings) (New m0).
Proof.
  intros Hm0. pose proof Hm0 as [Hload Hrec]. unfold recoverSettings, loadSettings.
  set (at0 m := m = m0). assert (∀ m, at0 m → either m) as Hat by (by intros m ->).
  pose proof (crashing_New at0 m0 eq_refl) as Hs.
  apply wp_read with at0 at0; [done|done|done| |].
  { intros msg. by apply wp_ret with at0 at0. }
  cbn [mbind res_bind]. change (decode_settings (contents (New m0) !! "settings.json")) with (loaded m0).
  change (contents (New m0)) with m0. rewrite recovered_eq in Hrec |- *.
  assert (∃ cur, loaded m0 = Ok cur) as (cur & Hcur) by (destruct Hload; eauto). rewrite Hcur in *.
  apply wp_read with at0 at0; [done|done|done| |].
  { intros msg. by apply wp_ret with at0 at0. }
  change (contents (New m0)) with m0.
  assert (∀ e Q, wp (always either) (λ r _, ∀ f : settingsFile, r = Ok f → Q f) (Ret (Err e)) (New m0)) as Herr.
  { intros e Q. by apply wp_ret with at0 at0. }
  destruct (m0 !! settingsRecoveryName) as [[|r| |]|] eqn:Hmark; [apply Herr| |apply Herr|apply Herr|].
  2: { apply wp_ret with at0 at0; [done|done|by intros ? [= ->]]. }
  destruct (negb (sr_Version r =? settingsRecoveryVersion)) eqn:Hver; [apply Herr|].
  destruct (sr_Desired r) as [des|] eqn:Hd.
  2: { destruct (bool_decide (digest cur = sr_PreviousDigest r)); [|apply Herr].
       by apply (unmark_wp at0 _ _ cur (λ f, Ok cur = Ok f)). }
  destruct (validateSettingsFile des) as [[]|] eqn:Hv; [|apply Herr]. cbn [is_Ok negb] in *.
  destruct (bool_decide (digest cur = sr_PreviousDigest r)) eqn:Hp; cbn [orb] in *.
  2: { destruct (bool_decide (digest cur = digest des)); [|apply Herr].
       by apply (unmark_wp at0 _ _ des (λ f, Ok des = Ok f)). }
  set (put := <["settings.json" := CSettings des]> m0).
  assert (either put) as Hput.
  { split; rewrite ?recovered_eq; unfold put; rewrite (loaded_put _ _ Hv); [done|].
    rewrite lookup_insert_ne, Hmark, Hver, Hd, Hv by done. cbn [is_Ok negb].
    by rewrite (bool_decide_eq_true_2 (digest des = digest des)), orb_true_r. }
  set (both m := m = m0 ∨ m = put). assert (∀ m, both m → either m) as Hboth by (by intros m [->| ->]).
  apply wp_write with (P := at0) (Pc := at0) (P' := both) (Pc' := λ m, m = put); [done|done|done| | | | |].
  - intros m ->. split; [by left|by right].
  - by intros m ->.
  - intros msg. apply Herr.
  - intros msg s' Hs'. apply (unmark_wp both _ _ des (λ f, Ok des = Ok f)); [|done|done|done].
    eapply crashing_weaken; [split; [apply Hs'|apply Hs'|]|done|done].
    apply (cr_crash _ _ _ Hs'), crashed_contents.
  - intros w s' Hs' [-> | [msg ->]]; [|by apply wp_ret with (λ m, m = put) (λ m, m = put);
      [|intros m ->|]].
    apply (unmark_wp (λ m, m = put) _ _ des (λ f, Ok des = Ok f)); [done|by intros m ->|done|done].
Qed.

(** Recovery of a change that was being committed. *)
Lemma recover_wp s :
  crashing committing committing s →
  wp (always either) (λ r _, ∀ s', r = Ok s' → s' = desired) (recoverSettings marshal_settings) s.
Proof.
  intros Hs. unfold recoverSettings, loadSettings.
  pose proof committing_either as Hce. pose proof committed_either as Hde.
  apply wp_read with committing committing; [done|done|done| |].
  { intros msg. by apply wp_ret with committing committing. }
  pose proof (cr_now _ _ _ Hs) as [Hload Hmark]. cbn [mbind res_bind].
  change (decode_settings (contents s !! "settings.json")) with (loaded (contents s)).
  assert (∃ cur, loaded (contents s) = Ok cur ∧ (cur = previous ∨ cur = desired)) as (cur & Hcur & Hc)
    by (destruct Hload; eauto).
  rewrite Hcur. apply wp_read with committing committing; [done|done|done| |].
  { intros msg. by apply wp_ret with committing committing. }
  rewrite Hmark. simpl. rewrite Hdes. simpl. case_bool_decide as Hdig.
  - apply wp_write with (P := committing) (Pc := committing) (P' := committing) (Pc' := committed);
      [done|done|done| | | | |].
    + intros m Hm. split; [done|]. destruct Hm as [_ Hm]. apply put_committing in Hm as [? ?].
      split; auto.
    + intros m [_ Hm]. apply put_committing in Hm as [? ?]. split; auto.
    + intros msg. by apply wp_ret with committing committing.
    + intros msg s' Hs'. simpl. assert (crashing committing committing s') as Hs''.
      { split; [apply Hs'|apply Hs'|]. apply (cr_crash _ _ _ Hs'), crashed_contents. }
      by apply (unmark_wp committing _ _ desired).
    + intros r s' Hs' [-> | [msg ->]]; [|by apply wp_ret with committed committed].
      by apply (unmark_wp committed _ _ desired).
  - rewrite bool_decide_eq_true_2.
    + by apply (unmark_wp committing _ _ desired).
    + destruct Hc; subst; [|done]. by destruct Hdig.
Qed.

End Stages.

End Commit.

Arguments holds : simpl never.

(** ** Properties *)

(** A settings change is atomic under any failures and a crash at any point:
    whatever part of the unsynchronised changes the crash keeps, recovery gives
    exactly the old or the new settings. A change reported as done is found by
    every later recovery; so is one reported as pending after its marker became
    durable. *)
Theorem saveSettings_crash_consistent `{GoStd} marshal previous desired s p' s' :
  valid desired →
  crashing (holds marshal previous) (holds marshal previous) s →
  rtc pstep (saveSettings marshal desired, s) (p', s') →
  (∀ m, crashed s' m → recovered marshal m = Ok previous ∨ recovered marshal m = Ok desired)
  ∧ (p' = Ret (Ok ()) → ∀ m, crashed s' m → ∃ found, recovered marshal m = Ok found
       ∧ settingsDigest marshal found = settingsDigest marshal desired)
  ∧ (∀ e, p' = Ret (Err (EPending (EWrap "commit settings: " e))) →
       ∀ m, crashed s' m → recovered marshal m = Ok desired).
Proof.
  intros Hdes Hs Hsteps.
  apply (save_wp marshal previous desired Hdes) in Hs.
  destruct (wp_adequate _ _ _ _ _ _ Hs Hsteps) as [Hi Hq].
  split; [by intros m [_ Hm]%Hi|]. split.
  - intros ->. exact (Hq _ eq_refl).
  - intros e ->. by apply (Hq _ eq_refl).
Qed.

Definition demo_settings : settingsFile :=
  {| sf_Version := 1; sf_Accounts := ∅; sf_ThresholdPercent := Some 90;
     sf_PollingInterval := ""; sf_AuthoritativeMaxAge := ""; sf_Timeout := "" |}.
Definition demo_marshal (s : settingsFile) : string :=
  itoa (sf_Version s) +:+ "/" +:+ itoa (default 0 (sf_ThresholdPercent s)).

Lemma demo_zero_holds :
  crashing (holds (H := DemoStd.demo_std) demo_marshal zero_settings)
    (holds (H := DemoStd.demo_std) demo_marshal zero_settings) (New ∅).
Proof. apply crashing_New. split; [vm_compute; reflexivity|left; reflexivity]. Qed.

(** The rename of settings.json is not synchronised, and neither is the flush. *)
Lemma saveSettings_crash_consistent_witness :
  ∃ s', (∃ e, run [FNone; FNone; FNone; FSync "io"; FBefore "io"]
      (saveSettings (H := DemoStd.demo_std) demo_marshal demo_settings) (New ∅)
      = (Err (EPending (EWrap "commit settings: " e)), s'))
  ∧ ∀ m, crashed s' m →
      recovered (H := DemoStd.demo_std) demo_marshal m = Ok demo_settings.
Proof.
  set (result := run (C := file_content) [FNone; FNone; FNone; FSync "io"; FBefore "io"]
    (saveSettings (H := DemoStd.demo_std) demo_marshal demo_settings) (New ∅)).
  assert (Hr : result.1 = Err (EPending (EWrap "commit settings: " (sync_error "io"))))
    by (vm_compute; reflexivity).
  exists result.2. split; [exists (sync_error "io"); by destruct result; simpl in Hr; subst|].
  destruct (saveSettings_crash_consistent (H := DemoStd.demo_std) demo_marshal zero_settings
    demo_settings (New ∅) (Ret result.1) result.2) as (_ & _ & Hp).
  - vm_compute. reflexivity.
  - exact demo_zero_holds.
  - apply run_steps.
  - apply (Hp (sync_error "io")). by rewrite Hr.
Defined.

(** A change can be refused and still take effect: when only the removal of
    the recovery marker fails, [saveSettings] returns an error that is not a
    pending one, although the new settings are what every recovery finds. *)
Theorem saveSettings_remove_failure `{GoStd} marshal previous desired s msg :
  valid desired →
  crashing (holds marshal previous) (holds marshal previous) s →
  let r := run [FNone; FNone; FNone; FNone; FBefore msg] (saveSettings marshal desired) s in
  r.1 = Err (EWrap "clear settings recovery: " (EText msg))
  ∧ ∀ m, crashed r.2 m → recovered marshal m = Ok desired.
Proof.
  intros Hdes Hs. pose proof (cr_now _ _ _ Hs) as [Hload _]. unfold loaded in Hload.
  pose proof (cr_open _ _ _ Hs) as Ho.
  set (s1 := syncDir (push (Put settingsRecoveryName (recovery_marker marshal previous None)) s)).
  set (s2 := syncDir (push (Put settingsRecoveryName
    (recovery_marker marshal previous (Some desired))) s1)).
  set (s3 := syncDir (push (Put "settings.json" (CSettings desired)) s2)).
  assert (run [FNone; FNone; FNone; FNone; FBefore msg] (saveSettings marshal desired) s
    = (Err (EWrap "clear settings recovery: " (EText msg)), s3)) as ->.
  { unfold saveSettings, loadSettings. rewrite run_read by done.
    cbn [mbind res_bind]. rewrite Hload. do 2 rewrite run_write by done.
    unfold commitSettings. rewrite run_write by done. by rewrite run_remove_before. }
  split; [done|]. intros m ->%crashed_sync. rewrite contents_push.
  apply (committing_recovered marshal previous desired Hdes).
  destruct (put_committing marshal previous desired Hdes (contents s2)) as [Hl Hmk].
  - unfold marked. change (contents s2) with (contents (push (Put settingsRecoveryName
      (recovery_marker marshal previous (Some desired))) s1)).
    rewrite contents_push. apply lookup_insert_eq.
  - split; [by right|done].
Qed.

Lemma saveSettings_remove_failure_witness :
  (run [FNone; FNone; FNone; FNone; FBefore "io"]
     (saveSettings (H := DemoStd.demo_std) demo_marshal demo_settings) (New ∅)).1
  = Err (EWrap "clear settings recovery: " (EText "io")).
Proof.
  apply (saveSettings_remove_failure (H := DemoStd.demo_std) demo_marshal zero_settings).
  - vm_compute. reflexivity.
  - exact demo_zero_holds.
Defined.

(** Recovery of a change that was being committed rolls it forward: under any
    failures it never returns other settings than the new ones, and at every
    point a crash and a new recovery give the old or the new settings. *)
Theorem recoverSettings_rolls_forward `{GoStd} marshal previous desired s p' s' :
  valid desired →
  crashing (committing marshal previous desired) (committing marshal previous desired) s →
  rtc pstep (recoverSettings marshal, s) (p', s') →
  (∀ m, crashed s' m → recovered marshal m = Ok previous ∨ recovered marshal m = Ok desired)
  ∧ ∀ found, p' = Ret (Ok found) → found = desired.
Proof.
  intros Hdes Hs Hsteps. apply (recover_wp marshal previous desired Hdes) in Hs.
  destruct (wp_adequate _ _ _ _ _ _ Hs Hsteps) as [Hi Hq]. split; [by intros m [_ Hm]%Hi|].
  intros found ->. by apply (Hq _ eq_refl).
Qed.

Definition demo_prepared : gmap string file_content :=
  {[settingsRecoveryName :=
      recovery_marker (H := DemoStd.demo_std) demo_marshal zero_settings (Some demo_settings)]}.

Lemma demo_prepared_committing :
  committing (H := DemoStd.demo_std) demo_marshal zero_settings demo_settings demo_prepared.
Proof. split; [left; vm_compute; reflexivity|]. apply lookup_singleton_eq. Qed.

Lemma recoverSettings_rolls_forward_witness :
  (run [] (recoverSettings (H := DemoStd.demo_std) demo_marshal) (New demo_prepared)).1
  = Ok demo_settings.
Proof.
  set (result := run [] (recoverSettings (H := DemoStd.demo_std) demo_marshal) (New demo_prepared)).
  assert (Hr : is_Ok result.1 = true) by (vm_compute; reflexivity).
  destruct (recoverSettings_rolls_forward (H := DemoStd.demo_std) demo_marshal zero_settings
    demo_settings (New demo_prepared) (Ret result.1) result.2) as [_ Hfound].
  - vm_compute. reflexivity.
  - apply crashing_New, demo_prepared_committing.
  - apply run_steps.
  - destruct result.1 as [found|]; [|done]. f_equal. by apply Hfound.
Defined.

(** Recovery can report a change that a crash then undoes: when neither the
    roll-forward of settings.json nor the removal of the marker is synchronised,
    recovery returns the new settings, and a crash that keeps only the removal
    leaves the old settings without a marker. *)
Theorem recoverSettings_not_durable `{GoStd} marshal previous desired m msg msg' :
  valid desired → previous ≠ desired → prepared marshal previous desired m →
  let r := run [FNone; FNone; FSync msg; FSync msg'] (recoverSettings marshal) (New m) in
  r.1 = Ok desired
  ∧ ∃ m', crashed r.2 m' ∧ recovered marshal m' = Ok previous.
Proof.
  intros Hdes Hne [Hl Hm].
  set (s1 := push (Put "settings.json" (CSettings desired)) (New m)).
  assert (contents s1 !! settingsRecoveryName
    = Some (recovery_marker marshal previous (Some desired))) as Hmark.
  { unfold s1. rewrite contents_push. simpl. by rewrite lookup_insert_ne. }
  assert (run [FNone; FNone; FSync msg; FSync msg'] (recoverSettings marshal) (New m)
    = (Ok desired, push (Del settingsRecoveryName) s1)) as ->.
  { unfold recoverSettings, loadSettings. rewrite run_read by done.
    cbn [mbind res_bind]. change (decode_settings (contents (New m) !! "settings.json"))
      with (loaded m). rewrite Hl, run_read by done.
    change (contents (New m)) with m. rewrite Hm. unfold recovery_marker.
    cbn [sr_Version sr_Desired sr_PreviousDigest]. rewrite Z.eqb_refl. cbn [negb].
    unfold valid in Hdes. rewrite Hdes. cbn [negb is_Ok]. rewrite bool_decide_eq_true_2 by done.
    rewrite run_write_sync by done.
    rewrite (bool_decide_eq_true_2 (OutcomeOf (sync_error msg) = _)) by done. cbn [negb].
    erewrite run_remove_sync; [done|done|done|exact Hmark]. }
  split; [done|]. exists (delete settingsRecoveryName m). split.
  - apply crashed_push. right. exists m. split; [|done]. apply crashed_push. left.
    apply crashed_New.
  - rewrite recovered_eq, loaded_unmark, Hl. by rewrite lookup_delete_eq.
Qed.

Lemma recoverSettings_not_durable_witness :
  (run [FNone; FNone; FSync "io"; FSync "io"]
    (recoverSettings (H := DemoStd.demo_std) demo_marshal) (New demo_prepared)).1
  = Ok demo_settings.
Proof.
  apply (recoverSettings_not_durable (H := DemoStd.demo_std) demo_marshal zero_settings).
  - vm_compute. reflexivity.
  - discriminate.
  - split; [vm_compute; reflexivity|apply lookup_singleton_eq].
Defined.

(** ** What the validation of a saved account state accepts *)

Definition window_wf (observedAt : Time) (w : quotaWindow) : Prop :=
  0 <= qw_ConsumedMicrocredits w <= qw_BucketMicrocredits w ∧ 0 < qw_BucketMicrocredits w
  ∧ (qw_ResetsAt w = 0 ∨ observedAt < qw_ResetsAt w).

Record snapshot_wf (futureLimit : Time) (snap : quotaSnapshot) : Prop := {
  nw_observed : sn_ObservedAt snap ≠ 0 ∧ 2000 <= time_Year (sn_ObservedAt snap)
                ∧ sn_ObservedAt snap <= futureLimit;
  nw_error : len (sn_FiveHourError snap) <= 240;
  nw_weekly : window_wf (sn_ObservedAt snap) (sn_Weekly snap);
  nw_fiveHour : if decide (sn_FiveHourError snap = "")
                then window_wf (sn_ObservedAt snap) (sn_FiveHour snap)
                else sn_FiveHour snap = zero_window;
}.

Record event_wf (futureLimit : Time) (e : creditEvent) : Prop := {
  ew_at : ev_At e ≠ 0 ∧ ev_At e <= futureLimit;
  ew_credits : 0 < ev_Microcredits e;
  ew_model : normalizeModelName (ev_Model e) ≠ "";
}.

Definition hash_wf (hash : string) : Prop := len hash = 64 ∧ hex_decodes hash = true.

Record state_wf (now : Time) (s : accountQuotaState) : Prop := {
  sw_failures : 0 <= qs_ConsecutiveFailures s;
  sw_dedup : (length (qs_DedupHashes s) ≤ maxDedupHashes)%nat;
  sw_hashes : Forall hash_wf (qs_DedupHashes s);
  sw_snapshot : ∀ snap, qs_Authoritative s = Some snap →
    snapshot_wf (now + maxPersistedClockSkew) snap;
  sw_events : Forall (event_wf (now + maxPersistedClockSkew)) (qs_Events s);
  sw_order : chronological (qs_Events s);
}.

Lemma validateWindow_ok observedAt w :
  validateWindow observedAt w = Ok () ↔ window_wf observedAt w.
Proof.
  unfold validateWindow, window_wf, time_IsZero, time_After.
  ltb_cases; simpl; split; try done; lia.
Qed.

Lemma validateAuthoritative_ok snap futureLimit :
  validateAuthoritative snap futureLimit = Ok () ↔ snapshot_wf futureLimit snap.
Proof.
  unfold validateAuthoritative, time_IsZero, time_After.
  destruct (_ || _ || _) eqn:E.
  { split; [done|]. intros [(? & ? & ?) _ _ _]. exfalso.
    apply orb_true_iff in E as [E|E]; [apply orb_true_iff in E as [E|E]|]; lia. }
  crush_bool. destruct (Z.ltb_spec 240 (len (sn_FiveHourError snap))).
  { split; [done|]. intros [_ ? _ _]. lia. }
  destruct (decide (sn_FiveHourError snap = "")) as [Hempty|Hne].
  - rewrite bool_decide_eq_true_2 by done.
    assert (snapshot_wf futureLimit snap ↔ window_wf (sn_ObservedAt snap) (sn_Weekly snap)
      ∧ window_wf (sn_ObservedAt snap) (sn_FiveHour snap)) as ->.
    { split; [intros [_ _ ? Hf]; by rewrite decide_True in Hf|].
      intros [? ?]. split; [split_and!; [done|lia|lia]|lia|done|by rewrite decide_True]. }
    rewrite <- !validateWindow_ok.
    destruct (validateWindow _ (sn_Weekly snap)) as [[]|]; simpl; naive_solver.
  - rewrite bool_decide_eq_false_2 by done.
    assert (snapshot_wf futureLimit snap ↔ window_wf (sn_ObservedAt snap) (sn_Weekly snap)
      ∧ sn_FiveHour snap = zero_window) as ->.
    { split; [intros [_ _ ? Hf]; by rewrite decide_False in Hf|].
      intros [? ?]. split; [split_and!; [done|lia|lia]|lia|done|by rewrite decide_False]. }
    rewrite <- validateWindow_ok. case_bool_decide; simpl; naive_solver.
Qed.

Lemma validateEvents_ok futureLimit events last :
  (∃ r, foldl_res (validateEvent futureLimit) last events = Ok r)
  ↔ Forall (event_wf futureLimit) events ∧ chronological events
    ∧ (last ≠ 0 → Forall (λ e, last <= ev_At e) events).
Proof.
  revert last. induction events as [|e events IH]; intros last; simpl.
  { split; [|by eauto]. intros _. split_and!; [done|constructor|done]. }
  assert (∀ r, validateEvent futureLimit last e = Ok r ↔
    r = ev_At e ∧ event_wf futureLimit e ∧ (last ≠ 0 → last <= ev_At e)) as Hstep.
  { intros r. unfold validateEvent, time_IsZero, time_After, time_Before.
    destruct (_ || _) eqn:E.
    - split; [done|]. intros (-> & [[? ?] ? ?] & Hl). exfalso. rewrite !orb_true_iff in E.
      destruct_or! E; crush_bool; [done|lia|lia|done|specialize (Hl ltac:(done)); lia].
    - crush_bool. split; [intros [= <-]|by intros (-> & _)]. split_and!; [done|split; [split|..]; (done || lia)|].
      intros Hl. destruct_or!; crush_bool; lia. }
  destruct (validateEvent futureLimit last e) as [r|] eqn:Hv; simpl.
  - destruct (proj1 (Hstep r) eq_refl) as (-> & Hwf & Hlast). rewrite IH. unfold chronological.
    rewrite Forall_cons, StronglySorted_cons. split.
    + intros (Hall & Hs & Hle). destruct Hwf as [[Hz Hat] ? ?].
      split_and!; [done|done|by apply Hle|done|].
      intros Hl. constructor; [auto|]. eapply Forall_impl; [by apply Hle|]. simpl.
      specialize (Hlast Hl). lia.
    + intros ([? ?] & [? ?] & ?). done.
  - split; [by intros [? ?]|]. intros ([Hwf _]%Forall_cons & _ & Hle).
    assert (Err e0 = Ok (ev_At e)) as Habs; [|done]. apply Hstep. split_and!; [done|done|].
    intros Hl. by apply Hle, Forall_cons in Hl as [? _].
Qed.

Lemma validateHashes_ok hashes :
  foldl_res (λ _, validateDedupHash) () hashes = Ok () ↔ Forall hash_wf hashes.
Proof.
  assert (∀ h, validateDedupHash h = Ok () ↔ hash_wf h) as Hh.
  { intros h. unfold validateDedupHash, hash_wf.
    destruct (Z.eqb_spec (len h) 64), (hex_decodes h); simpl; naive_solver. }
  induction hashes as [|h hashes IH]; simpl; [done|]. rewrite Forall_cons, <- Hh, <- IH.
  destruct (validateDedupHash h) as [[]|]; simpl; naive_solver.
Qed.

Lemma validateAccountQuotaState_ok s now :
  validateAccountQuotaState s now = Ok () ↔ state_wf now s.
Proof.
  unfold validateAccountQuotaState. cbv zeta. change (time_Add now ?d) with (now + d).
  destruct (_ || _) eqn:E.
  { split; [done|]. intros [? ? _ _ _ _]. exfalso.
    apply orb_true_iff in E as [E|E]; [lia|]. apply Nat.ltb_lt in E. lia. }
  crush_bool. apply Nat.ltb_ge in H0.
  assert (state_wf now s ↔
    (∀ snap, qs_Authoritative s = Some snap → snapshot_wf (now + maxPersistedClockSkew) snap)
    ∧ (∃ r, foldl_res (validateEvent (now + maxPersistedClockSkew)) 0 (qs_Events s) = Ok r)
    ∧ foldl_res (λ _, validateDedupHash) () (qs_DedupHashes s) = Ok ()) as ->.
  { rewrite validateHashes_ok, validateEvents_ok. split.
    - intros [? ? ? ? ? ?]. by split_and!.
    - intros (? & (? & ? & _) & ?). by split. }
  destruct (qs_Authoritative s) as [snap|].
  - assert ((∀ snap0, Some snap = Some snap0 → snapshot_wf (now + maxPersistedClockSkew) snap0)
      ↔ validateAuthoritative snap (now + maxPersistedClockSkew) = Ok ()) as ->.
    { rewrite validateAuthoritative_ok. naive_solver. }
    destruct (validateAuthoritative _ _) as [[]|]; simpl; [|naive_solver].
    destruct (foldl_res (validateEvent _) 0 _); simpl; naive_solver.
  - simpl. destruct (foldl_res (validateEvent _) 0 _); simpl; naive_solver.
Qed.

(** Later validations accept what earlier ones did. *)
Lemma state_wf_later now later s : now <= later → state_wf now s → state_wf later s.
Proof.
  intros Hle [? ? ? Hsnap Hev ?]. split; [done|done|done| | |done].
  - intros snap Hs. destruct (Hsnap snap Hs) as [(? & ? & ?) ? ? ?]. split; [|done..].
    split_and!; (done || lia).
  - eapply Forall_impl; [done|]. intros e [[? ?] ? ?]. split; [split|..]; (done || lia).
Qed.

Lemma state_wf_set_events now s events :
  state_wf now s → Forall (event_wf (now + maxPersistedClockSkew)) events →
  chronological events → state_wf now (set_events events s).
Proof. intros [? ? ? ? ? ?] ? ?. by split. Qed.

Lemma state_wf_set_dedup now s hashes w :
  state_wf now s → (length hashes ≤ maxDedupHashes)%nat → Forall hash_wf hashes →
  state_wf now (set_dedup hashes w s).
Proof. intros [? ? ? ? ? ?] ? ?. by split. Qed.

Lemma state_wf_addEvent now s event :
  state_wf now s → (0 < ev_Microcredits event → event_wf (now + maxPersistedClockSkew) event) →
  state_wf now (addEvent s event).
Proof.
  intros Hwf Hev. pose proof (sw_order _ _ Hwf) as Hs. unfold addEvent.
  destruct (Z.leb_spec (ev_Microcredits event) 0); [done|].
  destruct (insert_index_spec _ (ev_At event) (length (qs_Events s)) Hs) as (_ & Ht & Hd); [done|].
  rewrite (take_ge (qs_Events s) (length _)) in Hd by done. cbv zeta in *.
  apply state_wf_set_events; [done| |].
  - pose proof (sw_events _ _ Hwf) as Hall. rewrite <- (take_drop (insert_index (qs_Events s)
      (ev_At event) (length (qs_Events s))) (qs_Events s)) in Hall.
    apply Forall_app in Hall as [? ?]. apply Forall_app. split; [done|]. constructor; auto.
  - apply chronological_insert; [by rewrite take_drop|done|done].
Qed.

Lemma chronological_drop n events : chronological events → chronological (drop n events).
Proof. unfold chronological. rewrite <- (take_drop n events) at 1. apply StronglySorted_app_1_r. Qed.

Lemma state_wf_compact now s t retention : state_wf now s → state_wf now (compact s t retention).
Proof.
  intros Hwf. unfold compact. cbv zeta. set (first := sort_Search _ _).
  assert (state_wf now (if (0 <? first)%nat then set_events (drop first (qs_Events s)) s else s)
    ∧ qs_DedupHashes (if (0 <? first)%nat then set_events (drop first (qs_Events s)) s else s)
      = qs_DedupHashes s) as [Hwf' Heq].
  { destruct (0 <? first)%nat; [|by split]. split; [|done].
    apply state_wf_set_events; [done|apply Forall_drop, Hwf|apply chronological_drop, Hwf]. }
  rewrite Heq. destruct (maxDedupHashes <? _)%nat; [|done].
  apply state_wf_set_dedup; [done|rewrite length_drop; lia|apply Forall_drop, Hwf].
Qed.

Lemma state_wf_seenDedup now s hash :
  state_wf now s → hash_wf hash → state_wf now (seenDedup s hash).2.
Proof.
  intros Hwf Hh. unfold seenDedup. case_bool_decide; simpl.
  - apply state_wf_set_dedup; [done|apply Hwf|apply Hwf].
  - assert (Forall hash_wf (qs_DedupHashes s ++ [hash])) as Hall.
    { apply Forall_app. split; [apply Hwf|by constructor]. }
    apply state_wf_set_dedup; [done| |].
    + destruct (Nat.ltb_spec maxDedupHashes (length (qs_DedupHashes s ++ [hash]))); [|done].
      rewrite length_drop. lia.
    + case_match; [by apply Forall_drop|done].
Qed.

Lemma usageDedupHash_wf `{GoStdLaws} record : hash_wf (usageDedupHash record).
Proof.
  unfold hash_wf, usageDedupHash, len. rewrite sha256_hex_length. split; [done|].
  apply sha256_hex_decodes.
Qed.

(** What the validation of a saved state demands is kept by the operations
    on the state: recording a digest, compaction, and adding an event of a known
    model whose time is at most the tolerated clock skew ahead; and a state that
    is valid stays valid as time passes. So a state that was loaded, or built
    from nothing by these operations, can be saved and loaded again. *)
Theorem operations_keep_state_valid `{GoStdLaws} s now later :
  validateAccountQuotaState s now = Ok () → now <= later →
  validateAccountQuotaState s later = Ok ()
  ∧ (∀ record, validateAccountQuotaState (seenDedup s (usageDedupHash record)).2 later = Ok ())
  ∧ (∀ t retention, validateAccountQuotaState (compact s t retention) later = Ok ())
  ∧ (∀ event, 0 < ev_At event <= later + maxPersistedClockSkew →
       normalizeModelName (ev_Model event) ≠ "" →
       validateAccountQuotaState (addEvent s event) later = Ok ()).
Proof.
  intros Hwf%validateAccountQuotaState_ok Hle. apply (state_wf_later _ later) in Hwf; [|done].
  split_and!.
  - by apply validateAccountQuotaState_ok.
  - intros record. apply validateAccountQuotaState_ok, state_wf_seenDedup; [done|].
    apply usageDedupHash_wf.
  - intros t retention. by apply validateAccountQuotaState_ok, state_wf_compact.
  - intros event Hat Hmodel. apply validateAccountQuotaState_ok, state_wf_addEvent; [done|].
    intros Hpos. split; [lia|done|done].
Qed.

Lemma operations_keep_state_valid_witness :
  validateAccountQuotaState (addEvent zero_state (demo_event 0 5)) demo_now = Ok ().
Proof.
  apply (operations_keep_state_valid (H0 := DemoStd.demo_laws) zero_state demo_now demo_now).
  - vm_compute. reflexivity.
  - lia.
  - vm_compute. split; [reflexivity|discriminate].
  - vm_compute. discriminate.
Defined.

(** A parsed quota snapshot can be saved exactly when the error text of its
    five-hour window has at most 240 bytes: everything else the validation of a
    saved state checks is established by the parser. The text joins one message
    for every malformed limit, so eight of them make the state unsavable. *)
Theorem parsed_snapshot_savable response observedAt futureLimit snap :
  parseQuotaResponse response observedAt = Ok snap →
  observedAt ≠ 0 → 2000 <= time_Year observedAt → observedAt <= futureLimit →
  validateAuthoritative snap futureLimit = Ok () ↔ len (sn_FiveHourError snap) <= 240.
Proof.
  intros Hparse Hz Hyear Hfut. rewrite validateAuthoritative_ok.
  split; [by intros [_ ? _ _]|]. intros Hlen.
  assert (header_ok response) as Hok.
  { destruct (decide (header_ok response)) as [|Hn]; [done|].
    apply (parseQuotaResponse_header _ observedAt) in Hn. by rewrite Hparse in Hn. }
  assert (∀ w, window_valid observedAt w → window_wf observedAt w) as Hw.
  { intros w [? ? ?]. split_and!; (done || lia). }
  pose proof (parseQuotaResponse_scan response observedAt Hok) as Hscan.
  pose proof (scan_weekly observedAt (wd_Limits (wr_Data response)) quotaScan_init) as Hwk.
  pose proof (scan_fiveHour observedAt (wd_Limits (wr_Data response)) quotaScan_init) as Hf.
  simpl in *. set (st := foldl _ _ _) in *.
  destruct (qc_weekly st) as [weekly|]; [|by rewrite Hscan in Hparse].
  destruct Hscan as (snap' & Heq & Hsw & Hobs & Hfive).
  rewrite Heq in Hparse. injection Hparse as ->.
  apply (f_equal fst), eq_sym, scan_target_source in Hwk as [|(limit & _ & Hlim)]; [done|].
  split; rewrite ?Hobs; [done|done| |].
  - rewrite Hsw. by eapply Hw, parseQuotaWindow_valid.
  - destruct (qc_fiveHour st) as [w|]; destruct Hfive as [-> ->].
    + rewrite decide_True by done.
      apply (f_equal fst), eq_sym, scan_target_source in Hf as [|(limit' & _ & Hlim')]; [done|].
      by eapply Hw, parseQuotaWindow_valid.
    + rewrite decide_False; [done|]. by apply first_nonempty_nonempty.
Qed.

Definition demo_malformed : quotaWireResponse :=
  demo_response (demo_weekly :: replicate 8 (demo_limit "x" "" "" "" "")).

Lemma parsed_snapshot_savable_witness :
  ∃ snap, parseQuotaResponse demo_malformed demo_now = Ok snap
  ∧ len (sn_FiveHourError snap) = 270
  ∧ validateAuthoritative snap demo_now ≠ Ok ().
Proof.
  set (r := parseQuotaResponse demo_malformed demo_now).
  destruct r as [snap|] eqn:Hr; [|exfalso; revert Hr; vm_compute; discriminate].
  assert (Hlen : len (sn_FiveHourError snap) = 270).
  { revert Hr. unfold r. intros Heq. vm_compute in Heq. injection Heq as <-. vm_compute. reflexivity. }
  exists snap. split; [reflexivity|]. split; [exact Hlen|].
  intros Hv. apply (parsed_snapshot_savable demo_malformed demo_now demo_now snap) in Hv.
  - rewrite Hlen in Hv. by apply Hv.
  - exact Hr.
  - vm_compute. discriminate.
  - vm_compute. discriminate.
  - reflexivity.
Defined.
