(* ===== verification/SettingsDisk.v ===== *)
(** * A settings change on the disk (zai/settings.go over securestore/)

    [saveSettings] and [recoverSettings] run over the directory of [SecureDir], with
    whatever the system answers to each call: the two-phase commit of [Settings] and
    the store's implementation, composed. *)

From S2P Require Import Prelude GoStrings Config Windows Host SecureStore SecureDir SecureRun Settings.

Section Disk.
Context `{GoStd} (marshal_settings : settingsFile → string).
Context (json_Marshal : file_content → string + string).
Context (json_Decode : string → string → option file_content).

#[local] Abbreviation run := (run_dir json_Marshal json_Decode).
#[local] Abbreviation save := (saveSettings marshal_settings).
#[local] Abbreviation recover := (recoverSettings marshal_settings).
#[local] Abbreviation reads_back := (round_trips json_Marshal json_Decode).
#[local] Abbreviation implements := (implements json_Decode).

(** What a change to [desired] relies on: the files it writes are read back as they
    were written, and so are the settings that were once decoded from a marker. *)
Record exact_codec (desired : settingsFile) : Prop := {
  ec_settings : reads_back "settings.json" (CSettings desired);
  ec_marker previous to :
    to = None ∨ to = Some desired →
    reads_back settingsRecoveryName (recovery_marker marshal_settings previous to);
  ec_decoded text r found :
    json_Decode settingsRecoveryName text = Some (CRecovery r) → sr_Desired r = Some found →
    reads_back "settings.json" (CSettings found);
}.

(** A result of the directory and one of the contract give the same settings. *)
Lemma decode_same r r' :
  same_result r r' →
  same_result (c ← r; decode_settings c) (c ← r'; decode_settings c).
Proof. destruct r, r'; cbn [same_result mbind res_bind]; try done. intros ->. by destruct (decode_settings _). Qed.

Lemma needs_recovery_same (e e' : error) :
  same_result (Err e : res unit) (Err e') →
  bool_decide (OutcomeOf e = WriteNeedsRecovery) = bool_decide (OutcomeOf e' = WriteNeedsRecovery).
Proof. by intros [_ ->]. Qed.

Lemma wrap_same {A} prefix e e' :
  same_result (Err e : res unit) (Err e') →
  same_result (Err (EPending (EWrap prefix e)) : res A) (Err (EPending (EWrap prefix e')))
  ∧ same_result (Err (EWrap prefix e) : res A) (Err (EWrap prefix e')).
Proof. cbn. intros [-> ->]. done. Qed.

#[local] Abbreviation related p := (related json_Marshal json_Decode same_result p p).

Lemma commitSettings_related desired :
  exact_codec desired → related (commitSettings desired).
Proof.
  intros [Hset Hmark _]. unfold commitSettings. cbn [SecureRun.related].
  do 2 (split; [done|]). split; [discriminate|]. split; [done|]. intros r r' Hr.
  destruct r as [u|e], r' as [u'|e']; try done.
  - split; [done|]. split; [discriminate|]. intros r r' Hd. destruct r as [u1|e], r' as [u1'|e']; try done.
    cbn [is_Ok]. rewrite (needs_recovery_same e e' Hd).
    case_bool_decide; [done|]. by apply (wrap_same _ _ _ Hd).
  - rewrite (needs_recovery_same e e' Hr). destruct (wrap_same (A := unit) "commit settings: " e e' Hr) as [Hp _].
    case_bool_decide; [|done]. intros f f' Hf. destruct f, f'; done.
Qed.

Lemma saveSettings_related desired :
  exact_codec desired → related (save desired).
Proof.
  intros Hc. pose proof (commitSettings_related desired Hc) as Hcommit.
  unfold saveSettings, loadSettings. cbn [SecureRun.related].
  split; [done|]. split; [discriminate|]. intros r r' Hr%decode_same _.
  destruct (c ← r; decode_settings c) as [previous|e], (c ← r'; decode_settings c) as [previous'|e'];
    cbn [same_result] in Hr; try done; [subst previous'|destruct Hr as [Ht Ho]; rewrite Ht; by case_match].
  do 2 (split; [done|]). split; [discriminate|]. split; [apply (ec_marker _ Hc); by left|].
  intros w w' Hw. destruct w as [u|e], w' as [u'|e']; try done; [|by apply (wrap_same _ _ _ Hw)].
  do 2 (split; [done|]). split; [discriminate|]. split; [apply (ec_marker _ Hc); by right|].
  intros p p' Hp. destruct p as [u1|e], p' as [u1'|e']; try done.
  rewrite (needs_recovery_same e e' Hp).
  destruct (wrap_same (A := unit) "prepare settings recovery: " e e' Hp) as [Hpend Hplain].
  destruct (negb _); [done|]. intros f f' Hf. destruct f, f'; try done.
  split; [done|]. split; [discriminate|]. intros l l' Hl%decode_same _.
  destruct (c ← l; decode_settings c) as [cur|e2], (c ← l'; decode_settings c) as [cur'|e2'];
    cbn [same_result] in Hl; try done. subst cur'. by case_bool_decide.
Qed.

Lemma unmark_related (found : settingsFile) :
  related (PRemove settingsRecoveryName (λ _, Ret (Ok found))).
Proof. split; [done|]. split; [discriminate|done]. Qed.

Lemma recoverSettings_related desired : exact_codec desired → related recover.
Proof.
  intros Hc. unfold recoverSettings, loadSettings. cbn [SecureRun.related].
  split; [done|]. split; [discriminate|]. intros r r' Hr%decode_same _.
  destruct (c ← r; decode_settings c) as [cur|e], (c ← r'; decode_settings c) as [cur'|e'];
    cbn [same_result] in Hr; try done. subst cur'.
  split; [done|]. split; [discriminate|]. intros m m' Hm Hdec.
  destruct m as [c|e], m' as [c'|e']; cbn [same_result] in Hm; try done. subst c'.
  destruct c as [[|recovery| |]|]; try done. destruct (negb (_ =? _)); [done|].
  destruct (sr_Desired recovery) as [found|] eqn:Hfound.
  - destruct (negb _); [done|]. case_bool_decide.
    + do 2 (split; [done|]). split; [discriminate|].
      destruct (Hdec _ eq_refl) as [text Htext]. split; [by apply (ec_decoded _ Hc text recovery)|].
      intros w w' Hw. destruct w as [u|e], w' as [u'|e']; try done.
      rewrite (needs_recovery_same e e' Hw). destruct (negb _); [by apply (wrap_same _ _ _ Hw)|].
      apply unmark_related.
    + case_bool_decide; [apply unmark_related|done].
  - destruct (negb _); [done|]. apply unmark_related.
Qed.

(** A recovery that is cut off by a crash: what the crash may leave. *)
Definition recovery_cut (x x' : secureDir) : Prop :=
  ∃ sys at_, at_ ∈ x :: (run sys 0 recover x).2 ∧ dir_crashed at_ x'.

Section Change.
Context (previous desired : settingsFile) (Hcodec : exact_codec desired).

(** A directory that a crash left within the change. *)
Definition in_change (x : secureDir) : Prop :=
  ∃ m, either marshal_settings previous desired m ∧ implements x (SecureStore.New m).

Lemma recover_on_disk sys x m :
  either marshal_settings previous desired m → implements x (SecureStore.New m) →
  let '(r, _, trace) := run sys 0 recover x in
  (∀ found, r = Ok found → recovered marshal_settings m = Ok found)
  ∧ ∀ at_ x', at_ ∈ x :: trace → dir_crashed at_ x' → in_change x'.
Proof.
  intros Hm Him.
  pose proof (run_dir_wp json_Marshal json_Decode same_result _ _ sys 0 recover recover x _
    (recoverSettings_related desired Hcodec) Him
    (recover_again_wp marshal_settings previous desired m Hm)) as Hrun.
  destruct (run sys 0 recover x) as [[r d'] trace].
  destruct Hrun as [(b & s' & Hb & _ & _ & HQ) Hcrash]. split; [|exact Hcrash].
  intros found ->. destruct b as [found'|]; cbn [same_result] in Hb; [subst found'|done]. by apply HQ.
Qed.

Lemma recovery_cuts x x' : in_change x → rtc recovery_cut x x' → in_change x'.
Proof.
  intros Hx Hcuts. induction Hcuts as [|x y z (sys & at_ & Hin & Hcrash) _ IH]; [done|]. apply IH.
  destruct Hx as (m & Hm & Him). pose proof (recover_on_disk sys x m Hm Him) as Hr.
  destruct (run sys 0 recover x) as [[r d'] trace]. by apply (proj2 Hr _ _ Hin).
Qed.

Lemma in_change_recovers sys x found :
  in_change x → (run sys 0 recover x).1.1 = Ok found → found = previous ∨ found = desired.
Proof.
  intros (m & Hm & Him). pose proof (recover_on_disk sys x m Hm Him) as Hr.
  destruct (run sys 0 recover x) as [[r d'] trace]. intros Hfound. apply (proj1 Hr) in Hfound.
  destruct Hm as [_ [Ho|Ho]]; rewrite Ho in Hfound; injection Hfound; auto.
Qed.

End Change.

(** C7: A settings change survives crashes of the machine. Whatever the system
    answers to any system call of [saveSettings], and at whatever system call a crash
    cuts it off, and whatever the crash keeps of the unsynchronised directory, and
    however many recoveries are cut off the same way after it: a recovery that returns
    settings returns the old ones or the new ones, and a recovery without failures
    returns settings. Once [saveSettings] has returned without an error, a recovery
    after a crash that returns settings returns ones with the digest of the new. *)
Theorem settings_survive_crashes previous desired sys d s :
  valid desired → exact_codec desired →
  crashing (holds marshal_settings previous) (holds marshal_settings previous) s →
  implements d s →
  let '(r, d', trace) := run sys 0 (save desired) d in
  (∀ at_ x x', at_ ∈ d :: trace → dir_crashed at_ x → rtc recovery_cut x x' →
     (∃ m found, implements x' (SecureStore.New m) ∧ recovered marshal_settings m = Ok found)
     ∧ ∀ sys' found, (run sys' 0 recover x').1.1 = Ok found → found = previous ∨ found = desired)
  ∧ (r = Ok () → ∀ x sys' found, dir_crashed d' x → (run sys' 0 recover x).1.1 = Ok found →
       settingsDigest marshal_settings found = settingsDigest marshal_settings desired).
Proof.
  intros Hdes Hcodec Hs Him. pose proof (save_wp marshal_settings previous desired Hdes s Hs) as Hwp.
  pose proof (run_dir_wp json_Marshal json_Decode same_result _ _ sys 0 _ _ d s
    (saveSettings_related desired Hcodec) Him Hwp) as Hrun.
  destruct (run sys 0 (save desired) d) as [[r d'] trace].
  destruct Hrun as [(b & s' & Hb & Hd' & HI & HQ) Hcrash]. split.
  - intros at_ x x' Hin Hx Hcuts.
    assert (in_change previous desired x') as Hin'.
    { eapply recovery_cuts; [exact Hcodec| |exact Hcuts]. by apply (Hcrash at_). }
    split; [|intros sys' found; by apply in_change_recovers].
    destruct Hin' as (m & [_ [Hm|Hm]] & Him'); eauto.
  - intros -> x sys' found Hx Hfound. destruct b as [[]|]; [|done].
    destruct (implements_crashed _ _ _ _ Hd' Hx) as (m & Hm & Himx).
    destruct (HQ m Hm) as (found' & Hrec & Hdig).
    pose proof (recover_on_disk previous desired Hcodec sys' x m (HI m Hm) Himx) as Hr.
    destruct (run sys' 0 recover x) as [[r' d''] trace']. rewrite (proj1 Hr found Hfound) in Hrec.
    by injection Hrec as <-.
Qed.

End Disk.

(** ** Evaluation *)

(** Markers are encoded by a letter and the digest, and only one settings file is. *)
Definition disk_marshal (c : file_content) : string + string :=
  match c with
  | CSettings _ => inl "S"
  | CRecovery r =>
      inl ((if bool_decide (sr_Desired r = None) then "P" else "R") +:+ sr_PreviousDigest r)
  | _ => inr "unsupported value"
  end.

Definition disk_decode (name text : string) : option file_content :=
  let marker digest to := CRecovery {| sr_Version := 1; sr_PreviousDigest := digest; sr_Desired := to |} in
  match chars text with
  | "S"%char :: _ => if bool_decide (name = "settings.json") then Some (CSettings demo_settings) else None
  | "P"%char :: l => Some (marker (str (rev (tail (rev l)))) None)
  | "R"%char :: l => Some (marker (str (rev (tail (rev l)))) (Some demo_settings))
  | _ => None
  end.

Definition demo_empty : secureDir :=
  {| sd_inodes := []; sd_durable := ∅; sd_pending := []; sd_closed := false |}.

(** The directory is not synchronised after the rename of settings.json, and the
    flush that follows succeeds. *)
Definition demo_answers (n : nat) : sys_answers :=
  {| sy_read := {| ra_view := demo_view; ra_open := None; ra_stat := None; ra_read := None |};
     sy_write := {| wa_before := demo_view; wa_inspect := None; wa_attempt _ := (inl "aa", None);
       wa_write := None; wa_sync := None; wa_close := None; wa_reinspect := None; wa_rename := None;
       wa_unlink := None; wa_syncDir := (if bool_decide (n = 3%nat) then Some "input/output error" else None);
       wa_after := demo_view |};
     sy_remove := {| da_before := demo_view; da_unlink := None; da_syncDir := None; da_after := demo_view |};
     sy_flush := (demo_view, None) |}.

Lemma rev_tail_newline (digest : string) : str (rev (tail (rev (chars digest ++ chars newline)))) = digest.
Proof.
  change (chars newline) with ["010"%char]. rewrite rev_app_distr. cbn [rev app tail].
  by rewrite rev_involutive, str_chars.
Qed.

Lemma demo_codec :
  exact_codec (H := DemoStd.demo_std) demo_marshal disk_marshal disk_decode demo_settings.
Proof.
  split.
  - intros text [= <-]. vm_compute. reflexivity.
  - intros previous to Hto text. unfold recovery_marker. cbn [disk_marshal sr_Desired sr_PreviousDigest].
    generalize (settingsDigest (H := DemoStd.demo_std) demo_marshal previous). intros digest [= <-].
    unfold disk_decode. rewrite !chars_app.
    destruct Hto as [-> | ->]; case_bool_decide; try done;
      [change (chars "P") with ["P"%char]|change (chars "R") with ["R"%char]];
      cbn [app]; by rewrite rev_tail_newline.
  - intros text r found. unfold disk_decode. intros Hr Hf text' [= <-].
    replace found with demo_settings; [vm_compute; reflexivity|].
    destruct (chars text) as [|[[] [] [] [] [] [] [] []] l]; simplify_eq; cbn in Hf; congruence.
Qed.

Lemma settings_survive_crashes_witness :
  let done := run_dir disk_marshal disk_decode demo_answers 0
    (saveSettings (H := DemoStd.demo_std) demo_marshal demo_settings) demo_empty in
  done.1.1 = Ok () ∧
  ∀ x sys found, dir_crashed done.1.2 x →
    (run_dir disk_marshal disk_decode sys 0 (recoverSettings (H := DemoStd.demo_std) demo_marshal) x).1.1
      = Ok found →
    settingsDigest (H := DemoStd.demo_std) demo_marshal found
    = settingsDigest (H := DemoStd.demo_std) demo_marshal demo_settings.
Proof.
  intros done. assert (done.1.1 = Ok ()) as Hr by (vm_compute; reflexivity).
  pose proof (settings_survive_crashes (H := DemoStd.demo_std) demo_marshal disk_marshal disk_decode
    zero_settings demo_settings demo_answers demo_empty (SecureStore.New ∅)) as Hs.
  fold done in Hs. destruct done as [[r d'] trace]. split; [exact Hr|].
  destruct Hs as [_ Hs].
  - vm_compute. reflexivity.
  - exact demo_codec.
  - exact demo_zero_holds.
  - split; [done| |done|constructor]. by intros name Hn.
  - intros x sys found. by apply Hs.
Defined.
