(* ===== verification/Runtime.v ===== *)
(** * The runtime of the Z.ai module (zai/runtime.go)

    The published snapshot and everything that changes it: usage records, polls
    of the quota endpoint, reconfiguration and shutdown, with the versioned
    writes of the persisted state. Each function is the part of the code that
    runs under the runtime's mutex; the write that follows it outside the mutex
    is a separate function, so that interleavings can be stated. The outcome of
    a write of state.json, of closing a store and of an HTTP request are
    arguments, and so is the time. *)

From S2P Require Import Prelude GoStrings GoFloat Host Credits Quota Config Accounts Windows Health Failures SecureStore Settings.

(** zai/plugin.go *)
Definition pluginID : string := "zai-coding-plan".

(** A store handle: pointer identity and directory. *)
Record secureStore := { ss_id : Z; ss_dir : string }.

#[global] Instance secureStore_eq_dec : EqDecision secureStore.
Proof. solve_decision. Defined.

Record runtimeSnapshot := {
  rs_Config : pluginConfig;
  rs_BaseAccounts : list account;
  rs_Accounts : list account;
  rs_Store : option secureStore;
  rs_Quota : gmap string accountQuotaState;
  rs_Health : gmap string accountHealthState;
  rs_Routing : gmap string Z;
  rs_byAuthID : gmap string string;
  rs_byIdentity : gmap string account;
  rs_Generation : Z;
}.

(** A poller of [startPollers]: the account it polls and its generation. *)
Record poller := { po_identity : string; po_key : string; po_generation : Z }.

(** The mutable fields of [pluginRuntime]; [rt_saved] is the state.json of each
    directory, with the generations it was written for, and [rt_closed] the
    stores that were closed. *)
Record pluginRuntime := {
  rt_snapshot : option runtimeSnapshot;
  rt_lastErr : option error;
  rt_stopped : bool;
  rt_persistNext : Z;
  rt_persisted : Z;
  rt_shutdownErr : option error;
  rt_pollers : list poller;
  rt_saved : gmap string persistedState;
  rt_closed : gset Z;
}.

(** ** Setters *)

Definition set_quota_health (quota : gmap string accountQuotaState)
    (health : gmap string accountHealthState) (s : runtimeSnapshot) : runtimeSnapshot :=
  {| rs_Config := rs_Config s; rs_BaseAccounts := rs_BaseAccounts s; rs_Accounts := rs_Accounts s;
     rs_Store := rs_Store s; rs_Quota := quota; rs_Health := health; rs_Routing := rs_Routing s;
     rs_byAuthID := rs_byAuthID s; rs_byIdentity := rs_byIdentity s;
     rs_Generation := rs_Generation s |}.

Definition set_health (identity : string) (h : accountHealthState) (s : runtimeSnapshot)
    : runtimeSnapshot := set_quota_health (rs_Quota s) (<[identity := h]> (rs_Health s)) s.

Definition set_quota (identity : string) (q : accountQuotaState) (s : runtimeSnapshot)
    : runtimeSnapshot := set_quota_health (<[identity := q]> (rs_Quota s)) (rs_Health s) s.

Definition set_accounts (accounts : list account) (byIdentity : gmap string account)
    (s : runtimeSnapshot) : runtimeSnapshot :=
  {| rs_Config := rs_Config s; rs_BaseAccounts := rs_BaseAccounts s; rs_Accounts := accounts;
     rs_Store := rs_Store s; rs_Quota := rs_Quota s; rs_Health := rs_Health s;
     rs_Routing := rs_Routing s; rs_byAuthID := rs_byAuthID s; rs_byIdentity := byIdentity;
     rs_Generation := rs_Generation s |}.

Definition set_routing (cursors : gmap string Z) (s : runtimeSnapshot) : runtimeSnapshot :=
  {| rs_Config := rs_Config s; rs_BaseAccounts := rs_BaseAccounts s; rs_Accounts := rs_Accounts s;
     rs_Store := rs_Store s; rs_Quota := rs_Quota s; rs_Health := rs_Health s;
     rs_Routing := cursors; rs_byAuthID := rs_byAuthID s; rs_byIdentity := rs_byIdentity s;
     rs_Generation := rs_Generation s |}.

Definition set_published (store : option secureStore) (generation : Z) (s : runtimeSnapshot)
    : runtimeSnapshot :=
  {| rs_Config := rs_Config s; rs_BaseAccounts := rs_BaseAccounts s; rs_Accounts := rs_Accounts s;
     rs_Store := store; rs_Quota := rs_Quota s; rs_Health := rs_Health s;
     rs_Routing := rs_Routing s; rs_byAuthID := rs_byAuthID s; rs_byIdentity := rs_byIdentity s;
     rs_Generation := generation |}.

Definition set_snapshot (s : runtimeSnapshot) (r : pluginRuntime) : pluginRuntime :=
  {| rt_snapshot := Some s; rt_lastErr := rt_lastErr r; rt_stopped := rt_stopped r;
     rt_persistNext := rt_persistNext r; rt_persisted := rt_persisted r;
     rt_shutdownErr := rt_shutdownErr r; rt_pollers := rt_pollers r; rt_saved := rt_saved r;
     rt_closed := rt_closed r |}.

Definition set_persistNext (n : Z) (r : pluginRuntime) : pluginRuntime :=
  {| rt_snapshot := rt_snapshot r; rt_lastErr := rt_lastErr r; rt_stopped := rt_stopped r;
     rt_persistNext := n; rt_persisted := rt_persisted r;
     rt_shutdownErr := rt_shutdownErr r; rt_pollers := rt_pollers r; rt_saved := rt_saved r;
     rt_closed := rt_closed r |}.

Definition set_saved (persisted : Z) (saved : gmap string persistedState) (r : pluginRuntime)
    : pluginRuntime :=
  {| rt_snapshot := rt_snapshot r; rt_lastErr := rt_lastErr r; rt_stopped := rt_stopped r;
     rt_persistNext := rt_persistNext r; rt_persisted := persisted;
     rt_shutdownErr := rt_shutdownErr r; rt_pollers := rt_pollers r; rt_saved := saved;
     rt_closed := rt_closed r |}.

Definition set_lastErr (e : option error) (r : pluginRuntime) : pluginRuntime :=
  {| rt_snapshot := rt_snapshot r; rt_lastErr := e; rt_stopped := rt_stopped r;
     rt_persistNext := rt_persistNext r; rt_persisted := rt_persisted r;
     rt_shutdownErr := rt_shutdownErr r; rt_pollers := rt_pollers r; rt_saved := rt_saved r;
     rt_closed := rt_closed r |}.

Definition close_store (store : secureStore) (r : pluginRuntime) : pluginRuntime :=
  {| rt_snapshot := rt_snapshot r; rt_lastErr := rt_lastErr r; rt_stopped := rt_stopped r;
     rt_persistNext := rt_persistNext r; rt_persisted := rt_persisted r;
     rt_shutdownErr := rt_shutdownErr r; rt_pollers := rt_pollers r; rt_saved := rt_saved r;
     rt_closed := {[ss_id store]} ∪ rt_closed r |}.

(** The zero runtime. *)
Definition new_runtime : pluginRuntime :=
  {| rt_snapshot := None; rt_lastErr := None; rt_stopped := false; rt_persistNext := 0;
     rt_persisted := 0; rt_shutdownErr := None; rt_pollers := []; rt_saved := ∅;
     rt_closed := ∅ |}.

(** ** Small functions *)

Definition usageDetailEmpty (d : UsageDetail) : bool :=
  (ud_InputTokens d =? 0) && (ud_OutputTokens d =? 0) && (ud_CacheReadTokens d =? 0)
  && (ud_CacheCreationTokens d =? 0).

Definition usageTimestamp (record : UsageRecord) (fallback : Time) : Time :=
  if time_IsZero (ur_RequestedAt record) then fallback else ur_RequestedAt record.

Definition quotaTimeout (timeout : Duration) : Duration :=
  if timeout =? 0 then defaultQuotaTimeout else timeout.

(** [binary.LittleEndian.Uint64] *)
Fixpoint le_value (l : list ascii) : Z :=
  match l with [] => 0 | c :: l' => ascii_code c + 256 * le_value l' end.

(** The index of [range identity] steps over UTF-8 sequences; an identity
    shorter than 16 bytes is an ASCII name. *)
Definition jitter_seed (identity : string) : Z :=
  if 16 <=? len identity
  then Z.lxor (le_value (take 8 (chars identity))) (le_value (take 8 (drop 8 (chars identity))))
  else foldl (λ seed c, wrapu64 (wrapu64 (seed * 131) + ascii_code c)) 0 (chars identity).

Definition jitteredPollInterval (base : Duration) (identity : string) (attempt : Z) : Duration :=
  let base := if base <=? 0 then defaultQuotaRefresh else base in
  let minimum := base [/] 2 in
  let span := base in
  let seed := Z.lxor (jitter_seed identity) (wrapu64 (wrapu64 attempt * 11400714819323198485)) in
  minimum [+] wrap64 (seed mod wrapu64 (span [+] 1)).

Definition pollBackoff (interval : Duration) (failures : Z) : Duration :=
  if failures <=? 1 then interval else
  let shift := failures [-] 1 in
  let shift := if 4 <? shift then 4 else shift in
  let delay := interval [*] Z.shiftl 1 shift in
  if 15 * minute <? delay then 15 * minute else delay.

Definition zero_account : account :=
  {| ac_Identity := ""; ac_Name := ""; ac_KeySuffix := ""; ac_Plan := ""; ac_Disabled := false;
     ac_FiveHourCredits := 0; ac_WeeklyCredits := 0; ac_ClaudeAuthID := ""; ac_OpenAIAuthID := "";
     ac_claudeAuthIDs := []; ac_key := ""; ac_planExplicit := false;
     ac_fiveHourCreditsExplicit := false; ac_weeklyCreditsExplicit := false |}.

Definition accountByIdentity (accounts : list account) (identity : string) : account :=
  default zero_account (head (filter (λ item, ac_Identity item = identity) accounts)).

Definition formatQuotaDivergence (v : accountQuotaView) (snap : quotaSnapshot) : string :=
  let weekly := itoa (qw_ConsumedMicrocredits (sn_Weekly snap)
                      [-] qw_ConsumedMicrocredits (qv_Weekly v)) in
  if negb (bool_decide (sn_FiveHourError snap = ""))
  then boundedStatus ("weekly_microcredits=" +:+ weekly +:+ " five_hour_error="
                      +:+ sn_FiveHourError snap)
  else boundedStatus ("five_hour_microcredits="
         +:+ itoa (qw_ConsumedMicrocredits (sn_FiveHour snap)
                   [-] qw_ConsumedMicrocredits (qv_FiveHour v))
         +:+ " weekly_microcredits=" +:+ weekly).

Definition cpaProviderKeys (cpa : cpaConfigProjection) : list string :=
  (ck_APIKey <$> cc_ClaudeKeys cpa)
  ++ (compat ← cc_OpenAICompatibility cpa; ke_APIKey <$> oc_APIKeyEntries compat).

Definition redactError (e : error) (secrets : list string) : error :=
  EText (foldl (λ message secret,
    let secret := TrimSpace secret in
    if bool_decide (secret = "") then message else ReplaceAll message secret "[redacted]")
    (error_text e) secrets).

Definition recordError (r : pluginRuntime) (e : error) (secrets : list string)
    : error * pluginRuntime :=
  let redacted := redactError e secrets in
  (redacted, if rt_stopped r then r else set_lastErr (Some redacted) r).

(** ** Plans reported by the quota endpoint *)

Definition plan_pinned (item : account) : bool :=
  bool_decide (ac_Plan item = "custom") || ac_planExplicit item
  || ac_fiveHourCreditsExplicit item || ac_weeklyCreditsExplicit item.

Definition set_plan (plan : string) (buckets : creditBuckets) (item : account) : account :=
  {| ac_Identity := ac_Identity item; ac_Name := ac_Name item; ac_KeySuffix := ac_KeySuffix item;
     ac_Plan := plan; ac_Disabled := ac_Disabled item;
     ac_FiveHourCredits := cb_FiveHour buckets; ac_WeeklyCredits := cb_Weekly buckets;
     ac_ClaudeAuthID := ac_ClaudeAuthID item; ac_OpenAIAuthID := ac_OpenAIAuthID item;
     ac_claudeAuthIDs := ac_claudeAuthIDs item; ac_key := ac_key item;
     ac_planExplicit := ac_planExplicit item;
     ac_fiveHourCreditsExplicit := ac_fiveHourCreditsExplicit item;
     ac_weeklyCreditsExplicit := ac_weeklyCreditsExplicit item |}.

(** The loop over the accounts: the first one of the identity decides. *)
Fixpoint sync_first (accounts : list account) (identity plan : string) (buckets : creditBuckets)
    : bool * list account :=
  match accounts with
  | [] => (false, [])
  | item :: accounts' =>
      if bool_decide (ac_Identity item = identity) then
        if plan_pinned item then (false, accounts)
        else if negb (bool_decide (ac_Plan item = plan))
        then (true, set_plan plan buckets item :: accounts') else (false, accounts)
      else
        let '(changed, accounts') := sync_first accounts' identity plan buckets in
        (changed, item :: accounts')
  end.

Definition syncPlanFromUpstream (accounts : list account) (identity plan : string)
    : bool * list account :=
  if bool_decide (plan = "") then (false, accounts) else
  match planBuckets !! plan with
  | None => (false, accounts)
  | Some buckets => sync_first accounts identity plan buckets
  end.

(** The account of [liveAccounts]: the last one of the identity. *)
Definition live_account (accounts : list account) (identity : string) : option account :=
  last (filter (λ item, ac_Identity item = identity) accounts).

Definition carry_plan (live : list account) (item : account) : option account :=
  match live_account live (ac_Identity item) with
  | Some liveAccount =>
      if plan_pinned liveAccount then None else
      if ac_planExplicit item || ac_fiveHourCreditsExplicit item || ac_weeklyCreditsExplicit item
      then None else
      buckets ← planBuckets !! ac_Plan liveAccount;
      Some (set_plan (ac_Plan liveAccount) buckets item)
  | None => None
  end.

Definition carryForwardNamedPlans (live staged : runtimeSnapshot) : runtimeSnapshot :=
  let carry := carry_plan (rs_Accounts live) in
  set_accounts ((λ item, default item (carry item)) <$> rs_Accounts staged)
    (foldl (λ m item,
       match carry item with Some item' => <[ac_Identity item' := item']> m | None => m end)
       (rs_byIdentity staged) (rs_Accounts staged))
    staged.

(** ** Capacity *)

(** The health state and the snapshot it is stored in. *)
Definition refreshCapacityLocked (s : runtimeSnapshot) (identity : string) (now : Time)
    : accountHealthState * runtimeSnapshot :=
  let state := default zero_health (rs_Health s !! identity) in
  match rs_Quota s !! identity, rs_byIdentity s !! identity with
  | Some quota, Some item =>
      let state :=
        quotaCapacityHealth state (view quota now item (rs_Config s))
          (pc_ThresholdPercent (rs_Config s)) in
      (state, set_health identity state s)
  | _, _ => (state, s)
  end.

Definition updateCapacity (r : pluginRuntime) (generation : Z) (identity : string)
    (update : capacityUpdate) : bool * pluginRuntime :=
  match rt_snapshot r with
  | None => (false, r)
  | Some s =>
      if rt_stopped r || negb (rs_Generation s =? generation) then (false, r) else
      match rs_Health s !! identity with
      | None => (false, r)
      | Some state =>
          (true, set_snapshot (set_health identity
             (set_capacity (cu_Exhausted update) (cu_ResetAt update)
                (boundedHealthReason (cu_Source update)) state) s) r)
      end
  end.

Definition health (r : pluginRuntime) (identity : string) (now : Time)
    : option accountHealth * pluginRuntime :=
  match rt_snapshot r with
  | None => (None, r)
  | Some s =>
      match rs_Health s !! identity with
      | None => (None, r)
      | Some _ =>
          let '(state, s') := refreshCapacityLocked s identity now in
          (Some (assess state (default zero_account (rs_byIdentity s' !! identity)) now),
           set_snapshot s' r)
      end
  end.

Definition quotaView (r : pluginRuntime) (identity : string) (now : Time)
    : option accountQuotaView :=
  s ← rt_snapshot r;
  state ← rs_Quota s !! identity;
  Some (view state now (accountByIdentity (rs_Accounts s) identity) (rs_Config s)).

Definition pollFailureCount (r : pluginRuntime) (identity : string) : Z :=
  match rt_snapshot r with
  | None => 0
  | Some s => qs_ConsecutiveFailures (default zero_state (rs_Quota s !! identity))
  end.

(** ** The persisted state *)

(** The persisted view of a snapshot, with a fresh generation. *)
Definition persistenceSnapshotLocked (r : pluginRuntime) (s : runtimeSnapshot) (now : Time)
    : persistedState * pluginRuntime :=
  let generation := wrapu64 (rt_persistNext r + 1) in
  ({| ps_Version := persistedStateVersion;
      ps_Accounts := rs_Quota s;
      ps_Health :=
        omap (λ h, let '(p, active) := persisted h now in if active : bool then Some p else None)
          (rs_Health s);
      ps_Generation := generation;
      ps_RuntimeGeneration := rs_Generation s |},
   set_persistNext generation r).

(** A write of state.json: [saveState] validates at the time [wall]; [fault] is
    the error of the write itself. *)
Definition save_state (store : secureStore) (state : persistedState) (wall : Time)
    (fault : option error) (r : pluginRuntime) : res (gmap string persistedState) :=
  if bool_decide (ss_id store ∈ rt_closed r) then errorf "secure store is not initialized" else
  _ ← validatePersistedStateAt state wall;
  match fault with
  | Some e => Err e
  | None => Ok (<[ss_dir store := state]> (rt_saved r))
  end.

(** The warnings of a failed write. *)
Definition warn_unsaved (store : secureStore) (state : persistedState) (r : pluginRuntime)
    : pluginRuntime :=
  match rt_snapshot r with
  | None => r
  | Some s =>
      if (rs_Generation s =? ps_RuntimeGeneration state) && bool_decide (rs_Store s = Some store)
      then set_snapshot (set_quota_health
        (map_imap (λ identity q,
           if bool_decide (is_Some (ps_Accounts state !! identity))
           then Some (set_warnings true true (qs_UnknownModelWarning q) q) else Some q)
           (rs_Quota s)) (rs_Health s) s) r
      else r
  end.

Definition persistStateLocked (r : pluginRuntime) (store : secureStore) (state : persistedState)
    (wall : Time) (fault : option error) : res unit * pluginRuntime :=
  if negb (ps_Generation state =? 0) && (ps_Generation state <=? rt_persisted r) then (Ok (), r) else
  match save_state store state wall fault r with
  | Err e => (Err (EWrap "persist quota state: " e), warn_unsaved store state r)
  | Ok saved =>
      (Ok (), set_saved (if negb (ps_Generation state =? 0) then ps_Generation state
                         else rt_persisted r) saved r)
  end.

(** A snapshot waiting to be written, as the code hands it to [persistState]. *)
Definition pending_write := (secureStore * persistedState)%type.

(** ** Usage records *)

Section Usage.
Context `{GoStd}.

(** What a failed request does to the account's health. *)
Definition failure_health (cfg : pluginConfig) (record : UsageRecord) (now : Time)
    (h : accountHealthState) : accountHealthState :=
  let status := uf_StatusCode (ur_Failure record) in
  if (status =? 401) || (status =? 403)
  then suspendUntil h (time_Add now (pc_SuspendDuration cfg)) else
  if negb (status =? 429) then h else
  let hint := parseRateLimitHint record now in
  let short_hint :=
    match hint with
    | Some (resetAt, _) => negb (time_After resetAt (time_Add now requestRateBackoffCap))
    | None => true
    end in
  let '(escalate, hint, h) :=
    if transientRateLimit record && negb (hs_CapacityExhausted h) && short_hint then
      let hintedAt := match hint with Some (resetAt, _) => resetAt | None => 0 end in
      let '(escalate, h) := throttle h now hintedAt (pc_FallbackCooldown cfg) in
      (escalate, if escalate : bool then None else hint, h)
    else (true, hint, h) in
  if escalate : bool then
    let '(resetAt, reason) :=
      match hint with
      | Some hint => hint
      | None => rateLimitReset now h (pc_FallbackCooldown cfg)
      end in
    exhaustUntil h resetAt reason
  else h.

(** What a served request does to it. *)
Definition served_health (now : Time) (h : accountHealthState) : accountHealthState :=
  if (0 <? hs_ThrottleStreak h) && negb (time_After (hs_ThrottledUntil h) now)
  then clearThrottle h else h.

Definition set_completeSince (t : Time) (s : accountQuotaState) : accountQuotaState :=
  {| qs_Authoritative := qs_Authoritative s; qs_LastPollAttempt := qs_LastPollAttempt s;
     qs_LastPollError := qs_LastPollError s; qs_ConsecutiveFailures := qs_ConsecutiveFailures s;
     qs_Events := qs_Events s; qs_DedupHashes := qs_DedupHashes s; qs_CompleteSince := t;
     qs_DeliveryWarning := qs_DeliveryWarning s; qs_PersistenceWarning := qs_PersistenceWarning s;
     qs_UnknownModelWarning := qs_UnknownModelWarning s;
     qs_DedupCollisionWarn := qs_DedupCollisionWarn s;
     qs_LastSourceTransition := qs_LastSourceTransition s;
     qs_LastDivergence := qs_LastDivergence s |}.

Definition complete_since (now : Time) (s : accountQuotaState) : accountQuotaState :=
  if time_IsZero (qs_CompleteSince s) then set_completeSince now s else s.

Definition warn_delivery (s : accountQuotaState) : accountQuotaState :=
  set_warnings true (qs_PersistenceWarning s) (qs_UnknownModelWarning s) s.

(** What a record does to the account's quota state. *)
Definition usage_quota (cfg : pluginConfig) (record : UsageRecord) (now : Time)
    (state : accountQuotaState) : accountQuotaState :=
  let state := complete_since now state in
  if ur_Failed record && usageDetailEmpty (ur_Detail record) then warn_delivery state else
  let eventAt := usageTimestamp record now in
  if time_After eventAt (time_Add now maxPersistedClockSkew) then warn_delivery state else
  let '(seen, state) := seenDedup state (usageDedupHash record) in
  if seen : bool then state else
  match estimateUsageCredits record eventAt with
  | Err _ => set_warnings true (qs_PersistenceWarning state) true state
  | Ok estimate =>
      compact (addEvent state {| ev_At := eventAt; ev_Microcredits := ce_Microcredits estimate;
                                 ev_Model := ce_Model estimate |})
        now (pc_StateRetention cfg)
  end.

(** [handleUsage] under the mutex: what is left to write, if anything. The clock
    is read again, [later], when the persisted view is made. *)
Definition usage_locked (r : pluginRuntime) (record : UsageRecord) (now later : Time)
    : res (option pending_write) * pluginRuntime :=
  match rt_snapshot r with
  | None => (errorf "plugin is not configured", r)
  | Some s =>
  if rt_stopped r then (errorf "plugin is not configured", r) else
  let identity := default "" (rs_byAuthID s !! TrimSpace (ur_AuthID record)) in
  if bool_decide (identity = "") then (Ok None, r) else
  let h := default zero_health (rs_Health s !! identity) in
  let s :=
    if ur_Failed record then set_health identity (failure_health (rs_Config s) record now h) s
    else if (0 <? hs_ThrottleStreak h) && negb (time_After (hs_ThrottledUntil h) now)
    then set_health identity (served_health now h) s else s in
  match rs_Store s with
  | None => (Ok None, set_snapshot s r)
  | Some store =>
      let state := default zero_state (rs_Quota s !! identity) in
      let s := set_quota identity (usage_quota (rs_Config s) record now state) s in
      let '(_, s) := refreshCapacityLocked s identity now in
      let '(persisted, r) := persistenceSnapshotLocked r s later in
      (Ok (Some (store, persisted)), set_snapshot s r)
  end
  end.

Definition handleUsage (r : pluginRuntime) (record : UsageRecord) (now later wall : Time)
    (fault : option error) : res unit * pluginRuntime :=
  match usage_locked r record now later with
  | (Err e, r) => (Err e, r)
  | (Ok None, r) => (Ok (), r)
  | (Ok (Some (store, state)), r) => persistStateLocked r store state wall fault
  end.

End Usage.

(** ** Polls *)

(** The state after a poll, for the account as the snapshot had it. *)
Definition poll_state (cfg : pluginConfig) (item : account) (now : Time)
    (result : res quotaSnapshot) (state : accountQuotaState) : accountQuotaState :=
  let mk auth err failures transition divergence :=
    {| qs_Authoritative := auth; qs_LastPollAttempt := now; qs_LastPollError := err;
       qs_ConsecutiveFailures := failures; qs_Events := qs_Events state;
       qs_DedupHashes := qs_DedupHashes state; qs_CompleteSince := qs_CompleteSince state;
       qs_DeliveryWarning := qs_DeliveryWarning state;
       qs_PersistenceWarning := qs_PersistenceWarning state;
       qs_UnknownModelWarning := qs_UnknownModelWarning state;
       qs_DedupCollisionWarn := qs_DedupCollisionWarn state;
       qs_LastSourceTransition := transition; qs_LastDivergence := divergence |} in
  match result with
  | Err e =>
      mk (qs_Authoritative state) (boundedStatus (error_text e))
        (qs_ConsecutiveFailures state [+] 1) (qs_LastSourceTransition state)
        (qs_LastDivergence state)
  | Ok snap =>
      match qs_Authoritative state with
      | None => mk (Some snap) "" 0 "estimated_to_authoritative" (qs_LastDivergence state)
      | Some _ =>
          (* [LastPollAttempt] is already set when the view is taken *)
          let state' := mk (qs_Authoritative state) (qs_LastPollError state)
            (qs_ConsecutiveFailures state) (qs_LastSourceTransition state)
            (qs_LastDivergence state) in
          mk (Some snap) "" 0 (qs_LastSourceTransition state)
            (formatQuotaDivergence (view state' now item cfg) snap)
      end
  end.

(** [pollOnce] from the fetch on, under the mutex: [cancelled] is the state of
    the parent context when a fetch failed. Every snapshot the runtime publishes
    has a store; the write is left out for one that has none. *)
Definition poll_locked (r : pluginRuntime) (identity : string) (generation : Z) (now later : Time)
    (result : res quotaSnapshot) (cancelled : bool) : res (option pending_write) * pluginRuntime :=
  if negb (is_Ok result) && cancelled then (Err ECanceled, r) else
  match rt_snapshot r with
  | None => (Err ECanceled, r)
  | Some s =>
  if rt_stopped r || negb (rs_Generation s =? generation) then (Err ECanceled, r) else
  match rs_Quota s !! identity with
  | None => (Ok None, r)
  | Some state =>
      let item := accountByIdentity (rs_Accounts s) identity in
      let state' := poll_state (rs_Config s) item now result state in
      let s :=
        match result with
        | Ok snap =>
            let '(changed, accounts) := syncPlanFromUpstream (rs_Accounts s) identity (sn_Plan snap) in
            if changed : bool
            then set_accounts accounts
                   (<[identity := accountByIdentity accounts identity]> (rs_byIdentity s)) s
            else s
        | Err _ => s
        end in
      let s := set_quota identity state' s in
      let '(_, s) := refreshCapacityLocked s identity now in
      let '(persisted, r) := persistenceSnapshotLocked r s later in
      (Ok ((λ store, (store, persisted)) <$> rs_Store s), set_snapshot s r)
  end
  end.

(** The result [pollOnce] reports once the write is done. *)
Definition poll_result (result : res quotaSnapshot) (write : res unit) : res unit :=
  match result with Err e => Err e | Ok _ => write end.

Definition startPollers (s : runtimeSnapshot) : list poller :=
  (λ item, {| po_identity := ac_Identity item; po_key := ac_key item;
              po_generation := rs_Generation s |})
  <$> filter (λ item, ac_Disabled item = false) (rs_Accounts s).

(** ** Publishing a snapshot *)

Definition sameSecureStore (left right : option secureStore) : bool :=
  match left, right with
  | Some l, Some r => bool_decide (ss_dir l = ss_dir r)
  | _, _ => false
  end.

(** What a same-store publication takes over from the live snapshot. *)
Definition carry_forward (live staged : runtimeSnapshot) : runtimeSnapshot :=
  let staged := carryForwardNamedPlans live staged in
  let keep {A} (new old : gmap string A) :=
    map_imap (λ identity x, Some (default x (old !! identity))) new in
  set_quota_health (keep (rs_Quota staged) (rs_Quota live))
    (keep (rs_Health staged) (rs_Health live)) staged.

(** [commitSnapshotAfter]: [before] is the result of the commit action and
    [close_error] the error of closing the superseded store. *)
Definition commitSnapshotAfter (r : pluginRuntime) (staged : runtimeSnapshot)
    (before : res unit) (close_error : option error) : res unit * pluginRuntime :=
  if rt_stopped r then (errorf "plugin is shutting down", r) else
  let '(staged, previousStore, r) :=
    match rt_snapshot r with
    | None => (set_published (rs_Store staged) 1 staged, None, r)
    | Some live =>
        let generation := wrapu64 (rs_Generation live + 1) in
        if sameSecureStore (rs_Store live) (rs_Store staged) then
          let carried := carry_forward live staged in
          (set_published (rs_Store live) generation carried, rs_Store live,
           if bool_decide (rs_Store live = rs_Store staged) then r
           else match rs_Store staged with Some store => close_store store r | None => r end)
        else (set_published (rs_Store staged) generation staged, rs_Store live, r)
    end in
  match before with
  | Err e => (Err e, r)
  | Ok _ =>
      let staged := set_routing ∅ staged in
      let r :=
        {| rt_snapshot := Some staged; rt_lastErr := None; rt_stopped := rt_stopped r;
           rt_persistNext := rt_persistNext r; rt_persisted := rt_persisted r;
           rt_shutdownErr := rt_shutdownErr r; rt_pollers := startPollers staged;
           rt_saved := rt_saved r; rt_closed := rt_closed r |} in
      match previousStore with
      | Some store =>
          if bool_decide (Some store = rs_Store staged) then (Ok (), r)
          else
            (match close_error with
             | Some e => Err (EWrap "close superseded secure store: " e)
             | None => Ok ()
             end, close_store store r)
      | None => (Ok (), r)
      end
  end.

(** ** Reconfiguration *)

(** The loop that stages the accounts: the maps, and the accounts themselves,
    which [syncPlanFromUpstream] updates in place. *)
Record staging := {
  sg_accounts : list account;
  sg_quota : gmap string accountQuotaState;
  sg_health : gmap string accountHealthState;
  sg_byAuthID : gmap string string;
  sg_byIdentity : gmap string account;
}.

Definition stage_account (cfg : pluginConfig) (persisted : persistedState) (now : Time)
    (st : staging) (i : nat) : staging :=
  match sg_accounts st !! i with
  | None => st
  | Some item =>
      let identity := ac_Identity item in
      let state := default zero_state (ps_Accounts persisted !! identity) in
      let state := compact (complete_since now state) now (pc_StateRetention cfg) in
      let accounts :=
        match qs_Authoritative state with
        | Some snap => (syncPlanFromUpstream (sg_accounts st) identity (sn_Plan snap)).2
        | None => sg_accounts st
        end in
      let item := default item (accounts !! i) in
      let h := restorePersistedHealth
        (default {| ph_SuspendedUntil := 0; ph_ExhaustedUntil := 0; ph_ExhaustedReason := "" |}
           (ps_Health persisted !! identity)) now in
      {| sg_accounts := accounts;
         sg_quota := <[identity := state]> (sg_quota st);
         sg_health := <[identity :=
           quotaCapacityHealth h (view state now item cfg) (pc_ThresholdPercent cfg)]> (sg_health st);
         sg_byAuthID := indexAccountAuthIDs (sg_byAuthID st) item;
         sg_byIdentity := <[identity := item]> (sg_byIdentity st) |}
  end.

Definition stage_snapshot (cfg : pluginConfig) (base accounts : list account)
    (store : secureStore) (persisted : persistedState) (now : Time) : runtimeSnapshot :=
  let st := foldl (stage_account cfg persisted now)
    {| sg_accounts := accounts; sg_quota := ∅; sg_health := ∅; sg_byAuthID := ∅;
       sg_byIdentity := ∅ |} (seq 0 (length accounts)) in
  {| rs_Config := cfg; rs_BaseAccounts := base; rs_Accounts := sg_accounts st;
     rs_Store := Some store; rs_Quota := sg_quota st; rs_Health := sg_health st;
     rs_Routing := ∅; rs_byAuthID := sg_byAuthID st; rs_byIdentity := sg_byIdentity st;
     rs_Generation := 0 |}.

Section Reconfigure.
Context `{GoStd}.

(** The results of opening the store, of [recoverSettings] and of [loadStateAt]
    are arguments. A store that does not become the live one is closed. *)
Definition reconfigureWithAccounts (r : pluginRuntime) (cfg : pluginConfig)
    (cpa : cpaConfigProjection) (providerKeys : list string) (store : res secureStore)
    (settings : res settingsFile) (persisted : res persistedState) (now : Time)
    (close_error : option error) : res unit * pluginRuntime :=
  if rt_stopped r then (errorf "plugin is shutting down", r) else
  let reject e r := let '(e, r) := recordError r e providerKeys in (Err e, r) in
  match store with
  | Err e => reject e r
  | Ok store =>
  let refuse e := reject e (close_store store r) in
  match discoverAccounts cpa cfg with
  | Err e => refuse e
  | Ok base =>
  match settings with
  | Err e => refuse e
  | Ok settings =>
  match applyStoredSettings base settings with
  | Err e => refuse e
  | Ok accounts =>
  match applyStoredConfig cfg settings with
  | Err e => refuse e
  | Ok cfg =>
  match persisted with
  | Err e => refuse e
  | Ok persisted =>
      let staged := stage_snapshot cfg base accounts store persisted now in
      match commitSnapshotAfter r staged (Ok ()) close_error with
      | (Ok _, r) => (Ok (), r)
      | (Err e, r) => (Err e, close_store store r)
      end
  end end end end end end.

End Reconfigure.

(** ** Shutdown *)

(** The whole of [shutdown] once every worker has finished: [flush_error] and
    [close_error] are the outcomes of the store's calls. *)
Definition shutdown (r : pluginRuntime) (now wall : Time) (fault flush_error close_error : option error)
    : res unit * pluginRuntime :=
  let result (e : option error) : res unit := match e with Some e => Err e | None => Ok () end in
  if rt_stopped r then (result (rt_shutdownErr r), r) else
  let stop r :=
    {| rt_snapshot := rt_snapshot r; rt_lastErr := rt_lastErr r; rt_stopped := true;
       rt_persistNext := rt_persistNext r; rt_persisted := rt_persisted r;
       rt_shutdownErr := rt_shutdownErr r; rt_pollers := []; rt_saved := rt_saved r;
       rt_closed := rt_closed r |} in
  let r := stop r in
  let '(err, r) :=
    match rt_snapshot r with
    | None => (None, r)
    | Some s =>
        let '(state, r) := persistenceSnapshotLocked r s now in
        match rs_Store s with
        | None => (None, r)
        | Some store =>
            let '(err, r) :=
              if (ps_Generation state =? 0) || (rt_persisted r <? ps_Generation state) then
                match save_state store state wall fault r with
                | Err e => (Some (EWrap "persist quota state: " e), r)
                | Ok saved =>
                    (None, set_saved (if negb (ps_Generation state =? 0)
                                      then ps_Generation state else rt_persisted r) saved r)
                end
              else (None, r) in
            let err := match err with Some e => Some e | None => flush_error end in
            let err := match err with Some e => Some e | None => close_error end in
            (err, close_store store r)
        end
    end in
  (result err,
   {| rt_snapshot := rt_snapshot r; rt_lastErr := rt_lastErr r; rt_stopped := true;
      rt_persistNext := rt_persistNext r; rt_persisted := rt_persisted r;
      rt_shutdownErr := err; rt_pollers := []; rt_saved := rt_saved r;
      rt_closed := rt_closed r |}).
