(* ===== verification/RuntimeSteps.v ===== *)
(** * Interleavings of the runtime's operations

    The runtime's mutex makes the functions of Runtime.v atomic. The writes of
    state.json happen outside it: a usage record and a poll release the mutex before
    they write, and anything may run in between. A world is a runtime with the writes
    that wait, an event one atomic operation with its inputs, and the theorems are
    about every sequence of events. A usage handler holds the write mutex from its
    start to the end of its write, so that the code has fewer orders of writes than
    the events do. *)

From S2P Require Import Prelude GoStrings GoFloat Host Credits Quota Config Accounts Windows Health Failures SecureStore Settings Runtime.

(** ** Worlds and events *)

Definition world : Type := pluginRuntime * list pending_write.

(** [EvWrite] runs the [index]-th waiting write. [EvShutdown] waits for all of
    them, as the code waits for its workers. *)
Inductive event :=
| EvUsage (record : UsageRecord) (now later : Time)
| EvPoll (account_id : string) (generation : Z) (now later : Time) (result : res quotaSnapshot)
    (cancelled : bool)
| EvWrite (index : nat) (wall : Time) (fault : option error)
| EvCapacity (generation : Z) (account_id : string) (update : capacityUpdate)
| EvHealth (account_id : string) (now : Time)
| EvPublish (staged : runtimeSnapshot) (before : res unit) (close_error : option error)
| EvShutdown (now wall : Time) (fault flush_error close_error : option error).

(** The write that a poll or a record leaves behind. *)
Definition left_over (r : res (option pending_write)) : list pending_write :=
  match r with Ok (Some p) => [p] | _ => [] end.

Definition step `{GoStd} (e : event) (x : world) : option world :=
  let '(r, w) := x in
  match e with
  | EvUsage record now later =>
      let used := usage_locked r record now later in
      Some (used.2, left_over used.1 ++ w)
  | EvPoll identity generation now later result cancelled =>
      let polled := poll_locked r identity generation now later result cancelled in
      Some (polled.2, left_over polled.1 ++ w)
  | EvWrite index wall fault =>
      p ← w !! index;
      Some ((persistStateLocked r p.1 p.2 wall fault).2, delete index w)
  | EvCapacity generation identity update =>
      Some ((updateCapacity r generation identity update).2, w)
  | EvHealth identity now => Some ((health r identity now).2, w)
  | EvPublish staged before close_error =>
      Some ((commitSnapshotAfter r staged before close_error).2, w)
  | EvShutdown now wall fault flush_error close_error =>
      match w with
      | [] => Some ((shutdown r now wall fault flush_error close_error).2, [])
      | _ => None
      end
  end.

Fixpoint run_events `{GoStd} (es : list event) (x : world) : option world :=
  match es with
  | [] => Some x
  | e :: es' => x' ← step e x; run_events es' x'
  end.

(** A usage record that nothing interrupts is the record and then its write, if it
    leaves one. *)
Lemma handleUsage_events `{GoStd} r w record now later wall fault :
  run_events (EvUsage record now later ::
      match left_over (usage_locked r record now later).1 with [] => [] | _ => [EvWrite 0 wall fault] end) (r, w)
  = Some ((handleUsage r record now later wall fault).2, w).
Proof.
  cbn [run_events step]. unfold handleUsage. destruct (usage_locked r record now later) as [[[[store state]|]|e] r']; done.
Qed.

(** A property kept by every event is kept by every sequence; [n] counts the
    events that are left. *)
Lemma run_events_ind `{GoStd} (I : nat → world → Prop) es x x' :
  (∀ n e y y', e ∈ es → I (S n) y → step e y = Some y' → I n y') →
  I (length es) x → run_events es x = Some x' → I 0%nat x'.
Proof.
  revert x. induction es as [|e es IH]; intros x Hstep Hx Hrun; simpl in *; [by simplify_eq|].
  destruct (step e x) as [y|] eqn:He; [|done]. simpl in Hrun. apply (IH y); [|by eapply Hstep; [left|..]|done].
  intros. eapply Hstep; [by right|done..].
Qed.

(** ** What each operation changes *)

(** What the health of the accounts may become when [identity] is touched. *)
Definition health_only (identity : string) (old new : gmap string accountHealthState) : Prop :=
  ∀ j, j ≠ identity → new !! j = old !! j.

Lemma set_quota_health_id s : set_quota_health (rs_Quota s) (rs_Health s) s = s.
Proof. by destruct s. Qed.

Lemma refreshCapacityLocked_snd s identity now :
  ∃ health, health_only identity (rs_Health s) health
  ∧ (refreshCapacityLocked s identity now).2 = set_quota_health (rs_Quota s) health s.
Proof.
  unfold refreshCapacityLocked.
  destruct (rs_Quota s !! identity) as [q|]; [destruct (rs_byIdentity s !! identity) as [item|]|];
    simpl; [|exists (rs_Health s); by rewrite set_quota_health_id..].
  eexists. split; [|reflexivity]. intros j Hj. by rewrite lookup_insert_ne.
Qed.

(** The result of a write: nothing for a stale one, otherwise the file or the
    warnings. *)
Inductive write_effect (r : pluginRuntime) (p : pending_write) : res unit * pluginRuntime → Prop :=
| write_stale : ps_Generation p.2 ≠ 0 → ps_Generation p.2 <= rt_persisted r →
    write_effect r p (Ok (), r)
| write_failed e : write_effect r p (Err (EWrap "persist quota state: " e), warn_unsaved p.1 p.2 r)
| write_done : (ps_Generation p.2 = 0 ∨ rt_persisted r < ps_Generation p.2) →
    write_effect r p (Ok (),
      set_saved (if negb (ps_Generation p.2 =? 0) then ps_Generation p.2 else rt_persisted r)
        (<[ss_dir p.1 := p.2]> (rt_saved r)) r).

Lemma save_state_ok store state wall fault r saved :
  save_state store state wall fault r = Ok saved →
  saved = <[ss_dir store := state]> (rt_saved r)
  ∧ ss_id store ∉ rt_closed r ∧ validatePersistedStateAt state wall = Ok ().
Proof.
  unfold save_state. case_bool_decide; [done|].
  destruct (validatePersistedStateAt state wall) as [[]|]; [|done]. simpl.
  by destruct fault; intros; simplify_eq.
Qed.

Lemma persistStateLocked_effect r p wall fault :
  write_effect r p (persistStateLocked r p.1 p.2 wall fault).
Proof.
  unfold persistStateLocked. destruct (negb _ && _) eqn:E; crush_bool; [by apply write_stale|].
  destruct (save_state _ _ _ _ _) as [saved|e] eqn:Hs; [|apply write_failed].
  apply save_state_ok in Hs as (-> & _). apply write_done.
  destruct E; crush_bool; [by left|by right].
Qed.

(** The snapshot with new quota and health, and the write that goes with it. *)
Definition recorded (r : pluginRuntime) (s' : runtimeSnapshot) (later : Time)
    : res (option pending_write) * pluginRuntime :=
  (Ok ((λ store, (store, (persistenceSnapshotLocked r s' later).1)) <$> rs_Store s'),
   set_snapshot s' (set_persistNext (wrapu64 (rt_persistNext r + 1)) r)).

(** The result of a usage record before the write. *)
Inductive usage_effect `{GoStd} (r : pluginRuntime) (record : UsageRecord) (now later : Time)
    : res (option pending_write) * pluginRuntime → Prop :=
| usage_refused e : usage_effect r record now later (Err e, r)
| usage_ignored : usage_effect r record now later (Ok None, r)
| usage_unstored s identity health : rt_snapshot r = Some s → rs_Store s = None →
    rs_byAuthID s !! TrimSpace (ur_AuthID record) = Some identity →
    health_only identity (rs_Health s) health →
    usage_effect r record now later
      (Ok None, set_snapshot (set_quota_health (rs_Quota s) health s) r)
| usage_recorded s identity health : rt_snapshot r = Some s → rt_stopped r = false →
    rs_byAuthID s !! TrimSpace (ur_AuthID record) = Some identity → identity ≠ "" →
    health_only identity (rs_Health s) health →
    usage_effect r record now later
      (recorded r (set_quota_health (<[identity := usage_quota (rs_Config s) record now
         (default zero_state (rs_Quota s !! identity))]> (rs_Quota s)) health s) later).

Lemma usage_locked_effect `{GoStd} r record now later :
  usage_effect r record now later (usage_locked r record now later).
Proof.
  unfold usage_locked. destruct (rt_snapshot r) as [s|] eqn:Hs; [|apply usage_refused].
  destruct (rt_stopped r) eqn:Hstop; [apply usage_refused|].
  destruct (rs_byAuthID s !! TrimSpace (ur_AuthID record)) as [identity|] eqn:Hid;
    simpl; [|apply usage_ignored].
  case_bool_decide as Hne; [apply usage_ignored|].
  set (s1 := if ur_Failed record then _ else _).
  assert (∃ health, health_only identity (rs_Health s) health
    ∧ s1 = set_quota_health (rs_Quota s) health s) as (health1 & Hh1 & Hs1).
  { unfold s1, set_health. destruct (ur_Failed record); [|destruct (_ && _)];
      [| |exists (rs_Health s); by rewrite set_quota_health_id];
      (eexists; split; [|reflexivity]); intros j Hj; by rewrite lookup_insert_ne. }
  clearbody s1. subst s1. simpl. destruct (rs_Store s) as [store|] eqn:Hst; [|by eapply usage_unstored].
  destruct (refreshCapacityLocked _ identity now) as [h2 s2] eqn:Hr.
  destruct (refreshCapacityLocked_snd (set_quota identity (usage_quota (rs_Config s) record now
    (default zero_state (rs_Quota s !! identity))) (set_quota_health (rs_Quota s) health1 s))
    identity now) as (health2 & Hh2 & Hs2).
  rewrite Hr in Hs2. simpl in Hs2. subst s2.
  pose proof (usage_recorded r record now later s identity health2 Hs Hstop Hid Hne) as Hrec.
  unfold recorded in Hrec. simpl in Hrec. rewrite Hst in Hrec. apply Hrec.
  intros j Hj. rewrite (Hh2 j Hj). simpl. by apply Hh1.
Qed.

(** Accounts of which only those of [identity] may differ, in their plan. *)
Definition accounts_only (identity : string) : list account → list account → Prop :=
  Forall2 (λ old new, ac_Identity new = ac_Identity old ∧ (ac_Identity old ≠ identity → new = old)).

Lemma accounts_only_refl identity accounts : accounts_only identity accounts accounts.
Proof. induction accounts; by constructor. Qed.

Lemma sync_first_only accounts identity plan buckets :
  accounts_only identity accounts (sync_first accounts identity plan buckets).2.
Proof.
  induction accounts as [|a accounts IH]; simpl; [constructor|].
  case_bool_decide as Hid.
  - destruct (plan_pinned a); [apply accounts_only_refl|].
    case_bool_decide; simpl; [apply accounts_only_refl|].
    constructor; [by split|apply accounts_only_refl].
  - destruct (sync_first accounts _ _ _) as [changed accounts'] eqn:E. simpl in *.
    by constructor.
Qed.

Lemma syncPlanFromUpstream_only accounts identity plan :
  accounts_only identity accounts (syncPlanFromUpstream accounts identity plan).2.
Proof.
  unfold syncPlanFromUpstream. case_bool_decide; [apply accounts_only_refl|].
  destruct (planBuckets !! plan); [apply sync_first_only|apply accounts_only_refl].
Qed.

(** The result of a poll before the write. *)
Inductive poll_effect (r : pluginRuntime) (identity : string) (generation : Z) (now later : Time)
    (result : res quotaSnapshot) : res (option pending_write) * pluginRuntime → Prop :=
| poll_cancelled : poll_effect r identity generation now later result (Err ECanceled, r)
| poll_unknown : poll_effect r identity generation now later result (Ok None, r)
| poll_recorded s state accounts byIdentity health : rt_snapshot r = Some s →
    rt_stopped r = false → rs_Generation s = generation →
    rs_Quota s !! identity = Some state → health_only identity (rs_Health s) health →
    accounts_only identity (rs_Accounts s) accounts →
    (∀ j, j ≠ identity → byIdentity !! j = rs_byIdentity s !! j) →
    poll_effect r identity generation now later result
      (recorded r (set_quota_health (<[identity := poll_state (rs_Config s)
         (accountByIdentity (rs_Accounts s) identity) now result state]> (rs_Quota s)) health
         (set_accounts accounts byIdentity s)) later).

Lemma poll_locked_effect r identity generation now later result cancelled :
  poll_effect r identity generation now later result
    (poll_locked r identity generation now later result cancelled).
Proof.
  unfold poll_locked. destruct (_ && _); [apply poll_cancelled|].
  destruct (rt_snapshot r) as [s|] eqn:Hs; [|apply poll_cancelled].
  destruct (_ || _) eqn:E; [apply poll_cancelled|]. crush_bool.
  destruct (rs_Quota s !! identity) as [state|] eqn:Hq; [|apply poll_unknown].
  set (s1 := match result with Ok snap => _ | Err _ => s end).
  assert (∃ accounts byIdentity, s1 = set_accounts accounts byIdentity s
    ∧ accounts_only identity (rs_Accounts s) accounts
    ∧ ∀ j, j ≠ identity → byIdentity !! j = rs_byIdentity s !! j)
    as (accounts & byIdentity & Hs1 & Hao & Hbo).
  { assert (∃ accounts byIdentity, s = set_accounts accounts byIdentity s
      ∧ accounts_only identity (rs_Accounts s) accounts
      ∧ ∀ j, j ≠ identity → byIdentity !! j = rs_byIdentity s !! j) as Hsame.
    { exists (rs_Accounts s), (rs_byIdentity s). split; [by destruct s|].
      split; [apply accounts_only_refl|done]. }
    unfold s1. destruct result as [snap|]; [|done].
    pose proof (syncPlanFromUpstream_only (rs_Accounts s) identity (sn_Plan snap)) as Honly.
    destruct (syncPlanFromUpstream _ _ _) as [[] accounts]; [|done].
    eexists accounts, _. split; [done|]. split; [done|]. intros j Hj. by rewrite lookup_insert_ne. }
  clearbody s1. subst s1.
  set (state' := poll_state _ _ _ _ _).
  destruct (refreshCapacityLocked _ identity now) as [h2 s2] eqn:Hr.
  destruct (refreshCapacityLocked_snd (set_quota identity state' (set_accounts accounts byIdentity s))
    identity now) as (health2 & Hh2 & Hs2).
  rewrite Hr in Hs2. simpl in Hs2. subst s2.
  by eapply poll_recorded.
Qed.

(** Publishing a snapshot leaves the writes alone. *)
Lemma commitSnapshotAfter_frame r staged before close_error :
  let r' := (commitSnapshotAfter r staged before close_error).2 in
  rt_persistNext r' = rt_persistNext r ∧ rt_persisted r' = rt_persisted r
  ∧ rt_saved r' = rt_saved r ∧ rt_stopped r' = rt_stopped r.
Proof.
  unfold commitSnapshotAfter. destruct (rt_stopped r) eqn:Hs; [done|].
  destruct (rt_snapshot r) as [live|]; [|by destruct before].
  destruct (sameSecureStore _ _); simpl; [case_bool_decide; [|destruct (rs_Store staged)]|];
    (destruct before; simpl; [|done]); (destruct (rs_Store live); [|done]); by case_bool_decide.
Qed.

(** What [shutdown] does with the file. *)
Inductive shutdown_effect (r : pluginRuntime) (now : Time) : pluginRuntime → Prop :=
| shutdown_again r' : rt_persistNext r' = rt_persistNext r → rt_persisted r' = rt_persisted r →
    rt_saved r' = rt_saved r → rt_snapshot r' = rt_snapshot r → shutdown_effect r now r'
| shutdown_counted s r' : rt_snapshot r = Some s → rt_snapshot r' = Some s →
    rt_persistNext r' = wrapu64 (rt_persistNext r + 1) → rt_persisted r' = rt_persisted r →
    rt_saved r' = rt_saved r → shutdown_effect r now r'
| shutdown_written s store r' : rt_snapshot r = Some s → rt_snapshot r' = Some s →
    rs_Store s = Some store →
    rt_persistNext r' = wrapu64 (rt_persistNext r + 1) →
    let state := (persistenceSnapshotLocked r s now).1 in
    rt_saved r' = <[ss_dir store := state]> (rt_saved r) →
    (ps_Generation state ≠ 0 → rt_persisted r' = ps_Generation state) →
    (ps_Generation state = 0 ∨ rt_persisted r < ps_Generation state) →
    shutdown_effect r now r'.

Lemma shutdown_effects r now wall fault flush_error close_error :
  shutdown_effect r now (shutdown r now wall fault flush_error close_error).2.
Proof.
  unfold shutdown. destruct (rt_stopped r); [by apply shutdown_again|]. simpl.
  destruct (rt_snapshot r) as [s|] eqn:Hs; [|by apply shutdown_again].
  simpl. destruct (rs_Store s) as [store|] eqn:Hst; [|by eapply shutdown_counted].
  destruct ((_ =? 0) || _) eqn:E; [|by eapply shutdown_counted].
  destruct (save_state _ _ _ _ _) as [saved|e] eqn:Hsave; [|by eapply shutdown_counted].
  apply save_state_ok in Hsave as (-> & _). simpl in E.
  eapply shutdown_written; simpl; [done..| |];
    destruct (Z.eqb_spec (wrapu64 (rt_persistNext r + 1)) 0);
    simpl in *; crush_bool; try done; auto.
Qed.

(** ** Versioned writes *)

(** The counters, the waiting writes and the files fit together. *)
Record versions_ok (x : world) : Prop := {
  vo_counters : 0 <= rt_persisted x.1 <= rt_persistNext x.1;
  vo_waiting : Forall (λ p, 0 < ps_Generation p.2 <= rt_persistNext x.1) x.2;
  vo_saved : map_Forall (λ _ p, 0 < ps_Generation p <= rt_persisted x.1) (rt_saved x.1);
}.

Lemma versions_ok_start : versions_ok (new_runtime, []).
Proof. split; simpl; [lia|constructor|apply map_Forall_empty]. Qed.

Lemma versions_ok_frame r w r' w' :
  versions_ok (r, w) → rt_persistNext r' = rt_persistNext r → rt_persisted r' = rt_persisted r →
  rt_saved r' = rt_saved r → w' ⊆ w → versions_ok (r', w').
Proof.
  intros [? Hw ?] Hn Hp Hs Hsub. split; simpl in *; rewrite ?Hn, ?Hp, ?Hs; [done| |done].
  rewrite Forall_forall in *. auto.
Qed.

(** A world whose counter has moved by one, with the new write waiting or not. *)
Lemma versions_ok_next r w r' w' :
  versions_ok (r, w) → rt_persistNext r + 1 < 18446744073709551616 →
  rt_persistNext r' = wrapu64 (rt_persistNext r + 1) → rt_persisted r' = rt_persisted r →
  rt_saved r' = rt_saved r → Forall (λ p, ps_Generation p.2 = rt_persistNext r') w' →
  versions_ok (r', w' ++ w).
Proof.
  intros [? Hw ?] Hlt Hn Hp Hs Hw'. simpl in *. rewrite wrapu64_id in Hn by lia.
  split; simpl; rewrite ?Hp, ?Hs; [lia| |done].
  apply Forall_app. split; (eapply Forall_impl; [done|]; simpl; lia).
Qed.

(** The file of a directory after a write of the state [p]. *)
Definition newer (x y : world) : Prop :=
  rt_persisted x.1 <= rt_persisted y.1
  ∧ ∀ dir old, rt_saved x.1 !! dir = Some old →
      ∃ new, rt_saved y.1 !! dir = Some new
        ∧ (new = old ∨ rt_persisted x.1 < ps_Generation new).

Lemma newer_frame x y : rt_persisted y.1 = rt_persisted x.1 → rt_saved y.1 = rt_saved x.1 → newer x y.
Proof. intros Hp Hs. split; rewrite ?Hp, ?Hs; [done|eauto]. Qed.

Lemma newer_trans x y z : newer x y → newer y z → newer x z.
Proof.
  intros [Hp1 H1] [Hp2 H2]. split; [lia|]. intros dir old Ho.
  destruct (H1 dir old Ho) as (mid & Hm & Hmid). destruct (H2 dir mid Hm) as (new & Hn & Hnew).
  exists new. split; [done|]. destruct Hnew as [->|]; [done|right; lia].
Qed.

Lemma versions_ok_written r w state dir r' :
  versions_ok (r, w) → ps_Generation state ≠ 0 → rt_persisted r < ps_Generation state →
  ps_Generation state <= rt_persistNext r' → rt_persistNext r <= rt_persistNext r' →
  rt_persisted r' = ps_Generation state →
  rt_saved r' = <[dir := state]> (rt_saved r) →
  versions_ok (r', w) ∧ newer (r, w) (r', w).
Proof.
  intros [? Hw Hsv] Hz Hlt Hle Hnext Hp Hs. simpl in *. split.
  - split; simpl; rewrite ?Hp, ?Hs; [lia| |].
    + eapply Forall_impl; [done|]. simpl. lia.
    + apply map_Forall_insert_2; [lia|]. intros d p Hd. specialize (Hsv d p Hd). simpl in Hsv. lia.
  - split; simpl; rewrite ?Hp, ?Hs; [lia|]. intros d old Hd.
    destruct (decide (d = dir)) as [->|Hne].
    + exists state. rewrite lookup_insert_eq. auto.
    + exists old. rewrite lookup_insert_ne by done. auto.
Qed.

Lemma warn_unsaved_frame store state r :
  let r' := warn_unsaved store state r in
  rt_persistNext r' = rt_persistNext r ∧ rt_persisted r' = rt_persisted r
  ∧ rt_saved r' = rt_saved r ∧ rt_stopped r' = rt_stopped r.
Proof. unfold warn_unsaved. destruct (rt_snapshot r); [|done]. by destruct (_ && _). Qed.

Lemma write_next r p x : write_effect r p x → rt_persistNext x.2 = rt_persistNext r.
Proof. destruct 1; [done|apply warn_unsaved_frame|done]. Qed.

Lemma write_versions r w p x :
  versions_ok (r, w) → 0 < ps_Generation p.2 <= rt_persistNext r → write_effect r p x →
  versions_ok (x.2, w) ∧ newer (r, w) (x.2, w).
Proof.
  intros Hok Hg Hx. destruct Hx as [Hz Hst|e|Hd]; simpl.
  - split; [done|by apply newer_frame].
  - destruct (warn_unsaved_frame p.1 p.2 r) as (Hn & Hp & Hs & _).
    split; [by eapply versions_ok_frame|by apply newer_frame].
  - destruct (Z.eqb_spec (ps_Generation p.2) 0); [lia|]. simpl. destruct Hd; [lia|].
    eapply versions_ok_written; simpl; (done || lia).
Qed.

Lemma recorded_versions r w s later x :
  versions_ok (r, w) → rt_persistNext r + 1 < 18446744073709551616 →
  x = recorded r s later → versions_ok (x.2, left_over x.1 ++ w).
Proof.
  intros Hok Hlt ->. eapply versions_ok_next; [done|done|done..|]. simpl.
  destruct (rs_Store s); simpl; by repeat constructor.
Qed.

Lemma usage_versions `{GoStd} r w record now later x :
  versions_ok (r, w) → rt_persistNext r + 1 < 18446744073709551616 →
  usage_effect r record now later x →
  versions_ok (x.2, left_over x.1 ++ w) ∧ newer (r, w) (x.2, left_over x.1 ++ w)
  ∧ rt_persistNext x.2 <= rt_persistNext r + 1.
Proof.
  intros Hok Hlt Hx. pose proof (vo_counters _ Hok) as Hc. cbn [fst] in *.
  destruct Hx as [e| |s id0 health Hs Hst _ _|s identity health Hs Hstop Hid Hne Hh].
  1-3: simpl; split_and!; [by eapply versions_ok_frame|by apply newer_frame|lia].
  split_and!; [by eapply recorded_versions|by apply newer_frame|].
  simpl. rewrite wrapu64_id by lia. lia.
Qed.

Lemma poll_versions r w identity generation now later result x :
  versions_ok (r, w) → rt_persistNext r + 1 < 18446744073709551616 →
  poll_effect r identity generation now later result x →
  versions_ok (x.2, left_over x.1 ++ w) ∧ newer (r, w) (x.2, left_over x.1 ++ w)
  ∧ rt_persistNext x.2 <= rt_persistNext r + 1.
Proof.
  intros Hok Hlt Hx. pose proof (vo_counters _ Hok) as Hc. cbn [fst] in *.
  destruct Hx; [split_and!; [done|by apply newer_frame|simpl; lia]..|].
  split_and!; [by eapply recorded_versions|by apply newer_frame|].
  simpl. rewrite wrapu64_id by lia. lia.
Qed.

Lemma step_versions `{GoStd} e x y :
  versions_ok x → rt_persistNext x.1 + 1 < 18446744073709551616 → step e x = Some y →
  versions_ok y ∧ newer x y ∧ rt_persistNext y.1 <= rt_persistNext x.1 + 1.
Proof.
  destruct x as [r w]. intros Hok Hlt He. pose proof (vo_counters _ Hok) as Hc. cbn [fst] in *.
  assert (∀ r', rt_persistNext r' = rt_persistNext r → rt_persisted r' = rt_persisted r →
    rt_saved r' = rt_saved r →
    versions_ok (r', w) ∧ newer (r, w) (r', w) ∧ rt_persistNext r' <= rt_persistNext r + 1) as Hframe.
  { intros. split_and!; [by eapply versions_ok_frame|by apply newer_frame|lia]. }
  destruct e; cbn [step] in He.
  - injection He as <-. eapply usage_versions; [done|done|]. apply usage_locked_effect.
  - injection He as <-. eapply poll_versions; [done|done|]. apply poll_locked_effect.
  - destruct (w !! index) as [p|] eqn:Hp; [|done]. injection He as <-.
    pose proof (persistStateLocked_effect r p wall fault) as Hw.
    assert (versions_ok (r, delete index w)) as Hok'.
    { eapply versions_ok_frame; [done|done..|]. apply list_subseteq_delete. }
    pose proof (vo_waiting _ Hok) as Hall. eapply Forall_lookup_1 in Hall; [|done].
    destruct (write_versions r _ p _ Hok' Hall Hw) as [? Hnew]. apply write_next in Hw.
    split_and!; [done|exact Hnew|]. cbn [fst]. rewrite Hw. lia.
  - injection He as <-. unfold updateCapacity. destruct (rt_snapshot r); [|by apply Hframe].
    destruct (_ || _); [by apply Hframe|]. destruct (_ !! _); by apply Hframe.
  - injection He as <-. unfold health. destruct (rt_snapshot r) as [s|]; [|by apply Hframe].
    destruct (_ !! _); [|by apply Hframe]. destruct (refreshCapacityLocked _ _ _); by apply Hframe.
  - injection He as <-. destruct (commitSnapshotAfter_frame r staged before close_error) as (? & ? & ? & _).
    by apply Hframe.
  - destruct w; [|done]. injection He as <-.
    pose proof (shutdown_effects r now wall fault flush_error close_error) as Hs.
    set (r' := (shutdown _ _ _ _ _ _).2) in *. clearbody r'.
    destruct Hs as [r' ? ? ?|s r' Hs Hs' Hn ? ?|s store r' Hs Hs' Hst Hn state Hsv Hp Hlt'].
    + by apply Hframe.
    + split_and!; [|by apply newer_frame|cbn [fst]; rewrite Hn, wrapu64_id by lia; lia].
      by apply (versions_ok_next r [] r' []).
    + assert (ps_Generation state = rt_persistNext r + 1) as Hg by (simpl; rewrite wrapu64_id; lia).
      rewrite wrapu64_id in Hn by lia.
      destruct (versions_ok_written r [] state (ss_dir store) r' Hok); try (done || lia).
      split_and!; [done..|cbn [fst]; lia].
Qed.

Lemma run_versions `{GoStd} es x y :
  versions_ok x → rt_persistNext x.1 + Z.of_nat (length es) < 18446744073709551616 →
  run_events es x = Some y → versions_ok y ∧ newer x y.
Proof.
  intros Hok Hlt Hrun.
  destruct (run_events_ind (λ n z, versions_ok z ∧ newer x z
    ∧ rt_persistNext z.1 + Z.of_nat n < 18446744073709551616) es x y) as (? & ? & _); [| |done|done].
  - intros n e z z' _ (Hz & Hn & Hb) Hs.
    destruct (step_versions e z z' Hz ltac:(lia) Hs) as (? & ? & ?).
    split_and!; [done|by eapply newer_trans|lia].
  - split_and!; [done|by apply newer_frame|done].
Qed.

(** ** No update is lost *)

(** Events that neither publish a snapshot nor stop the runtime. *)
Definition keeps_snapshot (e : event) : bool :=
  match e with EvPublish _ _ _ | EvShutdown _ _ _ _ _ => false | _ => true end.

(** The generations of the writes that fail along a run. *)
Definition failed_at (e : event) (x : world) : list Z :=
  match e with
  | EvWrite index wall fault =>
      match x.2 !! index with
      | Some p => if is_Ok (persistStateLocked x.1 p.1 p.2 wall fault).1 then [] else [ps_Generation p.2]
      | None => []
      end
  | _ => []
  end.

Fixpoint failed_writes `{GoStd} (es : list event) (x : world) : list Z :=
  match es with
  | [] => []
  | e :: es => failed_at e x ++ match step e x with Some y => failed_writes es y | None => [] end
  end.

(** States without and with the warnings that a failed write sets. *)
Definition unwarned (q : accountQuotaState) : accountQuotaState :=
  set_warnings false false (qs_UnknownModelWarning q) q.

Definition warned (m : gmap string accountQuotaState) : Prop :=
  map_Forall (λ _ q, qs_PersistenceWarning q = true) m.

(** The newest view of the accounts: it is the memory, up to the warnings of writes that
    failed since, and its write waits, is in the file, or failed and left its warning on
    every account. *)
Record newest_view (store : secureStore) (s : runtimeSnapshot) (failed : list Z) (x : world) (p : persistedState)
    : Prop := {
  nv_generation : ps_Generation p = rt_persistNext x.1;
  nv_runtime : ps_RuntimeGeneration p = rs_Generation s;
  nv_accounts : unwarned <$> ps_Accounts p = unwarned <$> rs_Quota s;
  nv_exact : failed = [] → ps_Accounts p = rs_Quota s;
  nv_unique : ∀ q, q ∈ x.2 → ps_Generation q.2 = rt_persistNext x.1 → q = (store, p);
  nv_where : (store, p) ∈ x.2 ∧ rt_persisted x.1 < rt_persistNext x.1
    ∨ rt_saved x.1 !! ss_dir store = Some p ∧ rt_persisted x.1 = rt_persistNext x.1
    ∨ (rt_persistNext x.1 ∈ failed ∧ warned (rs_Quota s)) ∧ rt_persisted x.1 < rt_persistNext x.1;
}.

Definition unchanged_or_viewed (store : secureStore) (x0 : world) (failed : list Z) (x : world) : Prop :=
  ∃ s0 s, rt_snapshot x0.1 = Some s0 ∧ rt_snapshot x.1 = Some s ∧ rs_Store s = Some store
  ∧ (rt_persistNext x.1 = rt_persistNext x0.1 ∧ rs_Quota s = rs_Quota s0 ∧ x.2 = []
     ∨ ∃ p, newest_view store s failed x p).

(** A record or poll whose view was made. *)
Lemma recorded_step store x0 failed r w s s' later :
  versions_ok (r, w) → rt_persistNext r + 1 < 18446744073709551616 →
  unchanged_or_viewed store x0 failed (r, w) → rt_snapshot r = Some s → rs_Store s' = rs_Store s →
  let x := recorded r s' later in unchanged_or_viewed store x0 failed (x.2, left_over x.1 ++ w).
Proof.
  intros Hok Hlt (s0 & s1 & Hs0 & Hs1 & Hst & _) Hs Hst' x. simpl in Hs1. assert (s1 = s) as -> by congruence.
  rewrite Hst in Hst'. pose proof (vo_counters _ Hok) as Hc. cbn [fst] in Hc.
  assert (wrapu64 (rt_persistNext r + 1) = rt_persistNext r + 1) as Hn by (apply wrapu64_id; lia).
  exists s0, s'. split_and!; [done|done|done|]. right. exists (persistenceSnapshotLocked r s' later).1.
  unfold x, recorded. rewrite Hst'. cbn [fst snd fmap option_fmap option_map left_over app].
  split; cbn [fst snd]; try done.
  - intros q [->|Hq]%elem_of_cons Hg; [done|]. pose proof (vo_waiting _ Hok) as Hall.
    rewrite Forall_forall in Hall. specialize (Hall q Hq). cbn in Hall, Hg. rewrite Hn in Hg. lia.
  - left. split; [left|]. cbn. rewrite Hn. lia.
Qed.

(** Events that only touch the health of the snapshot. *)
Lemma unchanged_or_viewed_frame store x0 failed r w r' s s' :
  unchanged_or_viewed store x0 failed (r, w) → rt_snapshot r = Some s →
  rt_snapshot r' = Some s' → rs_Quota s' = rs_Quota s → rs_Store s' = rs_Store s →
  rs_Generation s' = rs_Generation s → rt_persistNext r' = rt_persistNext r → rt_persisted r' = rt_persisted r →
  rt_saved r' = rt_saved r → unchanged_or_viewed store x0 failed (r', w).
Proof.
  intros (s0 & s1 & Hs0 & Hs1 & Hst & HJ) Hs Hs' Hq Hst' Hg Hn Hp Hsv. simpl in *. assert (s1 = s) as -> by congruence.
  exists s0, s'. cbn [fst snd]. rewrite Hq, Hst', Hn. split_and!; [done..|].
  destruct HJ as [?|(p & [? ? ? ? ? ?])]; [by left|]. right. exists p.
  by split; cbn [fst snd]; rewrite ?Hn, ?Hp, ?Hsv, ?Hq, ?Hg.
Qed.

(** What a failed write does to the accounts in memory. *)
Lemma warn_unsaved_accounts store state r s :
  rt_snapshot r = Some s →
  ∃ s', rt_snapshot (warn_unsaved store state r) = Some s' ∧ rs_Store s' = rs_Store s
  ∧ rs_Generation s' = rs_Generation s ∧ unwarned <$> rs_Quota s' = unwarned <$> rs_Quota s
  ∧ (warned (rs_Quota s) → warned (rs_Quota s'))
  ∧ (rs_Generation s = ps_RuntimeGeneration state → rs_Store s = Some store →
     (∀ id, is_Some (rs_Quota s !! id) → is_Some (ps_Accounts state !! id)) → warned (rs_Quota s')).
Proof.
  intros Hs. unfold warn_unsaved. rewrite Hs. destruct (_ && _) eqn:E; crush_bool.
  2: { exists s. split_and!; try done. intros Hg Hst _. destruct E as [E|E]; crush_bool; [lia|].
       by congruence. }
  eexists. split; [reflexivity|]. cbn [rs_Store rs_Generation rs_Quota set_quota_health].
  split_and!; [done|done| | |].
  - apply map_eq. intros id. rewrite !lookup_fmap, map_lookup_imap. destruct (rs_Quota s !! id) as [q|]; [|done].
    cbn. by case_bool_decide.
  - intros Hw id q. rewrite map_lookup_imap. destruct (rs_Quota s !! id) as [q0|] eqn:Hq; [|done]. cbn.
    specialize (Hw id q0 Hq). case_bool_decide; by intros [= <-].
  - intros _ _ Hkeys id q. rewrite map_lookup_imap. destruct (rs_Quota s !! id) as [q0|] eqn:Hq; [|done]. cbn.
    rewrite bool_decide_true by (apply Hkeys; eauto). by intros [= <-].
Qed.

(** Deleting another write keeps one that waits. *)
Lemma delete_other {A} (w : list A) index x y : w !! index = Some y → x ∈ w → x ≠ y → x ∈ delete index w.
Proof.
  intros Hi Hin Hne. apply list_elem_of_lookup in Hin as [j Hj].
  assert (j ≠ index) by (intros ->; congruence). destruct (decide (j < index)%nat).
  - eapply list_elem_of_lookup_2. by rewrite list_lookup_delete_lt.
  - apply (list_elem_of_lookup_2 _ (j - 1)). rewrite list_lookup_delete_ge by lia.
    by replace (S (j - 1)) with j by lia.
Qed.

Lemma write_done_step store s failed r w index q p :
  versions_ok (r, w) → newest_view store s failed (r, w) p → w !! index = Some q →
  rt_persisted r < ps_Generation q.2 →
  newest_view store s failed
    (set_saved (ps_Generation q.2) (<[ss_dir q.1 := q.2]> (rt_saved r)) r, delete index w) p.
Proof.
  intros Hok [Hg Hrg Hacc Hex Hu Hwh] Hi Hlt. cbn [fst snd] in *.
  assert (q ∈ w) as Hq by by eapply list_elem_of_lookup_2.
  pose proof (vo_waiting _ Hok) as Hall. rewrite Forall_forall in Hall. specialize (Hall q Hq). cbn in Hall.
  split; cbn [fst snd]; try done.
  { intros q' Hq'. apply Hu. by apply (list_subseteq_delete index w). }
  destruct (decide (ps_Generation q.2 = rt_persistNext r)) as [Heq|Hne].
  - pose proof (Hu q Hq Heq) as ->. right. left. cbn. rewrite lookup_insert_eq. done.
  - destruct Hwh as [[Hin _]|[[_ ?]|[? _]]]; [left|lia|right; right]; cbn; (split; [|lia]); [|done].
    eapply delete_other; [done..|]. by intros <-.
Qed.

Lemma write_failed_step store s failed r w index q p :
  versions_ok (r, w) → newest_view store s failed (r, w) p → rt_snapshot r = Some s → rs_Store s = Some store →
  w !! index = Some q →
  ∃ s', rt_snapshot (warn_unsaved q.1 q.2 r) = Some s' ∧ rs_Store s' = Some store
  ∧ (rt_persisted r < ps_Generation q.2 →
     newest_view store s' (failed ++ [ps_Generation q.2]) (warn_unsaved q.1 q.2 r, delete index w) p).
Proof.
  intros Hok [Hg Hrg Hacc Hex Hu Hwh] Hs Hst Hi. cbn [fst snd] in *.
  destruct (warn_unsaved_accounts q.1 q.2 r s Hs) as (s' & Hs' & Hst' & Hg' & Hun & Hw1 & Hw2).
  destruct (warn_unsaved_frame q.1 q.2 r) as (Hn & Hp & Hsv & _).
  exists s'. split; [done|]. split; [by rewrite Hst'|]. intros Hlt. cbn [fst snd].
  assert (q ∈ w) as Hq by by eapply list_elem_of_lookup_2.
  split; cbn [fst snd]; rewrite ?Hn, ?Hp, ?Hsv, ?Hun, ?Hg'; try done.
  - intros Hnil. by apply app_eq_nil in Hnil as [_ ?].
  - intros q' Hq'. apply Hu. by apply (list_subseteq_delete index w).
  - destruct (decide (ps_Generation q.2 = rt_persistNext r)) as [Heq|Hne].
    + pose proof (Hu q Hq Heq) as ->. right. right. cbn [fst snd] in *. split; [|lia]. split.
      { apply elem_of_app. right. rewrite Heq. left. }
      apply Hw2; [by rewrite Hrg|done|]. intros id [q0 Hid].
      assert ((unwarned <$> ps_Accounts p) !! id = Some (unwarned q0)) as Hp0
        by (rewrite Hacc, lookup_fmap, Hid; done).
      rewrite lookup_fmap in Hp0. by destruct (ps_Accounts p !! id); eauto.
    + destruct Hwh as [[Hin ?]|[?|[[? ?] ?]]]; [left|by right; left|right; right]; (split; [|lia]).
      * eapply delete_other; [done..|]. by intros <-.
      * split; [apply elem_of_app; by left|by apply Hw1].
Qed.

Lemma write_step store x0 failed r w index q wall fault :
  versions_ok (r, w) → unchanged_or_viewed store x0 failed (r, w) → w !! index = Some q →
  let x := persistStateLocked r q.1 q.2 wall fault in
  unchanged_or_viewed store x0 (failed ++ if is_Ok x.1 then [] else [ps_Generation q.2]) (x.2, delete index w).
Proof.
  intros Hok (s0 & s & Hs0 & Hs & Hst & HQ) Hi x. cbn [fst snd] in *.
  destruct HQ as [(_ & _ & Hnil)|(p & Hv)]; [by subst w|].
  pose proof (persistStateLocked_effect r q wall fault) as Hw. fold x in Hw.
  pose proof (vo_waiting _ Hok) as Hall. eapply Forall_lookup_1 in Hall; [|exact Hi]. cbn in Hall.
  assert (ps_Generation q.2 <= rt_persisted r → x = (Ok (), r)) as Hstale.
  { intros Hle. unfold x, persistStateLocked. destruct (Z.eqb_spec (ps_Generation q.2) 0); [lia|].
    cbn [negb andb]. destruct (Z.leb_spec (ps_Generation q.2) (rt_persisted r)); [done|lia]. }
  destruct (decide (ps_Generation q.2 <= rt_persisted r)) as [Hle|Hgt].
  - rewrite (Hstale Hle). cbn [fst snd is_Ok]. rewrite app_nil_r. exists s0, s. split_and!; [done..|]. right. exists p.
    destruct Hv as [Hg Hrg Hacc Hex Hu Hwh]. split; cbn [fst snd] in *; try done.
    + intros q' Hq'. apply Hu. by apply (list_subseteq_delete index w).
    + destruct Hwh as [[Hin ?]|?]; [left|by right]. split; [|lia]. eapply delete_other; [done..|].
      intros <-. cbn in Hle. lia.
  - destruct Hw as [|e|_]; [lia|..]; cbn [fst snd is_Ok].
    + destruct (write_failed_step store s failed r w index q p Hok Hv Hs Hst Hi) as (s' & Hs' & Hst' & Hv').
      exists s0, s'. split_and!; [done..|]. right. exists p. apply Hv'. lia.
    + rewrite app_nil_r. exists s0, s. split_and!; [done..|]. right. exists p.
      destruct (Z.eqb_spec (ps_Generation q.2) 0); [lia|]. cbn [negb]. apply write_done_step; (done || lia).
Qed.

Lemma kept_step `{GoStd} store x0 failed e x y :
  versions_ok x → rt_persistNext x.1 + 1 < 18446744073709551616 →
  unchanged_or_viewed store x0 failed x → keeps_snapshot e = true → step e x = Some y →
  unchanged_or_viewed store x0 (failed ++ failed_at e x) y.
Proof.
  destruct x as [r w]. intros Hok Hlt HJ Hkeep He.
  pose proof HJ as (s0 & s & Hs0 & Hs & Hst & HQ). cbn [fst] in Hs.
  destruct e; cbn [step keeps_snapshot failed_at fst snd] in *; try done; rewrite ?app_nil_r.
  - injection He as <-. destruct (usage_locked_effect r record now later)
      as [e| |s1 id0 health Hs1 Hst1 _ _|s1 identity health Hs1 Hstop Hid Hne Hh]; [done|done|congruence|].
    assert (s1 = s) as -> by congruence. by eapply recorded_step.
  - injection He as <-.
    destruct (poll_locked_effect r account_id generation now later result cancelled)
      as [| |s1 state accounts byIdentity health Hs1 Hstop Hg Hq Hh _ _]; [done|done|].
    by eapply recorded_step.
  - destruct (w !! index) as [q|] eqn:Hi; [|done]. injection He as <-. by apply write_step.
  - injection He as <-. unfold updateCapacity. rewrite Hs. destruct (_ || _); [done|].
    destruct (_ !! _); [|done]. by eapply unchanged_or_viewed_frame.
  - injection He as <-. unfold health. rewrite Hs. destruct (_ !! _); [|done].
    destruct (refreshCapacityLocked_snd s account_id now) as (h & _ & Hr).
    destruct (refreshCapacityLocked s account_id now) as [st s']. simpl in Hr. subst s'.
    by eapply unchanged_or_viewed_frame.
Qed.

Lemma kept_run `{GoStd} store x0 failed es x y :
  versions_ok x → rt_persistNext x.1 + Z.of_nat (length es) < 18446744073709551616 →
  unchanged_or_viewed store x0 failed x → Forall (λ e, keeps_snapshot e = true) es → run_events es x = Some y →
  unchanged_or_viewed store x0 (failed ++ failed_writes es x) y.
Proof.
  revert x failed. induction es as [|e es IH]; cbn [run_events failed_writes length]; intros x failed Hok Hlt HJ Hall Hrun.
  { rewrite app_nil_r. by simplify_eq. }
  apply Forall_cons in Hall as [Hk Hall]. destruct (step e x) as [x'|] eqn:He; [|done].
  cbn [mbind option_bind] in Hrun. destruct (step_versions e x x' Hok ltac:(lia) He) as (Hok' & _ & Hn).
  rewrite app_assoc. apply (IH x'); [done|lia| |done|done]. apply (kept_step store x0 failed e x x'); (done || lia).
Qed.

(** ** Every saved state is valid *)

(** What the validation of a saved state demands of the accounts. *)
Definition accounts_valid (now : Time) (m : gmap string accountQuotaState) : Prop :=
  map_Forall (λ id q, validateAccountIdentity id = Ok () ∧ state_wf now q) m.

(** The failure counters leave room for [n] more failures. *)
Definition counters_below (n : nat) (m : gmap string accountQuotaState) : Prop :=
  map_Forall (λ _ q, qs_ConsecutiveFailures q + Z.of_nat n <= int64_max) m.

Record snapshot_valid (n : nat) (now : Time) (s : runtimeSnapshot) : Prop := {
  sp_accounts : accounts_valid now (rs_Quota s);
  sp_counters : counters_below n (rs_Quota s);
  sp_index : map_Forall (λ _ id, id = "" ∨ validateAccountIdentity id = Ok ()) (rs_byAuthID s);
}.

Record world_valid (n : nat) (now : Time) (x : world) : Prop := {
  wd_snapshot : ∀ s, rt_snapshot x.1 = Some s → snapshot_valid n now s;
  wd_waiting : Forall (λ p, accounts_valid now (ps_Accounts p.2)) x.2;
  wd_saved : map_Forall (λ _ p, accounts_valid now (ps_Accounts p)) (rt_saved x.1);
  wd_room : Z.of_nat n <= int64_max;
}.

(** The time of an event, and what its inputs are known to satisfy: a polled
    snapshot that can be saved, and a staged snapshot built from valid parts. *)
Definition event_time (e : event) (t : Time) : Time :=
  match e with
  | EvUsage _ now _ | EvPoll _ _ now _ _ _ | EvHealth _ now | EvShutdown now _ _ _ _ => now
  | EvWrite _ _ _ | EvCapacity _ _ _ | EvPublish _ _ _ => t
  end.

Definition admissible_input (n : nat) (t : Time) (e : event) : Prop :=
  match e with
  | EvPoll _ _ _ _ (Ok snap) _ => validateAuthoritative snap (t + maxPersistedClockSkew) = Ok ()
  | EvPublish staged _ _ => snapshot_valid n t staged
  | _ => True
  end.

Fixpoint admissible (t : Time) (es : list event) : Prop :=
  match es with
  | [] => True
  | e :: es' => t <= event_time e t ∧ admissible_input (length es') (event_time e t) e
                ∧ admissible (event_time e t) es'
  end.

Definition last_time (t : Time) (es : list event) : Time := foldl (λ t e, event_time e t) t es.

Lemma accounts_valid_later now later m :
  now <= later → accounts_valid now m → accounts_valid later m.
Proof. intros Hle Hm id q Hq. destruct (Hm id q Hq). split; [done|by eapply state_wf_later]. Qed.

Lemma counters_below_weaken n n' m : (n' ≤ n)%nat → counters_below n m → counters_below n' m.
Proof. intros Hle Hm id q Hq. specialize (Hm id q Hq). simpl in Hm. lia. Qed.

Lemma world_valid_later n n' now later x :
  now <= later → (n' ≤ n)%nat → world_valid n now x → world_valid n' later x.
Proof.
  intros Hle Hn [Hs Hw Hsv ?]. split; [| | |lia].
  - intros s Hx. destruct (Hs s Hx).
    split; [by eapply accounts_valid_later|by eapply counters_below_weaken|done].
  - eapply Forall_impl; [done|]. intros p. by apply accounts_valid_later.
  - intros d p Hp. eapply accounts_valid_later; [done|by eapply Hsv].
Qed.

Lemma estimated_model `{GoStd} record at_ est :
  estimateUsageCredits record at_ = Ok est → normalizeModelName (ce_Model est) ≠ "".
Proof.
  assert (map_Forall (λ _ r, normalizeModelName (cr_CanonicalName r) ≠ "") modelCreditRates)
    as Hall by by_decision.
  unfold estimateUsageCredits. destruct (ratesForUsage record) as [rates|] eqn:Hr; [|done].
  apply ratesForUsage_Some in Hr as [name Hname]. destruct (_ || _); [done|].
  cbv zeta. destruct (bool_decide _); [|done]. intros [= <-]. exact (Hall name rates Hname).
Qed.

Lemma state_wf_zero now : state_wf now zero_state.
Proof. split; simpl; try done; try constructor. apply Nat.le_0_l. Qed.

Lemma usage_quota_valid `{GoStdLaws} cfg record now q :
  0 < now → state_wf now q →
  state_wf now (usage_quota cfg record now q)
  ∧ qs_ConsecutiveFailures (usage_quota cfg record now q) = qs_ConsecutiveFailures q.
Proof.
  intros Hnow Hwf. unfold usage_quota.
  set (q1 := complete_since now q).
  assert (state_wf now q1 ∧ qs_ConsecutiveFailures q1 = qs_ConsecutiveFailures q) as [Hwf1 <-].
  { unfold q1, complete_since. destruct (time_IsZero _); [|done]. by destruct Hwf. }
  clearbody q1. clear Hwf q. cbv zeta.
  assert (∀ p s, state_wf now s → state_wf now (set_warnings true p true s)
    ∧ state_wf now (warn_delivery s)) as Hwarn by (intros p s []; by split).
  destruct (_ && _); [by split; [apply (Hwarn true)|]|].
  destruct (time_After _ _) eqn:Hafter; [by split; [apply (Hwarn true)|]|].
  pose proof (state_wf_seenDedup now q1 _ Hwf1 (usageDedupHash_wf record)) as Hwf2.
  assert (qs_ConsecutiveFailures (seenDedup q1 (usageDedupHash record)).2
    = qs_ConsecutiveFailures q1) as Hf2 by (unfold seenDedup; by case_bool_decide).
  destruct (seenDedup q1 _) as [seen q2]. simpl in Hwf2, Hf2.
  destruct seen; [done|].
  destruct (estimateUsageCredits _ _) as [est|] eqn:Hest; [|by split; [apply Hwarn|]].
  apply estimated_model in Hest. split.
  - apply state_wf_compact, state_wf_addEvent; [done|]. intros Hpos. split; simpl; [|done..].
    unfold usageTimestamp in *. unfold_time. destruct (Z.eqb_spec (ur_RequestedAt record) 0);
      unfold maxPersistedClockSkew, minute, second in *; crush_bool; lia.
  - rewrite <- Hf2. unfold compact, addEvent. cbv zeta.
    repeat match goal with |- context [if ?b then _ else _] => destruct b end; done.
Qed.

Lemma poll_state_valid n cfg item now result q :
  state_wf now q → qs_ConsecutiveFailures q + Z.of_nat (S n) <= int64_max →
  (∀ snap, result = Ok snap → validateAuthoritative snap (now + maxPersistedClockSkew) = Ok ()) →
  state_wf now (poll_state cfg item now result q)
  ∧ qs_ConsecutiveFailures (poll_state cfg item now result q) + Z.of_nat n <= int64_max.
Proof.
  intros Hwf Hroom Hsnap. destruct Hwf as [Hf ? ? Hs ? ?].
  assert (qs_ConsecutiveFailures q [+] 1 = qs_ConsecutiveFailures q + 1) as Hinc.
  { apply wrap64_id. unfold in_int64, int64_min, int64_max in *. lia. }
  destruct result as [snap|e]; simpl.
  - assert (∀ s, Some snap = Some s → snapshot_wf (now + maxPersistedClockSkew) s) as Hwf.
    { intros s [= <-]. by apply validateAuthoritative_ok, Hsnap. }
    assert (0 + Z.of_nat n <= int64_max) by (unfold int64_max in *; lia).
    destruct (qs_Authoritative q); (split; [split|]); done.
  - rewrite Hinc. split; [split|]; simpl; (done || lia).
Qed.

(** Worlds whose snapshot, waiting writes and files are as before. *)
Lemma world_valid_frame n now r w r' w' :
  world_valid n now (r, w) → rt_saved r' = rt_saved r → w' ⊆ w →
  (∀ s', rt_snapshot r' = Some s' → snapshot_valid n now s') → world_valid n now (r', w').
Proof.
  intros [? Hw ? ?] Hsv Hsub ?. split; simpl in *; [done| |by rewrite Hsv|done].
  rewrite Forall_forall in *. auto.
Qed.

Lemma snapshot_valid_quota n now s quota health :
  snapshot_valid n now s → accounts_valid now quota → counters_below n quota →
  snapshot_valid n now (set_quota_health quota health s).
Proof. intros [? ? ?] ? ?. by split. Qed.

Lemma recorded_valid n now r w s' later :
  world_valid n now (r, w) → snapshot_valid n now s' →
  let x := recorded r s' later in world_valid n now (x.2, left_over x.1 ++ w).
Proof.
  intros [? Hw ? ?] Hs'. unfold recorded. split; simpl in *; [by intros s [= <-]| |done..].
  destruct (rs_Store s'); simpl; [|done]. constructor; [|done]. apply Hs'.
Qed.

Lemma warn_unsaved_valid n now r store state s :
  (∀ s, rt_snapshot r = Some s → snapshot_valid n now s) →
  rt_snapshot (warn_unsaved store state r) = Some s → snapshot_valid n now s.
Proof.
  intros Hr. unfold warn_unsaved. destruct (rt_snapshot r) as [s0|] eqn:Hs; [|congruence].
  destruct (_ && _); [|intros ?; apply Hr; congruence]. simpl. intros [= <-].
  destruct (Hr s0 eq_refl) as [Ha Hc ?].
  apply snapshot_valid_quota; [done| |]; intros id q; rewrite map_lookup_imap;
    destruct (rs_Quota s0 !! id) as [q0|] eqn:Hq; simpl; try done;
    specialize (Ha id q0 Hq); specialize (Hc id q0 Hq); case_bool_decide; intros [= <-];
    try done; by destruct Ha as [? []].
Qed.

Lemma write_valid n now r w p x :
  world_valid n now (r, w) → accounts_valid now (ps_Accounts p.2) → write_effect r p x →
  world_valid n now (x.2, w).
Proof.
  intros [Hs Hw Hsv ?] Hp Hx. destruct Hx as [| |]; simpl in *; [by split| |].
  - eapply world_valid_frame; [by split|apply warn_unsaved_frame|done|].
    intros s'. simpl. by apply warn_unsaved_valid.
  - split; simpl; [done|done| |done]. by apply map_Forall_insert_2.
Qed.

Lemma usage_valid `{GoStdLaws} n now r w record later :
  0 < now → world_valid n now (r, w) →
  let x := usage_locked r record now later in world_valid n now (x.2, left_over x.1 ++ w).
Proof.
  intros Hnow Hok. cbv zeta. pose proof (wd_snapshot _ _ _ Hok) as Hsn. simpl in Hsn.
  destruct (usage_locked_effect r record now later)
    as [e| |s id0 health Hs Hst _ _|s identity health Hs Hstop Hid Hne Hh]; [done|done| |].
  { eapply world_valid_frame; [done|done|done|]. simpl. intros s' [= <-].
    destruct (Hsn s Hs). by apply snapshot_valid_quota. }
  destruct (Hsn s Hs) as [Ha Hc Hi].
  set (q := usage_quota (rs_Config s) record now (default zero_state (rs_Quota s !! identity))).
  assert (state_wf now q ∧ qs_ConsecutiveFailures q + Z.of_nat n <= int64_max) as [Hwf Hroom].
  { assert (state_wf now (default zero_state (rs_Quota s !! identity))
      ∧ qs_ConsecutiveFailures (default zero_state (rs_Quota s !! identity)) + Z.of_nat n
        <= int64_max) as [Hwf0 Hroom0].
    { destruct (rs_Quota s !! identity) as [q0|] eqn:Hq0; simpl.
      - split; [by apply (Ha identity q0)|by apply (Hc identity q0)].
      - split; [apply state_wf_zero|]. apply (wd_room _ _ _ Hok). }
    destruct (usage_quota_valid (rs_Config s) record now _ Hnow Hwf0) as [? Heq].
    unfold q. by rewrite Heq. }
  assert (validateAccountIdentity identity = Ok ()) as Hidv by by destruct (Hi _ _ Hid).
  set (s' := set_quota_health _ health s).
  assert (snapshot_valid n now s') as Hs'.
  { apply snapshot_valid_quota; [done|by apply map_Forall_insert_2..]. }
  exact (recorded_valid n now r w s' later Hok Hs').
Qed.

Lemma commit_snapshot r staged before close_error s :
  rt_snapshot (commitSnapshotAfter r staged before close_error).2 = Some s →
  rt_snapshot r = Some s
  ∨ rs_byAuthID s = rs_byAuthID staged
    ∧ (∀ id q, rs_Quota s !! id = Some q → rs_Quota staged !! id = Some q
       ∨ ∃ live, rt_snapshot r = Some live ∧ rs_Quota live !! id = Some q).
Proof.
  unfold commitSnapshotAfter. destruct (rt_stopped r); [by left|].
  destruct (rt_snapshot r) as [live|] eqn:Hl.
  2: { destruct before; simpl; [|congruence]. intros [= <-]. right. simpl. auto. }
  destruct (sameSecureStore _ _); simpl.
  - set (r1 := if bool_decide _ then r else _).
    assert (rt_snapshot r1 = Some live) as Hr1.
    { unfold r1. destruct (bool_decide _); [done|]. by destruct (rs_Store staged). }
    clearbody r1. destruct before; simpl; [|rewrite Hr1; by left].
    intros Hs. right. assert (s = set_routing ∅ (set_published (rs_Store live)
      (wrapu64 (rs_Generation live + 1)) (carry_forward live staged))) as ->.
    { destruct (rs_Store live); [destruct (bool_decide _)|]; simpl in Hs; congruence. }
    split; [done|]. simpl. intros id q. rewrite map_lookup_imap.
    destruct (rs_Quota staged !! id) as [q0|]; simpl; [|done]. intros [= <-].
    destruct (rs_Quota live !! id) as [q1|] eqn:Hq1; simpl; [|by left]. right. eauto.
  - destruct before; simpl; [|rewrite Hl; by left]. intros Hs. right.
    assert (s = set_routing ∅ (set_published (rs_Store staged) (wrapu64 (rs_Generation live + 1))
      staged)) as ->.
    { destruct (rs_Store live); [destruct (bool_decide _)|]; simpl in Hs; congruence. }
    simpl. auto.
Qed.

Lemma shutdown_valid n now r wall fault flush_error close_error :
  world_valid n now (r, []) →
  world_valid n now ((shutdown r now wall fault flush_error close_error).2, []).
Proof.
  intros Hok. pose proof (shutdown_effects r now wall fault flush_error close_error) as Hs.
  set (r' := (shutdown _ _ _ _ _ _).2) in *. clearbody r'.
  destruct Hok as [Hsn Hw Hsv Hn]. cbn [fst snd] in *.
  destruct Hs as [r' ? ? Hs Hsnap|s r' Hs Hs' ? ? Hsaved|s store r' Hs Hs' Hst Hn' state Hsaved _ _];
    split; cbn [fst snd]; rewrite ?Hsnap, ?Hs', ?Hs, ?Hsaved; try done.
  - by intros s0 [= <-]; apply Hsn.
  - by intros s0 [= <-]; apply Hsn.
  - apply map_Forall_insert_2; [|done]. apply (Hsn s Hs).
Qed.

Lemma step_valid `{GoStdLaws} n t e x y :
  0 < t → t <= event_time e t → admissible_input n (event_time e t) e →
  world_valid (S n) t x → step e x = Some y → world_valid n (event_time e t) y.
Proof.
  intros Ht Hle Hin Hok He.
  pose proof (world_valid_later (S n) (S n) t (event_time e t) x Hle ltac:(lia) Hok) as Hok1.
  pose proof (world_valid_later (S n) n t (event_time e t) x Hle ltac:(lia) Hok) as Hok0.
  assert (0 < event_time e t) as Hpos by lia. clear Hok Hle Ht.
  destruct x as [r w]. pose proof (wd_snapshot _ _ _ Hok0) as Hsn. cbn [fst snd] in Hsn.
  destruct e; cbn [event_time step admissible_input] in *.
  - injection He as <-. by apply usage_valid.
  - injection He as <-.
    destruct (poll_locked_effect r account_id generation now later result cancelled)
      as [| |s q accounts byIdentity health Hs Hstop Hg Hq Hh _ _]; [done|done|].
    apply (recorded_valid n now r w); [done|].
    destruct (wd_snapshot _ _ _ Hok1 s Hs) as [Ha Hc Hi].
    destruct (Ha account_id q Hq) as [Hid Hwf]. specialize (Hc account_id q Hq). simpl in Hc.
    destruct (poll_state_valid n (rs_Config s) (accountByIdentity (rs_Accounts s) account_id) now
      result q Hwf Hc) as [Hwf' Hroom]; [by intros snap ->|].
    destruct (Hsn s Hs) as [? ? ?].
    split; [by apply map_Forall_insert_2|by apply map_Forall_insert_2|done].
  - destruct (w !! index) as [p|] eqn:Hp; [|done]. injection He as <-.
    pose proof (wd_waiting _ _ _ Hok0) as Hw. eapply Forall_lookup_1 in Hw; [|exact Hp].
    eapply write_valid; [|exact Hw|apply persistStateLocked_effect].
    eapply world_valid_frame; [exact Hok0|done|apply list_subseteq_delete|exact Hsn].
  - injection He as <-. unfold updateCapacity. destruct (rt_snapshot r) as [s|] eqn:Hs; [|done].
    destruct (_ || _); [done|]. destruct (_ !! _); [|done].
    eapply world_valid_frame; [exact Hok0|done|done|]. intros s' [= <-].
    destruct (Hsn s eq_refl). by split.
  - injection He as <-. unfold health. destruct (rt_snapshot r) as [s|] eqn:Hs; [|done].
    destruct (_ !! _); [|done].
    destruct (refreshCapacityLocked_snd s account_id now) as (h & _ & Hr).
    destruct (refreshCapacityLocked s account_id now) as [st s']. simpl in Hr. subst s'.
    eapply world_valid_frame; [exact Hok0|done|done|]. intros s' [= <-].
    destruct (Hsn s eq_refl). by split.
  - injection He as <-. destruct (commitSnapshotAfter_frame r staged before close_error) as (_ & _ & Hsv & _).
    eapply world_valid_frame; [exact Hok0|exact Hsv|done|].
    intros s' [Hs|[Hidx Hq]]%commit_snapshot; [by apply Hsn|]. destruct Hin as [Ha Hc Hi].
    split; [| |by rewrite Hidx]; intros id q Hid;
      (destruct (Hq id q Hid) as [?|(live & Hl & ?)]; [eauto|destruct (Hsn live Hl); eauto]).
  - destruct w; [|done]. injection He as <-. by apply shutdown_valid.
Qed.

Lemma run_valid `{GoStdLaws} es t x y :
  0 < t → admissible t es → world_valid (length es) t x → run_events es x = Some y →
  world_valid 0 (last_time t es) y.
Proof.
  revert t x. induction es as [|e es IH]; cbn [run_events length admissible]; intros t x Ht Had Hok Hrun.
  { injection Hrun as <-. done. }
  destruct Had as (Hle & Hin & Had). destruct (step e x) as [x'|] eqn:He; [|done].
  apply (IH _ x'); [lia|done| |done]. by eapply step_valid.
Qed.

(** Staging a reconfiguration from valid parts gives a valid snapshot. *)
Lemma stage_account_valid n cfg saved now st i :
  Z.of_nat n <= int64_max →
  accounts_valid now (ps_Accounts saved) → counters_below n (ps_Accounts saved) →
  Forall (λ a, validateAccountIdentity (ac_Identity a) = Ok ()) (sg_accounts st) →
  accounts_valid now (sg_quota st) → counters_below n (sg_quota st) →
  map_Forall (λ _ id, id = "" ∨ validateAccountIdentity id = Ok ()) (sg_byAuthID st) →
  let st' := stage_account cfg saved now st i in
  Forall (λ a, validateAccountIdentity (ac_Identity a) = Ok ()) (sg_accounts st')
  ∧ accounts_valid now (sg_quota st') ∧ counters_below n (sg_quota st')
  ∧ map_Forall (λ _ id, id = "" ∨ validateAccountIdentity id = Ok ()) (sg_byAuthID st').
Proof.
  intros Hn Hsa Hsc Hacc Hq Hc Hi. unfold stage_account.
  destruct (sg_accounts st !! i) as [item|] eqn:Hitem; [|done]. cbv zeta.
  set (q := compact _ now (pc_StateRetention cfg)).
  set (accounts := match qs_Authoritative q with Some _ => _ | None => _ end).
  assert (accounts_only (ac_Identity item) (sg_accounts st) accounts) as Honly.
  { unfold accounts. destruct (qs_Authoritative q);
      [apply syncPlanFromUpstream_only|apply accounts_only_refl]. }
  assert (Forall (λ a, validateAccountIdentity (ac_Identity a) = Ok ()) accounts) as Hacc'.
  { apply Forall_lookup_2. intros k a Ha.
    destruct (Forall2_lookup_r _ _ _ _ _ Honly Ha) as (a0 & Ha0 & -> & _).
    by eapply Forall_lookup_1 in Hacc. }
  assert (validateAccountIdentity (ac_Identity item) = Ok ()) as Hid by by eapply Forall_lookup_1 in Hacc.
  assert (state_wf now q ∧ qs_ConsecutiveFailures q + Z.of_nat n <= int64_max) as [Hwf Hroom].
  { set (q0 := default zero_state (ps_Accounts saved !! ac_Identity item)).
    assert (state_wf now q0 ∧ qs_ConsecutiveFailures q0 + Z.of_nat n <= int64_max) as [Hwf0 Hroom0].
    { unfold q0. destruct (ps_Accounts saved !! ac_Identity item) as [q1|] eqn:Hq1; simpl.
      - split; [by apply (Hsa _ _ Hq1)|by apply (Hsc _ _ Hq1)].
      - split; [apply state_wf_zero|done]. }
    assert (state_wf now (complete_since now q0)
      ∧ qs_ConsecutiveFailures (complete_since now q0) = qs_ConsecutiveFailures q0) as [Hwf1 Heq].
    { unfold complete_since. destruct (time_IsZero _); [|done]. by destruct Hwf0. }
    split; [by apply state_wf_compact|]. unfold q. rewrite <- Heq in Hroom0.
    replace (qs_ConsecutiveFailures (compact _ _ _))
      with (qs_ConsecutiveFailures (complete_since now q0)); [done|].
    fold q0. unfold compact. cbv zeta.
    repeat match goal with |- context [if ?b then _ else _] => destruct b end; done. }
  simpl. split_and!; [done|by apply map_Forall_insert_2|by apply map_Forall_insert_2|].
  intros id owner. unfold indexAccountAuthIDs. rewrite foldl_insert_lookup.
  destruct (decide _) as [_|_]; [|by apply Hi]. intros [= <-]. right.
  destruct (accounts !! i) as [a|] eqn:Ha; simpl; [by eapply Forall_lookup_1 in Hacc'|done].
Qed.

Lemma stage_snapshot_valid n now cfg base accounts store saved :
  Z.of_nat n <= int64_max →
  accounts_valid now (ps_Accounts saved) → counters_below n (ps_Accounts saved) →
  Forall (λ a, validateAccountIdentity (ac_Identity a) = Ok ()) accounts →
  snapshot_valid n now (stage_snapshot cfg base accounts store saved now).
Proof.
  intros Hn Hsa Hsc Hacc. unfold stage_snapshot.
  set (st0 := Build_staging accounts ∅ ∅ ∅ ∅).
  assert (∀ l st, Forall (λ a, validateAccountIdentity (ac_Identity a) = Ok ()) (sg_accounts st)
    ∧ accounts_valid now (sg_quota st) ∧ counters_below n (sg_quota st)
    ∧ map_Forall (λ _ id, id = "" ∨ validateAccountIdentity id = Ok ()) (sg_byAuthID st) →
    let st' := foldl (stage_account cfg saved now) st l in
    accounts_valid now (sg_quota st') ∧ counters_below n (sg_quota st')
    ∧ map_Forall (λ _ id, id = "" ∨ validateAccountIdentity id = Ok ()) (sg_byAuthID st')) as Hfold.
  { induction l as [|i l IH]; intros st (? & ? & ? & ?); simpl; [done|].
    apply IH. by apply stage_account_valid. }
  destruct (Hfold (seq 0 (length accounts)) st0) as (? & ? & ?);
    [split_and!; [done|apply map_Forall_empty..]|by split].
Qed.

(** ** A runtime to evaluate

    One paired account, configured through [reconfigureWithAccounts]. *)

Definition demo_store : secureStore := {| ss_id := 1; ss_dir := "/auth" |}.
Definition demo_runtime : pluginRuntime :=
  (reconfigureWithAccounts (H := DemoStd.demo_std) new_runtime demo_plan_config demo_pair []
     (Ok demo_store) (Ok zero_settings) (Ok zero_persisted) demo_now None).2.
Definition demo_live : runtimeSnapshot :=
  default (stage_snapshot demo_plan_config [] [] demo_store zero_persisted 0)
    (rt_snapshot demo_runtime).
Definition demo_identity : string :=
  accountIdentity (H := DemoStd.demo_std) "key-alpha1".
Definition demo_auth : string :=
  match rs_Accounts demo_live with a :: _ => ac_ClaudeAuthID a | [] => "" end.

(** A priced request of the account. *)
Definition demo_usage (total : Z) : UsageRecord := {|
  ur_Provider := "claude"; ur_Model := "glm-5.3"; ur_Alias := ""; ur_AuthID := demo_auth;
  ur_RequestedAt := demo_now; ur_Latency := second; ur_Failed := false;
  ur_Failure := {| uf_StatusCode := 0; uf_Body := "" |};
  ur_Detail := {| ud_InputTokens := 1000; ud_OutputTokens := 200; ud_ReasoningTokens := 0;
                  ud_CacheReadTokens := 50; ud_CacheCreationTokens := 10;
                  ud_TotalTokens := total |};
  ur_ResponseHeaders := [] |}.

(** A poll that fails, two records with their writes, and the write of the poll after
    them. *)
Definition demo_events : list event :=
  [EvPoll demo_identity 1 demo_now demo_now (errorf "unavailable") false;
   EvUsage (demo_usage 1) demo_now demo_now; EvWrite 0 demo_now None;
   EvUsage (demo_usage 2) demo_now demo_now; EvWrite 0 demo_now None;
   EvWrite 0 demo_now None].

(** ** Properties *)

(** The file of a directory never goes back: under any interleaving of
    records, polls, waiting writes, reconfigurations and shutdown, with any
    failures, a file that changes now holds a state of a newer generation than
    it held and than any write had before. *)
Theorem writes_only_advance `{GoStd} es x y :
  versions_ok x → rt_persistNext x.1 + Z.of_nat (length es) < 18446744073709551616 →
  run_events es x = Some y →
  versions_ok y ∧ rt_persisted x.1 <= rt_persisted y.1
  ∧ ∀ dir old, rt_saved x.1 !! dir = Some old →
      ∃ new, rt_saved y.1 !! dir = Some new
        ∧ (new = old ∨ ps_Generation old <= rt_persisted x.1 < ps_Generation new).
Proof.
  intros Hok Hlt Hrun. destruct (run_versions es x y Hok Hlt Hrun) as [Hy [Hp Hnew]].
  split_and!; [done|done|]. intros dir old Ho. destruct (Hnew dir old Ho) as (new & Hn & Hor).
  exists new. split; [done|]. pose proof (vo_saved _ Hok dir old Ho) as Hv. simpl in Hv.
  destruct Hor; [by left|right; lia].
Qed.

Lemma writes_only_advance_witness :
  ∃ y, run_events (H := DemoStd.demo_std) demo_events (demo_runtime, []) = Some y
  ∧ rt_persisted y.1 = 3
  ∧ rt_persisted (demo_runtime, @nil pending_write).1 <= rt_persisted y.1.
Proof.
  set (r := run_events (H := DemoStd.demo_std) demo_events (demo_runtime, [])).
  assert (option_map (λ y, rt_persisted y.1) r = Some 3) as Hr by (vm_compute; reflexivity).
  destruct r as [y|] eqn:Hy; [|discriminate].
  exists y. split; [reflexivity|]. split; [by injection Hr|].
  apply (writes_only_advance (H := DemoStd.demo_std) demo_events (demo_runtime, []) y).
  - split; [vm_compute; split; discriminate|constructor|].
    replace (rt_saved (demo_runtime, @nil pending_write).1) with (∅ : gmap string persistedState)
      by (vm_compute; reflexivity). apply map_Forall_empty.
  - vm_compute. reflexivity.
  - exact Hy.
Defined.

(** C1: no update is lost silently: let records, polls and the writes they leave behind
    come in any order, with any of the writes failing, and no snapshot be published and
    the runtime not be stopped in between. Once no write is waiting, either nothing was
    recorded and the accounts are as they were; or the file of the store holds the quota
    state of every account as it is in memory, up to the warnings of writes that failed,
    and exactly when none did, although writes that were overtaken are dropped without
    being made; or the newest write is one of those that failed, and every account in
    memory carries the persistence warning. *)
Theorem no_update_lost `{GoStd} es r0 s0 store r :
  versions_ok (r0, []) →
  rt_persistNext r0 + Z.of_nat (length es) < 18446744073709551616 →
  rt_snapshot r0 = Some s0 → rs_Store s0 = Some store →
  Forall (λ e, keeps_snapshot e = true) es → run_events es (r0, []) = Some (r, []) →
  let failed := failed_writes es (r0, []) in
  ∃ s, rt_snapshot r = Some s
  ∧ (rt_persistNext r = rt_persistNext r0 ∧ rs_Quota s = rs_Quota s0
     ∨ (∃ p, rt_saved r !! ss_dir store = Some p ∧ unwarned <$> ps_Accounts p = unwarned <$> rs_Quota s
          ∧ (failed = [] → ps_Accounts p = rs_Quota s))
     ∨ rt_persistNext r ∈ failed ∧ warned (rs_Quota s)).
Proof.
  intros Hok Hlt Hs0 Hst Hall Hrun failed.
  assert (unchanged_or_viewed store (r0, []) [] (r0, [])) as HJ.
  { exists s0, s0. split_and!; [done..|]. by left. }
  destruct (kept_run store (r0, []) [] es _ _ Hok Hlt HJ Hall Hrun) as (s0' & s & Hs0' & Hs & _ & Hor).
  cbn [fst snd app] in *. exists s. split; [done|].
  destruct Hor as [(? & ? & _)|(p & [_ _ Hacc Hex _ Hwh])]; [left; split; [done|congruence]|]. right.
  destruct Hwh as [[Hin _]|[[Hsv _]|[? _]]]; [by apply elem_of_nil in Hin| |by right]. left. eauto.
Qed.

(** The first record's write fails, and the second's does not. *)
Definition demo_failing : list event :=
  [EvUsage (demo_usage 1) demo_now demo_now; EvWrite 0 demo_now (Some (EText "no space"));
   EvUsage (demo_usage 2) demo_now demo_now; EvWrite 0 demo_now None].

(** What a run ends in, as far as the claim goes. *)
Definition demo_result (es : list event) : option (Z * nat * list Z * option (nat * bool)) :=
  y ← run_events (H := DemoStd.demo_std) es (demo_runtime, []);
  Some (rt_persistNext y.1, length y.2, failed_writes (H := DemoStd.demo_std) es (demo_runtime, []),
    s ← rt_snapshot y.1; q ← rs_Quota s !! demo_identity;
    Some (length (qs_Events q), qs_PersistenceWarning q)).

Lemma demo_runtime_versions : versions_ok (demo_runtime, []).
Proof.
  split; [vm_compute; split; discriminate|constructor|].
  replace (rt_saved (demo_runtime, @nil pending_write).1) with (∅ : gmap string persistedState)
    by (vm_compute; reflexivity). apply map_Forall_empty.
Qed.

Lemma no_update_lost_witness :
  demo_result demo_failing = Some (2, 0%nat, [1], Some (2%nat, true))
  ∧ ∃ r s p, run_events (H := DemoStd.demo_std) demo_events (demo_runtime, []) = Some (r, [])
  ∧ rt_snapshot r = Some s ∧ rt_saved r !! "/auth" = Some p ∧ ps_Accounts p = rs_Quota s.
Proof.
  split; [vm_compute; reflexivity|].
  assert (failed_writes (H := DemoStd.demo_std) demo_events (demo_runtime, []) = []) as Hf by (vm_compute; reflexivity).
  set (q := run_events (H := DemoStd.demo_std) demo_events (demo_runtime, [])).
  assert (option_map (λ y, (rt_persistNext y.1, length y.2)) q = Some (3, 0%nat)) as Hq by (vm_compute; reflexivity).
  destruct q as [[r w]|] eqn:Hr; [|discriminate]. simpl in Hq. destruct w; [|discriminate]. injection Hq as Hn.
  destruct (no_update_lost (H := DemoStd.demo_std) demo_events demo_runtime demo_live demo_store r)
    as (s & Hs & Hor).
  - exact demo_runtime_versions.
  - vm_compute. reflexivity.
  - vm_compute. reflexivity.
  - vm_compute. reflexivity.
  - repeat constructor.
  - exact Hr.
  - cbv zeta in Hor. rewrite Hf in Hor. exists r, s.
    destruct Hor as [[Hn0 _]|[(p & Hp & _ & Heq)|[Hin _]]].
    + exfalso. rewrite Hn in Hn0. vm_compute in Hn0. discriminate.
    + exists p. split; [reflexivity|]. split; [exact Hs|]. split; [exact Hp|]. exact (Heq eq_refl).
    + destruct (not_elem_of_nil _ Hin).
Defined.

(** C4: state.json can always be written: starting from a valid world, under any
    interleaving of events whose times do not go back, whose polls deliver
    snapshots that can be saved and whose publications stage valid parts, every
    account state in memory, in a waiting write or in a file passes the
    validation that saving and loading apply, and is filed under a valid
    identity. *)
Theorem saved_states_valid `{GoStdLaws} t es x y :
  0 < t → admissible t es → world_valid (length es) t x → run_events es x = Some y →
  let acceptable m := map_Forall (λ id q, validateAccountIdentity id = Ok ()
    ∧ validateAccountQuotaState q (last_time t es) = Ok ()) m in
  (∀ s, rt_snapshot y.1 = Some s → acceptable (rs_Quota s))
  ∧ (∀ p, p ∈ y.2 → acceptable (ps_Accounts p.2))
  ∧ (∀ dir p, rt_saved y.1 !! dir = Some p → acceptable (ps_Accounts p)).
Proof.
  intros Ht Had Hok Hrun acceptable.
  assert (∀ m, accounts_valid (last_time t es) m → acceptable m) as Hacc.
  { intros m Hm id q Hq. rewrite validateAccountQuotaState_ok. by apply Hm. }
  destruct (run_valid es t x y Ht Had Hok Hrun) as [Hs Hw Hsv _]. split_and!.
  - intros s Hsn. by apply Hacc, Hs.
  - intros p Hp. rewrite Forall_forall in Hw. by apply Hacc, Hw.
  - intros dir p Hp. by eapply Hacc, Hsv.
Qed.

Lemma demo_runtime_snapshot :
  rt_snapshot demo_runtime = Some (set_published (Some demo_store) 1
    (stage_snapshot demo_plan_config (demo_accounts demo_pair demo_plan_config)
       (demo_accounts demo_pair demo_plan_config) demo_store zero_persisted demo_now)).
Proof. vm_compute. reflexivity. Qed.

Lemma demo_runtime_valid n :
  Z.of_nat n <= int64_max → world_valid n demo_now (demo_runtime, []).
Proof.
  intros Hn. split; [|constructor| |done].
  - intros s Hs. cbn [fst] in Hs. rewrite demo_runtime_snapshot in Hs.
    apply Some_inj in Hs. subst s.
    destruct (stage_snapshot_valid n demo_now demo_plan_config
      (demo_accounts demo_pair demo_plan_config) (demo_accounts demo_pair demo_plan_config)
      demo_store zero_persisted Hn) as [Ha Hc Hi];
      [apply map_Forall_empty..|by_decision|]. by split.
  - replace (rt_saved (demo_runtime, @nil pending_write).1) with (∅ : gmap string persistedState)
      by (vm_compute; reflexivity). apply map_Forall_empty.
Qed.

Lemma saved_states_valid_witness :
  ∃ y s q, run_events (H := DemoStd.demo_std) demo_events (demo_runtime, []) = Some y
  ∧ rt_snapshot y.1 = Some s ∧ rs_Quota s !! demo_identity = Some q
  ∧ length (qs_Events q) = 2%nat ∧ validateAccountQuotaState q demo_now = Ok ().
Proof.
  set (r := run_events (H := DemoStd.demo_std) demo_events (demo_runtime, [])).
  assert ((y ← r; s ← rt_snapshot y.1; q ← rs_Quota s !! demo_identity;
    Some (length (qs_Events q))) = Some 2%nat) as Hr by (vm_compute; reflexivity).
  destruct r as [y|] eqn:Hy; [|discriminate]. cbn [mbind option_bind] in Hr.
  destruct (rt_snapshot y.1) as [s|] eqn:Hs; [|discriminate]. cbn [mbind option_bind] in Hr.
  destruct (rs_Quota s !! demo_identity) as [q|] eqn:Hq; [|discriminate].
  exists y, s, q. split; [reflexivity|]. split; [exact Hs|]. split; [exact Hq|].
  split; [by injection Hr|].
  apply (saved_states_valid (H0 := DemoStd.demo_laws) demo_now demo_events (demo_runtime, []) y)
    with (s := s) (i := demo_identity); [..|exact Hs|exact Hq].
  - vm_compute. reflexivity.
  - vm_compute. repeat split; discriminate.
  - apply demo_runtime_valid. vm_compute. discriminate.
  - exact Hy.
Defined.

(** A poll is bound to the generation it was started for: once the snapshot
    was replaced or the runtime stopped, its result changes nothing and the
    poller ends; otherwise it changes, besides the polled account's own state and
    plan, nothing of the snapshot. *)
Theorem poll_bound_to_generation r identity generation now later result cancelled :
  let r' := (poll_locked r identity generation now later result cancelled).2 in
  match rt_snapshot r with
  | Some s =>
      if rt_stopped r || negb (rs_Generation s =? generation)
      then poll_locked r identity generation now later result cancelled = (Err ECanceled, r)
      else ∃ s', rt_snapshot r' = Some s'
        ∧ (∀ j, j ≠ identity → rs_Quota s' !! j = rs_Quota s !! j
            ∧ rs_Health s' !! j = rs_Health s !! j ∧ rs_byIdentity s' !! j = rs_byIdentity s !! j)
        ∧ accounts_only identity (rs_Accounts s) (rs_Accounts s')
        ∧ set_accounts (rs_Accounts s) (rs_byIdentity s)
            (set_quota_health (rs_Quota s) (rs_Health s) s') = s
  | None => poll_locked r identity generation now later result cancelled = (Err ECanceled, r)
  end.
Proof.
  destruct (rt_snapshot r) as [s|] eqn:Hs.
  - destruct (rt_stopped r || negb (rs_Generation s =? generation)) eqn:E.
    + unfold poll_locked. destruct (_ && _); [done|]. by rewrite Hs, E.
    + assert (∀ s', rt_snapshot r = Some s' → s' = s) as Hsame by congruence.
      destruct (poll_locked_effect r identity generation now later result cancelled)
        as [| |s1 q accounts byIdentity health Hs1 _ _ Hq Hh Ha Hb].
      1-2: exists s; simpl; split_and!;
        [done|done|apply accounts_only_refl|by destruct s].
      apply Hsame in Hs1 as ->. simpl. eexists. split; [reflexivity|]. simpl.
      split; [|split; [done|by destruct s]].
      intros j Hj. split_and!; [by rewrite lookup_insert_ne|by apply Hh|by apply Hb].
  - unfold poll_locked. destruct (_ && _); [done|]. by rewrite Hs.
Qed.
