(* ===== verification/Lifecycle.v ===== *)
(** * Records, publication, polling intervals and shutdown of the runtime

    The theorems about single operations of Runtime.v: a record is charged once,
    what a reconfiguration takes over from the live snapshot, how long a poller
    waits, and what shutdown leaves behind. *)

From S2P Require Import Prelude GoStrings GoFloat Host Credits Quota Config Accounts Windows Health Failures SecureStore Settings Runtime RuntimeSteps.

(** ** Lemmas *)

Lemma seenDedup_events state hash : qs_Events (seenDedup state hash).2 = qs_Events state.
Proof. unfold seenDedup. by destruct (bool_decide _). Qed.

Lemma seenDedup_fresh state hash :
  (seenDedup state hash).1 = false →
  (length (qs_DedupHashes (seenDedup state hash).2) ≤ maxDedupHashes)%nat
  ∧ hash ∈ qs_DedupHashes (seenDedup state hash).2.
Proof.
  unfold seenDedup. destruct (bool_decide _); [done|]. intros _. cbn [snd set_dedup qs_DedupHashes].
  rewrite length_app. cbn [length].
  destruct (Nat.ltb_spec maxDedupHashes (length (qs_DedupHashes state) + 1)).
  - rewrite length_drop, length_app. cbn [length]. split; [lia|].
    rewrite drop_app_le by (unfold maxDedupHashes in *; lia). apply elem_of_app. right. left.
  - rewrite length_app. cbn [length]. split; [lia|]. apply elem_of_app. right. left.
Qed.

Lemma compact_hashes state now retention :
  (length (qs_DedupHashes state) ≤ maxDedupHashes)%nat →
  qs_DedupHashes (compact state now retention) = qs_DedupHashes state.
Proof.
  intros Hl. unfold compact. cbv zeta. set (first := sort_Search _ _). clearbody first.
  destruct (0 <? first)%nat; cbn [set_events qs_DedupHashes];
    by destruct (Nat.ltb_spec maxDedupHashes (length (qs_DedupHashes state))); [lia|].
Qed.

Lemma addEvent_hashes state event : qs_DedupHashes (addEvent state event) = qs_DedupHashes state.
Proof. unfold addEvent. by destruct (_ <=? 0). Qed.

Lemma complete_since_keeps now q :
  qs_Events (complete_since now q) = qs_Events q
  ∧ qs_DedupHashes (complete_since now q) = qs_DedupHashes q.
Proof. unfold complete_since. by destruct (time_IsZero _). Qed.

(** A record charges nothing, or its digest is known from then on. *)
Lemma usage_quota_charge `{GoStd} cfg record now q :
  qs_Events (usage_quota cfg record now q) = qs_Events q
  ∨ usageDedupHash record ∈ qs_DedupHashes (usage_quota cfg record now q).
Proof.
  unfold usage_quota. destruct (complete_since_keeps now q) as [<- _].
  set (q1 := complete_since now q). clearbody q1. cbv zeta.
  destruct (_ && _); [by left|]. destruct (time_After _ _); [by left|].
  pose proof (seenDedup_events q1 (usageDedupHash record)) as He.
  pose proof (seenDedup_fresh q1 (usageDedupHash record)) as Hf.
  destruct (seenDedup q1 _) as [[] q2]; cbn [fst snd] in *; [by left|].
  destruct (Hf eq_refl) as [Hlen Hin].
  destruct (estimateUsageCredits _ _); [|by left]. right.
  by rewrite compact_hashes; rewrite addEvent_hashes.
Qed.

(** A record whose digest is known charges nothing. *)
Lemma usage_quota_known `{GoStd} cfg record now q :
  usageDedupHash record ∈ qs_DedupHashes q →
  qs_Events (usage_quota cfg record now q) = qs_Events q.
Proof.
  intros Hin. unfold usage_quota. destruct (complete_since_keeps now q) as [<- Hd].
  rewrite <- Hd in Hin. set (q1 := complete_since now q) in *. clearbody q1. cbv zeta.
  destruct (_ && _); [done|]. destruct (time_After _ _); [done|].
  unfold seenDedup. by rewrite bool_decide_eq_true_2.
Qed.

(** The events of an account of the live snapshot. *)
Definition events_of (r : pluginRuntime) (identity : string) : list creditEvent :=
  match rt_snapshot r with
  | Some s => qs_Events (default zero_state (rs_Quota s !! identity))
  | None => []
  end.

(** The account of a record. *)
Definition record_owner (r : pluginRuntime) (record : UsageRecord) : string :=
  match rt_snapshot r with
  | Some s => default "" (rs_byAuthID s !! TrimSpace (ur_AuthID record))
  | None => ""
  end.

(** ** Properties *)

(** C9: a record is charged at most once and to its owner only: of a record and
    its immediate repetition, at whatever times they arrive, at most one changes
    the events of any account; a record whose auth ID no account owns leaves the
    runtime as it is, and any other leaves the quota and health of every other
    account, and the rest of the snapshot, as they are. *)
Theorem usage_charged_once `{GoStd} r record now later now' later' :
  let r1 := (usage_locked r record now later).2 in
  let r2 := (usage_locked r1 record now' later').2 in
  (∀ j, events_of r1 j = events_of r j ∨ events_of r2 j = events_of r1 j)
  ∧ (record_owner r record = "" → r1 = r)
  ∧ ∀ s, rt_snapshot r = Some s → ∃ s1, rt_snapshot r1 = Some s1
    ∧ set_quota_health (rs_Quota s) (rs_Health s) s1 = s
    ∧ ∀ j, j ≠ record_owner r record →
        rs_Quota s1 !! j = rs_Quota s !! j ∧ rs_Health s1 !! j = rs_Health s !! j.
Proof.
  intros r1 r2. subst r1 r2. split_and!.
  - intros j. destruct (usage_locked_effect r record now later)
      as [e| |s id0 health Hs Hst _ _|s identity health Hs Hstop Hid Hne Hh]; [by left..| |].
    { left. unfold events_of. by rewrite Hs. }
    destruct (decide (j = identity)) as [->|Hj].
    2: { left. unfold events_of. rewrite Hs. simpl. by rewrite lookup_insert_ne. }
    destruct (usage_quota_charge (rs_Config s) record now
      (default zero_state (rs_Quota s !! identity))) as [Heq|Hin].
    { left. unfold events_of. rewrite Hs. simpl. by rewrite lookup_insert_eq. }
    right. unfold recorded. cbn [snd].
    set (s1 := set_quota_health _ health s). set (r1 := set_snapshot s1 _).
    assert (rs_Quota s1 !! identity = Some (usage_quota (rs_Config s) record now
      (default zero_state (rs_Quota s !! identity)))) as Hq1 by apply lookup_insert_eq.
    assert (rt_snapshot r1 = Some s1) as Hr1 by done.
    destruct (usage_locked_effect r1 record now' later')
      as [e| |s2 id0 health2 Hs2 Hst2 _ _|s2 id2 health2 Hs2 Hstop2 Hid2 Hne2 Hh2];
      [done|done| |]; (assert (s2 = s1) as -> by congruence); unfold events_of; rewrite Hr1; [done|].
    assert (id2 = identity) as -> by (simpl in Hid2; congruence).
    cbn [rt_snapshot set_snapshot rs_Quota set_quota_health recorded snd].
    rewrite lookup_insert_eq, Hq1. by apply usage_quota_known.
  - intros Hown. unfold record_owner, usage_locked in *.
    destruct (rt_snapshot r); [|done]. destruct (rt_stopped r); [done|].
    by rewrite Hown, bool_decide_eq_true_2.
  - intros s Hs. unfold record_owner. rewrite Hs.
    destruct (usage_locked_effect r record now later)
      as [e| |s0 identity health Hs0 Hst Hid Hh|s0 identity health Hs0 Hstop Hid Hne Hh];
      [by exists s; rewrite set_quota_health_id..| |];
      (assert (s0 = s) as -> by congruence); rewrite Hid; eexists;
      (split; [reflexivity|]); (split; [by destruct s|]); intros j Hj; simpl in *;
      (split; [by rewrite ?lookup_insert_ne|by apply Hh]).
Qed.

Lemma usage_charged_once_witness :
  let r1 := (usage_locked (H := DemoStd.demo_std) demo_runtime (demo_usage 1) demo_now demo_now).2 in
  let r2 := (usage_locked (H := DemoStd.demo_std) r1 (demo_usage 1) (demo_now + 1) (demo_now + 1)).2 in
  length (events_of r1 demo_identity) = 1%nat ∧ events_of r2 demo_identity = events_of r1 demo_identity.
Proof.
  split; [vm_compute; reflexivity|].
  destruct (usage_charged_once (H := DemoStd.demo_std) demo_runtime (demo_usage 1) demo_now demo_now
    (demo_now + 1) (demo_now + 1)) as (Hev & _ & _).
  destruct (Hev demo_identity) as [Heq|Heq]; [|exact Heq].
  exfalso. apply (f_equal length) in Heq. vm_compute in Heq. discriminate.
Defined.

(** C10: a publication over the same store: when its commit action fails, the live
    snapshot and its pollers stay; otherwise the new snapshot has the next
    generation, its pollers carry that generation, every account that was live
    keeps its quota and health state, every other one has what was staged, and
    the live store is kept open. *)
Theorem publish_carries_state r live staged before close_error :
  rt_stopped r = false → rt_snapshot r = Some live →
  sameSecureStore (rs_Store live) (rs_Store staged) = true →
  let '(result, r') := commitSnapshotAfter r staged before close_error in
  match before with
  | Err e => result = Err e ∧ rt_snapshot r' = Some live ∧ rt_pollers r' = rt_pollers r
  | Ok _ => result = Ok () ∧ ∃ s, rt_snapshot r' = Some s
      ∧ rs_Generation s = wrapu64 (rs_Generation live + 1)
      ∧ rs_Store s = rs_Store live
      ∧ Forall (λ p, po_generation p = rs_Generation s) (rt_pollers r')
      ∧ (∀ j, is_Some (rs_Quota staged !! j) →
          rs_Quota s !! j = match rs_Quota live !! j with Some q => Some q | None => rs_Quota staged !! j end)
      ∧ (∀ j, is_Some (rs_Health staged !! j) →
          rs_Health s !! j = match rs_Health live !! j with Some h => Some h | None => rs_Health staged !! j end)
      ∧ dom (rs_Quota s) = dom (rs_Quota staged)
  end.
Proof.
  intros Hstop Hs Hsame. unfold commitSnapshotAfter. rewrite Hstop, Hs. cbv zeta. rewrite Hsame.
  set (r1 := if bool_decide _ then r else _).
  assert (rt_snapshot r1 = Some live ∧ rt_pollers r1 = rt_pollers r) as [Hs1 Hp1].
  { unfold r1. destruct (bool_decide _); [done|]. by destruct (rs_Store staged). }
  destruct (rs_Store live) as [store|] eqn:Hst; [|done].
  destruct before as [[]|e]; [|done]. cbn [rs_Store set_routing set_published].
  rewrite bool_decide_eq_true_2 by done. split; [done|]. eexists. split; [reflexivity|].
  cbn [rs_Generation rs_Store rs_Quota rs_Health set_routing set_published rt_pollers].
  split_and!; [done|done| | | |].
  - unfold startPollers. apply Forall_fmap, Forall_forall. done.
  - intros j [q Hq]. unfold carry_forward. cbn [rs_Quota set_quota_health].
    rewrite map_lookup_imap. cbn [rs_Quota carryForwardNamedPlans set_accounts]. rewrite Hq. simpl.
    by destruct (rs_Quota live !! j).
  - intros j [h Hh]. unfold carry_forward. cbn [rs_Health set_quota_health].
    rewrite map_lookup_imap. cbn [rs_Health carryForwardNamedPlans set_accounts]. rewrite Hh. simpl.
    by destruct (rs_Health live !! j).
  - apply set_eq. intros j. rewrite !elem_of_dom. unfold carry_forward.
    cbn [rs_Quota set_quota_health]. rewrite map_lookup_imap.
    cbn [rs_Quota carryForwardNamedPlans set_accounts].
    destruct (rs_Quota staged !! j); simpl; [by split|done].
Qed.

(** The demo configuration with another default plan, staged over the same
    directory. *)
Definition demo_lite : pluginConfig :=
  {| pc_CPAConfigPath := ""; pc_QuotaRefresh := defaultQuotaRefresh;
     pc_AuthoritativeMaxAge := defaultAuthoritativeMaxAge; pc_QuotaTimeout := defaultQuotaTimeout;
     pc_ThresholdPercent := 97; pc_SuspendDuration := defaultSuspend;
     pc_FallbackCooldown := defaultFallback; pc_StateRetention := defaultStateRetention;
     pc_DefaultPlan := "lite"; pc_Accounts := [] |}.
Definition demo_staged : runtimeSnapshot :=
  stage_snapshot demo_lite (demo_accounts demo_pair demo_lite) (demo_accounts demo_pair demo_lite)
    {| ss_id := 2; ss_dir := "/auth" |} zero_persisted demo_now.

Lemma publish_carries_state_witness :
  ∃ s, rt_snapshot (commitSnapshotAfter demo_runtime demo_staged (Ok ()) None).2 = Some s
  ∧ rs_Generation s = 2 ∧ rs_Store s = Some demo_store.
Proof.
  pose proof (publish_carries_state demo_runtime demo_live demo_staged (Ok ()) None
    ltac:(vm_compute; reflexivity) ltac:(vm_compute; reflexivity) ltac:(vm_compute; reflexivity))
    as H.
  destruct (commitSnapshotAfter demo_runtime demo_staged (Ok ()) None) as [result r'].
  destruct H as (_ & s & Hs & Hg & Hst & _). exists s. split; [exact Hs|].
  split; [rewrite Hg; vm_compute; reflexivity|rewrite Hst; vm_compute; reflexivity].
Defined.

(** Which plan an account has after a publication over the same store: when
    the live account is not pinned to a plan and the staged one has nothing
    explicit, it is the live plan with that plan's buckets, wherever the live
    plan came from; otherwise it is what was staged. So a changed default plan
    does not reach a live account that no poll has given a plan. *)
Theorem publish_keeps_live_plan r live staged close_error s i item :
  rt_stopped r = false → rt_snapshot r = Some live →
  sameSecureStore (rs_Store live) (rs_Store staged) = true →
  rt_snapshot (commitSnapshotAfter r staged (Ok ()) close_error).2 = Some s →
  rs_Accounts staged !! i = Some item →
  let explicit a := ac_planExplicit a || ac_fiveHourCreditsExplicit a || ac_weeklyCreditsExplicit a in
  rs_Accounts s !! i = Some
    match live_account (rs_Accounts live) (ac_Identity item) with
    | Some old =>
        if (bool_decide (ac_Plan old = "custom") || explicit old) || explicit item then item else
        match planBuckets !! ac_Plan old with
        | Some buckets => set_plan (ac_Plan old) buckets item
        | None => item
        end
    | None => item
    end.
Proof.
  intros Hstop Hs Hsame Hs' Hi explicit. unfold commitSnapshotAfter in Hs'.
  rewrite Hstop, Hs in Hs'. cbv zeta in Hs'. rewrite Hsame in Hs'.
  set (r1 := if bool_decide _ then r else _) in Hs'. clearbody r1.
  destruct (rs_Store live) as [store|] eqn:Hst; [|done].
  cbn [rs_Store set_routing set_published] in Hs'. rewrite bool_decide_eq_true_2 in Hs' by done.
  apply Some_inj in Hs'. subst s.
  cbn [rs_Accounts set_routing set_published carry_forward set_quota_health carryForwardNamedPlans
       set_accounts]. rewrite list_lookup_fmap, Hi. simpl. f_equal.
  unfold carry_plan, plan_pinned, explicit.
  destruct (live_account _ _) as [old|]; [|done].
  destruct (bool_decide _); [done|]. simpl.
  destruct (ac_planExplicit old), (ac_fiveHourCreditsExplicit old), (ac_weeklyCreditsExplicit old),
    (ac_planExplicit item), (ac_fiveHourCreditsExplicit item), (ac_weeklyCreditsExplicit item);
    simpl; try done.
  by destruct (planBuckets !! ac_Plan old).
Qed.

(** No poll has run, and the new default plan is lite. *)
Lemma publish_keeps_live_plan_witness :
  ∃ s item, rt_snapshot (commitSnapshotAfter demo_runtime demo_staged (Ok ()) None).2 = Some s
  ∧ ac_Plan <$> rs_Accounts demo_staged !! 0%nat = Some "lite"
  ∧ rs_Accounts s !! 0%nat = Some item ∧ ac_Plan item = "pro".
Proof.
  set (c := commitSnapshotAfter demo_runtime demo_staged (Ok ()) None).
  destruct (rt_snapshot c.2) as [s|] eqn:Hs; [|exfalso; revert Hs; vm_compute; discriminate].
  destruct (rs_Accounts demo_staged !! 0%nat) as [item|] eqn:Hi;
    [|exfalso; revert Hi; vm_compute; discriminate].
  pose proof (publish_keeps_live_plan demo_runtime demo_live demo_staged None s 0 item
    ltac:(vm_compute; reflexivity) ltac:(vm_compute; reflexivity) ltac:(vm_compute; reflexivity)
    Hs Hi) as H.
  exists s. eexists. split; [reflexivity|].
  assert (item = default zero_account (rs_Accounts demo_staged !! 0%nat)) as -> by by rewrite Hi.
  split; [vm_compute; reflexivity|]. split; [exact H|]. vm_compute. reflexivity.
Defined.

(** A reconfiguration to another directory is reported as failed, and the
    store it installed is closed, when only the closing of the superseded store
    fails: the new snapshot is live, with a store that no write succeeds on. *)
Theorem close_failure_breaks_store `{GoStd} r cfg cpa keys store persisted now e live base cfg' :
  rt_stopped r = false → rt_snapshot r = Some live →
  (∃ old, rs_Store live = Some old ∧ ss_dir old ≠ ss_dir store) →
  discoverAccounts cpa cfg = Ok base → applyStoredConfig cfg zero_settings = Ok cfg' →
  let '(result, r') := reconfigureWithAccounts r cfg cpa keys (Ok store) (Ok zero_settings)
    (Ok persisted) now (Some e) in
  result = Err (EWrap "close superseded secure store: " e)
  ∧ ∃ s, rt_snapshot r' = Some s ∧ rs_Store s = Some store ∧ rs_Config s = cfg'
  ∧ ∀ state wall fault, is_Ok (save_state store state wall fault r') = false.
Proof.
  intros Hstop Hs (old & Hold & Hdir) Hdisc Hcfg. unfold reconfigureWithAccounts.
  rewrite Hstop, Hdisc. unfold applyStoredSettings. cbn [sf_Version zero_settings Z.eqb andb].
  rewrite (eq_refl : settingsEmpty zero_settings = true). rewrite Hcfg.
  set (staged := stage_snapshot cfg' base base store persisted now).
  assert (rs_Store staged = Some store ∧ rs_Config staged = cfg') as [Hst Hc] by done.
  clearbody staged. unfold commitSnapshotAfter. rewrite Hstop, Hs, Hold, Hst.
  cbn [sameSecureStore]. rewrite bool_decide_eq_false_2 by done.
  cbn [rs_Store set_routing set_published].
  rewrite bool_decide_eq_false_2 by (intros [= ->]; done).
  split; [done|]. eexists. split; [reflexivity|]. split; [done|]. split; [done|].
  intros state wall fault. unfold save_state. rewrite bool_decide_eq_true_2; [done|].
  cbn [rt_closed close_store]. set_solver.
Qed.

Lemma close_failure_breaks_store_witness :
  let '(result, r') := reconfigureWithAccounts (H := DemoStd.demo_std) demo_runtime demo_lite
    demo_pair [] (Ok {| ss_id := 2; ss_dir := "/other" |}) (Ok zero_settings) (Ok zero_persisted)
    demo_now (Some (EText "io")) in
  result = Err (EWrap "close superseded secure store: " (EText "io"))
  ∧ ∃ s, rt_snapshot r' = Some s ∧ rs_Store s = Some {| ss_id := 2; ss_dir := "/other" |}
  ∧ rs_Config s = demo_lite
  ∧ ∀ state wall fault,
      is_Ok (save_state {| ss_id := 2; ss_dir := "/other" |} state wall fault r') = false.
Proof.
  apply (close_failure_breaks_store (H := DemoStd.demo_std) demo_runtime demo_lite demo_pair []
    {| ss_id := 2; ss_dir := "/other" |} zero_persisted demo_now (EText "io") demo_live
    (demo_accounts demo_pair demo_lite) demo_lite).
  - vm_compute. reflexivity.
  - vm_compute. reflexivity.
  - exists demo_store. split; [vm_compute; reflexivity|by_decision].
  - vm_compute. reflexivity.
  - vm_compute. reflexivity.
Defined.

(** ** Polling intervals *)

Lemma jitteredPollInterval_range base identity attempt :
  minute <= base <= 3 * minute →
  base / 2 <= jitteredPollInterval base identity attempt <= base + base / 2.
Proof.
  intros Hb. assert (60000000000 <= base <= 180000000000) as Hb' by (unfold minute, second in Hb; lia).
  unfold jitteredPollInterval. destruct (Z.leb_spec base 0); [lia|]. cbv zeta.
  set (seed := Z.lxor _ _). clearbody seed.
  assert (0 <= base / 2 <= base) by (split; [apply Z.div_pos|apply Z.div_le_upper_bound]; lia).
  rewrite Z.quot_div_nonneg by lia.
  rewrite (wrap64_id (base / 2)) by (unfold in_int64, int64_min, int64_max; lia).
  rewrite (wrap64_id (base + 1)) by (unfold in_int64, int64_min, int64_max; lia).
  rewrite wrapu64_id by lia.
  pose proof (Z.mod_pos_bound seed (base + 1) ltac:(lia)).
  rewrite (wrap64_id (seed mod (base + 1))) by (unfold in_int64, int64_min, int64_max; lia).
  rewrite wrap64_id by (unfold in_int64, int64_min, int64_max; lia). lia.
Qed.

Lemma pollBackoff_eq interval failures :
  0 <= interval <= 15 * minute → in_int64 failures → 1 < failures →
  pollBackoff interval failures = Z.min (15 * minute) (interval * 2 ^ Z.min 4 (failures - 1)).
Proof.
  intros Hi Hf Hlt. assert (0 <= interval <= 900000000000) as Hi' by (unfold minute, second in Hi; lia).
  unfold pollBackoff. destruct (Z.leb_spec failures 1); [lia|]. cbv zeta.
  rewrite (wrap64_id (failures - 1)) by (unfold in_int64, int64_min, int64_max in *; lia).
  set (k := failures - 1) in *.
  assert ((if 4 <? k then 4 else k) = Z.min 4 k) as -> by (destruct (Z.ltb_spec 4 k); lia).
  assert (Z.min 4 k = 1 ∨ Z.min 4 k = 2 ∨ Z.min 4 k = 3 ∨ Z.min 4 k = 4) as Hk by lia.
  assert (Z.shiftl 1 (Z.min 4 k) = 2 ^ Z.min 4 k ∧ 0 < 2 ^ Z.min 4 k <= 16) as [-> Hp].
  { destruct_or! Hk; rewrite Hk; (split; [reflexivity|lia]). }
  rewrite wrap64_id by (unfold in_int64, int64_min, int64_max; nia).
  destruct (Z.ltb_spec (15 * minute) (interval * 2 ^ Z.min 4 k)); lia.
Qed.

(** How long a poller waits: with a valid configuration, between half and
    three halves of the configured interval, so that the next poll comes while
    the snapshot of a successful one is still authoritative; after failures at
    least as long as without, doubling with each of them, and never longer than
    fifteen minutes. *)
Theorem poll_delay_bounds cfg identity attempt failures now state :
  config_valid cfg → in_int64 failures →
  let delay := jitteredPollInterval (pc_QuotaRefresh cfg) identity attempt in
  pc_QuotaRefresh cfg / 2 <= delay <= maxPollInterval (pc_QuotaRefresh cfg)
  ∧ delay <= pollBackoff delay failures <= 15 * minute
  ∧ (1 < failures < 4 →
       pollBackoff delay (failures + 1) = Z.min (15 * minute) (2 * pollBackoff delay failures))
  ∧ (∀ snap, qs_Authoritative state = Some snap → sn_ObservedAt snap = now →
       snapshot_fresh state (now + delay) cfg = true).
Proof.
  intros Hcfg Hf delay. pose proof (cv_refresh _ Hcfg) as Hr.
  pose proof (jitteredPollInterval_range _ identity attempt Hr) as Hd. fold delay in Hd.
  assert (60000000000 <= pc_QuotaRefresh cfg <= 180000000000) as Hr' by (unfold minute, second in Hr; lia).
  assert (30000000000 <= pc_QuotaRefresh cfg / 2 <= 90000000000) as Hh
    by (split; [apply Z.div_le_lower_bound|apply Z.div_le_upper_bound]; lia).
  assert (15 * minute = 900000000000) as H15 by reflexivity.
  rewrite maxPollInterval_eq by done. split_and!; [lia|lia| | | |].
  - destruct (decide (1 < failures)).
    + rewrite pollBackoff_eq by (done || lia).
      assert (2 ^ 1 <= 2 ^ Z.min 4 (failures - 1)) by (apply Z.pow_le_mono_r; lia). nia.
    + unfold pollBackoff. destruct (Z.leb_spec failures 1); lia.
  - destruct (decide (1 < failures)).
    + rewrite pollBackoff_eq by (done || lia). lia.
    + unfold pollBackoff. destruct (Z.leb_spec failures 1); lia.
  - intros Hk. rewrite !pollBackoff_eq by (done || lia || (unfold in_int64, int64_min, int64_max; lia)).
    assert (failures = 2 ∨ failures = 3) as [-> | ->] by lia;
      change (2 ^ Z.min 4 (2 - 1)) with 2; change (2 ^ Z.min 4 (2 + 1 - 1)) with 4;
      change (2 ^ Z.min 4 (3 - 1)) with 4; change (2 ^ Z.min 4 (3 + 1 - 1)) with 8; lia.
  - intros snap Hs <-. unfold snapshot_fresh. rewrite Hs. unfold time_After.
    destruct (Z.ltb_spec (sn_ObservedAt snap + delay) (sn_ObservedAt snap)); [lia|]. simpl.
    pose proof (cv_maxAge _ Hcfg). rewrite time_Sub_small by (unfold int64_min, int64_max in *; lia).
    apply Z.leb_le. lia.
Qed.

Lemma demo_plan_config_valid : config_valid demo_plan_config.
Proof.
  split; try (vm_compute; split; (reflexivity || discriminate)).
  - right. by_decision.
  - constructor.
  - constructor.
Qed.

Lemma poll_delay_bounds_witness :
  pollBackoff (jitteredPollInterval (pc_QuotaRefresh demo_plan_config) "k" 1) 3 <= 15 * minute.
Proof.
  apply (poll_delay_bounds demo_plan_config "k" 1 3 demo_now zero_state).
  - exact demo_plan_config_valid.
  - by_decision.
Defined.

(** ** Shutdown *)

(** The first shutdown. *)
Lemma shutdown_first r now wall fault flush_error close_error :
  rt_stopped r = false → 0 <= rt_persisted r <= rt_persistNext r →
  rt_persistNext r + 1 < 18446744073709551616 →
  let '(result, r') := shutdown r now wall fault flush_error close_error in
  rt_stopped r' = true ∧ rt_snapshot r' = rt_snapshot r ∧ rt_pollers r' = []
  ∧ result = match rt_shutdownErr r' with Some e => Err e | None => Ok () end
  ∧ (result = Ok () → ∀ s store, rt_snapshot r = Some s → rs_Store s = Some store →
       ss_id store ∈ rt_closed r'
       ∧ ∃ p, rt_saved r' !! ss_dir store = Some p ∧ ps_Accounts p = rs_Quota s).
Proof.
  intros Hstop Hc Hlt. unfold shutdown. rewrite Hstop. cbv zeta. cbn [rt_snapshot].
  destruct (rt_snapshot r) as [s|] eqn:Hs; [|done].
  unfold persistenceSnapshotLocked. cbn [rt_persistNext].
  rewrite (wrapu64_id (rt_persistNext r + 1)) by lia.
  destruct (rs_Store s) as [store|] eqn:Hst; [|split_and!; try done; congruence].
  cbn [ps_Generation rt_persisted set_persistNext].
  destruct (Z.eqb_spec (rt_persistNext r + 1) 0); [lia|]. cbn [orb negb].
  destruct (Z.ltb_spec (rt_persisted r) (rt_persistNext r + 1)); [|lia].
  set (state := Build_persistedState _ _ _ _ _).
  destruct (save_state store state wall fault _) as [saved|e] eqn:Hsave; [|done].
  apply save_state_ok in Hsave as (-> & _). cbn [rt_saved set_persistNext].
  split_and!; try done. intros _ s' store' Hs' Hst'. assert (s' = s) as -> by congruence.
  assert (store' = store) as -> by congruence. cbn [rt_closed close_store rt_saved set_saved].
  split; [set_solver|]. exists state. by rewrite lookup_insert_eq.
Qed.

(** Shutdown is final and keeps everything: when it succeeds, the file of the
    store holds the quota state of every account as it is in memory and the store
    is closed after it; and whatever its result, from then on records and
    publications are refused, polls are told to end, and a second shutdown
    repeats the result, all without changing anything. *)
Theorem shutdown_final `{GoStd} r now wall fault flush_error close_error :
  rt_stopped r = false → versions_ok (r, []) → rt_persistNext r + 1 < 18446744073709551616 →
  let '(result, r') := shutdown r now wall fault flush_error close_error in
  rt_snapshot r' = rt_snapshot r ∧ rt_pollers r' = []
  ∧ (result = Ok () → ∀ s store, rt_snapshot r = Some s → rs_Store s = Some store →
       ss_id store ∈ rt_closed r'
       ∧ ∃ p, rt_saved r' !! ss_dir store = Some p ∧ ps_Accounts p = rs_Quota s)
  ∧ (∀ record t t', is_Ok (usage_locked r' record t t').1 = false
       ∧ (usage_locked r' record t t').2 = r')
  ∧ (∀ identity g t t' polled c, poll_locked r' identity g t t' polled c = (Err ECanceled, r'))
  ∧ (∀ staged before e, is_Ok (commitSnapshotAfter r' staged before e).1 = false
       ∧ (commitSnapshotAfter r' staged before e).2 = r')
  ∧ (∀ t t' f fe ce, shutdown r' t t' f fe ce = (result, r')).
Proof.
  intros Hstop Hok Hlt. pose proof (vo_counters _ Hok) as Hc. cbn [fst] in Hc.
  pose proof (shutdown_first r now wall fault flush_error close_error Hstop ltac:(lia) Hlt) as Hf.
  destruct (shutdown r now wall fault flush_error close_error) as [result r'].
  destruct Hf as (Hst & Hsn & Hp & Hres & Hsv).
  split_and!; [done|done|done| | | |].
  - intros record t t'. unfold usage_locked. rewrite Hst. by destruct (rt_snapshot r').
  - intros identity g t t' polled c. unfold poll_locked. rewrite Hst.
    destruct (_ && c); [done|]. by destruct (rt_snapshot r').
  - intros staged before e. unfold commitSnapshotAfter. by rewrite Hst.
  - intros t t' f fe ce. unfold shutdown. rewrite Hst. by rewrite Hres.
Qed.

Lemma shutdown_final_witness :
  let '(result, r') := shutdown demo_runtime demo_now demo_now None None None in
  result = Ok () ∧ rt_saved r' !! "/auth" ≠ None ∧ rt_pollers r' = [].
Proof.
  pose proof (shutdown_final (H := DemoStd.demo_std) demo_runtime demo_now demo_now None None None
    ltac:(vm_compute; reflexivity)) as H.
  assert ((shutdown demo_runtime demo_now demo_now None None None).1 = Ok ()) as Hr
    by (vm_compute; reflexivity).
  destruct (shutdown demo_runtime demo_now demo_now None None None) as [result r'].
  simpl in Hr. subst result. split; [reflexivity|].
  destruct H as (_ & Hp & Hsv & _).
  - split; [vm_compute; split; discriminate|constructor|].
    replace (rt_saved (demo_runtime, @nil pending_write).1) with (∅ : gmap string persistedState)
      by (vm_compute; reflexivity). apply map_Forall_empty.
  - vm_compute. reflexivity.
  - split; [|exact Hp].
    destruct (Hsv eq_refl demo_live demo_store) as (_ & p & Hp' & _);
      [vm_compute; reflexivity..|]. intros Hn.
    change (ss_dir demo_store) with "/auth" in Hp'. congruence.
Defined.
