(* ===== verification/Scheduler.v ===== *)
(** * The scheduler of the Z.ai module (zai/scheduler.go, zai/plugin.go)

    The choice among the host's candidates: the fail-closed checks, the health
    of the managed accounts, delegation to the host's round robin, and the two
    selections of the module's own, sticky by session and by rotation. *)

From S2P Require Import Prelude GoStrings GoFloat Host Credits Quota Config Accounts Windows Health Failures SecureStore Settings Runtime RuntimeSteps.

(** ** Hashing and rotation *)

(** One byte of FNV-1a, 64 bits. *)
Definition fnv1a_byte (hash : Z) (c : ascii) : Z :=
  wrapu64 (Z.lxor hash (ascii_code c) * 1099511628211).

Definition stableHash (value : string) : Z :=
  foldl fnv1a_byte 14695981039346656037 (chars value).

Definition nul : string := String Ascii.zero EmptyString.

Definition sessionHeaderNames : list string :=
  ["X-Session-ID"; "Session-Id"; "Session_id"; "X-Client-Request-Id"].

Definition maxRoutingScopes : nat := 1024.

(** The cursor of a call, after the map was cleared when it is full. *)
Definition routing_cursors (cursors : gmap string Z) (scope : string) : gmap string Z :=
  if bool_decide (cursors !! scope = None) && (maxRoutingScopes <=? size cursors)%nat
  then ∅ else cursors.

(** [None] is the run-time panic of an empty candidate list. *)
Definition next (cursors : gmap string Z) (scope : string)
    (candidates : list SchedulerAuthCandidate) : option string * gmap string Z :=
  let cursors := routing_cursors cursors scope in
  let cursor := default 0 (cursors !! scope) in
  match candidates !! Z.to_nat (cursor mod Z.of_nat (length candidates)) with
  | Some selected => (Some (sc_ID selected), <[scope := wrapu64 (cursor + 1)]> cursors)
  | None => (None, cursors)
  end.

Definition session_score (scope sessionID id : string) : Z :=
  stableHash (scope +:+ nul +:+ id +:+ nul +:+ sessionID).

(** One iteration of the loop of [sticky]: the selected ID and its score. *)
Definition sticky_step (scope sessionID : string) (best : string * Z)
    (candidate : SchedulerAuthCandidate) : string * Z :=
  let score := session_score scope sessionID (sc_ID candidate) in
  if best.2 <? score then (sc_ID candidate, score) else best.

Definition sticky (scope sessionID : string) (candidates : list SchedulerAuthCandidate)
    : option string :=
  match candidates with
  | [] => None
  | first :: rest =>
      Some (foldl (sticky_step scope sessionID)
        (sc_ID first, session_score scope sessionID (sc_ID first)) rest).1
  end.

(** ** Deployment *)

Definition plugin_enabled (item : cpaPluginProjection) : bool :=
  default false (cpp_Enabled item).

Definition plugin_entry (plugins : cpaPluginsProjection) (id : string)
    : option cpaPluginProjection :=
  snd <$> head (filter (λ kv, kv.1 = id) (cps_Configs plugins)).

Definition validateSchedulerDeployment (plugins : cpaPluginsProjection) : res unit :=
  if negb (cps_Enabled plugins) then errorf "plugins must be enabled" else
  match plugin_entry plugins pluginID with
  | None => errorf (pluginID +:+ " must be enabled")
  | Some item =>
      if negb (plugin_enabled item) then errorf (pluginID +:+ " must be enabled") else
      if negb (cpp_Priority item =? requiredPluginPriority)
      then errorf (pluginID +:+ " priority must be " +:+ itoa requiredPluginPriority) else
      foldl_res (λ _ kv,
        if bool_decide (kv.1 = pluginID) || negb (plugin_enabled kv.2) then Ok ()
        else errorf (pluginID +:+ " must be the sole enabled scheduler plugin; disable " +:+ kv.1))
        () (cps_Configs plugins)
  end.

(** ** Recognition *)

Definition isZAICompatibilityProvider (raw : string) : bool :=
  let provider := ToLower (TrimSpace raw) in
  bool_decide (provider = zaiCompatName)
  || bool_decide (provider = "openai-compatible-" +:+ zaiCompatName).

Definition recognizedZAICandidate `{GoStd} (candidate : SchedulerAuthCandidate) : bool :=
  let baseURL := attribute candidate "base_url" in
  if recognizedBaseURL baseURL zaiAnthropicBaseURL then true else
  if recognizedBaseURL baseURL zaiOpenAIBaseURL then true else
  EqualFold (TrimSpace (attribute candidate "compat_name")) zaiCompatName
  || isZAICompatibilityProvider (sc_Provider candidate)
  || isZAICompatibilityProvider (attribute candidate "provider_key").

(** ** Scope and session *)

Definition schedulerScope (req : SchedulerPickRequest) : string :=
  let providers := ToLower (TrimSpace (sp_Provider req)) :: sp_Providers req in
  Join ((λ p, ToLower (TrimSpace p)) <$> providers) "," +:+ nul
  +:+ ToLower (TrimSpace (sp_Model req)).

(** The first result that is not empty. *)
Definition first_nonblank {A} (f : A → string) (l : list A) : string :=
  default "" (head (filter (λ s, s ≠ "") (f <$> l))).

Definition schedulerSessionID (headers : Header) : string :=
  first_nonblank (λ name,
    first_nonblank (λ kv,
      if EqualFold (TrimSpace kv.1) name then first_nonblank TrimSpace kv.2 else "")
      headers) sessionHeaderNames.

(** ** Errors (zai/plugin.go) *)

Definition newSchedulerError (code message : string) : error :=
  EWire {| we_Code := code; we_Message := message; we_Retryable := false; we_HTTPStatus := 0 |}.

Definition newRateLimitedError (wait : Duration) : error :=
  let seconds := Z.max 1 ((wait [+] second [-] 1) [/] second) in
  EWire {| we_Code := "zai_rate_limited";
           we_Message := "managed Z.ai accounts are briefly request-rate limited; retry in "
                         +:+ itoa seconds +:+ "s";
           we_Retryable := true; we_HTTPStatus := 429 |}.

(** ** The choice *)

(** The identity that manages a candidate, [""] for none. *)
Definition candidate_identity (s : runtimeSnapshot) (candidate : SchedulerAuthCandidate) : string :=
  default "" (rs_byAuthID s !! TrimSpace (sc_ID candidate)).

Definition identity_account (s : runtimeSnapshot) (identity : string) : account :=
  default zero_account (rs_byIdentity s !! identity).

(** The first loop: the counts of managed and impaired candidates, [None] for a
    recognized candidate that is not managed, and the snapshot so far. *)
Fixpoint scan_candidates `{GoStd} (s : runtimeSnapshot) (now : Time)
    (candidates : list SchedulerAuthCandidate) (managed impaired : nat)
    : option (nat * nat) * runtimeSnapshot :=
  match candidates with
  | [] => (Some (managed, impaired), s)
  | candidate :: rest =>
      let identity := candidate_identity s candidate in
      if bool_decide (identity = "") then
        if recognizedZAICandidate candidate then (None, s)
        else scan_candidates s now rest managed impaired
      else
        let '(state, s) := refreshCapacityLocked s identity now in
        let impaired :=
          if bool_decide (ah_Status (assess state (identity_account s identity) now) = healthHealthy)
          then impaired else S impaired in
        scan_candidates s now rest (S managed) impaired
  end.

(** The second loop: the healthy candidates and the earliest end of a backoff. *)
Definition collect_candidate (s : runtimeSnapshot) (now : Time)
    (acc : list SchedulerAuthCandidate * Time) (candidate : SchedulerAuthCandidate)
    : list SchedulerAuthCandidate * Time :=
  let '(healthy, throttledUntil) := acc in
  let identity := candidate_identity s candidate in
  if bool_decide (identity = "") then acc else
  let h := assess (default zero_health (rs_Health s !! identity)) (identity_account s identity) now in
  if bool_decide (ah_Status h = healthHealthy) then (healthy ++ [candidate], throttledUntil)
  else if bool_decide (ah_Status h = healthThrottled) then
    (healthy, if time_IsZero throttledUntil || time_Before (ah_ResetAt h) throttledUntil
              then ah_ResetAt h else throttledUntil)
  else acc.

Definition pick `{GoStd} (r : pluginRuntime) (req : SchedulerPickRequest) (now : Time)
    : res SchedulerPickResponse * pluginRuntime :=
  match rt_snapshot r with
  | None => (Err (newSchedulerError "zai_not_configured" "Z.ai scheduler is not configured"), r)
  | Some s =>
  if rt_stopped r
  then (Err (newSchedulerError "zai_not_configured" "Z.ai scheduler is not configured"), r) else
  let '(counts, s) := scan_candidates s now (sp_Candidates req) 0 0 in
  let r := set_snapshot s r in
  match counts with
  | None =>
      (Err (newSchedulerError "zai_unmanaged_candidate"
              "recognized Z.ai credential is absent from the validated account snapshot"), r)
  | Some (managed, impaired) =>
      if (managed =? 0)%nat then (Ok not_handled, r) else
      if (impaired =? 0)%nat then (Ok delegate_round_robin, r) else
      let '(healthy, throttledUntil) :=
        foldl (collect_candidate s now) ([], 0) (sp_Candidates req) in
      match healthy with
      | [] =>
          if negb (time_IsZero throttledUntil)
          then (Err (newRateLimitedError (time_Sub throttledUntil now)), r)
          else (Err (newSchedulerError "zai_no_capacity"
                       "no healthy managed Z.ai capacity remains"), r)
      | _ :: _ =>
          let scope := schedulerScope req in
          let sessionID := schedulerSessionID (sp_Headers req) in
          if negb (bool_decide (sessionID = ""))
          then (Ok (selected_auth (default "" (sticky scope sessionID healthy))), r)
          else
            let '(selected, cursors) := next (rs_Routing s) scope healthy in
            (Ok (selected_auth (default "" selected)), set_snapshot (set_routing cursors s) r)
      end
  end
  end.

(** zai/module.go [Recognize]: by attributes, or by membership. *)
Definition Recognize `{GoStd} (r : pluginRuntime) (candidate : SchedulerAuthCandidate) : bool :=
  if recognizedZAICandidate candidate then true else
  match rt_snapshot r with
  | Some s => bool_decide (is_Some (rs_byAuthID s !! TrimSpace (sc_ID candidate)))
  | None => false
  end.

(** zai/module.go [OwnedAuthIDs] *)
Definition OwnedAuthIDs (r : pluginRuntime) : list string :=
  match rt_snapshot r with Some s => (map_to_list (rs_byAuthID s)).*1 | None => [] end.

(** ** Lemmas on rotation *)

(** FNV-1a test vectors. *)
Example stableHash_vectors :
  stableHash "" = 14695981039346656037 ∧ stableHash "a" = 12638187200555641996
  ∧ stableHash "foobar" = 9625390261332436968.
Proof. vm_compute. done. Qed.

(** A sequence of calls of [next], each with its scope and candidates. *)
Fixpoint route (cursors : gmap string Z) (calls : list (string * list SchedulerAuthCandidate))
    : list (option string) :=
  match calls with
  | [] => []
  | (scope, candidates) :: calls' =>
      let '(choice, cursors') := next cursors scope candidates in choice :: route cursors' calls'
  end.

(** The choices made for one scope. *)
Definition choices (scope : string) (calls : list (string * list SchedulerAuthCandidate))
    (results : list (option string)) : list (option string) :=
  snd <$> filter (λ p, p.1 = scope) (zip calls.*1 results).

Definition scopes_of (cursors : gmap string Z) (calls : list (string * list SchedulerAuthCandidate))
    : gset string := dom cursors ∪ list_to_set calls.*1.

(** A call of [next] while there is room for its scope. *)
Lemma next_step cursors scope candidates :
  (size (dom cursors ∪ {[scope]}) ≤ maxRoutingScopes)%nat → candidates ≠ [] →
  let cursor := default 0 (cursors !! scope) in
  ∃ c, candidates !! Z.to_nat (cursor mod Z.of_nat (length candidates)) = Some c
  ∧ next cursors scope candidates = (Some (sc_ID c), <[scope := wrapu64 (cursor + 1)]> cursors).
Proof.
  intros Hsize Hne cursor. assert (routing_cursors cursors scope = cursors) as Hr.
  { unfold routing_cursors. destruct (cursors !! scope) eqn:E; [done|].
    rewrite size_union, size_singleton, size_dom in Hsize.
    - destruct (Nat.leb_spec maxRoutingScopes (size cursors)); [lia|by rewrite andb_false_r].
    - apply not_elem_of_dom in E. set_solver. }
  assert (0 < length candidates)%nat as Hlen by (destruct candidates; simpl; [done|lia]).
  pose proof (Z.mod_pos_bound cursor (Z.of_nat (length candidates)) ltac:(lia)) as Hb.
  destruct (lookup_lt_is_Some_2 candidates
    (Z.to_nat (cursor mod Z.of_nat (length candidates)))) as [c Hc]; [lia|].
  exists c. split; [done|]. unfold next. rewrite Hr. cbv zeta. fold cursor. by rewrite Hc.
Qed.

Lemma route_choices scope candidates calls cursors :
  candidates ≠ [] →
  Forall (λ call, call.2 ≠ [] ∧ (call.1 = scope → call.2 = candidates)) calls →
  (size (scopes_of cursors calls) ≤ maxRoutingScopes)%nat →
  let cursor := default 0 (cursors !! scope) in
  let n := length (filter (λ call, call.1 = scope) calls) in
  0 <= cursor → cursor + Z.of_nat n < 18446744073709551616 →
  choices scope calls (route cursors calls) = rotation cursor candidates n.
Proof.
  intros Hne. revert cursors. induction calls as [|[sc cs] calls IH]; intros cursors Hall Hsize;
    cbv zeta; intros Hc Hb; [done|].
  apply Forall_cons in Hall as [[Hcs Heq] Hall]. simpl in Hcs, Heq.
  assert (dom cursors ∪ {[sc]} ⊆ scopes_of cursors ((sc, cs) :: calls)) as Hsub1
    by (unfold scopes_of; simpl; set_solver).
  destruct (next_step cursors sc cs) as (c & Hc' & Hn); [|done|].
  { apply subseteq_size in Hsub1. lia. }
  cbn [route]. rewrite Hn. set (cursors' := <[sc := _]> cursors).
  assert ((size (scopes_of cursors' calls) ≤ maxRoutingScopes)%nat) as Hsize'.
  { assert (scopes_of cursors' calls ⊆ scopes_of cursors ((sc, cs) :: calls)) as Hsub.
    { unfold scopes_of, cursors'. simpl. rewrite dom_insert. set_solver. }
    apply subseteq_size in Hsub. lia. }
  unfold choices. cbn [fmap list_fmap zip_with fst]. rewrite !filter_cons. cbn [fst] in *.
  destruct (decide (sc = scope)) as [->|Hsc].
  - specialize (Heq eq_refl) as ->. rewrite filter_cons_True in Hb by done. cbn [length] in Hb |- *.
    rewrite rotation_S, Hc'. cbn [fmap list_fmap option_fmap option_map snd]. f_equal.
    assert (default 0 (cursors' !! scope) = default 0 (cursors !! scope) + 1) as Hnext.
    { unfold cursors'. rewrite lookup_insert_eq. simpl. apply wrapu64_id. lia. }
    rewrite <- Hnext. apply IH; [done|done|..]; rewrite Hnext; lia.
  - rewrite filter_cons_False in Hb by done.
    assert (cursors' !! scope = cursors !! scope) as Hsame by by apply lookup_insert_ne.
    rewrite <- Hsame. apply IH; [done|done|..]; by rewrite Hsame.
Qed.

(** ** Lemmas on sticky selection *)

Definition scored (scope sessionID : string) (best : string * Z) : Prop :=
  best.2 = session_score scope sessionID best.1.

Lemma sticky_fold scope sessionID rest best :
  scored scope sessionID best →
  let best' := foldl (sticky_step scope sessionID) best rest in
  scored scope sessionID best' ∧ best.2 <= best'.2
  ∧ (best'.1 = best.1 ∨ best'.1 ∈ sc_ID <$> rest)
  ∧ Forall (λ c, session_score scope sessionID (sc_ID c) <= best'.2) rest.
Proof.
  revert best. induction rest as [|c rest IH]; intros best Hb; simpl.
  { split_and!; [done|lia|by left|constructor]. }
  set (best1 := sticky_step scope sessionID best c).
  assert (scored scope sessionID best1 ∧ best.2 <= best1.2
    ∧ session_score scope sessionID (sc_ID c) <= best1.2
    ∧ (best1.1 = best.1 ∨ best1.1 = sc_ID c)) as (Hs & Hle & Hge & Hor).
  { unfold best1, sticky_step. destruct (Z.ltb_spec best.2 (session_score scope sessionID (sc_ID c)));
      simpl; split_and!; (done || lia || auto). }
  destruct (IH best1 Hs) as (? & ? & Hin & Hall). split_and!; [done|lia| |].
  - destruct Hin as [Heq|Hin]; [|right; by right]. rewrite Heq.
    destruct Hor as [->| ->]; [by left|right; left].
  - constructor; [lia|done].
Qed.

Lemma sticky_max scope sessionID candidates sel :
  sticky scope sessionID candidates = Some sel →
  sel ∈ sc_ID <$> candidates
  ∧ Forall (λ c, session_score scope sessionID (sc_ID c) <= session_score scope sessionID sel)
      candidates.
Proof.
  destruct candidates as [|c rest]; [done|]. cbn [sticky]. intros Hsel. apply Some_inj in Hsel.
  destruct (sticky_fold scope sessionID rest (sc_ID c, session_score scope sessionID (sc_ID c)))
    as (Hs & Hle & Hin & Hall); [done|]. unfold scored in Hs. rewrite Hsel in *. simpl in *.
  rewrite <- Hs. split; [|by constructor].
  destruct Hin as [-> |]; [left|by right].
Qed.

(** ** Lemmas on the choice *)

Definition refreshed (s : runtimeSnapshot) (identity : string) (now : Time) : accountHealthState :=
  (refreshCapacityLocked s identity now).1.

Lemma quotaCapacityHealth_absorbs h v w threshold :
  quotaCapacityHealth (quotaCapacityHealth h v threshold) w threshold
  = quotaCapacityHealth h w threshold.
Proof.
  unfold quotaCapacityHealth.
  destruct (window_exhausted (qv_FiveHour v) threshold || window_exhausted (qv_Weekly v) threshold);
  destruct (window_exhausted (qv_FiveHour w) threshold || window_exhausted (qv_Weekly w) threshold);
  done.
Qed.

(** A snapshot after some refreshes: the same but for the health, and refreshing
    it again gives what refreshing the first one gives. *)
Record refreshes (now : Time) (s s' : runtimeSnapshot) : Prop := {
  rf_frame : set_quota_health (rs_Quota s) (rs_Health s) s' = s;
  rf_again : ∀ i, refreshed s' i now = refreshed s i now;
}.

Lemma refreshes_same now s : refreshes now s s.
Proof. split; [by destruct s|done]. Qed.

Lemma refreshes_trans now s s' s'' : refreshes now s s' → refreshes now s' s'' → refreshes now s s''.
Proof.
  intros [Hf Ha] [Hf' Ha']. split; [|intros i; by rewrite Ha'].
  rewrite <- Hf at 3. rewrite <- Hf'. done.
Qed.

Lemma refresh_step now s identity :
  let s' := (refreshCapacityLocked s identity now).2 in
  refreshes now s s'
  ∧ default zero_health (rs_Health s' !! identity) = refreshed s identity now
  ∧ ∀ i, i ≠ identity → rs_Health s' !! i = rs_Health s !! i.
Proof.
  unfold refreshed, refreshCapacityLocked.
  destruct (rs_Quota s !! identity) as [q|] eqn:Hq; simpl;
    [|by split; [apply refreshes_same|]].
  destruct (rs_byIdentity s !! identity) as [item|] eqn:Hi; simpl;
    [|by split; [apply refreshes_same|]].
  split; [|split; [by rewrite lookup_insert_eq|intros i Hne; by rewrite lookup_insert_ne]].
  split; [by destruct s|]. intros i. unfold refreshed, refreshCapacityLocked.
  destruct (decide (i = identity)) as [->|Hne].
  - simpl. rewrite Hq, Hi, lookup_insert_eq. simpl. apply quotaCapacityHealth_absorbs.
  - simpl. rewrite lookup_insert_ne by done.
    destruct (rs_Quota s !! i); [|done]. by destruct (rs_byIdentity s !! i).
Qed.

(** The health of an account, once refreshed, is not changed by other refreshes. *)
Lemma refresh_keeps_fresh now s0 s identity i :
  refreshes now s0 s → default zero_health (rs_Health s !! i) = refreshed s0 i now →
  default zero_health (rs_Health (refreshCapacityLocked s identity now).2 !! i) = refreshed s0 i now.
Proof.
  intros Hr Hi. destruct (refresh_step now s identity) as (_ & Hid & Hother).
  destruct (decide (i = identity)) as [->|Hne]; [|by rewrite Hother].
  rewrite Hid. apply (rf_again _ _ _ Hr).
Qed.

(** ** The specification of the choice

    The health of a candidate is that of its account with the capacity of the
    moment; the choice is a function of the candidates' health. *)

Definition managed (s : runtimeSnapshot) (c : SchedulerAuthCandidate) : Prop :=
  candidate_identity s c ≠ "".

#[global] Instance managed_decision s c : Decision (managed s c).
Proof. unfold managed. apply _. Defined.

Definition candidate_health (s : runtimeSnapshot) (now : Time) (c : SchedulerAuthCandidate)
    : accountHealth :=
  let identity := candidate_identity s c in
  assess (refreshed s identity now) (identity_account s identity) now.

Definition healthy (s : runtimeSnapshot) (now : Time) (c : SchedulerAuthCandidate) : Prop :=
  ah_Status (candidate_health s now c) = healthHealthy.

#[global] Instance healthy_decision s now c : Decision (healthy s now c).
Proof. unfold healthy. apply _. Defined.

(** The ends of the backoffs among the candidates. *)
Definition backoff_ends (s : runtimeSnapshot) (now : Time) (cs : list SchedulerAuthCandidate)
    : list Time :=
  ah_ResetAt <$> filter (λ h, ah_Status h = healthThrottled) (candidate_health s now <$> cs).

Definition pick_spec `{GoStd} (s : runtimeSnapshot) (req : SchedulerPickRequest) (now : Time)
    : res SchedulerPickResponse :=
  let cs := filter (managed s) (sp_Candidates req) in
  let hs := filter (healthy s now) cs in
  if existsb (λ c, negb (bool_decide (managed s c)) && recognizedZAICandidate c)
       (sp_Candidates req)
  then Err (newSchedulerError "zai_unmanaged_candidate"
              "recognized Z.ai credential is absent from the validated account snapshot")
  else match cs with
  | [] => Ok not_handled
  | _ :: _ =>
      if decide (Forall (healthy s now) cs) then Ok delegate_round_robin else
      match hs, backoff_ends s now cs with
      | [], t :: ts => Err (newRateLimitedError (time_Sub (foldl Z.min t ts) now))
      | [], [] => Err (newSchedulerError "zai_no_capacity"
                         "no healthy managed Z.ai capacity remains")
      | _ :: _, _ =>
          let scope := schedulerScope req in
          let sessionID := schedulerSessionID (sp_Headers req) in
          Ok (selected_auth (default ""
            (if decide (sessionID = "") then (next (rs_Routing s) scope hs).1
             else sticky scope sessionID hs)))
      end
  end.

Lemma refreshes_identity now s s' : refreshes now s s' →
  candidate_identity s' = candidate_identity s ∧ identity_account s' = identity_account s
  ∧ rs_Routing s' = rs_Routing s.
Proof. intros [Hf _]. rewrite <- Hf. by split_and!. Qed.

Definition unmanaged_recognized `{GoStd} (s : runtimeSnapshot) (c : SchedulerAuthCandidate) : bool :=
  negb (bool_decide (managed s c)) && recognizedZAICandidate c.

Lemma scan_spec `{GoStd} s0 now cs s m i :
  refreshes now s0 s →
  let '(counts, s') := scan_candidates s now cs m i in
  refreshes now s0 s'
  ∧ (∀ j, default zero_health (rs_Health s !! j) = refreshed s0 j now →
      default zero_health (rs_Health s' !! j) = refreshed s0 j now)
  ∧ if existsb (unmanaged_recognized s0) cs then counts = None else
    counts = Some (m + length (filter (managed s0) cs),
                   i + length (filter (λ c, ¬ healthy s0 now c) (filter (managed s0) cs)))%nat
    ∧ Forall (λ c, managed s0 c → default zero_health (rs_Health s' !! candidate_identity s0 c)
                                  = refreshed s0 (candidate_identity s0 c) now) cs.
Proof.
  revert s m i. induction cs as [|c cs IH]; intros s m i Hr; cbn [scan_candidates existsb].
  { split; [done|]. split; [done|]. split; [|constructor]. by rewrite !Nat.add_0_r. }
  destruct (refreshes_identity _ _ _ Hr) as (Hci & Hia & _). rewrite Hci.
  rewrite !filter_cons. unfold unmanaged_recognized at 1.
  destruct (decide (managed s0 c)) as [Hm|Hm].
  - rewrite (bool_decide_eq_false_2 (candidate_identity s0 c = "")) by done.
    rewrite (bool_decide_eq_true_2 (managed s0 c)) by done. cbn [negb andb orb].
    destruct (refresh_step now s (candidate_identity s0 c)) as (Hr1 & Hfresh & _).
    pose proof (rf_again _ _ _ Hr (candidate_identity s0 c)) as Hag.
    pose proof (refresh_keeps_fresh now s0 s (candidate_identity s0 c)) as Hkeep.
    unfold refreshed in Hag at 1. unfold refreshed in Hfresh.
    destruct (refreshCapacityLocked s (candidate_identity s0 c) now) as [state s1].
    cbn [fst snd] in *. rewrite Hag in Hfresh |- *. clear state Hag.
    assert (refreshes now s0 s1) as Hr01 by by eapply refreshes_trans.
    destruct (refreshes_identity _ _ _ Hr01) as (_ & Hia1 & _). rewrite Hia1.
    match goal with |- context [scan_candidates s1 now cs ?a ?b] =>
      specialize (IH s1 a b Hr01); destruct (scan_candidates s1 now cs a b) as [counts s'] end.
    destruct IH as (Hr' & Hmono & Hres). split; [done|]. split; [by auto|].
    destruct (existsb (unmanaged_recognized s0) cs); [done|]. destruct Hres as [-> Hall].
    rewrite filter_cons. fold (candidate_health s0 now c).
    change (assess _ _ now) with (candidate_health s0 now c).
    split; [|constructor; auto].
    destruct (decide (¬ healthy s0 now c)) as [Hh|Hh].
    + rewrite bool_decide_eq_false_2 by done. simpl. f_equal. f_equal; lia.
    + rewrite bool_decide_eq_true_2 by (by apply dec_stable). simpl. f_equal. f_equal; lia.
  - rewrite (bool_decide_eq_true_2 (candidate_identity s0 c = "")) by (by apply dec_stable).
    rewrite (bool_decide_eq_false_2 (managed s0 c)) by done. cbn [negb andb].
    destruct (recognizedZAICandidate c); cbn [orb]; [done|].
    specialize (IH s m i Hr). destruct (scan_candidates s now cs m i) as [counts s'].
    destruct IH as (? & ? & Hres). split; [done|]. split; [done|].
    destruct (existsb (unmanaged_recognized s0) cs); [done|]. destruct Hres as [-> Hall].
    split; [done|]. by constructor.
Qed.

(** The minimum the second loop computes, [0] standing for none. *)
Definition earliest (best : Time) (ends : list Time) : Time :=
  foldl (λ best t, if time_IsZero best || time_Before t best then t else best) best ends.

Lemma earliest_min t ts : t ≠ 0 → Forall (λ u, u ≠ 0) ts → earliest t ts = foldl Z.min t ts.
Proof.
  revert t. induction ts as [|u ts IH]; intros t Ht Hts; [done|].
  apply Forall_cons in Hts as [Hu Hts]. unfold earliest. cbn [foldl].
  change (foldl _ ?x ts) with (earliest x ts) at 1.
  unfold time_IsZero, time_Before. destruct (Z.eqb_spec t 0); [done|]. cbn [orb].
  destruct (Z.ltb_spec u t).
  - rewrite Z.min_r by lia. by apply IH.
  - rewrite Z.min_l by lia. by apply IH.
Qed.

Lemma collect_spec s0 s now cs acc :
  refreshes now s0 s →
  Forall (λ c, managed s0 c → default zero_health (rs_Health s !! candidate_identity s0 c)
                              = refreshed s0 (candidate_identity s0 c) now) cs →
  foldl (collect_candidate s now) acc cs
  = (acc.1 ++ filter (healthy s0 now) (filter (managed s0) cs),
     earliest acc.2 (backoff_ends s0 now (filter (managed s0) cs))).
Proof.
  intros Hr. destruct (refreshes_identity _ _ _ Hr) as (Hci & Hia & _).
  revert acc. induction cs as [|c cs IH]; intros [hs t] Hall.
  { by rewrite filter_nil, filter_nil, app_nil_r. }
  apply Forall_cons in Hall as [Hc Hall]. cbn [foldl]. rewrite IH by done.
  unfold collect_candidate at 1 2. rewrite Hci, Hia, filter_cons.
  destruct (decide (managed s0 c)) as [Hm|Hm].
  2: { by rewrite bool_decide_eq_true_2 by (by apply dec_stable). }
  rewrite bool_decide_eq_false_2 by done. rewrite (Hc Hm).
  change (assess _ _ now) with (candidate_health s0 now c). rewrite filter_cons.
  unfold backoff_ends. rewrite fmap_cons, filter_cons.
  destruct (decide (healthy s0 now c)) as [Hh|Hh].
  - rewrite bool_decide_eq_true_2 by done. rewrite decide_False by (rewrite Hh; done).
    cbn [fst snd]. by rewrite <- app_assoc.
  - rewrite bool_decide_eq_false_2 by done.
    destruct (decide (ah_Status (candidate_health s0 now c) = healthThrottled)) as [Ht|Ht].
    + rewrite bool_decide_eq_true_2 by done. by rewrite fmap_cons.
    + by rewrite bool_decide_eq_false_2 by done.
Qed.

(** A backoff that throttles ends after now. *)
Lemma throttled_after s item now :
  ah_Status (assess s item now) = healthThrottled → now < ah_ResetAt (assess s item now).
Proof.
  unfold assess, time_After. destruct (ac_Disabled item); [done|].
  destruct (Z.ltb_spec now (hs_SuspendedUntil s)); [done|].
  destruct (Z.ltb_spec now (hs_ExhaustedUntil s)); [done|].
  destruct (hs_CapacityExhausted s); [done|].
  by destruct (Z.ltb_spec now (hs_ThrottledUntil s)).
Qed.

Lemma backoff_ends_after s now cs : Forall (λ t, now < t) (backoff_ends s now cs).
Proof.
  unfold backoff_ends. apply Forall_fmap, Forall_forall. intros h Hh.
  apply list_elem_of_filter in Hh as [Ht Hh]. apply list_elem_of_fmap in Hh as (c & -> & _).
  by apply throttled_after.
Qed.

(** Nobody impaired: everybody healthy. *)
Lemma none_impaired s now cs :
  length (filter (λ c, ¬ healthy s now c) cs) = 0%nat ↔ Forall (healthy s now) cs.
Proof.
  induction cs as [|c cs IH]; [by split; [constructor|]|].
  rewrite filter_cons, Forall_cons. destruct (decide (¬ healthy s now c)) as [Hn|Hn].
  - simpl. split; [done|]. by intros [? _].
  - apply dec_stable in Hn. tauto.
Qed.

Lemma foldl_min_after now t ts : now < t → Forall (λ u, now < u) ts → now < foldl Z.min t ts.
Proof.
  revert t. induction ts as [|u ts IH]; intros t Ht Hts; [done|].
  apply Forall_cons in Hts as [Hu Hts]. simpl. apply IH; [lia|done].
Qed.

Lemma pick_eq `{GoStd} r s req now :
  rt_snapshot r = Some s → rt_stopped r = false → 0 <= now →
  (pick r req now).1 = pick_spec s req now
  ∧ ∃ s', rt_snapshot (pick r req now).2 = Some s'
    ∧ set_routing (rs_Routing s) (set_quota_health (rs_Quota s) (rs_Health s) s') = s.
Proof.
  intros Hs Hstop Hnow. unfold pick, pick_spec. rewrite Hs, Hstop.
  pose proof (scan_spec s now (sp_Candidates req) s 0 0 (refreshes_same now s)) as Hscan.
  destruct (scan_candidates s now (sp_Candidates req) 0 0) as [counts s1].
  destruct Hscan as (Hr & _ & Hres). fold (unmanaged_recognized s).
  assert (set_routing (rs_Routing s) (set_quota_health (rs_Quota s) (rs_Health s) s1) = s) as Hframe.
  { destruct (refreshes_identity _ _ _ Hr) as (_ & _ & Hro). pose proof (rf_frame _ _ _ Hr) as Hf.
    rewrite Hf. by destruct s. }
  cbv zeta. destruct (existsb (unmanaged_recognized s) (sp_Candidates req)).
  { subst counts. split; [done|]. by exists s1. }
  destruct Hres as [-> Hall]. set (cs := filter (managed s) (sp_Candidates req)) in *.
  destruct (refreshes_identity _ _ _ Hr) as (_ & _ & Hro).
  rewrite (collect_spec s s1 now (sp_Candidates req) ([], 0) Hr Hall). fold cs. cbn [fst snd app].
  rewrite !Nat.add_0_l. pose proof (none_impaired s now cs) as Himp.
  destruct cs as [|c cs'] eqn:Hcs; [split; [done|by exists s1]|]. rewrite <- Hcs in *.
  replace (length cs =? 0)%nat with false by (by rewrite Hcs).
  destruct (Nat.eqb_spec (length (filter (λ c, ¬ healthy s now c) cs)) 0) as [H0|H0].
  { rewrite decide_True by by apply Himp. split; [done|by exists s1]. }
  rewrite decide_False by (by intros ?%Himp).
  destruct (filter (healthy s now) cs) as [|h hs].
  - pose proof (backoff_ends_after s now cs) as Hafter.
    destruct (backoff_ends s now cs) as [|t ts]; [split; [done|by exists s1]|].
    apply Forall_cons in Hafter as [Ht Hts].
    assert (earliest 0 (t :: ts) = foldl Z.min t ts) as ->.
    { change (earliest 0 (t :: ts)) with (earliest t ts). apply earliest_min; [lia|].
      eapply Forall_impl; [done|]. simpl. lia. }
    pose proof (foldl_min_after now t ts Ht Hts).
    unfold time_IsZero. destruct (Z.eqb_spec (foldl Z.min t ts) 0); [lia|].
    split; [done|by exists s1].
  - destruct (decide (schedulerSessionID (sp_Headers req) = "")) as [He|He].
    + rewrite bool_decide_eq_true_2 by done. cbn [negb]. rewrite Hro.
      destruct (next (rs_Routing s) (schedulerScope req) (h :: hs)) as [sel cursors].
      split; [done|]. eexists. split; [reflexivity|]. rewrite <- Hframe at 2. by destruct s1.
    + rewrite bool_decide_eq_false_2 by done. split; [done|by exists s1].
Qed.

Lemma next_selects cursors scope candidates :
  candidates ≠ [] → ∃ c, c ∈ candidates ∧ (next cursors scope candidates).1 = Some (sc_ID c).
Proof.
  intros Hne. unfold next. cbv zeta. set (cursor := default 0 _).
  assert (0 < length candidates)%nat as Hlen by (destruct candidates; simpl; [done|lia]).
  pose proof (Z.mod_pos_bound cursor (Z.of_nat (length candidates)) ltac:(lia)).
  destruct (lookup_lt_is_Some_2 candidates
    (Z.to_nat (cursor mod Z.of_nat (length candidates)))) as [c Hc]; [lia|].
  rewrite Hc. exists c. split; [by eapply list_elem_of_lookup_2|done].
Qed.

(** The own choice among healthy candidates is one of them. *)
Lemma selection_member s req hs :
  hs ≠ [] →
  ∃ c, c ∈ hs ∧ default "" (if decide (schedulerSessionID (sp_Headers req) = "")
    then (next (rs_Routing s) (schedulerScope req) hs).1
    else sticky (schedulerScope req) (schedulerSessionID (sp_Headers req)) hs) = sc_ID c.
Proof.
  intros Hne. destruct (decide _).
  - destruct (next_selects (rs_Routing s) (schedulerScope req) hs Hne) as (c & Hc & ->). by exists c.
  - destruct (sticky _ _ hs) as [sel|] eqn:Hsel; [|by destruct hs].
    apply sticky_max in Hsel as [(c & -> & Hc)%list_elem_of_fmap _]. by exists c.
Qed.

(** ** Properties *)

(** C3: the scheduler's loops compute the specification: the health of each
    managed candidate with the capacity of the moment decides between refusing,
    passing on, delegating, the module's own choice and the two errors; and apart
    from refreshed capacity and the rotation cursor the snapshot stays as it is. *)
Theorem pick_refines_spec `{GoStd} r s req now :
  rt_snapshot r = Some s → rt_stopped r = false → 0 <= now →
  (pick r req now).1 = pick_spec s req now
  ∧ ∃ s', rt_snapshot (pick r req now).2 = Some s'
    ∧ set_routing (rs_Routing s) (set_quota_health (rs_Quota s) (rs_Health s) s') = s.
Proof. apply pick_eq. Qed.

(** A candidate of the demo account, one of another provider, and the account
    suspended. *)
Definition demo_candidate (id : string) : SchedulerAuthCandidate :=
  {| sc_ID := id; sc_Provider := "claude"; sc_Attributes := ∅ |}.
Definition demo_request (ids : list string) (headers : Header) : SchedulerPickRequest :=
  {| sp_Provider := "claude"; sp_Providers := []; sp_Model := "glm-5.3";
     sp_Candidates := demo_candidate <$> ids; sp_Headers := headers; sp_Now := None |}.
Definition demo_suspended : pluginRuntime :=
  set_snapshot (set_health demo_identity (suspendUntil zero_health (demo_now + hour)) demo_live)
    demo_runtime.

Lemma pick_refines_spec_witness :
  (pick (H := DemoStd.demo_std) demo_suspended (demo_request [demo_auth; "other"] []) demo_now).1
  = Err (newSchedulerError "zai_no_capacity" "no healthy managed Z.ai capacity remains").
Proof.
  destruct (pick_refines_spec (H := DemoStd.demo_std) demo_suspended
    (set_health demo_identity (suspendUntil zero_health (demo_now + hour)) demo_live)
    (demo_request [demo_auth; "other"] []) demo_now) as [Heq _].
  - reflexivity.
  - vm_compute. reflexivity.
  - vm_compute. discriminate.
  - rewrite Heq. vm_compute. reflexivity.
Defined.

(** The scheduler never hands a request to an impaired account and never
    refuses one it can serve: an answer passes the request on only when no
    candidate is a Z.ai one, delegates only when every managed candidate is
    healthy, and otherwise names a healthy managed candidate; an error means that
    a recognized candidate is unmanaged or that no managed candidate is healthy. *)
Theorem pick_sound `{GoStd} r s req now :
  rt_snapshot r = Some s → rt_stopped r = false → 0 <= now →
  let unmanaged := ∃ c, c ∈ sp_Candidates req ∧ ¬ managed s c ∧ recognizedZAICandidate c = true in
  match (pick r req now).1 with
  | Ok resp =>
      ¬ unmanaged
      ∧ (resp = not_handled ∧ (∀ c, c ∈ sp_Candidates req → ¬ managed s c)
         ∨ resp = delegate_round_robin
           ∧ (∃ c, c ∈ sp_Candidates req ∧ managed s c)
           ∧ (∀ c, c ∈ sp_Candidates req → managed s c → healthy s now c)
         ∨ ∃ c, c ∈ sp_Candidates req ∧ managed s c ∧ healthy s now c
           ∧ resp = selected_auth (sc_ID c))
  | Err e =>
      unmanaged
      ∨ (∀ c, c ∈ sp_Candidates req → managed s c → ¬ healthy s now c)
        ∧ (error_text e = "zai_no_capacity: no healthy managed Z.ai capacity remains"
           ∨ ∃ c, c ∈ sp_Candidates req ∧ managed s c
             ∧ ah_Status (candidate_health s now c) = healthThrottled)
  end.
Proof.
  intros Hs Hstop Hnow unmanaged. destruct (pick_eq r s req now Hs Hstop Hnow) as [-> _].
  unfold pick_spec. cbv zeta. fold (unmanaged_recognized s).
  destruct (existsb (unmanaged_recognized s) (sp_Candidates req)) eqn:Hex.
  { left. apply existsb_exists in Hex as (c & Hc%list_elem_of_In & Hu).
    unfold unmanaged_recognized in Hu. apply andb_true_iff in Hu as [Hm Hrec].
    apply negb_true_iff, bool_decide_eq_false_1 in Hm. by exists c. }
  assert (¬ unmanaged) as Hun.
  { intros (c & Hc & Hm & Hrec). assert (existsb (unmanaged_recognized s) (sp_Candidates req) = true);
      [|congruence]. apply existsb_exists. exists c. split; [by apply list_elem_of_In|].
    unfold unmanaged_recognized. by rewrite bool_decide_eq_false_2, Hrec by done. }
  set (cs := filter (managed s) (sp_Candidates req)) in *.
  assert (∀ c, c ∈ cs ↔ managed s c ∧ c ∈ sp_Candidates req) as Hin
    by (intros c; apply list_elem_of_filter).
  destruct cs as [|c0 cs'] eqn:Hcs.
  { split; [done|]. left. split; [done|]. intros c Hc Hm. apply (not_elem_of_nil c), Hin. done. }
  rewrite <- Hcs in *. destruct (decide (Forall (healthy s now) cs)) as [Hall|Hnall].
  { split; [done|]. right. left. split; [done|]. split.
    - exists c0. apply and_comm, Hin. rewrite Hcs. left.
    - intros c Hc Hm. rewrite Forall_forall in Hall. apply Hall, Hin. done. }
  destruct (filter (healthy s now) cs) as [|h hs] eqn:Hhs.
  - assert (∀ c, c ∈ sp_Candidates req → managed s c → ¬ healthy s now c) as Hnone.
    { intros c Hc Hm Hh. assert (c ∈ filter (healthy s now) cs) as Hf
        by (apply list_elem_of_filter; split; [done|by apply Hin]).
      rewrite Hhs in Hf. by apply elem_of_nil in Hf. }
    destruct (backoff_ends s now cs) as [|t ts] eqn:Hends; right; (split; [done|]); [by left|].
    right. assert (t ∈ backoff_ends s now cs) as Ht by (rewrite Hends; left).
    unfold backoff_ends in Ht. apply list_elem_of_fmap in Ht as (x & _ & Hx).
    apply list_elem_of_filter in Hx as [Hst Hx]. apply list_elem_of_fmap in Hx as (c & -> & Hc).
    apply Hin in Hc as [? ?]. by exists c.
  - split; [done|]. right. right.
    destruct (selection_member s req (h :: hs)) as (c & Hc & ->); [done|].
    rewrite <- Hhs in Hc. apply list_elem_of_filter in Hc as [Hh Hc]. apply Hin in Hc as [? ?].
    by exists c.
Qed.

Lemma pick_sound_witness :
  ∃ c, c ∈ sp_Candidates (demo_request [demo_auth] []) ∧ managed demo_live c
  ∧ ∀ c, c ∈ sp_Candidates (demo_request [demo_auth] []) → managed demo_live c →
      healthy demo_live demo_now c.
Proof.
  pose proof (pick_sound (H := DemoStd.demo_std) demo_runtime demo_live
    (demo_request [demo_auth] []) demo_now
    ltac:(vm_compute; reflexivity) ltac:(vm_compute; reflexivity) ltac:(vm_compute; discriminate)) as H.
  assert ((pick (H := DemoStd.demo_std) demo_runtime (demo_request [demo_auth] []) demo_now).1
    = Ok delegate_round_robin) as Hp by (vm_compute; reflexivity).
  rewrite Hp in H. cbv beta iota zeta in H. apply proj2 in H.
  destruct H as [H|[H|H]].
  - exfalso. apply proj1 in H. discriminate H.
  - apply proj2 in H. destruct H as [[c [Hc Hm]] Hall].
    exists c. split; [exact Hc|]. split; [exact Hm|exact Hall].
  - exfalso. destruct H as [c H]. do 3 apply proj2 in H. discriminate H.
Defined.

(** C40: rotation is fair: among any calls, of this and of other scopes, that
    together use at most 1024 scopes, as many calls for a scope as it has
    candidates choose each candidate exactly once, wherever its cursor stands. *)
Theorem next_round_robin scope candidates calls cursors :
  candidates ≠ [] →
  Forall (λ call, call.2 ≠ [] ∧ (call.1 = scope → call.2 = candidates)) calls →
  (size (scopes_of cursors calls) ≤ maxRoutingScopes)%nat →
  length (filter (λ call, call.1 = scope) calls) = length candidates →
  0 <= default 0 (cursors !! scope) →
  default 0 (cursors !! scope) + Z.of_nat (length candidates) < 18446744073709551616 →
  choices scope calls (route cursors calls) ≡ₚ (λ c, Some (sc_ID c)) <$> candidates.
Proof.
  intros Hne Hall Hsize Hlen Hc Hb.
  rewrite (route_choices scope candidates calls cursors) by (done || (rewrite Hlen; done)).
  rewrite Hlen. by apply rotation_full.
Qed.

Lemma next_round_robin_witness :
  let cs := demo_candidate <$> ["a"; "b"; "c"] in
  let one := demo_candidate <$> ["x"] in
  choices "s" [("s", cs); ("t", one); ("s", cs); ("s", cs)]
    (route {["s" := 4]} [("s", cs); ("t", one); ("s", cs); ("s", cs)])
  ≡ₚ [Some "a"; Some "b"; Some "c"].
Proof.
  change [Some "a"; Some "b"; Some "c"]
    with ((λ c, Some (sc_ID c)) <$> (demo_candidate <$> ["a"; "b"; "c"])). cbv zeta.
  apply (next_round_robin "s" (demo_candidate <$> ["a"; "b"; "c"])).
  - discriminate.
  - repeat constructor; simpl; try discriminate; done.
  - apply Nat.leb_le. vm_compute. reflexivity.
  - vm_compute. reflexivity.
  - vm_compute. discriminate.
  - vm_compute. reflexivity.
Defined.

(** Sticky selection moves as few sessions as possible: when no two candidate
    IDs score alike for a session, the session keeps its account whatever happens
    to the other candidates, in whatever order they are offered; and a session
    moves only to a candidate that was added. *)
Theorem sticky_stable scope sessionID candidates candidates' sel :
  (∀ a b, a ∈ (sc_ID <$> candidates) ++ (sc_ID <$> candidates') →
     b ∈ (sc_ID <$> candidates) ++ (sc_ID <$> candidates') →
     session_score scope sessionID a = session_score scope sessionID b → a = b) →
  sticky scope sessionID candidates = Some sel → sel ∈ sc_ID <$> candidates' →
  ∃ sel', sticky scope sessionID candidates' = Some sel'
  ∧ (sel' = sel ∨ sel' ∉ sc_ID <$> candidates).
Proof.
  intros Hties Hsel Hin.
  destruct (sticky scope sessionID candidates') as [sel'|] eqn:Hsel'.
  2: { destruct candidates'; [by apply elem_of_nil in Hin|done]. }
  exists sel'. split; [done|].
  destruct (sticky_max _ _ _ _ Hsel) as [Hs Hmax]. destruct (sticky_max _ _ _ _ Hsel') as [Hs' Hmax'].
  destruct (decide (sel' ∈ sc_ID <$> candidates)) as [Hold|]; [left|by right].
  rewrite Forall_forall in Hmax, Hmax'.
  apply Hties; [apply elem_of_app; by left|apply elem_of_app; by left|].
  apply list_elem_of_fmap in Hold as (c & -> & Hc). apply list_elem_of_fmap in Hin as (d & -> & Hd).
  specialize (Hmax c Hc). specialize (Hmax' d Hd). simpl in *. lia.
Qed.

Lemma sticky_stable_witness :
  sticky "s" "session" (demo_candidate <$> ["a"; "b"; "c"]) = Some "a"
  ∧ ∃ sel', sticky "s" "session" (demo_candidate <$> ["c"; "a"]) = Some sel'
  ∧ (sel' = "a" ∨ sel' ∉ sc_ID <$> (demo_candidate <$> ["a"; "b"; "c"])).
Proof.
  assert (Hs : sticky "s" "session" (demo_candidate <$> ["a"; "b"; "c"]) = Some "a")
    by (vm_compute; reflexivity).
  split; [exact Hs|].
  apply (sticky_stable "s" "session" (demo_candidate <$> ["a"; "b"; "c"])).
  - assert (Forall (λ a, Forall (λ b, session_score "s" "session" a = session_score "s" "session" b
      → a = b) ["a"; "b"; "c"; "c"; "a"]) ["a"; "b"; "c"; "c"; "a"]) as Hall by by_decision.
    rewrite Forall_forall in Hall. intros a b Ha Hb. specialize (Hall a Ha).
    rewrite Forall_forall in Hall. exact (Hall b Hb).
  - exact Hs.
  - by_decision.
Defined.

(** The deployment check accepts exactly the host configurations in which
    plugins are enabled, this plugin's entry is enabled with the required
    priority, and no entry of another plugin is enabled. *)
Theorem validateSchedulerDeployment_exact plugins :
  validateSchedulerDeployment plugins = Ok () ↔
  cps_Enabled plugins = true
  ∧ (∃ item, plugin_entry plugins pluginID = Some item ∧ cpp_Enabled item = Some true
      ∧ cpp_Priority item = requiredPluginPriority)
  ∧ ∀ id item, (id, item) ∈ cps_Configs plugins → id ≠ pluginID → cpp_Enabled item ≠ Some true.
Proof.
  unfold validateSchedulerDeployment, plugin_enabled. destruct (cps_Enabled plugins); simpl; [|by split; [|intros [? _]]].
  destruct (plugin_entry plugins pluginID) as [item|]; [|split; [done|intros (_ & (? & ? & _) & _); done]].
  destruct (cpp_Enabled item) as [[]|] eqn:He; simpl;
    [|split; [done|intros (_ & (i & [= <-] & Hi & _) & _); congruence]..].
  destruct (Z.eqb_spec (cpp_Priority item) requiredPluginPriority) as [Hp|Hp]; simpl;
    [|split; [done|intros (_ & (i & [= <-] & _ & Hi) & _); done]].
  set (check := λ kv : string * cpaPluginProjection, if bool_decide (kv.1 = pluginID)
    || negb (default false (cpp_Enabled kv.2)) then Ok () else _).
  assert (∀ kv, check kv = Ok () ↔ (kv.1 = pluginID ∨ cpp_Enabled kv.2 ≠ Some true)) as Hcheck.
  { intros [id it]. unfold check. simpl. destruct (decide (id = pluginID)) as [->|Hid].
    - rewrite bool_decide_eq_true_2 by done. simpl. split; [by left|done].
    - rewrite bool_decide_eq_false_2 by done.
      destruct (cpp_Enabled it) as [[]|]; simpl; (split; [|done || (intros [?|?]; done)]);
        try done; intros _; by right. }
  split.
  - intros Hok. split; [done|]. split; [by exists item|]. intros id it Hin Hne.
    pose proof (foldl_res_check check _ _ Hok _ Hin) as Hc.
    apply Hcheck in Hc as [?|?]; done.
  - intros (_ & _ & Hall). induction (cps_Configs plugins) as [|[id it] l IH]; [done|]. simpl.
    assert (check (id, it) = Ok ()) as ->.
    { apply Hcheck. destruct (decide (id = pluginID)); [by left|right]. apply (Hall id); [left|done]. }
    apply IH. intros. eapply Hall; [by right|done].
Qed.
