(* ===== verification/Management.v ===== *)
(** * Management of the Z.ai module (zai/management.go, the status of zai/runtime.go)

    The routes of the host's management API: the redacted status, the refresh
    that concurrent requests share, the unblocking of accounts and the update of
    settings. The JSON decoders of request bodies, the outcome of a refresh's
    polls and the settings store are arguments. *)

From S2P Require Import Prelude GoStrings GoFloat Host Credits Quota Config Accounts Windows Health Failures SecureStore Settings Runtime RuntimeSteps Scheduler.

Definition managementBasePath : string := "/v0/management/plugins/zai-coding-plan".
Definition managementStatusPath : string := managementBasePath +:+ "/status".
Definition managementRefreshPath : string := managementBasePath +:+ "/refresh".
Definition managementUnblockPath : string := managementBasePath +:+ "/unblock".
Definition managementAccountConfigPath : string := managementBasePath +:+ "/account-config".
Definition maxManagementRequestBody : Z := 65536.

Record managementRoute := { mr_Method : string; mr_Path : string; mr_Description : string }.

Definition managementRegistration : list managementRoute :=
  [{| mr_Method := "GET"; mr_Path := managementStatusPath;
      mr_Description := "Reports redacted Z.ai coding-plan quota status." |};
   {| mr_Method := "POST"; mr_Path := managementRefreshPath;
      mr_Description := "Forces a bounded quota refresh." |};
   {| mr_Method := "POST"; mr_Path := managementUnblockPath;
      mr_Description := "Recomputes account availability without erasing usage." |};
   {| mr_Method := "POST"; mr_Path := managementAccountConfigPath;
      mr_Description := "Updates validated non-secret account and polling settings." |}].

Record managementAccountConfigRequest := {
  mc_Account : string;
  mc_Clear : bool;
  mc_Name : string;
  mc_Plan : string;
  mc_Disabled : option bool;
  mc_FiveHourCredits : option Z;
  mc_WeeklyCredits : option Z;
  mc_ThresholdPercent : option Z;
  mc_PollingInterval : string;
  mc_AuthoritativeMaxAge : string;
  mc_Timeout : string;
}.

(** ** Status (zai/plugin.go, zai/runtime.go) *)

Record managementCooldownStatus := {
  cd_Active : bool;
  cd_Until : option Time;
  cd_Reason : string;
  cd_Source : string;
}.

Record managementAccountStatus := {
  ms_Identity : string;
  ms_Cooldown : managementCooldownStatus;
  ms_Name : string;
  ms_KeySuffix : string;
  ms_Plan : string;
  ms_FiveHourUtilization : float64;
  ms_WeeklyUtilization : float64;
  ms_FiveHourResetsAt : option Time;
  ms_WeeklyResetsAt : option Time;
  ms_QuotaSource : string;
  ms_QuotaObservedAt : Time;
  ms_QuotaAgeSeconds : Z;
  ms_QuotaStale : bool;
  ms_QuotaError : string;
  ms_FiveHourError : string;
  ms_Offpeak : bool;
  ms_Health : string;
  ms_EstimatorCompleteSince : Time;
  ms_DeliveryWarning : bool;
  ms_PersistenceWarning : bool;
  ms_UnknownModelWarning : bool;
  ms_HeuristicDedupWarning : bool;
  ms_DedupMode : string;
}.

Record managementStatusBody := {
  mb_Plugin : string;
  mb_Status : string;
  mb_Version : string;
  mb_GeneratedAt : Time;
  mb_ValidationError : string;
  mb_Accounts : list managementAccountStatus;
}.

Definition utilization (window : quotaWindow) : float64 :=
  if qw_BucketMicrocredits window <=? 0 then float_of_Z 1
  else fdiv (float_of_Z (qw_ConsumedMicrocredits window)) (float_of_Z (qw_BucketMicrocredits window)).

Definition nullableTime (value : Time) : option Time :=
  if time_IsZero value then None else Some value.

Definition managementQuotaSource (source : string) : string :=
  if bool_decide (source = "authoritative") then "quota_api" else "estimate".

Definition maxInt64 (left right : Z) : Z := if right <? left then left else right.

Definition managementCooldown (health : accountHealthState) (now : Time)
    : managementCooldownStatus :=
  let mk active until_ reason :=
    {| cd_Active := active; cd_Until := until_; cd_Reason := reason;
       cd_Source := "zai_runtime_health_v1" |} in
  if negb (time_After (hs_ExhaustedUntil health) now) then mk false None "" else
  let reason := hs_ExhaustedReason health in
  mk true (nullableTime (hs_ExhaustedUntil health))
    (if bool_decide (reason = "retry-after header") then "retry_after"
     else if bool_decide (reason ∈ ["x-ratelimit-reset header"; "x-rate-limit-reset header";
                                    "ratelimit-reset header"]) then "reset_header"
     else if bool_decide (reason = "rate-limit response body") then "reset_body"
     else if bool_decide (reason = "authoritative quota reset") then "quota_reset_fallback"
     else if bool_decide (reason = "conservative rate-limit cooldown") then "configured_fallback"
     else "upstream_rate_limit").

(** One account of the status, with the snapshot its refreshed capacity is in. *)
Definition account_status (s : runtimeSnapshot) (now : Time) (item : account)
    : managementAccountStatus * runtimeSnapshot :=
  let v := view (default zero_state (rs_Quota s !! ac_Identity item)) now item (rs_Config s) in
  let '(h, s) := refreshCapacityLocked s (ac_Identity item) now in
  ({| ms_Identity := ac_Identity item;
      ms_Cooldown := managementCooldown h now;
      ms_Name := ac_Name item;
      ms_KeySuffix := "redacted";
      ms_Plan := ac_Plan item;
      ms_FiveHourUtilization := utilization (qv_FiveHour v);
      ms_WeeklyUtilization := utilization (qv_Weekly v);
      ms_FiveHourResetsAt := nullableTime (qw_ResetsAt (qv_FiveHour v));
      ms_WeeklyResetsAt := nullableTime (qw_ResetsAt (qv_Weekly v));
      ms_QuotaSource := managementQuotaSource (qv_Source v);
      ms_QuotaObservedAt := qv_ObservedAt v;
      ms_QuotaAgeSeconds :=
        if time_IsZero (qv_ObservedAt v) then 0
        else maxInt64 0 (time_Sub now (qv_ObservedAt v) [/] second);
      ms_QuotaStale := qv_Stale v;
      ms_QuotaError := qv_Warning v;
      ms_FiveHourError := qv_FiveHourError v;
      ms_Offpeak := isOffpeak now;
      ms_Health := ah_Status (assess h item now);
      ms_EstimatorCompleteSince := qv_CompleteSince v;
      ms_DeliveryWarning := qv_DeliveryWarning v;
      ms_PersistenceWarning := qv_PersistenceWarning v;
      ms_UnknownModelWarning := qv_UnknownModelWarning v;
      ms_HeuristicDedupWarning := qv_DedupCollisionWarn v;
      ms_DedupMode := "bounded_hash_heuristic" |}, s).

Fixpoint account_statuses (s : runtimeSnapshot) (now : Time) (items : list account)
    : list managementAccountStatus * runtimeSnapshot :=
  match items with
  | [] => ([], s)
  | item :: items' =>
      let '(status, s) := account_status s now item in
      let '(statuses, s) := account_statuses s now items' in
      (status :: statuses, s)
  end.

Definition validationStatus (r : pluginRuntime) : string :=
  match rt_lastErr r with None => "" | Some e => boundedStatus (error_text e) end.

Definition managementStatus (version : string) (r : pluginRuntime) (status : string) (now : Time)
    : managementStatusBody * pluginRuntime :=
  let body accounts :=
    {| mb_Plugin := pluginID; mb_Status := status; mb_Version := version; mb_GeneratedAt := now;
       mb_ValidationError := validationStatus r; mb_Accounts := accounts |} in
  match rt_snapshot r with
  | None => (body [], r)
  | Some s =>
      let '(statuses, s) := account_statuses s now (rs_Accounts s) in
      (body statuses, set_snapshot s r)
  end.

(** ** The shared refresh *)

(** A refresh in progress: pointer identity, the generation it was started for,
    and the accounts and timeout of that snapshot. *)
Record refreshGeneration := {
  rg_id : Z;
  rg_generation : Z;
  rg_accounts : list account;
  rg_timeout : Duration;
}.

(** [r.refresh] is passed along with the runtime. The boolean says leader; a
    leader's refresh is a new object, [fresh]. *)
Definition beginRefresh (r : pluginRuntime) (refresh : option refreshGeneration) (fresh : Z)
    : res (refreshGeneration * bool) * option refreshGeneration :=
  match rt_snapshot r with
  | None => (errorf "plugin is not configured", refresh)
  | Some s =>
  if rt_stopped r then (errorf "plugin is not configured", refresh) else
  let start :=
    {| rg_id := fresh; rg_generation := rs_Generation s; rg_accounts := rs_Accounts s;
       rg_timeout := quotaTimeout (pc_QuotaTimeout (rs_Config s)) |} in
  match refresh with
  | Some running =>
      if rg_generation running =? rs_Generation s then (Ok (running, false), refresh)
      else (Ok (start, true), Some start)
  | None => (Ok (start, true), Some start)
  end
  end.

Definition endRefresh (refresh : refreshGeneration) (current : option refreshGeneration)
    : option refreshGeneration :=
  match current with
  | Some running => if rg_id running =? rg_id refresh then None else current
  | None => None
  end.

(** The polls a refresh launches. *)
Definition refresh_polls (refresh : refreshGeneration) : list account :=
  filter (λ item, ac_Disabled item = false) (rg_accounts refresh).

(** The result of [runRefresh] for the polls' results as they arrive. *)
Definition refresh_result (results : list (res unit)) : res unit :=
  let failures := omap (λ r, match r with Err e => Some e | Ok _ => None end) results in
  match failures with
  | [] => Ok ()
  | firstError :: _ =>
      errorf ("quota refresh failed for " +:+ itoa (Z.of_nat (length failures))
              +:+ " account(s): " +:+ boundedStatus (error_text firstError))
  end.

(** ** Unblocking *)

Definition unblock_matches (selector : string) (item : account) : bool :=
  bool_decide (selector = "") || EqualFold selector (ac_Name item)
  || bool_decide (selector = ac_KeySuffix item).

(** The identities a selector names, every account's for an empty one. *)
Definition selected_identities (selector : string) (accounts : list account) : list string :=
  ac_Identity <$> filter (λ item, unblock_matches selector item = true) accounts.

Definition clear_exhaustion (h : accountHealthState) : accountHealthState :=
  {| hs_SuspendedUntil := hs_SuspendedUntil h; hs_ExhaustedUntil := 0; hs_ExhaustedReason := "";
     hs_CapacityExhausted := hs_CapacityExhausted h; hs_CapacityResetAt := hs_CapacityResetAt h;
     hs_CapacitySource := hs_CapacitySource h; hs_ThrottledUntil := hs_ThrottledUntil h;
     hs_ThrottleStreak := hs_ThrottleStreak h; hs_ThrottleReason := hs_ThrottleReason h |}.

Definition unblock_identity (now : Time) (s : runtimeSnapshot) (identity : string)
    : runtimeSnapshot :=
  let q := compact (default zero_state (rs_Quota s !! identity)) now
             (pc_StateRetention (rs_Config s)) in
  let h := clearThrottle (clear_exhaustion (default zero_health (rs_Health s !! identity))) in
  (refreshCapacityLocked (set_health identity h (set_quota identity q s)) identity now).2.

Definition unblock (r : pluginRuntime) (accountName : string) (now : Time)
    : res unit * pluginRuntime :=
  match rt_snapshot r with
  | None => (errorf "plugin is not configured", r)
  | Some s =>
  if rt_stopped r then (errorf "plugin is not configured", r) else
  let selector := TrimSpace accountName in
  let matches := selected_identities selector (rs_Accounts s) in
  if (length matches =? 0)%nat
  then (errorf "account does not match a configured account", r) else
  if negb (bool_decide (selector = "")) && negb (length matches =? 1)%nat
  then (errorf "account selector is ambiguous", r) else
  (Ok (), set_snapshot (foldl (unblock_identity now) s matches) r)
  end.

(** ** Updates of settings *)

Definition zero_setting : accountSetting :=
  {| as_Name := ""; as_Plan := ""; as_Disabled := None; as_FiveHourCredits := 0;
     as_WeeklyCredits := 0 |}.

Definition applySettingToAccount (item : account) (setting : accountSetting) : account :=
  let buckets := planBuckets !! as_Plan setting in
  let planned := negb (bool_decide (as_Plan setting = "")) in
  {| ac_Identity := ac_Identity item;
     ac_Name := if bool_decide (as_Name setting = "") then ac_Name item else as_Name setting;
     ac_KeySuffix := ac_KeySuffix item;
     ac_Plan := if planned then as_Plan setting else ac_Plan item;
     ac_Disabled := default (ac_Disabled item) (as_Disabled setting);
     ac_FiveHourCredits :=
       if 0 <? as_FiveHourCredits setting then as_FiveHourCredits setting
       else match buckets with
            | Some b => if planned then cb_FiveHour b else ac_FiveHourCredits item
            | None => ac_FiveHourCredits item
            end;
     ac_WeeklyCredits :=
       if 0 <? as_WeeklyCredits setting then as_WeeklyCredits setting
       else match buckets with
            | Some b => if planned then cb_Weekly b else ac_WeeklyCredits item
            | None => ac_WeeklyCredits item
            end;
     ac_ClaudeAuthID := ac_ClaudeAuthID item; ac_OpenAIAuthID := ac_OpenAIAuthID item;
     ac_claudeAuthIDs := ac_claudeAuthIDs item; ac_key := ac_key item;
     ac_planExplicit := ac_planExplicit item || planned;
     ac_fiveHourCreditsExplicit :=
       ac_fiveHourCreditsExplicit item || (0 <? as_FiveHourCredits setting);
     ac_weeklyCreditsExplicit :=
       ac_weeklyCreditsExplicit item || (0 <? as_WeeklyCredits setting) |}.

(** The index of the account a selector names. *)
Definition selects (accountName : string) (item : account) : bool :=
  EqualFold accountName (ac_Name item) || bool_decide (accountName = ac_KeySuffix item).

Fixpoint select_account (accounts : list account) (accountName : string) (i : nat)
    (index : option nat) : res (option nat) :=
  match accounts with
  | [] => Ok index
  | item :: accounts' =>
      if selects accountName item then
        match index with
        | Some _ => errorf "account selector is ambiguous"
        | None => select_account accounts' accountName (S i) (Some i)
        end
      else select_account accounts' accountName (S i) index
  end.

(** The stored setting of the account after the request. *)
Definition update_setting (setting : accountSetting) (input : managementAccountConfigRequest)
    : res accountSetting :=
  if mc_Clear input then Ok zero_setting else
  let name := if bool_decide (mc_Name input = "") then as_Name setting else TrimSpace (mc_Name input) in
  let five := as_FiveHourCredits setting in
  let weekly := as_WeeklyCredits setting in
  '(plan, five, weekly) ←
    (if bool_decide (mc_Plan input = "") then Ok (as_Plan setting, five, weekly) else
     let previousPlan := normalizePlan (as_Plan setting) in
     let plan := normalizePlan (mc_Plan input) in
     if bool_decide (plan = "") then errorf "plan must be lite, pro, max, or custom" else
     if negb (bool_decide (plan = "custom")) && negb (bool_decide (plan = previousPlan))
     then Ok (plan, if bool_decide (mc_FiveHourCredits input = None) then 0 else five,
              if bool_decide (mc_WeeklyCredits input = None) then 0 else weekly)
     else Ok (plan, five, weekly));
  let setting :=
    {| as_Name := name; as_Plan := plan;
       as_Disabled := match mc_Disabled input with Some d => Some d | None => as_Disabled setting end;
       as_FiveHourCredits := default five (mc_FiveHourCredits input);
       as_WeeklyCredits := default weekly (mc_WeeklyCredits input) |} in
  _ ← validateStoredSetting setting;
  Ok setting.

Definition set_config_fields (threshold : Z) (refresh maxAge timeout : Duration)
    (cfg : pluginConfig) : pluginConfig :=
  {| pc_CPAConfigPath := pc_CPAConfigPath cfg; pc_QuotaRefresh := refresh;
     pc_AuthoritativeMaxAge := maxAge; pc_QuotaTimeout := timeout;
     pc_ThresholdPercent := threshold; pc_SuspendDuration := pc_SuspendDuration cfg;
     pc_FallbackCooldown := pc_FallbackCooldown cfg; pc_StateRetention := pc_StateRetention cfg;
     pc_DefaultPlan := pc_DefaultPlan cfg; pc_Accounts := pc_Accounts cfg |}.

Section Update.
Context `{GoStd}.

Definition not_blank (raw : string) : bool := negb (bool_decide (TrimSpace raw = "")).

Definition update_refresh (cfg : pluginConfig) (raw : string) : res Duration :=
  if not_blank raw then
    match parsePositiveDuration "polling_interval" raw (pc_QuotaRefresh cfg) with
    | Ok d => if (d <? minute) || (3 * minute <? d)
              then errorf "polling_interval must be between one and three minutes" else Ok d
    | Err _ => errorf "polling_interval must be between one and three minutes"
    end
  else Ok (pc_QuotaRefresh cfg).

Definition update_age (cfg : pluginConfig) (raw : string) : res Duration :=
  if not_blank raw
  then parsePositiveDuration "authoritative_max_age" raw (pc_AuthoritativeMaxAge cfg)
  else Ok (pc_AuthoritativeMaxAge cfg).

Definition update_timeout (cfg : pluginConfig) (raw : string) : res Duration :=
  if not_blank raw then
    match parsePositiveDuration "timeout" raw defaultQuotaTimeout with
    | Ok d => if (d <? minQuotaTimeout) || (maxQuotaTimeout <? d)
              then errorf "timeout must be between one and thirty seconds" else Ok d
    | Err _ => errorf "timeout must be between one and thirty seconds"
    end
  else Ok (pc_QuotaTimeout cfg).

(** The stored text of a field: the canonical form of what was given. *)
Definition restate (raw : string) (d : Duration) (stored : string) : string :=
  if not_blank raw then duration_string d else stored.

(** The global fields of the request: the live configuration and the stored
    settings after it. *)
Definition update_config (cfg : pluginConfig) (settings : settingsFile)
    (input : managementAccountConfigRequest) : res (pluginConfig * settingsFile) :=
  let threshold := default (pc_ThresholdPercent cfg) (mc_ThresholdPercent input) in
  if bool_decide (is_Some (mc_ThresholdPercent input))
     && ((threshold <? 1) || (100 <? threshold))
  then errorf "threshold_percent must be between 1 and 100" else
  refresh ← update_refresh cfg (mc_PollingInterval input);
  maxAge ← update_age cfg (mc_AuthoritativeMaxAge input);
  if maxAge <=? maxPollInterval refresh
  then errorf "authoritative_max_age must exceed maximum polling jitter" else
  timeout ← update_timeout cfg (mc_Timeout input);
  Ok (set_config_fields threshold refresh maxAge timeout cfg,
      {| sf_Version := sf_Version settings; sf_Accounts := sf_Accounts settings;
         sf_ThresholdPercent :=
           match mc_ThresholdPercent input with Some t => Some t | None => sf_ThresholdPercent settings end;
         sf_PollingInterval :=
           restate (mc_PollingInterval input) refresh (sf_PollingInterval settings);
         sf_AuthoritativeMaxAge :=
           restate (mc_AuthoritativeMaxAge input) maxAge (sf_AuthoritativeMaxAge settings);
         sf_Timeout := restate (mc_Timeout input) timeout (sf_Timeout settings) |}).

Definition set_setting_accounts (accounts : gmap string accountSetting) (s : settingsFile)
    : settingsFile :=
  {| sf_Version := sf_Version s; sf_Accounts := accounts;
     sf_ThresholdPercent := sf_ThresholdPercent s; sf_PollingInterval := sf_PollingInterval s;
     sf_AuthoritativeMaxAge := sf_AuthoritativeMaxAge s; sf_Timeout := sf_Timeout s |}.

Definition set_version (version : Z) (s : settingsFile) : settingsFile :=
  {| sf_Version := version; sf_Accounts := sf_Accounts s;
     sf_ThresholdPercent := sf_ThresholdPercent s; sf_PollingInterval := sf_PollingInterval s;
     sf_AuthoritativeMaxAge := sf_AuthoritativeMaxAge s; sf_Timeout := sf_Timeout s |}.

Definition set_config (cfg : pluginConfig) (s : runtimeSnapshot) : runtimeSnapshot :=
  {| rs_Config := cfg; rs_BaseAccounts := rs_BaseAccounts s; rs_Accounts := rs_Accounts s;
     rs_Store := rs_Store s; rs_Quota := rs_Quota s; rs_Health := rs_Health s;
     rs_Routing := rs_Routing s; rs_byAuthID := rs_byAuthID s; rs_byIdentity := rs_byIdentity s;
     rs_Generation := rs_Generation s |}.

(** [updateAccountConfig] up to the commit: the snapshot to publish and the
    settings to save. [recovered] is the result of [recoverSettings]. *)
Definition plan_update (r : pluginRuntime) (input : managementAccountConfigRequest)
    (recovered : res settingsFile) : res (runtimeSnapshot * settingsFile) :=
  let accountName := TrimSpace (mc_Account input) in
  if bool_decide (accountName = "") then errorf "account is required" else
  match rt_snapshot r with
  | None => errorf "plugin is not configured"
  | Some updated =>
  if rt_stopped r || bool_decide (rs_Store updated = None)
  then errorf "plugin is not configured" else
  index ← select_account (rs_Accounts updated) accountName 0 None;
  match index ≫= (λ i, item ← rs_Accounts updated !! i; Some (i, item)) with
  | None => errorf "account does not match a configured account"
  | Some (index, item) =>
      settings ← recovered;
      let settings := if sf_Version settings =? 0 then set_version 1 settings else settings in
      setting ← update_setting (default zero_setting (sf_Accounts settings !! ac_Identity item)) input;
      '(cfg, settings) ← update_config (rs_Config updated) settings input;
      '(candidate, settings) ←
        (if mc_Clear input then
           match rs_BaseAccounts updated !! index with
           | Some base =>
               if bool_decide (ac_Identity base = ac_Identity item)
               then Ok (base, set_setting_accounts
                                (delete (ac_Identity item) (sf_Accounts settings)) settings)
               else errorf "base account configuration is unavailable"
           | None => errorf "base account configuration is unavailable"
           end
         else Ok (applySettingToAccount item setting,
                  set_setting_accounts
                    (<[ac_Identity item := setting]> (sf_Accounts settings)) settings));
      let accounts := <[index := candidate]> (rs_Accounts updated) in
      let updated :=
        set_config cfg (set_accounts accounts
          (<[ac_Identity candidate := candidate]> (rs_byIdentity updated)) updated) in
      _ ← validateAccounts accounts;
      Ok (updated, settings)
  end
  end.

(** [errors.As] for the pending error of saveSettings. *)
Fixpoint settingsRecoveryPending (e : error) : bool :=
  match e with
  | EPending _ => true
  | EWrap _ inner | EWrite _ inner => settingsRecoveryPending inner
  | _ => false
  end.

(** The commit action, for the result of [saveSettings]. *)
Definition save_before_commit (saved : res unit) : res unit :=
  match saved with
  | Ok _ => Ok ()
  | Err e => if settingsRecoveryPending e then Ok () else Err (EWrap "save account settings: " e)
  end.

Definition updateAccountConfig (r : pluginRuntime) (input : managementAccountConfigRequest)
    (recovered : res settingsFile) (save : settingsFile → res unit) : res unit * pluginRuntime :=
  match plan_update r input recovered with
  | Err e => (Err e, r)
  | Ok (updated, settings) =>
      commitSnapshotAfter r updated (save_before_commit (save settings)) None
  end.

End Update.

(** ** Dispatch *)

(** The value a response encodes. *)
Inductive management_body :=
| MStatus (body : managementStatusBody)
| MError (code message : string).

Record ManagementResponse := { mp_StatusCode : Z; mp_Body : management_body }.

Definition managementError (status : Z) (code message : string) : ManagementResponse :=
  {| mp_StatusCode := status; mp_Body := MError code (boundedStatus message) |}.

Definition statusResponse (version : string) (r : pluginRuntime) (statusCode : Z) (now : Time)
    : ManagementResponse * pluginRuntime :=
  let status := if bool_decide (validationStatus r = "") then "registered" else "reconfigure_rejected" in
  let '(body, r) := managementStatus version r status now in
  ({| mp_StatusCode := statusCode; mp_Body := MStatus body |}, r).

Section Dispatch.
Context `{GoStd}.

(** Strict JSON decoding, unknown fields and trailing data refused: the number
    of entries of an object, the selector, the update. *)
Context (decode_entries : string → option Z).
Context (decode_selector : string → option string).
Context (decode_update : string → option managementAccountConfigRequest).
(** What [forceRefresh] does, and the settings store. *)
Context (forceRefresh : pluginRuntime → res unit * pluginRuntime).
Context (recoverSettings : pluginRuntime → res settingsFile).
Context (saveSettings : settingsFile → res unit).

Definition decodeManagementJSON {A} (decode : string → option A) (body : string) : res A :=
  let body := if bool_decide (TrimSpace body = "") then "{}" else body in
  match decode body with Some v => Ok v | None => errorf "invalid JSON request body" end.

Definition requireEmptyJSONBody (body : string) : res unit :=
  if bool_decide (TrimSpace body = "") then Ok () else
  n ← decodeManagementJSON decode_entries body;
  if negb (n =? 0) then errorf "request body must be empty" else Ok ().

Definition handleManagement (version : string) (r : pluginRuntime) (req : ManagementRequest)
    (now : Time) : ManagementResponse * pluginRuntime :=
  let route method path :=
    bool_decide (mq_Method req = method) && bool_decide (mq_Path req = path) in
  let finish (status : Z) (code : string) (shown : string → string)
      (outcome : res unit * pluginRuntime) :=
    match outcome with
    | (Ok _, r) => statusResponse version r 200 now
    | (Err e, r) => (managementError status code (shown (error_text e)), r)
    end in
  if maxManagementRequestBody <? len (mq_Body req)
  then (managementError 413 "request_too_large" "management request body exceeds 64 KiB", r)
  else if route "GET" managementStatusPath then statusResponse version r 200 now
  else if route "POST" managementRefreshPath then
    match requireEmptyJSONBody (mq_Body req) with
    | Err e => (managementError 400 "invalid_request" (error_text e), r)
    | Ok _ => finish 502 "refresh_failed" boundedStatus (forceRefresh r)
    end
  else if route "POST" managementUnblockPath then
    match decodeManagementJSON decode_selector (mq_Body req) with
    | Err e => (managementError 400 "invalid_request" (error_text e), r)
    | Ok selector => finish 400 "unblock_rejected" id (unblock r selector now)
    end
  else if route "POST" managementAccountConfigPath then
    match decodeManagementJSON decode_update (mq_Body req) with
    | Err e => (managementError 400 "invalid_request" (error_text e), r)
    | Ok input =>
        finish 400 "invalid_account_config" id
          (updateAccountConfig r input (recoverSettings r) saveSettings)
    end
  else (managementError 404 "not_found" "unknown management route", r).

End Dispatch.

(** ** Lemmas on accounts without their keys *)

(** What redaction removes: the key and the suffix shown for it. *)
Definition strip_key (item : account) : account :=
  {| ac_Identity := ac_Identity item; ac_Name := ac_Name item; ac_KeySuffix := "";
     ac_Plan := ac_Plan item; ac_Disabled := ac_Disabled item;
     ac_FiveHourCredits := ac_FiveHourCredits item; ac_WeeklyCredits := ac_WeeklyCredits item;
     ac_ClaudeAuthID := ""; ac_OpenAIAuthID := ""; ac_claudeAuthIDs := []; ac_key := "";
     ac_planExplicit := ac_planExplicit item;
     ac_fiveHourCreditsExplicit := ac_fiveHourCreditsExplicit item;
     ac_weeklyCreditsExplicit := ac_weeklyCreditsExplicit item |}.

Definition strip_snapshot (s : runtimeSnapshot) : runtimeSnapshot :=
  {| rs_Config := rs_Config s; rs_BaseAccounts := []; rs_Accounts := strip_key <$> rs_Accounts s;
     rs_Store := None; rs_Quota := rs_Quota s; rs_Health := rs_Health s; rs_Routing := ∅;
     rs_byAuthID := ∅; rs_byIdentity := strip_key <$> rs_byIdentity s;
     rs_Generation := rs_Generation s |}.

Lemma refresh_strip s identity now :
  refreshCapacityLocked (strip_snapshot s) identity now
  = ((refreshCapacityLocked s identity now).1, strip_snapshot (refreshCapacityLocked s identity now).2).
Proof.
  unfold refreshCapacityLocked. cbn [rs_Quota rs_Health rs_byIdentity rs_Config strip_snapshot].
  rewrite lookup_fmap. destruct (rs_Quota s !! identity) as [q|]; [|done].
  destruct (rs_byIdentity s !! identity) as [item|]; done.
Qed.

Lemma account_status_strip s now item :
  account_status (strip_snapshot s) now (strip_key item)
  = ((account_status s now item).1, strip_snapshot (account_status s now item).2).
Proof.
  unfold account_status. cbn [rs_Quota rs_Config strip_snapshot ac_Identity strip_key].
  rewrite refresh_strip. by destruct (refreshCapacityLocked s (ac_Identity item) now) as [h s'].
Qed.

Lemma account_statuses_strip now items s :
  account_statuses (strip_snapshot s) now (strip_key <$> items)
  = ((account_statuses s now items).1, strip_snapshot (account_statuses s now items).2).
Proof.
  revert s. induction items as [|item items IH]; intros s; [done|].
  cbn [fmap list_fmap account_statuses]. rewrite account_status_strip.
  destruct (account_status s now item) as [st s1]. cbn [fst snd]. rewrite IH.
  by destruct (account_statuses s1 now items).
Qed.

(** ** Lemmas on unblocking *)

Lemma unblock_identity_frame now s identity :
  let s' := unblock_identity now s identity in
  set_quota_health (rs_Quota s) (rs_Health s) s' = s
  ∧ (∀ j, j ≠ identity → rs_Quota s' !! j = rs_Quota s !! j ∧ rs_Health s' !! j = rs_Health s !! j)
  ∧ rs_Quota s' !! identity = Some (compact (default zero_state (rs_Quota s !! identity)) now
                                    (pc_StateRetention (rs_Config s)))
  ∧ ∃ h, rs_Health s' !! identity = Some h
    ∧ hs_ExhaustedUntil h = 0 ∧ hs_ThrottledUntil h = 0 ∧ hs_ThrottleStreak h = 0
    ∧ hs_SuspendedUntil h
      = hs_SuspendedUntil (default zero_health (rs_Health s !! identity)).
Proof.
  unfold unblock_identity. cbv zeta. set (h0 := clearThrottle _). set (q := compact _ _ _).
  set (s1 := set_health identity h0 (set_quota identity q s)).
  destruct (refresh_step now s1 identity) as (Hr & _ & Hother).
  pose proof (rf_frame _ _ _ Hr) as Hf.
  assert (rs_Quota s1 = <[identity := q]> (rs_Quota s) ∧ rs_Health s1 = <[identity := h0]> (rs_Health s))
    as [Hq1 Hh1] by done.
  set (s' := (refreshCapacityLocked s1 identity now).2) in *.
  assert (rs_Quota s' = rs_Quota s1) as Hq'.
  { unfold s', refreshCapacityLocked. destruct (rs_Quota s1 !! identity); [|done].
    by destruct (rs_byIdentity s1 !! identity). }
  split; [|split; [|split]].
  - transitivity (set_quota_health (rs_Quota s) (rs_Health s)
      (set_quota_health (rs_Quota s1) (rs_Health s1) s')); [done|]. rewrite Hf. by destruct s.
  - intros j Hj. rewrite Hq', Hq1, Hother, Hh1 by done. by rewrite !lookup_insert_ne.
  - by rewrite Hq', Hq1, lookup_insert_eq.
  - unfold s', refreshCapacityLocked. rewrite Hq1, Hh1, !lookup_insert_eq.
    destruct (rs_byIdentity s1 !! identity) as [item|]; cbn [snd rs_Health set_health set_quota_health].
    + rewrite lookup_insert_eq. eexists. split; [reflexivity|].
      unfold quotaCapacityHealth. by destruct (_ || _).
    + rewrite Hh1, lookup_insert_eq. eexists. split; [reflexivity|]. done.
Qed.

Lemma unblock_fold now identities s :
  NoDup identities →
  let s' := foldl (unblock_identity now) s identities in
  set_quota_health (rs_Quota s) (rs_Health s) s' = s
  ∧ ∀ j, if decide (j ∈ identities) then
      rs_Quota s' !! j = Some (compact (default zero_state (rs_Quota s !! j)) now
                                 (pc_StateRetention (rs_Config s)))
      ∧ ∃ h, rs_Health s' !! j = Some h
        ∧ hs_ExhaustedUntil h = 0 ∧ hs_ThrottledUntil h = 0 ∧ hs_ThrottleStreak h = 0
        ∧ hs_SuspendedUntil h = hs_SuspendedUntil (default zero_health (rs_Health s !! j))
    else rs_Quota s' !! j = rs_Quota s !! j ∧ rs_Health s' !! j = rs_Health s !! j.
Proof.
  revert s. induction identities as [|i identities IH]; intros s Hnd; cbn [foldl].
  { split; [by destruct s|]. intros j. by rewrite decide_False by (by intros ?%elem_of_nil). }
  apply NoDup_cons in Hnd as [Hi Hnd].
  destruct (unblock_identity_frame now s i) as (Hf & Hother & Hq & Hh).
  set (s1 := unblock_identity now s i) in *. clearbody s1.
  destruct (IH s1 Hnd) as [Hf1 Hall]. set (s' := foldl _ s1 identities) in *. clearbody s'.
  assert (rs_Config s1 = rs_Config s) as Hc by by rewrite <- Hf.
  split.
  { transitivity (set_quota_health (rs_Quota s) (rs_Health s)
      (set_quota_health (rs_Quota s1) (rs_Health s1) s')); [done|]. by rewrite Hf1. }
  intros j. specialize (Hall j). destruct (decide (j = i)) as [->|Hj].
  - rewrite decide_True by left. rewrite decide_False in Hall by done. destruct Hall as [-> ->].
    split; [done|exact Hh].
  - destruct (Hother j Hj) as [Hqj Hhj]. rewrite Hqj, Hhj, Hc in Hall.
    destruct (decide (j ∈ identities)).
    + by rewrite decide_True by by right.
    + by rewrite decide_False by by intros [?|?]%elem_of_cons.
Qed.

(** ** Lemmas on stored settings *)

Definition stored_refresh `{GoStd} (cfg : pluginConfig) (settings : settingsFile) : res Duration :=
  if bool_decide (sf_PollingInterval settings = "") then Ok (pc_QuotaRefresh cfg) else
  match parsePositiveDuration "polling_interval" (sf_PollingInterval settings)
          (pc_QuotaRefresh cfg) with
  | Ok d => if (d <? minute) || (3 * minute <? d)
            then errorf "settings.json contains invalid polling_interval" else Ok d
  | Err _ => errorf "settings.json contains invalid polling_interval"
  end.

Definition stored_age `{GoStd} (cfg : pluginConfig) (settings : settingsFile) : res Duration :=
  if bool_decide (sf_AuthoritativeMaxAge settings = "") then Ok (pc_AuthoritativeMaxAge cfg)
  else as_error "settings.json contains invalid authoritative_max_age"
    (parsePositiveDuration "authoritative_max_age" (sf_AuthoritativeMaxAge settings)
       (pc_AuthoritativeMaxAge cfg)).

Definition stored_timeout `{GoStd} (cfg : pluginConfig) (settings : settingsFile) : res Duration :=
  if bool_decide (sf_Timeout settings = "") then Ok (pc_QuotaTimeout cfg) else
  match parsePositiveDuration "timeout" (sf_Timeout settings) (pc_QuotaTimeout cfg) with
  | Ok d => if (d <? minQuotaTimeout) || (maxQuotaTimeout <? d)
            then errorf "settings.json contains invalid timeout" else Ok d
  | Err _ => errorf "settings.json contains invalid timeout"
  end.

Definition stored_threshold_ok (settings : settingsFile) : Prop :=
  match sf_ThresholdPercent settings with Some t => 1 <= t <= 100 | None => True end.

Lemma stored_threshold_check settings base :
  bool_decide (is_Some (sf_ThresholdPercent settings))
  && ((default base (sf_ThresholdPercent settings) <? 1)
      || (100 <? default base (sf_ThresholdPercent settings))) = false
  ↔ stored_threshold_ok settings.
Proof.
  unfold stored_threshold_ok. destruct (sf_ThresholdPercent settings) as [t|]; simpl.
  - destruct (Z.ltb_spec t 1), (Z.ltb_spec 100 t); simpl; split; (done || lia).
  - done.
Qed.

Lemma applyStoredConfig_ok `{GoStd} cfg settings :
  is_Ok (applyStoredConfig cfg settings) = true ↔
  stored_threshold_ok settings
  ∧ ∃ refresh age timeout, stored_refresh cfg settings = Ok refresh
    ∧ stored_age cfg settings = Ok age ∧ maxPollInterval refresh < age
    ∧ stored_timeout cfg settings = Ok timeout.
Proof.
  unfold applyStoredConfig. cbv zeta. fold (stored_refresh cfg settings).
  fold (stored_age cfg settings). fold (stored_timeout cfg settings).
  rewrite <- (stored_threshold_check settings (pc_ThresholdPercent cfg)).
  destruct (_ && _); [by split; [|intros [? _]]|].
  destruct (stored_refresh cfg settings) as [refresh|]; simpl; [|naive_solver].
  destruct (stored_age cfg settings) as [age|]; simpl; [|naive_solver].
  destruct (Z.leb_spec age (maxPollInterval refresh)).
  { split; [done|]. intros (_ & ? & ? & ? & [= <-] & [= <-] & ? & _). lia. }
  destruct (stored_timeout cfg settings) as [timeout|]; simpl; naive_solver.
Qed.

(** A duration that was given is printed and parsed back. *)
Lemma given_duration `{GoStdLaws} name name' raw fallback fallback' d :
  TrimSpace raw ≠ "" → parsePositiveDuration name raw fallback = Ok d →
  duration_string d ≠ "" ∧ parsePositiveDuration name' (duration_string d) fallback' = Ok d.
Proof.
  unfold parsePositiveDuration. intros Hne. destruct (duration_string_text d) as [Htrim Hnonempty].
  rewrite bool_decide_eq_false_2 by done.
  destruct (parse_duration (TrimSpace raw)) as [v|] eqn:Hp; [|done].
  destruct (Z.leb_spec v 0); [done|]. intros [= ->]. split; [done|].
  rewrite Htrim, bool_decide_eq_false_2, parse_duration_string by
    (done || by eapply parse_duration_range).
  by destruct (Z.leb_spec d 0); [lia|].
Qed.

Lemma not_blank_true raw : not_blank raw = true → TrimSpace raw ≠ "".
Proof. unfold not_blank. by case_bool_decide. Qed.

(** Each updated field still reads well. *)
Lemma update_refresh_stored `{GoStdLaws} cfg input settings settings' d :
  update_refresh cfg (mc_PollingInterval input) = Ok d →
  sf_PollingInterval settings'
    = restate (mc_PollingInterval input) d (sf_PollingInterval settings) →
  is_Ok (stored_refresh settings_base_config settings) = true →
  is_Ok (stored_refresh settings_base_config settings') = true.
Proof.
  unfold update_refresh, stored_refresh, restate. intros Hup ->.
  destruct (not_blank _) eqn:Hb; [|done]. apply not_blank_true in Hb. intros _.
  destruct (parsePositiveDuration _ _ _) as [v|] eqn:Hp; [|done].
  destruct ((v <? minute) || (3 * minute <? v)) eqn:Hrange; [done|]. injection Hup as ->.
  destruct (given_duration _ "polling_interval" _ _ (pc_QuotaRefresh settings_base_config) _ Hb Hp)
    as [Hne ->].
  by rewrite bool_decide_eq_false_2, Hrange by done.
Qed.

Lemma update_age_stored `{GoStdLaws} cfg input settings settings' d :
  update_age cfg (mc_AuthoritativeMaxAge input) = Ok d →
  sf_AuthoritativeMaxAge settings'
    = restate (mc_AuthoritativeMaxAge input) d (sf_AuthoritativeMaxAge settings) →
  is_Ok (stored_age settings_base_config settings) = true →
  is_Ok (stored_age settings_base_config settings') = true.
Proof.
  unfold update_age, stored_age, restate. intros Hup ->.
  destruct (not_blank _) eqn:Hb; [|done]. apply not_blank_true in Hb. intros _.
  destruct (given_duration _ "authoritative_max_age" _ _
    (pc_AuthoritativeMaxAge settings_base_config) _ Hb Hup) as [Hne ->].
  by rewrite bool_decide_eq_false_2 by done.
Qed.

Lemma update_timeout_stored `{GoStdLaws} cfg input settings settings' d :
  update_timeout cfg (mc_Timeout input) = Ok d →
  sf_Timeout settings' = restate (mc_Timeout input) d (sf_Timeout settings) →
  is_Ok (stored_timeout settings_base_config settings) = true →
  is_Ok (stored_timeout settings_base_config settings') = true.
Proof.
  unfold update_timeout, stored_timeout, restate. intros Hup ->.
  destruct (not_blank _) eqn:Hb; [|done]. apply not_blank_true in Hb. intros _.
  destruct (parsePositiveDuration _ _ _) as [v|] eqn:Hp; [|done].
  destruct ((v <? minQuotaTimeout) || (maxQuotaTimeout <? v)) eqn:Hrange; [done|].
  injection Hup as ->.
  destruct (given_duration _ "timeout" _ _ (pc_QuotaTimeout settings_base_config) _ Hb Hp)
    as [Hne ->].
  by rewrite bool_decide_eq_false_2, Hrange by done.
Qed.

(** The updated settings, field by field. *)
Lemma update_config_stored `{GoStdLaws} cfg settings input cfg' settings' :
  update_config cfg settings input = Ok (cfg', settings') →
  stored_threshold_ok settings →
  is_Ok (stored_refresh settings_base_config settings) = true →
  is_Ok (stored_age settings_base_config settings) = true →
  is_Ok (stored_timeout settings_base_config settings) = true →
  sf_Version settings' = sf_Version settings
  ∧ stored_threshold_ok settings'
  ∧ is_Ok (stored_refresh settings_base_config settings') = true
  ∧ is_Ok (stored_age settings_base_config settings') = true
  ∧ is_Ok (stored_timeout settings_base_config settings') = true.
Proof.
  unfold update_config. cbv zeta. intros Hup Ht Hr Ha Hto.
  destruct (bool_decide _ && _) eqn:Eth; [done|].
  destruct (update_refresh _ _) as [refresh|] eqn:Er; [|done]. cbn [mbind res_bind] in Hup.
  destruct (update_age _ _) as [age|] eqn:Ea; [|done]. cbn [mbind res_bind] in Hup.
  destruct (age <=? maxPollInterval refresh); [done|].
  destruct (update_timeout _ _) as [timeout|] eqn:Eto; [|done]. cbn [mbind res_bind] in Hup.
  injection Hup as <- <-. split_and!; [done| | | |].
  - unfold stored_threshold_ok in *. cbn [sf_ThresholdPercent].
    destruct (mc_ThresholdPercent input) as [t|]; [|done].
    simpl in Eth. destruct (Z.ltb_spec t 1), (Z.ltb_spec 100 t); simpl in Eth; (done || lia).
  - by eapply update_refresh_stored.
  - by eapply update_age_stored.
  - by eapply update_timeout_stored.
Qed.

(** The settings a planned update saves. *)
Lemma plan_update_stored `{GoStd} r input settings updated saved :
  plan_update r input (Ok settings) = Ok (updated, saved) →
  ∃ cfg cfg' settings0 accounts,
    settings0 = (if sf_Version settings =? 0 then set_version 1 settings else settings)
    ∧ ∃ settings', update_config cfg settings0 input = Ok (cfg', settings')
    ∧ saved = set_setting_accounts accounts settings'.
Proof.
  unfold plan_update. cbv zeta. destruct (bool_decide _); [done|].
  destruct (rt_snapshot r) as [s|]; [|done]. destruct (_ || _); [done|].
  destruct (select_account _ _ _ _) as [index|]; [|done]. cbn [mbind res_bind].
  destruct (index ≫= _) as [[i item]|]; [|done].
  set (settings0 := if sf_Version settings =? 0 then _ else _).
  destruct (update_setting _ _) as [setting|]; [|done].
  destruct (update_config _ _ _) as [[cfg' settings']|] eqn:Hc; [|done]. cbn [mbind res_bind].
  intros Hup. exists (rs_Config s), cfg', settings0.
  destruct (mc_Clear input).
  - destruct (rs_BaseAccounts s !! i); [|done]. destruct (bool_decide _); [|done].
    cbn [mbind res_bind] in Hup. destruct (validateAccounts _); [|done].
    injection Hup as _ <-. eexists. split; [done|]. by exists settings'.
  - cbn [mbind res_bind] in Hup. destruct (validateAccounts _); [|done].
    injection Hup as _ <-. eexists. split; [done|]. by exists settings'.
Qed.

Lemma set_version_stored `{GoStd} v accounts s cfg :
  let s' := set_version v s in let s'' := set_setting_accounts accounts s in
  stored_refresh cfg s' = stored_refresh cfg s ∧ stored_age cfg s' = stored_age cfg s
  ∧ stored_timeout cfg s' = stored_timeout cfg s
  ∧ stored_refresh cfg s'' = stored_refresh cfg s ∧ stored_age cfg s'' = stored_age cfg s
  ∧ stored_timeout cfg s'' = stored_timeout cfg s.
Proof. done. Qed.

(** A valid file: an empty one, or version 1 with fields that read well. *)
Lemma validateSettingsFile_fields `{GoStd} settings :
  validateSettingsFile settings = Ok () →
  (sf_Version settings = 0 ∨ sf_Version settings = 1)
  ∧ stored_threshold_ok settings
  ∧ is_Ok (stored_refresh settings_base_config settings) = true
  ∧ is_Ok (stored_age settings_base_config settings) = true
  ∧ is_Ok (stored_timeout settings_base_config settings) = true.
Proof.
  unfold validateSettingsFile. destruct ((sf_Version settings =? 0) && settingsEmpty settings) eqn:E.
  - intros _. unfold settingsEmpty in E. crush_bool. split; [by left|].
    unfold stored_threshold_ok, stored_refresh, stored_age, stored_timeout.
    by rewrite H2, H3, H4, H5.
  - destruct (Z.eqb_spec (sf_Version settings) 1); [|done]. simpl. intros Hv. split; [by right|].
    assert (is_Ok (applyStoredConfig settings_base_config settings) = true) as Hok
      by (destruct (applyStoredConfig _ _); done).
    apply applyStoredConfig_ok in Hok as (? & refresh & age & timeout & -> & -> & _ & ->). done.
Qed.

(** ** Properties *)

(** C32: what an update saves can be loaded again exactly when the stored maximum
    age exceeds the jitter of the stored polling interval, the defaults standing
    in for fields that are not stored: everything else the load checks holds. The
    update itself compares the values of the live configuration, so with a
    configured interval or age other than the defaults it can save settings that
    every later load refuses. *)
Theorem update_saves_loadable `{GoStdLaws} r input settings updated saved :
  plan_update r input (Ok settings) = Ok (updated, saved) →
  validateSettingsFile settings = Ok () →
  ∃ refresh age, stored_refresh settings_base_config saved = Ok refresh
  ∧ stored_age settings_base_config saved = Ok age
  ∧ (validateSettingsFile saved = Ok () ↔ maxPollInterval refresh < age).
Proof.
  intros Hplan Hvalid.
  destruct (plan_update_stored r input settings updated saved Hplan)
    as (cfg & cfg' & settings0 & accounts & Hs0 & settings' & Hup & ->).
  destruct (validateSettingsFile_fields settings Hvalid) as (Hv & Ht & Hr & Ha & Hto).
  assert (sf_Version settings0 = 1 ∧ stored_threshold_ok settings0
    ∧ is_Ok (stored_refresh settings_base_config settings0) = true
    ∧ is_Ok (stored_age settings_base_config settings0) = true
    ∧ is_Ok (stored_timeout settings_base_config settings0) = true)
    as (Hv0 & Ht0 & Hr0 & Ha0 & Hto0).
  { subst settings0. destruct (Z.eqb_spec (sf_Version settings) 0); [done|].
    destruct Hv; [done|by split_and!]. }
  destruct (update_config_stored cfg settings0 input cfg' settings' Hup Ht0 Hr0 Ha0 Hto0)
    as (Hv' & Ht' & Hr' & Ha' & Hto').
  destruct (set_version_stored 1 accounts settings' settings_base_config)
    as (_ & _ & _ & Hre & Hae & Hte).
  pose proof (applyStoredConfig_ok settings_base_config (set_setting_accounts accounts settings'))
    as Happ. rewrite Hre, Hae, Hte in *.
  destruct (stored_refresh _ settings') as [refresh|]; [|done].
  destruct (stored_age _ settings') as [age|]; [|done].
  destruct (stored_timeout _ settings') as [timeout|]; [|done].
  exists refresh, age. split; [done|]. split; [done|].
  unfold validateSettingsFile. cbn [sf_Version set_setting_accounts]. rewrite Hv', Hv0.
  cbn [Z.eqb Pos.eqb andb negb].
  assert (∀ a : res pluginConfig, (_ ← a; Ok ()) = Ok () ↔ is_Ok a = true) as Hbind
    by (intros []; done).
  rewrite Hbind, Happ. split; [by intros (_ & ? & ? & ? & [= <-] & [= <-] & ? & _)|].
  intros Hlt. split; [done|]. by exists refresh, age, timeout.
Qed.

(** One account, polled every minute by configuration; the request asks for a
    maximum age of two minutes. *)
Definition demo_fast : pluginRuntime :=
  (reconfigureWithAccounts (H := DemoStd.demo_std) new_runtime
     (set_config_fields 97 minute defaultAuthoritativeMaxAge defaultQuotaTimeout demo_plan_config)
     demo_pair [] (Ok demo_store) (Ok zero_settings) (Ok zero_persisted) demo_now None).2.
Definition demo_input (maxAge : string) : managementAccountConfigRequest :=
  {| mc_Account := match rs_Accounts demo_live with a :: _ => ac_Name a | [] => "" end;
     mc_Clear := false; mc_Name := ""; mc_Plan := ""; mc_Disabled := None;
     mc_FiveHourCredits := None; mc_WeeklyCredits := None; mc_ThresholdPercent := None;
     mc_PollingInterval := ""; mc_AuthoritativeMaxAge := maxAge; mc_Timeout := "" |}.

Lemma update_saves_loadable_witness :
  ∃ updated saved,
    plan_update (H := DemoStd.demo_std) demo_fast (demo_input "120000000000") (Ok zero_settings)
      = Ok (updated, saved)
  ∧ validateSettingsFile (H := DemoStd.demo_std) saved ≠ Ok ().
Proof.
  set (p := plan_update (H := DemoStd.demo_std) demo_fast (demo_input "120000000000")
    (Ok zero_settings)).
  assert (match p with Ok q => (sf_AuthoritativeMaxAge q.2, sf_PollingInterval q.2)
          | Err _ => ("", "error") end = ("120000000000", "")) as Hp by (vm_compute; reflexivity).
  destruct p as [[updated saved]|e] eqn:E; [|discriminate Hp].
  exists updated, saved. split; [reflexivity|].
  destruct (update_saves_loadable (H0 := DemoStd.demo_laws) demo_fast (demo_input "120000000000")
    zero_settings updated saved E ltac:(vm_compute; reflexivity))
    as (refresh & age & Hr & Ha & Hiff).
  cbn [snd] in Hp. injection Hp as Hage Hpoll.
  unfold stored_refresh in Hr. rewrite Hpoll in Hr. cbn in Hr. injection Hr as <-.
  unfold stored_age in Ha. rewrite Hage in Ha. vm_compute in Ha. injection Ha as <-.
  intros Hv. apply Hiff in Hv. vm_compute in Hv. discriminate Hv.
Defined.

(** Unblocking an account gives it back its availability and nothing else:
    the exhaustion and the backoff of every selected account are cleared, its
    suspension stays, and its recorded usage only loses what is past retention;
    every other account and the rest of the snapshot stay, and a refused request
    changes nothing. *)
Theorem unblock_effect r accountName now :
  match unblock r accountName now with
  | (Err _, r') => r' = r
  | (Ok _, r') => ∃ s s', rt_snapshot r = Some s ∧ rt_snapshot r' = Some s'
      ∧ (NoDup (ac_Identity <$> rs_Accounts s) →
         set_quota_health (rs_Quota s) (rs_Health s) s' = s
         ∧ ∀ j, if decide (j ∈ selected_identities (TrimSpace accountName) (rs_Accounts s))
           then rs_Quota s' !! j = Some (compact (default zero_state (rs_Quota s !! j)) now
                                          (pc_StateRetention (rs_Config s)))
             ∧ ∃ h, rs_Health s' !! j = Some h
               ∧ hs_ExhaustedUntil h = 0 ∧ hs_ThrottledUntil h = 0 ∧ hs_ThrottleStreak h = 0
               ∧ hs_SuspendedUntil h = hs_SuspendedUntil (default zero_health (rs_Health s !! j))
           else rs_Quota s' !! j = rs_Quota s !! j ∧ rs_Health s' !! j = rs_Health s !! j)
  end.
Proof.
  unfold unblock. destruct (rt_snapshot r) as [s|] eqn:Hs; [|done].
  destruct (rt_stopped r); [done|]. cbv zeta.
  destruct (length _ =? 0)%nat; [done|]. destruct (_ && _); [done|].
  eexists s, _. split; [done|]. split; [reflexivity|]. intros Hnd.
  apply unblock_fold. by apply NoDup_fmap_filter.
Qed.

(** The demo account, exhausted and throttled. *)
Definition demo_exhausted : pluginRuntime :=
  set_snapshot (set_health demo_identity
    (set_throttle (demo_now + minute) 2 "request-rate backoff"
       (exhaustUntil zero_health (demo_now + hour) "retry-after header")) demo_live) demo_runtime.

Lemma unblock_effect_witness :
  ∃ s' h, rt_snapshot (unblock demo_exhausted "" demo_now).2 = Some s'
  ∧ rs_Health s' !! demo_identity = Some h ∧ hs_ExhaustedUntil h = 0 ∧ hs_ThrottledUntil h = 0.
Proof.
  pose proof (unblock_effect demo_exhausted "" demo_now) as H.
  assert ((unblock demo_exhausted "" demo_now).1 = Ok ()) as Hok by (vm_compute; reflexivity).
  destruct (unblock demo_exhausted "" demo_now) as [u r']. cbn [fst] in Hok. subst u.
  destruct H as (s & s' & Hs & Hs' & H).
  assert (s = default demo_live (rt_snapshot demo_exhausted)) as -> by by rewrite Hs.
  destruct H as [_ H]; [by_decision|]. specialize (H demo_identity).
  rewrite decide_True in H by by_decision.
  destruct H as (_ & h & Hh & He & Ht & _). exists s', h. auto.
Defined.

(** The status tells nothing of the credentials: it is the same for two
    runtimes that differ only in keys, key suffixes, auth IDs, the base accounts,
    the store and the rotation. *)
Theorem status_redacted version r1 r2 status now :
  rt_lastErr r1 = rt_lastErr r2 →
  strip_snapshot <$> rt_snapshot r1 = strip_snapshot <$> rt_snapshot r2 →
  (managementStatus version r1 status now).1 = (managementStatus version r2 status now).1.
Proof.
  intros He Hs. unfold managementStatus, validationStatus. rewrite He.
  destruct (rt_snapshot r1) as [s1|], (rt_snapshot r2) as [s2|]; try done.
  apply Some_inj in Hs.
  pose proof (account_statuses_strip now (rs_Accounts s1) s1) as H1.
  pose proof (account_statuses_strip now (rs_Accounts s2) s2) as H2.
  assert (strip_key <$> rs_Accounts s1 = strip_key <$> rs_Accounts s2) as Ha
    by exact (f_equal rs_Accounts Hs).
  rewrite Hs, Ha, H2 in H1. apply (f_equal fst) in H1. cbn [fst] in H1.
  destruct (account_statuses s1 now (rs_Accounts s1)) as [l1 s1'].
  destruct (account_statuses s2 now (rs_Accounts s2)) as [l2 s2'].
  cbn [fst] in *. by subst.
Qed.

Definition demo_other_key : pluginRuntime :=
  set_snapshot (set_accounts (strip_key <$> rs_Accounts demo_live)
    (strip_key <$> rs_byIdentity demo_live) demo_live) demo_runtime.

Lemma status_redacted_witness :
  (managementStatus "1" demo_runtime "registered" demo_now).1
  = (managementStatus "1" demo_other_key "registered" demo_now).1.
Proof. apply status_redacted; vm_compute; reflexivity. Defined.

(** ** The refresh as a state machine *)

Definition live_generation (r : pluginRuntime) : Z :=
  match rt_snapshot r with Some s => rs_Generation s | None => 0 end.

(** The runtime, [r.refresh], the refreshes whose leaders run, and the next
    pointer identity. *)
Record refreshing := {
  rx_runtime : pluginRuntime;
  rx_current : option refreshGeneration;
  rx_leaders : list refreshGeneration;
  rx_fresh : Z;
}.

Inductive refresh_step : refreshing → refreshing → Prop :=
| step_lead x rg current : beginRefresh (rx_runtime x) (rx_current x) (rx_fresh x)
    = (Ok (rg, true), current) →
    refresh_step x {| rx_runtime := rx_runtime x; rx_current := current;
                      rx_leaders := rg :: rx_leaders x; rx_fresh := rx_fresh x + 1 |}
| step_join x rg current : beginRefresh (rx_runtime x) (rx_current x) (rx_fresh x)
    = (Ok (rg, false), current) →
    refresh_step x {| rx_runtime := rx_runtime x; rx_current := current;
                      rx_leaders := rx_leaders x; rx_fresh := rx_fresh x |}
| step_end x before rg after : rx_leaders x = before ++ rg :: after →
    refresh_step x {| rx_runtime := rx_runtime x; rx_current := endRefresh rg (rx_current x);
                      rx_leaders := before ++ after; rx_fresh := rx_fresh x |}
| step_runtime x r : live_generation (rx_runtime x) <= live_generation r →
    refresh_step x {| rx_runtime := r; rx_current := rx_current x; rx_leaders := rx_leaders x;
                      rx_fresh := rx_fresh x |}.

Record refreshing_ok (x : refreshing) : Prop := {
  ro_ids : NoDup (rg_id <$> rx_leaders x);
  ro_fresh : Forall (λ l, rg_id l < rx_fresh x) (rx_leaders x);
  ro_generations : NoDup (rg_generation <$> rx_leaders x);
  ro_past : Forall (λ l, rg_generation l <= live_generation (rx_runtime x)) (rx_leaders x);
  ro_current : ∀ l, l ∈ rx_leaders x → rg_generation l = live_generation (rx_runtime x) →
    rx_current x = Some l;
  ro_running : ∀ l, rx_current x = Some l → l ∈ rx_leaders x;
}.

(** What beginning a refresh decides. *)
Lemma beginRefresh_ok r current fresh rg leader current' :
  beginRefresh r current fresh = (Ok (rg, leader), current') →
  rg_generation rg = live_generation r
  ∧ if leader : bool
    then rg_id rg = fresh ∧ current' = Some rg
         ∧ ∀ l, current = Some l → rg_generation l ≠ live_generation r
    else current = Some rg ∧ current' = current.
Proof.
  unfold beginRefresh, live_generation. destruct (rt_snapshot r) as [s|]; [|done].
  destruct (rt_stopped r); [done|]. destruct current as [running|].
  - destruct (Z.eqb_spec (rg_generation running) (rs_Generation s)); intros Hb;
      injection Hb as <- <- <-; [done|]. cbn. split; [done|]. split; [done|]. split; [done|].
    by intros l [= <-].
  - intros Hb. by injection Hb as <- <- <-.
Qed.

Lemma refresh_step_ok x y : refreshing_ok x → refresh_step x y → refreshing_ok y.
Proof.
  intros [Hids Hfr Hgen Hpast Hcur Hrun] Hstep.
  destruct Hstep as [x rg current Hb|x rg current Hb|x before rg after Hl|x r Hr].
  - apply beginRefresh_ok in Hb as (Hg & Hid & -> & Hno).
    split; cbn [rx_leaders rx_fresh rx_runtime rx_current].
    + apply NoDup_cons. split; [|done]. intros (l & Hl & Hin)%list_elem_of_fmap.
      rewrite Forall_forall in Hfr. specialize (Hfr l Hin). simpl in Hfr. lia.
    + constructor; [lia|]. eapply Forall_impl; [exact Hfr|]. simpl. lia.
    + apply NoDup_cons. split; [|done]. intros (l & Hl & Hin)%list_elem_of_fmap.
      apply (Hno l); [apply Hcur; [done|congruence]|congruence].
    + constructor; [lia|done].
    + intros l [->|Hin]%elem_of_cons Hgl; [done|]. exfalso. by apply (Hno l); [apply Hcur|].
    + intros l [= <-]. left.
  - apply beginRefresh_ok in Hb as (Hg & Hc & ->). by split.
  - rewrite Hl in *.
    assert (before ++ after `sublist_of` before ++ rg :: after) as Hsub
      by (apply sublist_app; [done|by apply sublist_cons]).
    pose proof (sublist_subseteq _ _ Hsub) as Hincl.
    split; cbn [rx_leaders rx_fresh rx_runtime rx_current].
    + eapply sublist_NoDup; [exact Hids|by f_equiv].
    + rewrite Forall_forall in Hfr |- *. auto.
    + eapply sublist_NoDup; [exact Hgen|by f_equiv].
    + rewrite Forall_forall in Hpast |- *. auto.
    + intros l Hin Hgl. rewrite (Hcur l) by auto. cbn [endRefresh].
      destruct (Z.eqb_spec (rg_id l) (rg_id rg)) as [Heq|]; [|done]. exfalso.
      rewrite fmap_app, fmap_cons in Hids. apply NoDup_app in Hids as (_ & Hno & Hnd).
      apply NoDup_cons in Hnd as [Hnd _]. rewrite <- Heq in *.
      apply elem_of_app in Hin as [Hin|Hin].
      * apply (Hno (rg_id l)); [by apply list_elem_of_fmap_2|left].
      * by apply Hnd, list_elem_of_fmap_2.
    + intros l Hl'. unfold endRefresh in Hl'. destruct (rx_current x) as [running|] eqn:Hrx; [|done].
      destruct (Z.eqb_spec (rg_id running) (rg_id rg)) as [|Hne]; [done|]. injection Hl' as ->.
      specialize (Hrun l eq_refl). apply elem_of_app in Hrun as [|[->|]%elem_of_cons];
        [apply elem_of_app; by left|done|apply elem_of_app; by right].
  - split; cbn [rx_leaders rx_fresh rx_runtime rx_current]; [done|done|done| | |done].
    + eapply Forall_impl; [exact Hpast|]. simpl. lia.
    + intros l Hin Hgl. apply Hcur; [done|]. rewrite Forall_forall in Hpast.
      specialize (Hpast l Hin). simpl in Hpast. lia.
Qed.

(** C29: refreshes are shared: whatever requests, publications and ends of
    refreshes are interleaved, at most one refresh runs for a generation; a
    request that joins one waits for a running refresh of the live generation,
    and one that leads starts it only when none is running for that generation,
    so that a refresh of a replaced snapshot neither serves nor stops a newer
    one. *)
Theorem refresh_single_flight x0 x :
  rx_current x0 = None → rx_leaders x0 = [] → rtc refresh_step x0 x →
  NoDup (rg_generation <$> rx_leaders x)
  ∧ ∀ rg leader current,
      beginRefresh (rx_runtime x) (rx_current x) (rx_fresh x) = (Ok (rg, leader), current) →
      rg_generation rg = live_generation (rx_runtime x)
      ∧ if leader : bool
        then live_generation (rx_runtime x) ∉ rg_generation <$> rx_leaders x
        else rg ∈ rx_leaders x.
Proof.
  intros Hc Hl Hsteps. assert (refreshing_ok x0) as Hok.
  { split; rewrite ?Hl, ?Hc; [constructor|constructor|constructor|constructor| |done].
    by intros l ?%elem_of_nil. }
  assert (refreshing_ok x) as Hx.
  { clear Hc Hl. induction Hsteps; [done|]. by eauto using refresh_step_ok. }
  split; [apply Hx|]. intros rg leader current Hb.
  apply beginRefresh_ok in Hb as (Hg & Hb). split; [done|]. destruct leader.
  - destruct Hb as (_ & _ & Hno). intros (l & Hgl & Hin)%list_elem_of_fmap.
    apply (Hno l); [by apply (ro_current _ Hx)|done].
  - destruct Hb as [Hcur _]. by apply (ro_running _ Hx).
Qed.

(** A refresh runs, the snapshot is replaced, and the next request leads. *)
Lemma refresh_single_flight_witness :
  ∃ x rg current, rx_leaders x ≠ []
  ∧ beginRefresh (rx_runtime x) (rx_current x) (rx_fresh x) = (Ok (rg, true), current)
  ∧ live_generation (rx_runtime x) ∉ rg_generation <$> rx_leaders x.
Proof.
  set (x0 := {| rx_runtime := demo_runtime; rx_current := None; rx_leaders := []; rx_fresh := 0 |}).
  set (b := beginRefresh demo_runtime None 0).
  set (rg0 := match b.1 with Ok (rg, _) => rg | Err _ =>
    {| rg_id := 0; rg_generation := 0; rg_accounts := []; rg_timeout := 0 |} end).
  set (x1 := {| rx_runtime := demo_runtime; rx_current := b.2; rx_leaders := [rg0]; rx_fresh := 1 |}).
  set (r2 := set_snapshot (set_published (Some demo_store) 2 demo_live) demo_runtime).
  set (x2 := {| rx_runtime := r2; rx_current := b.2; rx_leaders := [rg0]; rx_fresh := 1 |}).
  assert (rtc refresh_step x0 x2) as Hsteps.
  { apply rtc_l with x1; [|apply rtc_once].
    - apply (step_lead x0 rg0 b.2). vm_compute. reflexivity.
    - apply (step_runtime x1 r2). vm_compute. discriminate. }
  destruct (refresh_single_flight x0 x2 eq_refl eq_refl Hsteps) as [_ H].
  set (b2 := beginRefresh r2 b.2 1).
  set (rg2 := match b2.1 with Ok (rg, _) => rg | Err _ => rg0 end).
  assert (beginRefresh (rx_runtime x2) (rx_current x2) (rx_fresh x2) = (Ok (rg2, true), b2.2)) as Hb
    by (vm_compute; reflexivity).
  exists x2, rg2, b2.2. split; [discriminate|]. split; [exact Hb|]. exact (proj2 (H _ _ _ Hb)).
Defined.

(** ** Refused requests *)

Lemma plan_update_live `{GoStd} r input recovered updated saved :
  plan_update r input recovered = Ok (updated, saved) →
  ∃ s store, rt_snapshot r = Some s ∧ rs_Store s = Some store ∧ rs_Store updated = Some store
  ∧ rt_stopped r = false.
Proof.
  unfold plan_update. cbv zeta. destruct (bool_decide _); [done|].
  destruct (rt_snapshot r) as [s|]; [|done]. destruct (rt_stopped r); [done|]. cbn [orb].
  destruct (rs_Store s) as [store|] eqn:Hst; [|done]. cbn [bool_decide].
  destruct (select_account _ _ _ _) as [index|]; [|done]. cbn [mbind res_bind].
  destruct (index ≫= _) as [[i item]|]; [|done].
  destruct recovered as [settings|]; [|done]. cbn [mbind res_bind].
  destruct (update_setting _ _) as [setting|]; [|done]. cbn [mbind res_bind].
  destruct (update_config _ _ _) as [[cfg' settings']|]; [|done]. cbn [mbind res_bind].
  intros Hup. exists s, store. split_and!; try done. revert Hup.
  destruct (if mc_Clear input then _ else _) as [[candidate settings'']|]; [|done].
  cbn [mbind res_bind]. destruct (validateAccounts _); [|done].
  intros Hup. injection Hup as <- _. by cbn [rs_Store set_config set_accounts].
Qed.

Lemma updateAccountConfig_refused `{GoStd} r input recovered save :
  is_Ok (updateAccountConfig r input recovered save).1 = false →
  (updateAccountConfig r input recovered save).2 = r.
Proof.
  unfold updateAccountConfig. destruct (plan_update r input recovered) as [[updated saved]|e] eqn:Hp;
    [|done].
  apply plan_update_live in Hp as (s & store & Hs & Hst & Hst' & Hstop).
  unfold commitSnapshotAfter. rewrite Hstop, Hs. cbv zeta. rewrite Hst, Hst'.
  cbn [sameSecureStore]. rewrite !bool_decide_eq_true_2 by done.
  by destruct (save_before_commit (save saved)).
Qed.

Lemma unblock_refused r accountName now :
  is_Ok (unblock r accountName now).1 = false → (unblock r accountName now).2 = r.
Proof.
  unfold unblock. destruct (rt_snapshot r); [|done]. destruct (rt_stopped r); [done|]. cbv zeta.
  destruct (_ =? 0)%nat; [done|]. by destruct (_ && _).
Qed.

(** The route a request is for. *)
Definition registered (req : ManagementRequest) : bool :=
  existsb (λ route, bool_decide (mq_Method req = mr_Method route)
                    && bool_decide (mq_Path req = mr_Path route)) managementRegistration.

(** What a handled request does to the runtime and to the reply's status. *)
Definition answered (req : ManagementRequest) (r : pluginRuntime)
    (outcome : ManagementResponse * pluginRuntime) : Prop :=
  mp_StatusCode outcome.1 ≠ 404
  ∧ (400 <= mp_StatusCode outcome.1 < 500 → outcome.2 = r).

Lemma answered_error req r r' status code message :
  status ≠ 404 → (400 <= status < 500 → r' = r) →
  answered req r (managementError status code message, r').
Proof. by split. Qed.

Lemma answered_status req r version r' now :
  answered req r (statusResponse version r' 200 now).
Proof.
  unfold statusResponse. destruct (managementStatus _ _ _ _). split; simpl; lia.
Qed.

(** A management request is answered 404 exactly when it is not oversized
    and is for no registered route, and a request refused with any status from
    400 to 499 leaves the runtime as it is. *)
Theorem refused_requests_change_nothing `{GoStd} decode_entries decode_selector decode_update
    forceRefresh recoverSettings saveSettings version r req now resp r' :
  handleManagement decode_entries decode_selector decode_update forceRefresh recoverSettings
    saveSettings version r req now = (resp, r') →
  (400 <= mp_StatusCode resp < 500 → r' = r)
  ∧ (mp_StatusCode resp = 404
     ↔ len (mq_Body req) <= maxManagementRequestBody ∧ registered req = false).
Proof.
  intros Hh. unfold handleManagement in Hh. cbv zeta in Hh.
  destruct (Z.ltb_spec maxManagementRequestBody (len (mq_Body req))) as [Hsize|Hsize].
  { injection Hh as <- <-. split; [done|]. split; [done|]. intros [? _]. lia. }
  unfold registered, managementRegistration. cbn [existsb mr_Method mr_Path].
  enough (answered req r (resp, r') ∧ registered req = true
    ∨ (resp, r') = (managementError 404 "not_found" "unknown management route", r)
      ∧ registered req = false) as Hcases.
  { unfold registered, managementRegistration in Hcases. cbn [existsb mr_Method mr_Path] in Hcases.
    destruct Hcases as [[[? ?] ->]|[[= -> ->] ->]]; [split; [done|]|done].
    split; [done|by intros [_ ?]]. }
  rewrite <- Hh. clear Hh. unfold registered, managementRegistration.
  cbn [existsb mr_Method mr_Path].
  destruct (_ && _); cbn [orb]; [left; split; [apply answered_status|done]|].
  destruct (_ && _); cbn [orb].
  { left. split; [|done]. destruct (requireEmptyJSONBody _ _);
      [|by apply answered_error].
    destruct (forceRefresh r) as [[[]|e] r1]; [apply answered_status|].
    apply answered_error; lia. }
  destruct (_ && _); cbn [orb].
  { left. split; [|done]. destruct (decodeManagementJSON decode_selector _) as [selector|];
      [|by apply answered_error].
    destruct (unblock r selector now) as [[[]|e] r1] eqn:Hu; [apply answered_status|].
    apply answered_error; [lia|]. intros _.
    pose proof (unblock_refused r selector now) as Hr. rewrite Hu in Hr. by apply Hr. }
  destruct (_ && _); cbn [orb].
  { left. split; [|done]. destruct (decodeManagementJSON decode_update _) as [input|];
      [|by apply answered_error].
    destruct (updateAccountConfig r input _ _) as [[[]|e] r1] eqn:Hu; [apply answered_status|].
    apply answered_error; [lia|]. intros _.
    pose proof (updateAccountConfig_refused r input (recoverSettings r) saveSettings) as Hr.
    rewrite Hu in Hr. by apply Hr. }
  right. by split.
Qed.

(** An unblock request for an account that is not configured. *)
Lemma refused_requests_change_nothing_witness :
  ∃ resp r', r' = demo_runtime ∧ mp_StatusCode resp = 400.
Proof.
  set (req := {| mq_Method := "POST"; mq_Path := managementUnblockPath; mq_Body := "{}" |}).
  set (out := handleManagement (H := DemoStd.demo_std) (λ _, Some 0) (λ _, Some "nobody")
    (λ _, None) (λ r, (Ok (), r)) (λ _, errorf "none") (λ _, Ok ()) "1.0.0" demo_runtime req 0).
  assert (mp_StatusCode out.1 = 400) as Hcode by (vm_compute; reflexivity).
  exists out.1, out.2. split; [|exact Hcode].
  eapply (proj1 (refused_requests_change_nothing (H := DemoStd.demo_std) _ _ _ _ _ _ _ _ _ _
    out.1 out.2 (surjective_pairing out))).
  rewrite Hcode. split; [discriminate|reflexivity].
Defined.
