(* ===== verification/OpenCodeUsage.v ===== *)
(** * What OpenCode Go says about its quota (opencodego/quota.go, module.go)

    The three sources of a window's state: the usage endpoint, polled with a
    dashboard key, the headers and the body of a 429 response, and the 403 page
    of the request throttle, which is no quota signal. *)

From S2P Require Import Prelude GoStrings GoFloat Host.

(** ** Constants *)

Definition usageEndpoint : string := "https://opencode.ai/zen/go/v1/usage".
Definition maxUsageResponse : Z := 1048576.
Definition defaultUsageTimeout : Duration := 15 * second.
Definition defaultMicroRetry : Z := 3.
Definition maxFailureBody : Z := 16384.
Definition maxResetFuture : Duration := 35 * 24 * hour.

(** The string constants of [windowKind]. *)
Inductive windowKind := windowFiveHour | windowWeekly | windowMonthly.

#[global] Instance windowKind_eq_dec : EqDecision windowKind.
Proof. solve_decision. Defined.

#[global] Instance windowKind_countable : Countable windowKind.
Proof.
  refine (inj_countable'
    (λ k, match k with windowFiveHour => 0 | windowWeekly => 1 | windowMonthly => 2 end%nat)
    (λ n, match n with 0 => windowFiveHour | 1 => windowWeekly | _ => windowMonthly end%nat) _).
  by intros [].
Defined.

Definition window_text (k : windowKind) : string :=
  match k with
  | windowFiveHour => "five_hour" | windowWeekly => "weekly" | windowMonthly => "monthly"
  end.

(** ** The usage endpoint *)

Record usageWindow := { uw_Utilization : float64; uw_LimitReached : bool; uw_ResetAt : Time }.

Record usageSnapshot := {
  us_FiveHour : usageWindow;
  us_Weekly : usageWindow;
  us_Monthly : usageWindow;
  us_ObservedAt : Time;
}.

Record usageWireWindow := { ww_Status : string; ww_Percent : string; ww_ResetsAt : string }.

Record usageWireUsage := {
  wu_Rolling : usageWireWindow;
  wu_Weekly : usageWireWindow;
  wu_Monthly : usageWireWindow;
}.

Definition usageTimeout (timeout : Duration) : Duration :=
  if timeout <=? 0 then defaultUsageTimeout else timeout.

Section Fetch.
Context `{GoStd}.
(** The decoder with [UseNumber] and nothing after the value: [response.Usage]. *)
Context (decode_usage : string → option usageWireUsage).

Definition validateUsageEndpoint (endpoint : string) (allowTestEndpoint : bool) : res unit :=
  match url_Parse endpoint with
  | None => errorf "invalid usage endpoint"
  | Some parsed =>
      if url_HasUser parsed || negb (bool_decide (url_RawQuery parsed = ""))
         || negb (bool_decide (url_Fragment parsed = ""))
      then errorf "invalid usage endpoint"
      else if allowTestEndpoint && bool_decide (url_Scheme parsed = "http")
              && (bool_decide (url_Hostname parsed = "127.0.0.1")
                  || bool_decide (url_Hostname parsed = "localhost"))
      then Ok ()
      else if negb (bool_decide (url_Scheme parsed = "https"))
              || negb (bool_decide (url_Host parsed = "opencode.ai"))
              || negb (bool_decide (url_Path parsed = "/zen/go/v1/usage"))
      then errorf "invalid usage endpoint"
      else Ok ()
  end.

Definition parseUsageWindow (wire : usageWireWindow) (observedAt : Time) : res usageWindow :=
  let status := ToLower (TrimSpace (ww_Status wire)) in
  if negb (bool_decide (status = "ok")) && negb (bool_decide (status = "rate-limited"))
  then errorf ("unrecognized status " +:+ quote status) else
  if bool_decide (ww_Percent wire = "") then errorf "missing percent" else
  match number_Float64 (ww_Percent wire) with
  | None => errorf "percent out of range"
  | Some percent =>
      if flt percent (float_of_Z 0) || flt (float_of_Z 100) percent
      then errorf "percent out of range" else
      let limited := bool_decide (status = "rate-limited") in
      let utilization := if limited then float_of_Z 1 else fdiv percent (float_of_Z 100) in
      let limitReached := limited || feq percent (float_of_Z 100) in
      if bool_decide (TrimSpace (ww_ResetsAt wire) = "") then errorf "missing resetsAt" else
      match parse_rfc3339 (ww_ResetsAt wire) with
      | None => errorf "unparseable resetsAt"
      | Some resetAt =>
          if time_After resetAt (time_Add observedAt maxResetFuture)
          then errorf "resetsAt too far in the future" else
          if negb limitReached && negb (time_After resetAt observedAt)
          then errorf "resetsAt is not after observedAt for a non-exhausted window" else
          Ok {| uw_Utilization := utilization; uw_LimitReached := limitReached;
                uw_ResetAt := resetAt |}
      end
  end.

Definition parseUsageResponse (raw : string) (observedAt : Time) : res usageSnapshot :=
  match decode_usage raw with
  | None => errorf "malformed JSON"
  | Some usage =>
      fiveHour ← wrap_err "rolling window: " (parseUsageWindow (wu_Rolling usage) observedAt);
      weekly ← wrap_err "weekly window: " (parseUsageWindow (wu_Weekly usage) observedAt);
      monthly ← wrap_err "monthly window: " (parseUsageWindow (wu_Monthly usage) observedAt);
      Ok {| us_FiveHour := fiveHour; us_Weekly := weekly; us_Monthly := monthly;
            us_ObservedAt := observedAt |}
  end.

Definition usage_request (endpoint apiKey : string) : http_request :=
  {| hr_Method := "GET"; hr_URL := endpoint; hr_Authorization := "Bearer " +:+ apiKey;
     hr_Accept := "application/json" |}.

(** The requests sent, and the result. *)
Definition fetchUsage (client : option (http_request → http_result)) (endpoint apiKey : string)
    (now : Time) : list http_request * res usageSnapshot :=
  match client with
  | None => ([], errorf "usage client unavailable")
  | Some do =>
  match validateUsageEndpoint endpoint (negb (bool_decide (endpoint = usageEndpoint))) with
  | Err e => ([], Err e)
  | Ok _ =>
  let request := usage_request endpoint apiKey in
  ([request],
   match do request with
   | HttpError e => if error_is_context e then Err e else errorf "usage request failed"
   | HttpResponse status body =>
       if negb (status =? 200) then errorf ("usage endpoint returned status " +:+ itoa status) else
       match body with
       | Err _ => errorf "read usage response"
       | Ok body =>
           if maxUsageResponse <? len body then errorf "usage response exceeds maximum size"
           else wrap_err "invalid usage response: " (parseUsageResponse body now)
       end
   end)
  end end.

End Fetch.

(** ** Failure bodies *)

Definition quotaWindow (body : string) : option windowKind :=
  if (len body =? 0) || (maxFailureBody <? len body) then None else
  let text := ToLower body in
  if Contains text "five-hour usage limit reached" || Contains text "5-hour usage limit reached"
     || Contains text "five hour usage limit reached" then Some windowFiveHour
  else if Contains text "weekly usage limit reached" then Some windowWeekly
  else if Contains text "monthly usage limit reached" then Some windowMonthly
  else None.

(** What follows the last occurrence of a marker. *)
Fixpoint after_last_marker (marker l : list ascii) : option (list ascii) :=
  match l with
  | [] => strip_prefix marker []
  | _ :: l' =>
      match after_last_marker marker l' with
      | Some rest => Some rest
      | None => strip_prefix marker l
      end
  end.

Fixpoint up_to (stop : ascii) (l : list ascii) : list ascii :=
  match l with
  | c :: l' => if decide (c = stop) then [] else c :: up_to stop l'
  | [] => []
  end.

(** The duration of a unit letter, with the multiplications of the code. *)
Definition unit_duration (c : ascii) (number : Z) : option Duration :=
  if decide (c = "d"%char) then Some (number [*] 24 [*] hour)
  else if decide (c = "h"%char) then Some (number [*] hour)
  else if decide (c = "m"%char) then Some (number [*] minute)
  else if decide (c = "s"%char) then Some (number [*] second)
  else None.

(** The loop over the text; [None] is a return from its body. *)
Fixpoint reset_scan (l : list ascii) (number : Z) (total : Duration) (digits seen : bool)
    : option (Duration * bool * bool) :=
  match l with
  | [] => Some (total, digits, seen)
  | c :: l' =>
      match digit_val c with
      | Some d => reset_scan l' (number [*] 10 [+] d) total true seen
      | None =>
      match unit_duration c number with
      | Some d => if negb digits then None else reset_scan l' 0 (total [+] d) false true
      | None =>
      if decide (c = " "%char) then
        if digits then None else reset_scan l' number total digits seen
      else None
      end end
  end.

Definition parseResetAfterSeconds (text : string) : Z * bool :=
  match after_last_marker (chars "reset after ") (chars text) with
  | None => (0, false)
  | Some rest =>
      match reset_scan (chars (TrimSpace (str (up_to ")"%char rest)))) 0 0 false false with
      | None => (0, false)
      | Some (total, digits, seen) =>
          (total [/] second, seen && negb digits && (0 <? total))
      end
  end.

Definition isMicrothrottle (record : UsageRecord) : bool :=
  let failure := ur_Failure record in
  if negb (uf_StatusCode failure =? 403) || (maxFailureBody <? len (uf_Body failure)) then false else
  let text := ToLower (uf_Body failure) in
  if negb (Contains text "<!doctype html>") || negb (Contains text "reset after ") then false else
  let '(seconds, ok) := parseResetAfterSeconds text in
  ok && (1 <=? seconds) && (seconds <=? defaultMicroRetry).

Section Resets.
Context `{GoStd}.

(** One [Retry-After] value. *)
Definition retry_after_value (raw : string) (now : Time) : option Time :=
  let value := TrimSpace raw in
  let parsed :=
    match parse_http_time value with
    | Some parsed =>
        if time_After parsed now && time_Before parsed (time_Add now maxResetFuture)
        then Some parsed else None
    | None => None
    end in
  match ParseInt value with
  | Some seconds =>
      if (0 <? seconds) && (seconds <=? maxResetFuture [/] second)
      then Some (time_Add now (seconds [*] second)) else parsed
  | None => parsed
  end.

Fixpoint first_result {A B} (f : A → option B) (l : list A) : option B :=
  match l with
  | [] => None
  | x :: l' => match f x with Some y => Some y | None => first_result f l' end
  end.

Definition retryAfterReset (headers : Header) (now : Time) : option Time :=
  first_result (λ kv,
    if EqualFold (TrimSpace kv.1) "Retry-After"
    then first_result (λ raw, retry_after_value raw now) kv.2 else None) headers.

Definition bodyReset (body : string) (now : Time) : option Time :=
  let '(seconds, ok) := parseResetAfterSeconds (ToLower body) in
  if negb ok || (seconds <=? 0) || (maxResetFuture [/] second <? seconds) then None
  else Some (time_Add now (seconds [*] second)).

End Resets.

(** ** Lemmas on the text of a reset *)

Definition reset_marker : list ascii := chars "reset after ".

Lemma after_last_marker_app prefix marker l rest :
  after_last_marker marker l = Some rest → after_last_marker marker (prefix ++ l) = Some rest.
Proof. intros Hl. induction prefix as [|c prefix IH]; simpl; [done|]. by rewrite IH. Qed.

(** The marker does not overlap itself. *)
Lemma after_last_marker_here tail :
  after_last_marker reset_marker tail = None →
  after_last_marker reset_marker (reset_marker ++ tail) = Some tail.
Proof.
  intros Htail. unfold reset_marker in *. simpl in Htail. simpl.
  rewrite Htail. destruct tail; reflexivity.
Qed.

Lemma after_last_marker_skip l tail :
  Forall (λ c, c ≠ "r"%char) l → after_last_marker reset_marker tail = None →
  after_last_marker reset_marker (l ++ tail) = None.
Proof.
  intros Hl Htail. induction Hl as [|c l Hc Hl IH]; [done|]. cbn [app after_last_marker].
  rewrite IH. unfold reset_marker. cbn [strip_prefix chars]. simpl.
  by destruct (decide ("r"%char = c)).
Qed.

Lemma after_last_marker_contains marker l :
  contains_list l marker = false → after_last_marker marker l = None.
Proof.
  induction l as [|c l IH]; cbn [contains_list after_last_marker]; intros Hc.
  - apply orb_false_iff in Hc as [Hc%bool_decide_eq_false_1 _].
    destruct (strip_prefix marker []); [|done]. by destruct Hc.
  - apply orb_false_iff in Hc as [Hc%bool_decide_eq_false_1 Hl]. rewrite IH by done.
    destruct (strip_prefix marker (c :: l)); [|done]. by destruct Hc.
Qed.

Lemma up_to_app stop l tail :
  Forall (λ c, c ≠ stop) l → up_to stop (l ++ stop :: tail) = l.
Proof.
  induction 1 as [|c l Hc Hl IH]; simpl; [by rewrite decide_True|].
  rewrite decide_False by done. by rewrite IH.
Qed.

(** The seconds of a unit letter. *)
Definition unit_seconds (c : ascii) : option Z :=
  if decide (c = "d"%char) then Some 86400
  else if decide (c = "h"%char) then Some 3600
  else if decide (c = "m"%char) then Some 60
  else if decide (c = "s"%char) then Some 1
  else None.

Lemma unit_duration_seconds c n :
  match unit_seconds c with
  | Some k => digit_val c = None ∧ is_space c = false ∧ c ≠ "r"%char ∧ c ≠ ")"%char
      ∧ 1 <= k <= 86400
      ∧ (0 <= n → n * k * second <= int64_max → unit_duration c n = Some (n * k * second))
  | None => unit_duration c n = None
  end.
Proof.
  unfold unit_seconds, unit_duration.
  assert (∀ k, 0 <= n → n * k * second <= int64_max → 1 <= k → n [*] (k * second) = n * k * second) as Hw.
  { intros k Hn Hk Hk1. rewrite Z.mul_assoc. apply wrap64_id.
    unfold in_int64, int64_min, second in *. nia. }
  destruct (decide (c = "d"%char)) as [->|].
  { split_and!; try done. intros Hn Hk. f_equal. rewrite (wrap64_id (n * 24)).
    - rewrite <- Hw by done. by rewrite <- Z.mul_assoc.
    - unfold in_int64, int64_min, int64_max, second in *. lia. }
  destruct (decide (c = "h"%char)) as [->|]; [|destruct (decide (c = "m"%char)) as [->|];
    [|destruct (decide (c = "s"%char)) as [->|]; [|done]]];
    split_and!; try done; intros Hn Hk; f_equal.
  - by apply (Hw 3600).
  - by apply (Hw 60).
  - by apply (Hw 1).
Qed.

Lemma digit_val_bounds c d : digit_val c = Some d → 0 <= d < 10.
Proof. unfold digit_val. case_match; [|done]. crush_bool. intros [= <-]. lia. Qed.

Lemma digits_val_mono acc l n : 0 <= acc → digits_val acc l = Some n → acc <= n.
Proof.
  revert acc. induction l as [|c l IH]; simpl; intros acc Hacc; [intros [= ->]; lia|].
  destruct (digit_val c) as [d|] eqn:Hd; [|done]. simpl. intros Hn.
  apply digit_val_bounds in Hd. apply IH in Hn; lia.
Qed.

(** The digits of a number that fits. *)
Lemma reset_scan_digits l rest acc n total digits seen :
  0 <= acc → digits_val acc l = Some n → n <= int64_max →
  reset_scan (l ++ rest) acc total digits seen
  = reset_scan rest n total (digits || negb (bool_decide (l = []))) seen.
Proof.
  revert acc digits. induction l as [|c l IH]; intros acc digits Hacc Hl Hn.
  { injection Hl as ->. by rewrite orb_false_r. }
  simpl in Hl. destruct (digit_val c) as [d|] eqn:Hd; [|done]. simpl in Hl.
  cbn [app reset_scan]. rewrite Hd. apply digit_val_bounds in Hd.
  pose proof (digits_val_mono (10 * acc + d) l n) as Hm. specialize (Hm ltac:(lia) Hl).
  rewrite !wrap64_id by (rewrite ?wrap64_id; unfold in_int64, int64_min, int64_max in *; lia).
  replace (acc * 10 + d) with (10 * acc + d) by lia.
  rewrite IH by (done || lia). rewrite (bool_decide_eq_false_2 (c :: l = [])) by done.
  by rewrite orb_true_r.
Qed.

(** How the service writes a duration: numbers with their units, separated by
    spaces. *)
Definition print_duration (items : list (Z * ascii)) : string :=
  Join ((λ it : Z * ascii, itoa it.1 +:+ String it.2 "") <$> items) " ".

Definition total_seconds (items : list (Z * ascii)) : Z :=
  foldr (λ it sum, it.1 * default 0 (unit_seconds it.2) + sum) 0 items.

Definition item_ok (it : Z * ascii) : Prop := 0 <= it.1 ∧ is_Some (unit_seconds it.2).

Lemma total_seconds_cons n u k items : unit_seconds u = Some k →
  total_seconds ((n, u) :: items) = n * k + total_seconds items.
Proof. intros Hk. simpl. by rewrite Hk. Qed.

Lemma total_seconds_nonneg items : Forall item_ok items → 0 <= total_seconds items.
Proof.
  induction 1 as [|[n u] items [Hn [k Hk]] _ IH]; [done|]. rewrite (total_seconds_cons n u k) by done.
  simpl in Hn, Hk. pose proof (unit_duration_seconds u n) as Hu. rewrite Hk in Hu. nia.
Qed.

Lemma reset_scan_item n u k rest total seen :
  0 <= n → unit_seconds u = Some k → 0 <= total → total + n * k * second <= int64_max →
  reset_scan (chars (itoa n) ++ u :: rest) 0 total false seen
  = reset_scan rest 0 (total + n * k * second) false true.
Proof.
  intros Hn Hk Htotal Hmax. destruct (itoa_digits n Hn) as [Hne Hd].
  pose proof (unit_duration_seconds u n) as Hu. rewrite Hk in Hu.
  destruct Hu as (Hnd & _ & _ & _ & Hk1 & Hdur).
  assert (0 <= n * k * second) by (unfold second; nia).
  assert (n <= n * k * second) by (unfold second; nia).
  erewrite (reset_scan_digits _ _ 0 n) by (done || lia). cbn [reset_scan].
  rewrite Hnd, Hdur by lia. rewrite bool_decide_eq_false_2 by done. cbn [orb negb].
  rewrite wrap64_id by (unfold in_int64, int64_min; lia). done.
Qed.

Lemma reset_scan_items items total seen :
  items ≠ [] → Forall item_ok items → 0 <= total →
  total + total_seconds items * second <= int64_max →
  reset_scan (chars (print_duration items)) 0 total false seen
  = Some (total + total_seconds items * second, false, true).
Proof.
  intros Hne Hok. revert total seen. induction Hok as [|[n u] items [Hn [k Hk]] Hok IH]; [done|].
  intros total seen Htotal Hmax. simpl in Hn, Hk. unfold print_duration in *.
  rewrite (total_seconds_cons n u k) in * by done.
  pose proof (total_seconds_nonneg items Hok) as Hnn.
  pose proof (unit_duration_seconds u n) as Hu. rewrite Hk in Hu.
  assert (0 <= n * k * second ∧ 0 <= total_seconds items * second) as [? ?] by (unfold second; nia).
  destruct items as [|it items].
  - cbn [fmap list_fmap Join]. rewrite chars_app. simpl chars.
    rewrite (reset_scan_item n u k) by (done || lia). cbn [reset_scan].
    replace (total_seconds []) with 0 by done. do 3 f_equal. lia.
  - change (Join _ _) with ((itoa n +:+ String u "") +:+ " "
      +:+ print_duration (it :: items)).
    rewrite !chars_app, <- app_assoc. simpl (chars (String u "")). simpl (chars " "). cbn [app].
    rewrite (reset_scan_item n u k) by (done || lia). cbn [reset_scan digit_val].
    simpl (decide _). rewrite (IH ltac:(done)) by lia. do 3 f_equal. lia.
Qed.

(** The characters a printed duration is made of. *)
Definition duration_char (c : ascii) : Prop := c ≠ ")"%char ∧ c ≠ "r"%char.

Lemma digit_duration_char c : is_Some (digit_val c) → duration_char c ∧ is_space c = false.
Proof.
  intros Hc. split; [split; intros ->; vm_compute in Hc; by destruct Hc|].
  destruct Hc as [d Hc]. unfold digit_val, is_space in *. revert Hc. case_match; [|done].
  crush_bool. intros _. ltb_cases; simpl; done || lia.
Qed.

Lemma print_duration_chars items :
  items ≠ [] → Forall item_ok items →
  Forall duration_char (chars (print_duration items))
  ∧ ∃ c l l' d, chars (print_duration items) = c :: l ∧ chars (print_duration items) = l' ++ [d]
    ∧ is_space c = false ∧ is_space d = false.
Proof.
  intros Hne Hok. induction Hok as [|[n u] items [Hn [k Hk]] Hok IH]; [done|]. simpl in Hn, Hk.
  destruct (itoa_digits n Hn) as [Hd Hv]. apply digits_val_digits in Hv.
  pose proof (unit_duration_seconds u n) as Hu. rewrite Hk in Hu.
  destruct Hu as (_ & Hsp & Hr & Hp & _).
  destruct (chars (itoa n)) as [|c l] eqn:Hc; [done|].
  assert (is_space c = false) by (by apply Forall_cons in Hv as [[_ ?]%digit_duration_char _]).
  assert (Forall duration_char (c :: l)) as Hall.
  { eapply Forall_impl; [exact Hv|]. intros x Hx. by apply digit_duration_char. }
  unfold print_duration in *. destruct items as [|it items].
  - cbn [fmap list_fmap Join fst snd]. rewrite chars_app, Hc. split.
    + apply Forall_app. split; [done|]. by repeat constructor.
    + by exists c, (l ++ [u]), (c :: l), u.
  - destruct (IH ltac:(done)) as (Hf & c' & l1 & l2 & d & H1 & H2 & _ & Hsd).
    change (Join _ _) with ((itoa n +:+ String u "") +:+ " " +:+ print_duration (it :: items)).
    rewrite !chars_app, Hc. split.
    + rewrite !Forall_app. split_and!; [done| | |exact Hf]; by repeat constructor.
    + exists c, (l ++ [u] ++ [" "%char] ++ chars (print_duration (it :: items))),
        ((c :: l) ++ [u] ++ [" "%char] ++ l2), d.
      split_and!; [by rewrite <- !app_assoc| |done|done].
      unfold print_duration in *. rewrite H2. by rewrite <- !app_assoc.
Qed.

(** ** Properties *)

(** A reset is read as it is written: in a body that says
    [reset after 6d 6h 1m 2s)] in any mixture of units, after any text and before
    any that does not repeat the phrase, the reset is the sum of the parts, as
    long as it fits a duration. *)
Theorem parse_reset_roundtrip prefix items tail :
  items ≠ [] → Forall item_ok items → 0 < total_seconds items →
  total_seconds items * second <= int64_max → Contains tail "reset after " = false →
  parseResetAfterSeconds
    (prefix +:+ "reset after " +:+ print_duration items +:+ ")" +:+ tail)
  = (total_seconds items, true).
Proof.
  intros Hne Hok Hpos Hmax Htail. destruct (print_duration_chars items Hne Hok) as (Hf & Hends).
  unfold parseResetAfterSeconds. rewrite !chars_app. fold reset_marker.
  rewrite (after_last_marker_app (chars prefix) _ _
    (chars (print_duration items) ++ ")"%char :: chars tail)).
  2: { apply after_last_marker_here. apply after_last_marker_skip.
    - eapply Forall_impl; [exact Hf|]. by intros c [_ ?].
    - apply (after_last_marker_skip [")"%char]); [by repeat constructor|].
      by apply after_last_marker_contains. }
  rewrite up_to_app by (eapply Forall_impl; [exact Hf|]; by intros c [? _]).
  destruct Hends as (c & l & l' & d & H1 & H2 & Hc & Hd). rewrite str_chars.
  rewrite (TrimSpace_ends _ c l l' d) by done.
  rewrite reset_scan_items by (done || lia). unfold second in *.
  rewrite Z.add_0_l, Z.quot_mul by done. rewrite wrap64_id.
  - destruct (Z.ltb_spec 0 (total_seconds items * 1000000000)); [done|lia].
  - unfold in_int64, int64_min, int64_max in *. lia.
Qed.

Lemma parse_reset_roundtrip_witness :
  parseResetAfterSeconds "weekly usage limit reached (reset after 6d 6h 1m 2s)" = (540062, true).
Proof.
  apply (parse_reset_roundtrip "weekly usage limit reached ("
    [(6, "d"%char); (6, "h"%char); (1, "m"%char); (2, "s"%char)] "").
  - discriminate.
  - repeat constructor; vm_compute; discriminate || eauto.
  - vm_compute. reflexivity.
  - vm_compute. discriminate.
  - vm_compute. reflexivity.
Defined.

(** A number too long for an [int] wraps around instead of being refused. *)
Example reset_wraps : parseResetAfterSeconds "reset after 18446744073709551617s" = (1, true).
Proof. vm_compute. reflexivity. Qed.

Lemma first_result_Some {A B} (f : A → option B) l y :
  first_result f l = Some y → ∃ x, x ∈ l ∧ f x = Some y.
Proof.
  induction l as [|x l IH]; simpl; [done|]. destruct (f x) as [z|] eqn:Hx.
  - intros [= <-]. exists x. split; [left|done].
  - intros (x' & ? & ?)%IH. exists x'. split; [by right|done].
Qed.

Lemma seconds_ahead seconds now :
  0 < seconds <= maxResetFuture [/] second →
  now < time_Add now (seconds [*] second) <= now + maxResetFuture.
Proof.
  assert (maxResetFuture [/] second = 3024000) as -> by (vm_compute; reflexivity).
  unfold time_Add, maxResetFuture, hour, minute, second. intros Hs.
  rewrite wrap64_id by (unfold in_int64, int64_min, int64_max; lia). lia.
Qed.

(** Whatever a 429 response says, the reset taken from its headers or its body
    lies after now and at most 35 days ahead. *)
Theorem reset_hints_bounded `{GoStd} headers body now resetAt :
  retryAfterReset headers now = Some resetAt ∨ bodyReset body now = Some resetAt →
  now < resetAt <= now + maxResetFuture.
Proof.
  intros [Hr|Hr].
  - apply first_result_Some in Hr as ([name values] & _ & Hr). revert Hr. case_match; [|done].
    intros (raw & _ & Hr)%first_result_Some. revert Hr. unfold retry_after_value.
    set (parsed := match parse_http_time _ with Some _ => _ | None => _ end).
    assert (parsed = Some resetAt → now < resetAt <= now + maxResetFuture) as Hparsed.
    { subst parsed. destruct (parse_http_time _) as [p|]; [|done]. destruct (_ && _) eqn:Hb; [|done].
      intros [= ->]. crush_bool. unfold time_Add in *. lia. }
    destruct (ParseInt _) as [seconds|]; [|done]. destruct (_ && _) eqn:Hb; [|done].
    intros [= <-]. crush_bool. by apply seconds_ahead.
  - revert Hr. unfold bodyReset. destruct (parseResetAfterSeconds _) as [seconds ok].
    destruct (_ || _) eqn:Hb; [done|]. intros [= <-]. crush_bool. by apply seconds_ahead.
Qed.

Lemma reset_hints_bounded_witness :
  ∃ resetAt, bodyReset "monthly usage limit reached (reset after 1h)" 0 = Some resetAt
  ∧ 0 < resetAt <= 0 + maxResetFuture.
Proof.
  eexists. split; [vm_compute; reflexivity|].
  apply (reset_hints_bounded (H := DemoStd.demo_std) [] "monthly usage limit reached (reset after 1h)").
  right. vm_compute. reflexivity.
Defined.

Arguments float_of_Z : simpl never.

(** A percentage that compares equal to 100 is 100. *)
Lemma feq_100 f : feq f (float_of_Z 100) = true → f = float_of_Z 100.
Proof.
  assert (∃ m e, float_of_Z 100 = S754_finite false m e) as (m & e & ->) by (do 2 eexists; vm_compute; reflexivity).
  unfold feq, SFeqb. destruct f as [[]|[]| |[] m' e']; try done. cbn [SFcompare].
  destruct (Z.compare_spec e' e) as [->|?|?]; [|done|done].
  rewrite Pos.compare_cont_spec. destruct (Pos.compare_spec m' m) as [->|?|?]; done.
Qed.

(** How a window of the endpoint's answer is read: the status, the percentage and the
    reset it must have, and what the window then is. A window that is limited counts as
    full, whatever its percentage; one that is not has the share of its percentage and a
    reset ahead. *)
Record usage_window_read `{GoStd} (observedAt : Time) (wire : usageWireWindow) (w : usageWindow) : Prop := {
  uo_status : ToLower (TrimSpace (ww_Status wire)) ∈ ["ok"; "rate-limited"];
  uo_percent : ww_Percent wire ≠ "" ∧ ∃ percent, number_Float64 (ww_Percent wire) = Some percent
    ∧ flt percent (float_of_Z 0) = false ∧ flt (float_of_Z 100) percent = false
    ∧ uw_LimitReached w = bool_decide (ToLower (TrimSpace (ww_Status wire)) = "rate-limited")
                          || feq percent (float_of_Z 100)
    ∧ uw_Utilization w = if uw_LimitReached w then float_of_Z 1 else fdiv percent (float_of_Z 100);
  uo_reset : TrimSpace (ww_ResetsAt wire) ≠ "" ∧ parse_rfc3339 (ww_ResetsAt wire) = Some (uw_ResetAt w);
  uo_bound : uw_ResetAt w <= observedAt + maxResetFuture;
  uo_ahead : uw_LimitReached w = false → observedAt < uw_ResetAt w;
}.

Lemma parseUsageWindow_iff `{GoStd} wire observedAt w :
  parseUsageWindow wire observedAt = Ok w ↔ usage_window_read observedAt wire w.
Proof.
  unfold parseUsageWindow. cbv zeta. set (status := ToLower (TrimSpace (ww_Status wire))).
  assert (fdiv (float_of_Z 100) (float_of_Z 100) = float_of_Z 1) as Hfull by (vm_compute; reflexivity).
  split.
  - destruct (_ && _) eqn:Hstatus; [done|].
    destruct (bool_decide (ww_Percent wire = "")) eqn:Hp; [done|]. apply bool_decide_eq_false_1 in Hp.
    destruct (number_Float64 _) as [percent|] eqn:Hnum; [|done]. destruct (_ || _) eqn:Hrange; [done|].
    destruct (bool_decide (TrimSpace (ww_ResetsAt wire) = "")) eqn:Hr; [done|]. apply bool_decide_eq_false_1 in Hr.
    destruct (parse_rfc3339 _) as [resetAt|] eqn:Hparse; [|done]. destruct (time_After _ _) eqn:Hfar; [done|].
    destruct (negb (_ || _) && _) eqn:Hpast; [done|]. intros Hok. injection Hok as <-.
    unfold time_After, time_Add in *. apply Z.ltb_ge in Hfar. apply orb_false_iff in Hrange as [H0 H100].
    split; cbn [uw_ResetAt uw_LimitReached uw_Utilization]; try done.
    + rewrite !elem_of_cons, elem_of_nil. apply andb_false_iff in Hstatus. fold status.
      destruct Hstatus as [Hs|Hs]; apply negb_false_iff, bool_decide_eq_true_1 in Hs; auto.
    + split; [done|]. exists percent. do 4 (split; [done|]). fold status.
      case_bool_decide; cbn [orb]; [done|]. destruct (feq percent _) eqn:Hq; [|done].
      by apply feq_100 in Hq as ->.
    + intros Hlimit. fold status in Hlimit. rewrite Hlimit in Hpast. cbn [negb andb] in Hpast.
      by apply negb_false_iff, Z.ltb_lt in Hpast.
  - intros [Hstatus (Hp & percent & Hnum & H0 & H100 & Hlimit & Hshare) (Hr & Hparse) Hbound Hahead].
    fold status in Hstatus, Hlimit.
    assert (negb (bool_decide (status = "ok")) && negb (bool_decide (status = "rate-limited")) = false) as ->.
    { rewrite !elem_of_cons, elem_of_nil in Hstatus. destruct Hstatus as [->|[->|[]]]; done. }
    rewrite (bool_decide_eq_false_2 _ Hp), Hnum, H0, H100, (bool_decide_eq_false_2 _ Hr), Hparse. cbn [orb].
    unfold time_After, time_Add. destruct (Z.ltb_spec (observedAt + maxResetFuture) (uw_ResetAt w)); [lia|].
    rewrite <- Hlimit.
    assert (negb (uw_LimitReached w) && negb (observedAt <? uw_ResetAt w) = false) as ->.
    { destruct (uw_LimitReached w); [done|]. specialize (Hahead eq_refl).
      by destruct (Z.ltb_spec observedAt (uw_ResetAt w)); [|lia]. }
    destruct w as [share limit resetAt]. cbn [uw_ResetAt uw_LimitReached uw_Utilization] in *. do 2 f_equal.
    rewrite Hshare, Hlimit. case_bool_decide; cbn [orb]; [done|]. destruct (feq percent _) eqn:Hq; [|done].
    by apply feq_100 in Hq as ->.
Qed.

Lemma parseUsageResponse_iff `{GoStd} decode_usage body now snap :
  parseUsageResponse decode_usage body now = Ok snap ↔
  us_ObservedAt snap = now ∧ ∃ usage, decode_usage body = Some usage
    ∧ usage_window_read now (wu_Rolling usage) (us_FiveHour snap)
    ∧ usage_window_read now (wu_Weekly usage) (us_Weekly snap)
    ∧ usage_window_read now (wu_Monthly usage) (us_Monthly snap).
Proof.
  unfold parseUsageResponse. setoid_rewrite <- parseUsageWindow_iff.
  destruct (decode_usage body) as [usage|]; [|split; [done|by intros (_ & ? & ? & _)]]. split.
  - destruct (parseUsageWindow (wu_Rolling usage) now) as [w1|] eqn:H1; [|done]. cbn [wrap_err mbind res_bind].
    destruct (parseUsageWindow (wu_Weekly usage) now) as [w2|] eqn:H2; [|done]. cbn [wrap_err mbind res_bind].
    destruct (parseUsageWindow (wu_Monthly usage) now) as [w3|] eqn:H3; [|done]. cbn [wrap_err mbind res_bind].
    intros [= <-]. split; [done|]. by exists usage.
  - intros (Hnow & usage' & [= <-] & -> & -> & ->). cbn [wrap_err mbind res_bind]. by destruct snap; cbn in *; subst.
Qed.

Lemma validateUsageEndpoint_ok `{GoStd} endpoint test :
  validateUsageEndpoint endpoint test = Ok () →
  ∃ url, url_Parse endpoint = Some url
  ∧ url_HasUser url = false ∧ url_RawQuery url = "" ∧ url_Fragment url = ""
  ∧ ((url_Scheme url = "https" ∧ url_Host url = "opencode.ai" ∧ url_Path url = "/zen/go/v1/usage")
     ∨ (test = true ∧ url_Scheme url = "http"
        ∧ (url_Hostname url = "127.0.0.1" ∨ url_Hostname url = "localhost"))).
Proof.
  unfold validateUsageEndpoint. destruct (url_Parse endpoint) as [url|]; [|done].
  destruct (url_HasUser url || _ || _) eqn:Hplain; [done|]. crush_bool. intros Hv. exists url.
  split_and!; try done. destruct (test && _ && _) eqn:Htest.
  - right. apply andb_true_iff in Htest as [Htest Hlocal]. crush_bool.
    split_and!; [done|done|]. destruct Hlocal; crush_bool; auto.
  - left. destruct (negb _ || _ || _) eqn:Hprod; [done|]. by crush_bool.
Qed.

(** C37: a poll sends at most one request, with the dashboard key in its
    authorization header only, to the production endpoint over https or, for an
    overridden endpoint, to a loopback host. It accepts exactly the answers to that
    request with status 200 and a body of at most one megabyte in which each of the
    three windows, the rolling, the weekly and the monthly one, is "ok" or
    "rate-limited", with a percentage between 0 and 100 and a reset at most 35 days
    ahead, which lies after the observation unless the limit is reached. The limit is
    reached when the window is rate-limited or its percentage is 100, and then the share
    is 1, whatever the percentage; else the share is that of the percentage. *)
Theorem fetchUsage_sound `{GoStd} decode_usage client endpoint apiKey now requests result :
  fetchUsage decode_usage client endpoint apiKey now = (requests, result) →
  (length requests ≤ 1)%nat
  ∧ (∀ req, req ∈ requests →
      hr_URL req = endpoint ∧ hr_Method req = "GET" ∧ hr_Authorization req = "Bearer " +:+ apiKey
      ∧ ∃ url, url_Parse endpoint = Some url
        ∧ url_HasUser url = false ∧ url_RawQuery url = "" ∧ url_Fragment url = ""
        ∧ ((url_Scheme url = "https" ∧ url_Host url = "opencode.ai"
            ∧ url_Path url = "/zen/go/v1/usage")
           ∨ (endpoint ≠ usageEndpoint ∧ url_Scheme url = "http"
              ∧ (url_Hostname url = "127.0.0.1" ∨ url_Hostname url = "localhost"))))
  ∧ ∀ snap, result = Ok snap ↔
      ∃ req do body usage, req ∈ requests ∧ client = Some do ∧ do req = HttpResponse 200 (Ok body)
        ∧ len body <= 1048576 ∧ decode_usage body = Some usage ∧ us_ObservedAt snap = now
        ∧ usage_window_read now (wu_Rolling usage) (us_FiveHour snap)
        ∧ usage_window_read now (wu_Weekly usage) (us_Weekly snap)
        ∧ usage_window_read now (wu_Monthly usage) (us_Monthly snap).
Proof.
  unfold fetchUsage. destruct client as [do|].
  2: { intros [= <- <-]. split; [simpl; lia|]. split; [by intros ? ?%elem_of_nil|].
    intros snap. split; [done|]. by intros (? & ? & ? & ? & ?%elem_of_nil & _). }
  destruct (validateUsageEndpoint _ _) as [[]|e] eqn:Hv.
  2: { intros [= <- <-]. split; [simpl; lia|]. split; [by intros ? ?%elem_of_nil|].
    intros snap. split; [done|]. by intros (? & ? & ? & ? & ?%elem_of_nil & _). }
  intros Hf. injection Hf as <- Hresult. split; [simpl; lia|]. split.
  - intros req ->%list_elem_of_singleton. do 3 (split; [done|]).
    apply validateUsageEndpoint_ok in Hv as (url & ? & ? & ? & ? & Hdest). exists url.
    split_and!; try done. destruct Hdest as [?|(Ht & ?)]; [by left|right]. crush_bool. done.
  - intros snap. subst result. clear Hv. setoid_rewrite list_elem_of_singleton. split.
    + destruct (do _) as [e|status body] eqn:Hdo; [by case_match|].
      destruct (Z.eqb_spec status 200) as [->|]; [|done]. destruct body as [body|]; [|done]. cbn [negb].
      unfold maxUsageResponse. destruct (Z.ltb_spec 1048576 (len body)); [done|].
      intros Hp%wrap_err_ok%parseUsageResponse_iff. destruct Hp as (Hnow & usage & Hp).
      exists (usage_request endpoint apiKey), do, body, usage. by split_and!; try apply Hp.
    + intros (req & do' & body & usage & -> & [= <-] & -> & Hlen & Hp). rewrite Z.eqb_refl. cbn [negb].
      unfold maxUsageResponse. destruct (Z.ltb_spec 1048576 (len body)); [lia|].
      apply wrap_err_ok, parseUsageResponse_iff. destruct Hp as (? & ? & Hp). split; [done|]. by exists usage.
Qed.

(** A library that reads two times, and an answer with a window that is rate-limited at
    41 percent and two that are not. *)
Definition reading_std : GoStd := {|
  sha256_hex := DemoStd.digest;
  hmac_sha256_hex _ s := DemoStd.digest s;
  parse_rfc3339 s :=
    if decide (s = "2026-01-01T05:00:00Z") then Some (unix_epoch + 1767243600 * second)
    else if decide (s = "2026-01-20T00:00:00Z") then Some (unix_epoch + 1768867200 * second) else None;
  parse_http_time _ := None;
  parse_duration := ParseInt;
  duration_string := itoa;
  format_float _ := "";
  url_Parse := DemoStd.split_url;
  url_String u := url_Host u +:+ url_Path u;
  quote s := s;
  decode_any _ := None;
  decode_error_code _ := None;
|}.

Definition demo_usage : usageWireUsage :=
  {| wu_Rolling := {| ww_Status := " Rate-Limited"; ww_Percent := "41"; ww_ResetsAt := "2026-01-01T05:00:00Z" |};
     wu_Weekly := {| ww_Status := "ok"; ww_Percent := "97.0"; ww_ResetsAt := "2026-01-20T00:00:00Z" |};
     wu_Monthly := {| ww_Status := "ok"; ww_Percent := "1e2"; ww_ResetsAt := "2026-01-20T00:00:00Z" |} |}.

Definition demo_observed : Time := unix_epoch + 1767225600 * second.

Definition demo_fetch : list http_request * res usageSnapshot :=
  fetchUsage (H := reading_std) (λ body, if decide (body = "usage") then Some demo_usage else None)
    (Some (λ _, HttpResponse 200 (Ok "usage"))) usageEndpoint "key" demo_observed.

Lemma fetchUsage_sound_witness :
  demo_fetch.1 = [usage_request usageEndpoint "key"]
  ∧ ∃ snap, demo_fetch.2 = Ok snap
    ∧ uw_LimitReached (us_FiveHour snap) = true ∧ uw_Utilization (us_FiveHour snap) = float_of_Z 1
    ∧ uw_LimitReached (us_Weekly snap) = false ∧ demo_observed < uw_ResetAt (us_Weekly snap)
    ∧ uw_LimitReached (us_Monthly snap) = true.
Proof.
  split; [vm_compute; reflexivity|].
  destruct (fetchUsage_sound (H := reading_std) (λ body, if decide (body = "usage") then Some demo_usage else None)
    (Some (λ _, HttpResponse 200 (Ok "usage"))) usageEndpoint "key" demo_observed _ _ (surjective_pairing demo_fetch))
    as (_ & _ & Haccept).
  assert (∃ snap, demo_fetch.2 = Ok snap) as [snap Hsnap] by (eexists; vm_compute; reflexivity).
  exists snap. split; [exact Hsnap|]. apply Haccept in Hsnap as (req & do & body & usage & _ & Hdo & Hbody & _ & Hu & _ & H5 & H7 & H30).
  injection Hdo as <-. injection Hbody as <-. injection Hu as <-.
  destruct H5 as [_ (_ & p5 & _ & _ & _ & Hl5 & Hs5) _ _ _].
  destruct H7 as [_ (_ & p7 & Hp7 & _ & _ & Hl7 & _) _ _ Ha7].
  destruct H30 as [_ (_ & p30 & Hp30 & _ & _ & Hl30 & _) _ _ _].
  vm_compute in Hp7, Hp30. injection Hp7 as <-. injection Hp30 as <-.
  assert (uw_LimitReached (us_FiveHour snap) = true) as Hf by (rewrite Hl5; vm_compute; reflexivity).
  assert (uw_LimitReached (us_Weekly snap) = false) as Hw by (rewrite Hl7; vm_compute; reflexivity).
  assert (uw_LimitReached (us_Monthly snap) = true) as Hm by (rewrite Hl30; vm_compute; reflexivity).
  rewrite Hf in Hs5. split_and!; [exact Hf|exact Hs5|exact Hw|exact (Ha7 Hw)|exact Hm].
Defined.
