(* ===== verification/OpenCodeGo.v ===== *)
(** * The OpenCode Go module (opencodego/module.go)

    Its configuration, the windows of its accounts, the signals that change them,
    the choice among candidates and the status. A poll is split in the two parts
    that run under the mutex; the results of the requests between them are
    arguments, and so are the readings of the clock. *)

From S2P Require Import Prelude GoStrings GoFloat Host OpenCodeUsage.

(** ** Data *)

Definition providerID : string := "opencode-go".
Definition defaultThreshold : Z := 97.
Definition defaultFailureCooldown : Duration := 10 * minute.
Definition minPollInterval : Duration := 30 * second.

Record rawAccountConfig := {
  ra_Name : string;
  ra_AuthIDs : list string;
  ra_ConnectionID : string;
  ra_DashboardAPIKey : string;
  ra_Disabled : bool;
}.

Record rawModuleConfig := {
  rm_Enabled : option bool;
  rm_ThresholdPercent : option Z;
  rm_DashboardAPIKey : string;
  rm_Accounts : list rawAccountConfig;
}.

Record accountConfig := {
  ga_Name : string;
  ga_AuthIDs : list string;
  ga_DashboardAPIKey : string;
  ga_Disabled : bool;
}.

Record moduleConfig := {
  gc_Enabled : bool;
  gc_ThresholdPercent : Z;
  gc_DashboardAPIKey : string;
  gc_Accounts : list accountConfig;
}.

Record windowState := {
  ws_Utilization : option float64;
  ws_Exhausted : bool;
  ws_ResetAt : Time;
  ws_CooldownAt : Time;
  ws_Source : string;
  ws_Known : bool;
  ws_Authoritative : bool;
  ws_ObservedAt : Time;
}.

Definition zero_window : windowState :=
  {| ws_Utilization := None; ws_Exhausted := false; ws_ResetAt := 0; ws_CooldownAt := 0;
     ws_Source := ""; ws_Known := false; ws_Authoritative := false; ws_ObservedAt := 0 |}.

Record accountState := {
  as_Name : string;
  as_AuthIDs : list string;
  as_Disabled : bool;
  as_DashboardAPIKey : string;
  as_Windows : gmap windowKind windowState;
  as_cursor : Z;
  as_lastPollAt : Time;
}.

Record moduleState := {
  st_Threshold : Z;
  st_Accounts : gmap string accountState;
  st_ByAuthID : gmap string string;
}.

Record Module_ := {
  md_state : option moduleState;
  md_lastErr : string;
  md_closed : bool;
}.

Definition NewModule : Module_ := {| md_state := None; md_lastErr := ""; md_closed := false |}.

Definition window_kinds : list windowKind := [windowFiveHour; windowWeekly; windowMonthly].

(** A read of the map of windows. *)
Definition window (a : accountState) (kind : windowKind) : windowState :=
  default zero_window (as_Windows a !! kind).

Definition set_windows (windows : gmap windowKind windowState) (a : accountState) : accountState :=
  {| as_Name := as_Name a; as_AuthIDs := as_AuthIDs a; as_Disabled := as_Disabled a;
     as_DashboardAPIKey := as_DashboardAPIKey a; as_Windows := windows;
     as_cursor := as_cursor a; as_lastPollAt := as_lastPollAt a |}.

Definition set_progress (cursor : Z) (lastPollAt : Time) (a : accountState) : accountState :=
  {| as_Name := as_Name a; as_AuthIDs := as_AuthIDs a; as_Disabled := as_Disabled a;
     as_DashboardAPIKey := as_DashboardAPIKey a; as_Windows := as_Windows a;
     as_cursor := cursor; as_lastPollAt := lastPollAt |}.

(** An account is a pointer in the code: changing it changes its entry. *)
Definition put_account (name : string) (a : accountState) (s : moduleState) : moduleState :=
  {| st_Threshold := st_Threshold s; st_Accounts := <[name := a]> (st_Accounts s);
     st_ByAuthID := st_ByAuthID s |}.

Definition put_state (s : moduleState) (m : Module_) : Module_ :=
  {| md_state := Some s; md_lastErr := md_lastErr m; md_closed := md_closed m |}.

(** ** Configuration *)

(** [normalizeIDs] *)
Definition normalizeIDs_step (out : list string) (value : string) : list string :=
  let value := TrimSpace value in
  if bool_decide (value = "") then out
  else if bool_decide (value ∈ out) then out else out ++ [value].

Definition normalizeIDs (values : list string) : list string :=
  sort_by id (foldl normalizeIDs_step [] values).

Definition newSchedulerError (code message : string) : error :=
  EWire {| we_Code := code; we_Message := message; we_Retryable := false; we_HTTPStatus := 0 |}.

Section Config.
Context `{GoStd}.
(** The strict decoder: the first value of the text, unknown fields refused. *)
Context (decode_config : string → res rawModuleConfig).

Definition parseAccount (moduleKey : string) (i : nat) (raw : rawAccountConfig) : res accountConfig :=
  let name := TrimSpace (ra_Name raw) in
  let at_i := "opencode_go_invalid_config: accounts[" +:+ itoa (Z.of_nat i) +:+ "]" in
  if bool_decide (name = "") then errorf (at_i +:+ ".name is required") else
  let connectionID := TrimSpace (ra_ConnectionID raw) in
  let ids := normalizeIDs (ra_AuthIDs raw
    ++ if bool_decide (connectionID = "") then [] else [connectionID]) in
  if bool_decide (ids = []) then errorf (at_i +:+ " requires auth-ids or connection-id") else
  let apiKey := TrimSpace (ra_DashboardAPIKey raw) in
  Ok {| ga_Name := name; ga_AuthIDs := ids;
        ga_DashboardAPIKey := if bool_decide (apiKey = "") then moduleKey else apiKey;
        ga_Disabled := ra_Disabled raw |}.

Fixpoint parseAccounts (moduleKey : string) (i : nat) (raws : list rawAccountConfig)
    : res (list accountConfig) :=
  match raws with
  | [] => Ok []
  | raw :: raws' =>
      item ← parseAccount moduleKey i raw;
      items ← parseAccounts moduleKey (S i) raws';
      Ok (item :: items)
  end.

Definition parseConfig (raw : string) : res moduleConfig :=
  if bool_decide (TrimSpace raw = "") || bool_decide (TrimSpace raw = "null")
  then Ok {| gc_Enabled := true; gc_ThresholdPercent := defaultThreshold; gc_DashboardAPIKey := "";
             gc_Accounts := [] |} else
  input ← wrap_err "opencode_go_invalid_config: decode provider config: " (decode_config raw);
  let threshold := default defaultThreshold (rm_ThresholdPercent input) in
  if (threshold <? 1) || (100 <? threshold)
  then errorf "opencode_go_invalid_config: threshold-percent must be between 1 and 100" else
  let key := TrimSpace (rm_DashboardAPIKey input) in
  accounts ← parseAccounts key 0 (rm_Accounts input);
  Ok {| gc_Enabled := default true (rm_Enabled input); gc_ThresholdPercent := threshold;
        gc_DashboardAPIKey := key; gc_Accounts := accounts |}.

(** One account of [buildState], with the lower-case names seen so far. *)
Definition new_account (item : accountConfig) : accountState :=
  {| as_Name := ga_Name item; as_AuthIDs := ga_AuthIDs item; as_Disabled := ga_Disabled item;
     as_DashboardAPIKey := ga_DashboardAPIKey item;
     as_Windows := list_to_map ((λ k, (k, zero_window)) <$> window_kinds);
     as_cursor := 0; as_lastPollAt := 0 |}.

Definition claim_id (name : string) (byAuthID : gmap string string) (authID : string)
    : res (gmap string string) :=
  let owner := default "" (byAuthID !! authID) in
  if negb (bool_decide (owner = ""))
  then errorf ("opencode_go_invalid_config: auth id " +:+ quote authID +:+ " belongs to both "
               +:+ quote owner +:+ " and " +:+ quote name)
  else Ok (<[authID := name]> byAuthID).

Definition buildState_step (acc : gset string * moduleState) (item : accountConfig)
    : res (gset string * moduleState) :=
  let '(seenNames, s) := acc in
  let key := ToLower (ga_Name item) in
  if bool_decide (key ∈ seenNames)
  then errorf ("opencode_go_invalid_config: duplicate account name " +:+ quote (ga_Name item)) else
  byAuthID ← foldl_res (claim_id (ga_Name item)) (st_ByAuthID s) (ga_AuthIDs item);
  Ok ({[key]} ∪ seenNames,
      {| st_Threshold := st_Threshold s;
         st_Accounts := <[ga_Name item := new_account item]> (st_Accounts s);
         st_ByAuthID := byAuthID |}).

Definition buildState (cfg : moduleConfig) : res moduleState :=
  let empty := {| st_Threshold := gc_ThresholdPercent cfg; st_Accounts := ∅; st_ByAuthID := ∅ |} in
  if negb (gc_Enabled cfg) then Ok empty else
  '(_, s) ← foldl_res buildState_step (∅, empty) (gc_Accounts cfg);
  Ok s.

(** What an account keeps over a reconfiguration that leaves its auth IDs alone. *)
Definition carry_account (old : option accountState) (a : accountState) : accountState :=
  match old with
  | Some old =>
      if bool_decide (as_AuthIDs a = as_AuthIDs old)
      then set_windows (foldl (λ ws kind, <[kind := window old kind]> ws) (as_Windows a) window_kinds)
             (set_progress (as_cursor old) (as_lastPollAt old) a)
      else a
  | None => a
  end.

Definition carryForwardState (staged : moduleState) (previous : option moduleState) : moduleState :=
  match previous with
  | None => staged
  | Some previous =>
      {| st_Threshold := st_Threshold staged;
         st_Accounts := map_imap (λ name a, Some (carry_account (st_Accounts previous !! name) a))
           (st_Accounts staged);
         st_ByAuthID := st_ByAuthID staged |}
  end.

Definition bounded (value : string) (limit : nat) : string :=
  let value := TrimSpace value in
  if len value <=? Z.of_nat limit then value
  else prefix_bytes (limit - 17) value +:+ "#" +:+ prefix_bytes 16 (sha256_hex value).

Definition recordError (m : Module_) (e : error) : Module_ :=
  {| md_state := md_state m; md_lastErr := bounded (error_text e) 256; md_closed := md_closed m |}.

Definition Reconfigure (m : Module_) (raw : string) : res unit * Module_ :=
  match (cfg ← parseConfig raw; buildState cfg) with
  | Err e => (Err e, recordError m e)
  | Ok staged =>
      if md_closed m then (errorf "opencode_go_closed: module is closed", m) else
      (Ok (), {| md_state := Some (carryForwardState staged (md_state m)); md_lastErr := "";
                 md_closed := md_closed m |})
  end.

End Config.

(** ** Recognition *)

Definition stateAccountByAuthID (state : option moduleState) (authID : string) : string * bool :=
  match state with
  | None => ("", false)
  | Some s =>
      let name := default "" (st_ByAuthID s !! TrimSpace authID) in
      (name, negb (bool_decide (name = "")))
  end.

Definition provider_claims (candidate : SchedulerAuthCandidate) : list string :=
  (λ v, ToLower (TrimSpace v)) <$>
    [sc_Provider candidate; attribute candidate "provider_key"; attribute candidate "compat_name";
     attribute candidate "provider"].

Definition is_opencode (normalized : string) : bool :=
  bool_decide (normalized = providerID)
  || bool_decide (normalized = "openai-compatible-" +:+ providerID).

Definition candidateClaimsOpenCodeGo (candidate : SchedulerAuthCandidate) : bool :=
  existsb is_opencode (provider_claims candidate).

Definition candidateClaimsOtherProvider (candidate : SchedulerAuthCandidate) : bool :=
  existsb (λ v, negb (bool_decide (v = "")) && negb (is_opencode v)) (provider_claims candidate).

Definition Recognize (m : Module_) (candidate : SchedulerAuthCandidate) : bool :=
  if (stateAccountByAuthID (md_state m) (sc_ID candidate)).2
  then candidateClaimsOpenCodeGo candidate || negb (candidateClaimsOtherProvider candidate)
  else candidateClaimsOpenCodeGo candidate.

Definition OwnedAuthIDs (m : Module_) : list string :=
  match md_state m with
  | None => []
  | Some s => sort_by id (map_to_list (st_ByAuthID s)).*1
  end.

(** ** Windows *)

Definition refresh_window (now : Time) (a : accountState) (kind : windowKind) : accountState :=
  let w := window a kind in
  if negb (time_IsZero (ws_CooldownAt w)) && negb (time_After (ws_CooldownAt w) now)
  then set_windows (<[kind := zero_window]> (as_Windows a)) a else a.

Definition refreshWindows (a : accountState) (now : Time) : accountState :=
  foldl (refresh_window now) a window_kinds.

Definition mergeWindowSignal (current incoming : windowState) : windowState :=
  if negb (ws_Known current) then incoming else
  if ws_Authoritative incoming && negb (time_Before (ws_ObservedAt incoming) (ws_ObservedAt current))
  then incoming else
  if negb (ws_Authoritative incoming) then
    if ws_Exhausted current && time_After (ws_ResetAt current) (ws_ObservedAt incoming)
       && time_After (ws_ResetAt current) (ws_ResetAt incoming)
    then current else incoming
  else current.

(** A window that blocks its account. *)
Definition window_blocks (limit : float64) (now : Time) (w : windowState) : bool :=
  (ws_Exhausted w && (time_IsZero (ws_CooldownAt w) || time_After (ws_CooldownAt w) now))
  || match ws_Utilization w with Some u => fle limit u | None => false end.

Definition accountHealthy (a : accountState) (threshold : Z) (now : Time) : bool :=
  if as_Disabled a then false else
  let limit := fdiv (float_of_Z threshold) (float_of_Z 100) in
  forallb (λ kw, negb (window_blocks limit now kw.2)) (map_to_list (as_Windows a)).

(** ** The choice *)

Definition requestTime `{GoStd} (req : SchedulerPickRequest) (wall : Time) : Time :=
  match sp_Now req with
  | Some (NowTime t) => t
  | Some (NowString s) => default wall (parse_rfc3339 s)
  | _ => wall
  end.

Definition not_configured : error :=
  newSchedulerError "opencode_go_not_configured" "OpenCode Go scheduler is not configured".
Definition unmanaged_candidate : error :=
  newSchedulerError "opencode_go_unmanaged_candidate"
    "recognized OpenCode Go credential is absent from the validated account snapshot".
Definition no_capacity : error :=
  newSchedulerError "opencode_go_no_capacity" "no healthy managed OpenCode Go capacity remains".

(** The first loop: what was recognised, the names of the healthy accounts, and
    the state so far; an error ends it. *)
Fixpoint pick_scan (s : moduleState) (now : Time) (candidates : list SchedulerAuthCandidate)
    (recognized : bool) (healthy : gset string) : res (bool * gset string) * moduleState :=
  match candidates with
  | [] => (Ok (recognized, healthy), s)
  | candidate :: rest =>
      let '(name, managed) := stateAccountByAuthID (Some s) (sc_ID candidate) in
      let claims := candidateClaimsOpenCodeGo candidate in
      if claims && negb managed then (Err unmanaged_candidate, s) else
      let recognized := recognized || claims in
      if negb managed then pick_scan s now rest recognized healthy else
      if candidateClaimsOtherProvider candidate then pick_scan s now rest recognized healthy else
      match st_Accounts s !! name with
      | None => pick_scan s now rest true healthy
      | Some a =>
          let a := refreshWindows a now in
          pick_scan (put_account name a s) now rest true
            (if accountHealthy a (st_Threshold s) now then {[name]} ∪ healthy else healthy)
      end
  end.

(** The candidates the second loop keeps. *)
Definition eligible (s : moduleState) (healthy : gset string) (candidate : SchedulerAuthCandidate)
    : bool :=
  let '(name, managed) := stateAccountByAuthID (Some s) (sc_ID candidate) in
  negb (candidateClaimsOtherProvider candidate) && managed && bool_decide (name ∈ healthy).

Definition select_candidate (s : moduleState) (candidates : list SchedulerAuthCandidate)
    : res SchedulerPickResponse * moduleState :=
  match candidates with
  | [] => (Err no_capacity, s)
  | first :: _ =>
      let name := (stateAccountByAuthID (Some s) (sc_ID first)).1 in
      match st_Accounts s !! name with
      | None => (Err no_capacity, s)
      | Some a =>
          let selected :=
            candidates !! Z.to_nat (as_cursor a mod Z.of_nat (length candidates)) in
          (Ok (selected_auth (default "" (sc_ID <$> selected))),
           put_account name (set_progress (wrapu64 (as_cursor a + 1)) (as_lastPollAt a) a) s)
      end
  end.

Definition Pick `{GoStd} (m : Module_) (req : SchedulerPickRequest) (wall : Time)
    : res SchedulerPickResponse * Module_ :=
  let now := requestTime req wall in
  match md_state m with
  | None => (Err not_configured, m)
  | Some s =>
  if md_closed m then (Err not_configured, m) else
  match pick_scan s now (sp_Candidates req) false ∅ with
  | (Err e, s) => (Err e, put_state s m)
  | (Ok (recognized, healthy), s) =>
      if negb recognized then (Ok not_handled, put_state s m) else
      if bool_decide (healthy = ∅) then (Err no_capacity, put_state s m) else
      let candidates :=
        sort_by sc_ID (filter (λ c, eligible s healthy c = true) (sp_Candidates req)) in
      let '(resp, s) := select_candidate s candidates in
      (resp, put_state s m)
  end end.

(** ** Usage *)

Definition quota_signal (kind : windowKind) (now resetAt cooldownAt : Time) : windowState :=
  {| ws_Utilization := Some (float_of_Z 1); ws_Exhausted := true; ws_ResetAt := resetAt;
     ws_CooldownAt := cooldownAt;
     ws_Source := "proxy-observed " +:+ window_text kind +:+ " quota response";
     ws_Known := true; ws_Authoritative := false; ws_ObservedAt := now |}.

Definition set_cooldown (cooldownAt : Time) (w : windowState) : windowState :=
  {| ws_Utilization := ws_Utilization w; ws_Exhausted := ws_Exhausted w; ws_ResetAt := ws_ResetAt w;
     ws_CooldownAt := cooldownAt; ws_Source := ws_Source w; ws_Known := ws_Known w;
     ws_Authoritative := ws_Authoritative w; ws_ObservedAt := ws_ObservedAt w |}.

(** A window after a quota response without and with a known reset. *)
Definition signal_window (current : windowState) (kind : windowKind) (now : Time)
    (reset : option Time) : windowState :=
  let cooldownAt := default (time_Add now defaultFailureCooldown) reset in
  let merged := mergeWindowSignal current (quota_signal kind now (default 0 reset) cooldownAt) in
  if time_After cooldownAt (ws_CooldownAt merged) then set_cooldown cooldownAt merged else merged.

Definition HandleUsage `{GoStd} (m : Module_) (record : UsageRecord) (wall : Time) : Module_ :=
  match md_state m with
  | None => m
  | Some s =>
  if md_closed m then m else
  let '(name, managed) := stateAccountByAuthID (Some s) (ur_AuthID record) in
  if negb managed || negb (ur_Failed record) then m else
  let now := if time_IsZero (ur_RequestedAt record) then wall else ur_RequestedAt record in
  if isMicrothrottle record then m else
  let failure := ur_Failure record in
  match quotaWindow (uf_Body failure), st_Accounts s !! name with
  | Some kind, Some a =>
      if negb (uf_StatusCode failure =? 429) then m else
      let reset :=
        match retryAfterReset (ur_ResponseHeaders record) now with
        | Some r => Some r
        | None => bodyReset (uf_Body failure) now
        end in
      put_state (put_account name
        (set_windows (<[kind := signal_window (window a kind) kind now reset]> (as_Windows a)) a) s) m
  | _, _ => m
  end
  end.

(** ** Polls *)

(** The first part of [pollUsageOnce]: the accounts to poll with their keys. *)
Definition poll_due (now : Time) (a : accountState) : bool :=
  negb (bool_decide (as_DashboardAPIKey a = ""))
  && negb (negb (time_IsZero (as_lastPollAt a))
           && (time_Sub now (as_lastPollAt a) <? minPollInterval)).

Definition poll_begin (m : Module_) (now : Time) : list (string * string) * Module_ :=
  match md_state m with
  | None => ([], m)
  | Some s =>
  if md_closed m then ([], m) else
  ((λ na, (na.1, as_DashboardAPIKey na.2))
     <$> filter (λ na, poll_due now na.2 = true) (map_to_list (st_Accounts s)),
   put_state
     {| st_Threshold := st_Threshold s;
        st_Accounts := (λ a, if poll_due now a then set_progress (as_cursor a) now a else a)
                         <$> st_Accounts s;
        st_ByAuthID := st_ByAuthID s |} m)
  end.

Definition snapshotWindows (snapshot : usageSnapshot) (kind : windowKind) : usageWindow :=
  match kind with
  | windowFiveHour => us_FiveHour snapshot
  | windowWeekly => us_Weekly snapshot
  | windowMonthly => us_Monthly snapshot
  end.

Definition poll_signal (snapshot : usageSnapshot) (kind : windowKind) : windowState :=
  let w := snapshotWindows snapshot kind in
  {| ws_Utilization := Some (uw_Utilization w); ws_Exhausted := uw_LimitReached w;
     ws_ResetAt := uw_ResetAt w; ws_CooldownAt := 0; ws_Source := "dashboard usage poll";
     ws_Known := true; ws_Authoritative := true; ws_ObservedAt := us_ObservedAt snapshot |}.

Definition apply_snapshot (snapshot : usageSnapshot) (a : accountState) : accountState :=
  foldl (λ a kind, set_windows
    (<[kind := mergeWindowSignal (window a kind) (poll_signal snapshot kind)]> (as_Windows a)) a)
    a window_kinds.

(** The second part: the results in the order they arrived. *)
Definition poll_apply (s : moduleState) (result : string * res usageSnapshot) : moduleState :=
  match result.2, st_Accounts s !! result.1 with
  | Ok snapshot, Some a => put_account result.1 (apply_snapshot snapshot a) s
  | _, _ => s
  end.

Definition poll_end (m : Module_) (results : list (string * res usageSnapshot)) : Module_ :=
  match md_state m with
  | None => m
  | Some s => if md_closed m then m else put_state (foldl poll_apply s results) m
  end.

(** The whole of it, when nothing comes between and the answers arrive in order. *)
Definition pollUsageOnce (fetch : string → res usageSnapshot) (m : Module_) (now : Time) : Module_ :=
  let '(targets, m) := poll_begin m now in
  match targets with
  | [] => m
  | _ :: _ => poll_end m ((λ t, (t.1, fetch t.2)) <$> targets)
  end.

(** ** Status *)

Record statusWindow := {
  sw_Known : bool;
  sw_Utilization : option float64;
  sw_Exhausted : bool;
  sw_ResetAt : option Time;
  sw_Source : string;
  sw_Authoritative : bool;
}.

Record statusAccount := {
  sa_Name : string;
  sa_Disabled : bool;
  sa_Windows : list (windowKind * statusWindow);
}.

Record statusBody := {
  sb_Provider : string;
  sb_Status : string;
  sb_ValidationError : string;
  sb_CredentialBound : bool;
  sb_Accounts : list statusAccount;
  sb_ObservationGaps : list string;
}.

Definition status_window (w : windowState) : statusWindow :=
  if ws_Known w then
    {| sw_Known := true; sw_Utilization := ws_Utilization w; sw_Exhausted := ws_Exhausted w;
       sw_ResetAt := if time_IsZero (ws_ResetAt w) then None else Some (ws_ResetAt w);
       sw_Source := ws_Source w; sw_Authoritative := ws_Authoritative w |}
  else
    {| sw_Known := false; sw_Utilization := None; sw_Exhausted := false; sw_ResetAt := None;
       sw_Source := "unknown"; sw_Authoritative := false |}.

Definition status_account (a : accountState) : statusAccount :=
  {| sa_Name := as_Name a; sa_Disabled := as_Disabled a;
     sa_Windows := (λ kind, (kind, status_window (window a kind))) <$> window_kinds |}.

Definition observation_gaps (credentialBound : bool) : list string :=
  "five-hour and weekly enforcement are generalized from the observed monthly 429 shape"
  :: if credentialBound then []
     else ["no dashboard credential is configured -- five_hour/weekly/monthly reset times are unknown until dashboard-api-key is set"].

(** [Status] after its poll. *)
Definition status_body (m : Module_) (now : Time) : statusBody * Module_ :=
  let bound := match md_state m with
    | Some s => bool_decide (map_Exists (λ _ a, as_DashboardAPIKey a ≠ "") (st_Accounts s))
    | None => false
    end in
  let body accounts :=
    {| sb_Provider := providerID;
       sb_Status := if bool_decide (md_lastErr m = "") then "registered" else "reconfigure_rejected";
       sb_ValidationError := md_lastErr m; sb_CredentialBound := bound;
       sb_Accounts := accounts; sb_ObservationGaps := observation_gaps bound |} in
  match md_state m with
  | None => (body [], m)
  | Some s =>
      let accounts := (λ a, refreshWindows a now) <$> st_Accounts s in
      (body (status_account <$> omap (λ name, accounts !! name) (sort_by id (map_to_list accounts).*1)),
       put_state {| st_Threshold := st_Threshold s; st_Accounts := accounts;
                    st_ByAuthID := st_ByAuthID s |} m)
  end.

Definition Status (fetch : string → res usageSnapshot) (m : Module_) (polled now : Time)
    : statusBody * Module_ := status_body (pollUsageOnce fetch m polled) now.

Definition Close (m : Module_) : Module_ :=
  {| md_state := None; md_lastErr := md_lastErr m; md_closed := true |}.

(** ** Lemmas on windows *)

(** A window whose cooldown is over. *)
Definition cooled (now : Time) (w : windowState) : bool :=
  negb (time_IsZero (ws_CooldownAt w)) && negb (time_After (ws_CooldownAt w) now).

(** What every operation but a reconfiguration leaves of an account. *)
Record account_frame (a a' : accountState) : Prop := {
  af_Name : as_Name a' = as_Name a;
  af_AuthIDs : as_AuthIDs a' = as_AuthIDs a;
  af_Disabled : as_Disabled a' = as_Disabled a;
  af_Key : as_DashboardAPIKey a' = as_DashboardAPIKey a;
  af_windows : ∀ k, is_Some (as_Windows a !! k) → is_Some (as_Windows a' !! k);
}.

#[global] Instance account_frame_refl : Reflexive account_frame.
Proof. by split. Qed.

#[global] Instance account_frame_trans : Transitive account_frame.
Proof. intros a b c [] []. split; first [congruence|auto]. Qed.

Lemma set_window_frame a k w : account_frame a (set_windows (<[k := w]> (as_Windows a)) a).
Proof.
  split; try done. intros k' Hk. cbn [set_windows as_Windows].
  destruct (decide (k = k')) as [->|]; [by rewrite lookup_insert_eq|by rewrite lookup_insert_ne].
Qed.

Lemma window_set a k k' w :
  window (set_windows (<[k := w]> (as_Windows a)) a) k' = if decide (k = k') then w else window a k'.
Proof.
  unfold window. cbn [set_windows as_Windows]. destruct (decide (k = k')) as [->|].
  - by rewrite lookup_insert_eq.
  - by rewrite lookup_insert_ne.
Qed.

(** A loop over the kinds that sets each window from what it was. *)
Lemma foldl_windows (f : windowKind → windowState → windowState)
    (step : accountState → windowKind → accountState) a :
  (∀ a k, account_frame a (step a k)
    ∧ as_cursor (step a k) = as_cursor a ∧ as_lastPollAt (step a k) = as_lastPollAt a
    ∧ ∀ k', window (step a k) k' = if decide (k = k') then f k (window a k) else window a k') →
  let a' := foldl step a window_kinds in
  account_frame a a' ∧ as_cursor a' = as_cursor a ∧ as_lastPollAt a' = as_lastPollAt a
  ∧ ∀ k, window a' k = f k (window a k).
Proof.
  intros Hstep. cbn [foldl window_kinds].
  destruct (Hstep a windowFiveHour) as (F1 & C1 & P1 & W1).
  set (a1 := step a windowFiveHour) in *.
  destruct (Hstep a1 windowWeekly) as (F2 & C2 & P2 & W2).
  set (a2 := step a1 windowWeekly) in *.
  destruct (Hstep a2 windowMonthly) as (F3 & C3 & P3 & W3).
  split; [by do 2 (etrans; [eassumption|])|]. split; [congruence|]. split; [congruence|].
  intros []; rewrite W3; simpl; rewrite W2; simpl; by rewrite W1.
Qed.

Lemma refreshWindows_spec a now :
  account_frame a (refreshWindows a now)
  ∧ as_cursor (refreshWindows a now) = as_cursor a
  ∧ as_lastPollAt (refreshWindows a now) = as_lastPollAt a
  ∧ ∀ k, window (refreshWindows a now) k
         = if cooled now (window a k) then zero_window else window a k.
Proof.
  apply (foldl_windows (λ _ w, if cooled now w then zero_window else w) (refresh_window now)).
  clear a. intros a k. unfold refresh_window. fold (cooled now (window a k)).
  destruct (cooled now (window a k)).
  - split; [apply set_window_frame|]. do 2 (split; [done|]). intros k'. apply window_set.
  - split; [done|]. do 2 (split; [done|]). intros k'. by destruct (decide (k = k')) as [->|].
Qed.

Lemma apply_snapshot_spec snapshot a :
  account_frame a (apply_snapshot snapshot a)
  ∧ as_cursor (apply_snapshot snapshot a) = as_cursor a
  ∧ as_lastPollAt (apply_snapshot snapshot a) = as_lastPollAt a
  ∧ ∀ k, window (apply_snapshot snapshot a) k
         = mergeWindowSignal (window a k) (poll_signal snapshot k).
Proof.
  apply (foldl_windows (λ k w, mergeWindowSignal w (poll_signal snapshot k))
    (λ a kind, set_windows
      (<[kind := mergeWindowSignal (window a kind) (poll_signal snapshot kind)]> (as_Windows a)) a)).
  clear a. intros a k. split; [apply set_window_frame|]. do 2 (split; [done|]).
  intros k'. apply window_set.
Qed.

(** All three windows are there. *)
Definition windows_full (a : accountState) : Prop := ∀ k, is_Some (as_Windows a !! k).

Lemma frame_windows_full a a' : account_frame a a' → windows_full a → windows_full a'.
Proof. intros Hf Ha k. by apply Hf. Qed.

Lemma accountHealthy_iff a threshold now :
  windows_full a →
  accountHealthy a threshold now = true ↔
  as_Disabled a = false
  ∧ ∀ k, window_blocks (fdiv (float_of_Z threshold) (float_of_Z 100)) now (window a k) = false.
Proof.
  intros Hfull. unfold accountHealthy. destruct (as_Disabled a); [by split; [|intros []]|].
  cbv zeta. rewrite forallb_forall. split.
  - intros Hall. split; [done|]. intros k. destruct (Hfull k) as [w Hw].
    assert (negb (window_blocks (fdiv (float_of_Z threshold) (float_of_Z 100)) now w) = true) as Hb.
    { apply (Hall (k, w)). by apply list_elem_of_In, elem_of_map_to_list. }
    unfold window. rewrite Hw. by apply negb_true_iff.
  - intros [_ Hall] [k w] Hin%list_elem_of_In%elem_of_map_to_list. apply negb_true_iff.
    specialize (Hall k). unfold window in Hall. by rewrite Hin in Hall.
Qed.

(** ** The state's invariant *)

Definition id_ok (id : string) : Prop := TrimSpace id = id ∧ id ≠ "".

Definition config_item_ok (item : accountConfig) : Prop :=
  ga_Name item ≠ "" ∧ Forall id_ok (ga_AuthIDs item).

Lemma normalizeIDs_ok values : Forall id_ok (normalizeIDs values).
Proof.
  unfold normalizeIDs. rewrite sort_by_perm. assert (Forall id_ok (@nil string)) as H by constructor.
  revert H. generalize (@nil string). induction values as [|v values IH]; simpl; [done|].
  intros out Hout. apply IH. unfold normalizeIDs_step. cbv zeta.
  destruct (bool_decide (TrimSpace v = "")) eqn:Hv; [done|]. crush_bool.
  destruct (bool_decide _); [done|]. apply Forall_app. split; [done|].
  constructor; [|constructor]. split; [apply TrimSpace_idemp|done].
Qed.

Lemma parseAccounts_ok `{GoStd} key i raws items :
  parseAccounts key i raws = Ok items → Forall config_item_ok items.
Proof.
  revert i items. induction raws as [|raw raws IH]; simpl; intros i items.
  { intros [= <-]. constructor. }
  destruct (parseAccount key i raw) as [item|] eqn:Hitem; [|done]. cbn [mbind res_bind].
  destruct (parseAccounts key (S i) raws) as [rest|] eqn:Hrest; [|done]. intros [= <-].
  constructor; [|by eapply IH]. revert Hitem. unfold parseAccount. cbv zeta.
  destruct (bool_decide (TrimSpace (ra_Name raw) = "")) eqn:Hn; [done|]. crush_bool.
  destruct (bool_decide (normalizeIDs _ = [])); [done|]. intros [= <-].
  split; [done|]. apply normalizeIDs_ok.
Qed.

Lemma parseConfig_ok `{GoStd} decode raw cfg :
  parseConfig decode raw = Ok cfg →
  1 <= gc_ThresholdPercent cfg <= 100 ∧ Forall config_item_ok (gc_Accounts cfg).
Proof.
  unfold parseConfig. destruct (_ || _).
  { intros [= <-]. split; [done|constructor]. }
  unfold wrap_err. destruct (decode raw) as [input|]; [|done]. cbn [mbind res_bind].
  destruct (_ || _) eqn:Hth; [done|]. cbv zeta.
  destruct (parseAccounts _ _ _) as [accounts|] eqn:Ha; [|done]. intros [= <-].
  crush_bool. split; [simpl; lia|]. by eapply parseAccounts_ok.
Qed.

(** Every ID of an account is claimed by it, and the index is exact. *)
Definition names_ok (m : gmap string string) : Prop := ∀ id name, m !! id = Some name → name ≠ "".

Lemma claim_ids_ok `{GoStd} name ids m m' :
  name ≠ "" → names_ok m → foldl_res (claim_id name) m ids = Ok m' →
  names_ok m' ∧ ∀ id n, m' !! id = Some n ↔ m !! id = Some n ∨ n = name ∧ id ∈ ids.
Proof.
  intros Hname. revert m. induction ids as [|id0 ids IH]; intros m Hm; cbn [foldl_res].
  { intros [= <-]. split; [done|]. intros id n. rewrite elem_of_nil. tauto. }
  destruct (claim_id name m id0) as [m1|] eqn:Hc; [|done]. cbn [mbind res_bind]. intros Hf.
  assert (m !! id0 = None ∧ m1 = <[id0 := name]> m) as [Hno ->].
  { revert Hc. unfold claim_id. cbv zeta. destruct (negb _) eqn:Ho; [done|]. crush_bool.
    intros [= <-]. destruct (m !! id0) as [o|] eqn:Hl; [|done]. by apply Hm in Hl. }
  assert (names_ok (<[id0 := name]> m)) as Hm1.
  { intros id n. destruct (decide (id0 = id)) as [->|].
    - rewrite lookup_insert_eq. by intros [= <-].
    - rewrite lookup_insert_ne by done. apply Hm. }
  destruct (IH _ Hm1 Hf) as [Hok Hlook]. split; [done|]. intros id n. rewrite Hlook, elem_of_cons.
  destruct (decide (id0 = id)) as [->|].
  - rewrite lookup_insert_eq, Hno. naive_solver.
  - rewrite lookup_insert_ne by done. naive_solver.
Qed.

Record state_ok (s : moduleState) : Prop := {
  so_threshold : 1 <= st_Threshold s <= 100;
  so_index id name : st_ByAuthID s !! id = Some name ↔
    ∃ a, st_Accounts s !! name = Some a ∧ id ∈ as_AuthIDs a;
  so_account name a : st_Accounts s !! name = Some a →
    as_Name a = name ∧ name ≠ "" ∧ Forall id_ok (as_AuthIDs a) ∧ windows_full a;
  so_names n n' : is_Some (st_Accounts s !! n) → is_Some (st_Accounts s !! n') →
    ToLower n = ToLower n' → n = n';
}.

Lemma new_account_full item : windows_full (new_account item).
Proof. intros []; by eexists. Qed.

Lemma buildState_ok `{GoStd} cfg s :
  1 <= gc_ThresholdPercent cfg <= 100 → Forall config_item_ok (gc_Accounts cfg) →
  buildState cfg = Ok s → state_ok s.
Proof.
  intros Hth Hitems. unfold buildState. set (empty := {| st_Threshold := _ |}).
  assert (state_ok empty) as Hempty.
  { split; cbn [empty st_Threshold st_Accounts st_ByAuthID]; [done| | |].
    - intros id name. rewrite lookup_empty. split; [done|]. intros (a & Ha & _).
      by rewrite lookup_empty in Ha.
    - intros name a. by rewrite lookup_empty.
    - intros n n' [a Ha]. by rewrite lookup_empty in Ha. }
  destruct (negb _); [by intros [= <-]|].
  destruct (foldl_res _ _ _) as [[seen s']|] eqn:Hf; [|done]. intros [= ->].
  apply (foldl_res_ind (λ k acc, Forall config_item_ok k → names_ok (st_ByAuthID acc.2) ∧
    (∀ n, is_Some (st_Accounts acc.2 !! n) → ToLower n ∈ acc.1) ∧ state_ok acc.2)) in Hf.
  - by apply Hf.
  - intros _. unfold empty in *. split; [intros id n; cbn; by rewrite lookup_empty|].
    split; [|done]. cbn [fst snd st_Accounts]. intros n [a Ha]. by rewrite lookup_empty in Ha.
  - clear. intros k [seen s] item [seen' s'] IH Hstep Hk.
    apply Forall_app in Hk as [Hk [[Hname Hids] _]%Forall_cons].
    destruct (IH Hk) as (Hn & Hseen & Hok). clear IH. cbn [fst snd] in *. revert Hstep.
    unfold buildState_step. cbv zeta. destruct (bool_decide _) eqn:Hfresh; [done|]. crush_bool.
    destruct (foldl_res (claim_id _) _ _) as [byAuthID|] eqn:Hc; [|done]. intros [= <- <-].
    apply claim_ids_ok in Hc as [Hn' Hlook]; [|done|done].
    assert (st_Accounts s !! ga_Name item = None) as Hno.
    { destruct (st_Accounts s !! ga_Name item) eqn:E; [|done]. exfalso. by apply Hfresh, Hseen. }
    cbn [fst snd st_ByAuthID st_Accounts]. split; [done|]. split.
    + intros n. destruct (decide (ga_Name item = n)) as [<-|]; [set_solver|].
      rewrite lookup_insert_ne by done. intros Ha. apply elem_of_union_r. by apply Hseen.
    + split; cbn [st_Threshold st_Accounts st_ByAuthID].
      * apply Hok.
      * intros id name. rewrite Hlook, (so_index s Hok).
        destruct (decide (ga_Name item = name)) as [<-|].
        -- rewrite lookup_insert_eq, Hno. split.
           ++ intros [(a & ? & _)|[_ Hid]]; [done|]. by exists (new_account item).
           ++ intros (a & [= <-] & Hid). by right.
        -- rewrite lookup_insert_ne by done. naive_solver.
      * intros name a. destruct (decide (ga_Name item = name)) as [<-|].
        -- rewrite lookup_insert_eq. intros [= <-]. split_and!; [done..|apply new_account_full].
        -- rewrite lookup_insert_ne by done. apply Hok.
      * intros n n'. destruct (decide (ga_Name item = n)) as [<-|], (decide (ga_Name item = n')) as [<-|];
          rewrite ?lookup_insert_eq, ?lookup_insert_ne by done; [done| | |apply Hok];
          intros H1 H2 Hlow; exfalso; apply Hfresh; [rewrite Hlow|rewrite <- Hlow]; by apply Hseen.
  - done.
Qed.

(** What keeps the invariant: the accounts change in windows and counters only. *)
Definition state_frame (s s' : moduleState) : Prop :=
  st_Threshold s' = st_Threshold s ∧ st_ByAuthID s' = st_ByAuthID s
  ∧ ∀ name, option_relation account_frame (λ _, False) (λ _, False)
      (st_Accounts s !! name) (st_Accounts s' !! name).

#[global] Instance state_frame_refl : Reflexive state_frame.
Proof. intros s. do 2 (split; [done|]). intros name. by destruct (st_Accounts s !! name). Qed.

#[global] Instance state_frame_trans : Transitive state_frame.
Proof.
  intros s1 s2 s3 (T1 & I1 & A1) (T2 & I2 & A2). split; [congruence|]. split; [congruence|].
  intros name. specialize (A1 name). specialize (A2 name).
  destruct (st_Accounts s1 !! name), (st_Accounts s2 !! name), (st_Accounts s3 !! name);
    simpl in *; try done. by etrans.
Qed.

Lemma put_account_frame name a a' s :
  st_Accounts s !! name = Some a → account_frame a a' → state_frame s (put_account name a' s).
Proof.
  intros Ha Hf. do 2 (split; [done|]). intros n. cbn [put_account st_Accounts].
  destruct (decide (name = n)) as [<-|].
  - by rewrite Ha, lookup_insert_eq.
  - rewrite lookup_insert_ne by done. by destruct (st_Accounts s !! n).
Qed.

Lemma frame_lookup s s' name a' :
  state_frame s s' → st_Accounts s' !! name = Some a' →
  ∃ a, st_Accounts s !! name = Some a ∧ account_frame a a'.
Proof.
  intros (_ & _ & Hf) Ha. specialize (Hf name). rewrite Ha in Hf.
  destruct (st_Accounts s !! name) as [a|]; [by exists a|done].
Qed.

Lemma frame_lookup_back s s' name a :
  state_frame s s' → st_Accounts s !! name = Some a →
  ∃ a', st_Accounts s' !! name = Some a' ∧ account_frame a a'.
Proof.
  intros (_ & _ & Hf) Ha. specialize (Hf name). rewrite Ha in Hf.
  destruct (st_Accounts s' !! name) as [a'|]; [by exists a'|done].
Qed.

Lemma state_frame_ok s s' : state_frame s s' → state_ok s → state_ok s'.
Proof.
  intros Hf Hok. pose proof Hf as (Ht & Hi & _).
  split.
  - rewrite Ht. apply Hok.
  - intros id name. rewrite Hi, (so_index s Hok). split.
    + intros (a & Ha & Hid). destruct (frame_lookup_back _ _ _ _ Hf Ha) as (a' & Ha' & F).
      exists a'. split; [done|]. by rewrite (af_AuthIDs _ _ F).
    + intros (a' & Ha' & Hid). destruct (frame_lookup _ _ _ _ Hf Ha') as (a & Ha & F).
      exists a. split; [done|]. by rewrite <- (af_AuthIDs _ _ F).
  - intros name a' Ha'. destruct (frame_lookup _ _ _ _ Hf Ha') as (a & Ha & F).
    destruct (so_account s Hok name a Ha) as (Hn & Hne & Hids & Hw).
    rewrite (af_Name _ _ F), (af_AuthIDs _ _ F). split_and!; try done. by eapply frame_windows_full.
  - intros n n' [a Ha] [a' Ha'].
    destruct (frame_lookup _ _ _ _ Hf Ha) as (b & Hb & _).
    destruct (frame_lookup _ _ _ _ Hf Ha') as (b' & Hb' & _). apply (so_names s Hok); by eexists.
Qed.

(** A map of a frame over the accounts. *)
Lemma map_frame (f : accountState → accountState) s :
  (∀ a, account_frame a (f a)) →
  state_frame s {| st_Threshold := st_Threshold s; st_Accounts := f <$> st_Accounts s;
                   st_ByAuthID := st_ByAuthID s |}.
Proof.
  intros Hf. do 2 (split; [done|]). intros name. cbn [st_Accounts]. rewrite lookup_fmap.
  destruct (st_Accounts s !! name); simpl; [apply Hf|done].
Qed.

(** ** Lemmas on the choice *)

Lemma refresh_window_id now a kind : cooled now (window a kind) = false → refresh_window now a kind = a.
Proof. unfold refresh_window. fold (cooled now (window a kind)). by intros ->. Qed.

Lemma refreshWindows_id a now :
  (∀ k, cooled now (window a k) = false) → refreshWindows a now = a.
Proof.
  intros Hc. unfold refreshWindows. cbn [foldl window_kinds].
  by rewrite (refresh_window_id now a windowFiveHour), (refresh_window_id now a windowWeekly),
    (refresh_window_id now a windowMonthly) by apply Hc.
Qed.

Lemma refreshWindows_idemp a now : refreshWindows (refreshWindows a now) now = refreshWindows a now.
Proof.
  apply refreshWindows_id. intros k. destruct (refreshWindows_spec a now) as (_ & _ & _ & ->).
  by destruct (cooled now (window a k)) eqn:Hc.
Qed.

(** The account that owns a candidate, and whether it may serve now. *)
Definition owner (s : moduleState) (c : SchedulerAuthCandidate) : string :=
  (stateAccountByAuthID (Some s) (sc_ID c)).1.

Definition managed (s : moduleState) (c : SchedulerAuthCandidate) : bool :=
  (stateAccountByAuthID (Some s) (sc_ID c)).2.

Definition account_ready (s : moduleState) (now : Time) (name : string) : bool :=
  match st_Accounts s !! name with
  | Some a => accountHealthy (refreshWindows a now) (st_Threshold s) now
  | None => false
  end.

(** A managed candidate that names no other provider. *)
Definition own_candidate (s : moduleState) (c : SchedulerAuthCandidate) : bool :=
  managed s c && negb (candidateClaimsOtherProvider c).

Definition recognized (s : moduleState) (c : SchedulerAuthCandidate) : bool :=
  candidateClaimsOpenCodeGo c || own_candidate s c.

(** The states a scan goes through: some accounts refreshed at its time. *)
Definition touched (now : Time) (s s' : moduleState) : Prop :=
  st_Threshold s' = st_Threshold s ∧ st_ByAuthID s' = st_ByAuthID s
  ∧ ∀ name, st_Accounts s' !! name = st_Accounts s !! name
      ∨ st_Accounts s' !! name = (λ a, refreshWindows a now) <$> st_Accounts s !! name.

#[global] Instance touched_refl now : Reflexive (touched now).
Proof. intros s. split_and!; auto. Qed.

#[global] Instance touched_trans now : Transitive (touched now).
Proof.
  intros s1 s2 s3 (T1 & I1 & A1) (T2 & I2 & A2). split; [congruence|]. split; [congruence|].
  intros name. destruct (A1 name) as [H1|H1], (A2 name) as [H2|H2]; rewrite H2, H1; auto.
  right. destruct (st_Accounts s1 !! name); [|done]. simpl. by rewrite refreshWindows_idemp.
Qed.

Lemma put_refreshed_touched now s name a :
  st_Accounts s !! name = Some a → touched now s (put_account name (refreshWindows a now) s).
Proof.
  intros Ha. do 2 (split; [done|]). intros n. cbn [put_account st_Accounts].
  destruct (decide (name = n)) as [<-|]; [rewrite lookup_insert_eq, Ha; by right|].
  rewrite lookup_insert_ne by done. by left.
Qed.

Lemma touched_ready now s s' name : touched now s s' → account_ready s' now name = account_ready s now name.
Proof.
  intros (Ht & _ & Ha). unfold account_ready. rewrite Ht.
  destruct (Ha name) as [-> | ->]; [done|]. destruct (st_Accounts s !! name); [|done].
  simpl. by rewrite refreshWindows_idemp.
Qed.

Lemma touched_owner now s s' c :
  touched now s s' → owner s' c = owner s c ∧ managed s' c = managed s c.
Proof. intros (_ & Hi & _). unfold owner, managed, stateAccountByAuthID. by rewrite Hi. Qed.

Lemma touched_frame now s s' : touched now s s' → state_frame s s'.
Proof.
  intros (Ht & Hi & Ha). split; [done|]. split; [done|]. intros name.
  destruct (Ha name) as [-> | ->]; destruct (st_Accounts s !! name) as [a|]; simpl; try done.
  apply refreshWindows_spec.
Qed.

Lemma touched_recognized now s s' c : touched now s s' → recognized s' c = recognized s c.
Proof. intros Ht. unfold recognized, own_candidate. by destruct (touched_owner now s s' c Ht) as [_ ->]. Qed.

Lemma pick_scan_spec now cs s rec healthy :
  let '(result, s') := pick_scan s now cs rec healthy in
  touched now s s'
  ∧ match result with
    | Err e => e = unmanaged_candidate
        ∧ ∃ c, c ∈ cs ∧ candidateClaimsOpenCodeGo c = true ∧ managed s c = false
    | Ok (rec', healthy') =>
        (∀ c, c ∈ cs → candidateClaimsOpenCodeGo c = true → managed s c = true)
        ∧ rec' = rec || existsb (recognized s) cs
        ∧ ∀ name, name ∈ healthy' ↔ name ∈ healthy
            ∨ ∃ c, c ∈ cs ∧ own_candidate s c = true ∧ owner s c = name
                   ∧ account_ready s now name = true
    end.
Proof.
  revert s rec healthy. induction cs as [|c cs IH]; intros s rec healthy.
  { split; [done|]. split; [by intros c ?%elem_of_nil|]. split; [by rewrite orb_false_r|].
    intros name. split; [by left|]. intros [?|(c & ?%elem_of_nil & _)]; done. }
  cbn [pick_scan]. change (stateAccountByAuthID (Some s) (sc_ID c)) with (owner s c, managed s c).
  cbv zeta.
  assert (∀ s1 rec1 healthy1,
    touched now s s1 → (candidateClaimsOpenCodeGo c = true → managed s c = true) →
    rec1 = rec || recognized s c →
    (∀ name, name ∈ healthy1 ↔ name ∈ healthy
       ∨ own_candidate s c = true ∧ owner s c = name ∧ account_ready s now name = true) →
    let '(result, s') := pick_scan s1 now cs rec1 healthy1 in
    touched now s s'
    ∧ match result with
      | Err e => e = unmanaged_candidate
          ∧ ∃ c', c' ∈ c :: cs ∧ candidateClaimsOpenCodeGo c' = true ∧ managed s c' = false
      | Ok (rec', healthy') =>
          (∀ c', c' ∈ c :: cs → candidateClaimsOpenCodeGo c' = true → managed s c' = true)
          ∧ rec' = rec || existsb (recognized s) (c :: cs)
          ∧ ∀ name, name ∈ healthy' ↔ name ∈ healthy
              ∨ ∃ c', c' ∈ c :: cs ∧ own_candidate s c' = true ∧ owner s c' = name
                     ∧ account_ready s now name = true
      end) as Hgo.
  { intros s1 rec1 healthy1 Ht Hclaim -> Hhealthy.
    assert (∀ c', owner s1 c' = owner s c' ∧ managed s1 c' = managed s c'
      ∧ own_candidate s1 c' = own_candidate s c' ∧ recognized s1 c' = recognized s c') as Hsame.
    { intros c'. destruct (touched_owner now s s1 c' Ht) as [Ho Hm].
      unfold recognized, own_candidate. by rewrite Ho, Hm. }
    specialize (IH s1 (rec || recognized s c) healthy1).
    destruct (pick_scan s1 now cs _ healthy1) as [result s']. destruct IH as [Ht' IH].
    split; [by etrans|]. destruct result as [[rec' healthy']|e].
    - destruct IH as (Hm & -> & Hh). split; [|split].
      + intros c' [->|Hin]%elem_of_cons; [done|]. destruct (Hsame c') as (_ & <- & _). by apply Hm.
      + cbn [existsb]. rewrite <- orb_assoc. do 2 f_equal. clear -Hsame.
        induction cs as [|c' cs IH]; [done|]. cbn [existsb]. rewrite IH. f_equal. apply Hsame.
      + intros name. rewrite Hh, Hhealthy, (touched_ready now s s1) by done.
        setoid_rewrite elem_of_cons. split.
        * intros [[?|(? & ? & ?)]|(c' & ? & ? & ? & ?)]; [by left|right; exists c; auto|].
          right. exists c'. destruct (Hsame c') as (<- & _ & <- & _). auto.
        * intros [?|(c' & [->|Hin] & Ho & Hn & Hr)]; [auto|auto|]. right. exists c'.
          destruct (Hsame c') as (-> & _ & -> & _). auto.
    - destruct IH as (He & c' & Hin & Hc & Hm). split; [done|]. exists c'.
      destruct (Hsame c') as (_ & <- & _). split_and!; [by right|done..]. }
  assert (own_candidate s c = managed s c && negb (candidateClaimsOtherProvider c)) as Hown by done.
  assert (recognized s c = candidateClaimsOpenCodeGo c || own_candidate s c) as Hrec by done.
  destruct (managed s c) eqn:Hmanaged; cbn [andb negb] in Hown |- *;
    rewrite ?andb_false_r, ?andb_true_r.
  2: { rewrite Hown, orb_false_r in Hrec. destruct (candidateClaimsOpenCodeGo c) eqn:Hclaims.
    - split; [done|]. split; [done|]. exists c. split; [left|done].
    - apply Hgo; [done|done|by rewrite Hrec|]. intros name. rewrite Hown. naive_solver. }
  destruct (candidateClaimsOtherProvider c) eqn:Hother; cbn [negb] in Hown; rewrite Hown in Hrec.
  { rewrite orb_false_r in Hrec.
    apply Hgo; [done|done|by rewrite Hrec|]. intros name. rewrite Hown. naive_solver. }
  rewrite orb_true_r in Hrec.
  destruct (st_Accounts s !! owner s c) as [a|] eqn:Ha.
  - apply Hgo; [by apply put_refreshed_touched|done|by rewrite Hrec, orb_true_r|]. intros name.
    assert (account_ready s now (owner s c) = accountHealthy (refreshWindows a now) (st_Threshold s) now)
      as Hready by (unfold account_ready; by rewrite Ha).
    rewrite <- Hready, Hown. destruct (account_ready s now (owner s c)) eqn:Hr.
    + rewrite elem_of_union, elem_of_singleton. split; [|naive_solver].
      intros [->|?]; [right|left]; auto.
    + split; [auto|]. intros [?|(_ & <- & ?)]; congruence.
  - apply Hgo; [done|done|by rewrite Hrec, orb_true_r|]. intros name. split; [auto|].
    intros [?|(_ & <- & Hr)]; [done|]. unfold account_ready in Hr. by rewrite Ha in Hr.
Qed.

(** The candidates the choice is made among: its own, ready, by ID. *)
Definition pick_candidates (s : moduleState) (now : Time) (cs : list SchedulerAuthCandidate)
    : list SchedulerAuthCandidate :=
  sort_by sc_ID (filter (λ c, own_candidate s c && account_ready s now (owner s c) = true) cs).

(** What [Pick] answers, from the state before it alone: the account of the first
    candidate carries the cursor. *)
Definition pick_spec (s : moduleState) (now : Time) (cs : list SchedulerAuthCandidate)
    : res SchedulerPickResponse :=
  if existsb (λ c, candidateClaimsOpenCodeGo c && negb (managed s c)) cs
  then Err unmanaged_candidate
  else if negb (existsb (recognized s) cs) then Ok not_handled
  else match pick_candidates s now cs with
  | [] => Err no_capacity
  | first :: _ =>
      let cursor := default 0 (as_cursor <$> st_Accounts s !! owner s first) in
      let candidates := pick_candidates s now cs in
      Ok (selected_auth (default "" (sc_ID <$>
        candidates !! Z.to_nat (cursor mod Z.of_nat (length candidates)))))
  end.

Lemma eligible_ready now s s' (cs : list SchedulerAuthCandidate) healthy :
  touched now s s' →
  (∀ name, name ∈ healthy ↔ name ∈ (∅ : gset string)
     ∨ ∃ c, c ∈ cs ∧ own_candidate s c = true ∧ owner s c = name ∧ account_ready s now name = true) →
  filter (λ c, eligible s' healthy c = true) cs
  = filter (λ c, own_candidate s c && account_ready s now (owner s c) = true) cs.
Proof.
  intros Ht Hh. apply list_filter_ext_in. intros c Hc. unfold eligible.
  change (stateAccountByAuthID (Some s') (sc_ID c)) with (owner s' c, managed s' c).
  destruct (touched_owner now s s' c Ht) as [-> ->]. unfold own_candidate at 1.
  destruct (managed s c) eqn:Hm, (candidateClaimsOtherProvider c) eqn:Ho; simpl; try done.
  rewrite bool_decide_eq_true, Hh. split.
  - by intros [?%elem_of_empty|(? & _ & _ & <- & ?)].
  - intros Hr. right. exists c. split_and!; [done| |done|done]. unfold own_candidate. by rewrite Hm, Ho.
Qed.

Lemma pick_candidates_elem s now cs c :
  c ∈ pick_candidates s now cs ↔
  c ∈ cs ∧ own_candidate s c = true ∧ account_ready s now (owner s c) = true.
Proof.
  unfold pick_candidates. rewrite sort_by_perm, list_elem_of_filter, andb_true_iff. tauto.
Qed.

Lemma touched_lookup now s s' name a :
  touched now s s' → st_Accounts s !! name = Some a →
  ∃ a', st_Accounts s' !! name = Some a' ∧ as_cursor a' = as_cursor a.
Proof.
  intros (_ & _ & Ht) Ha. destruct (Ht name) as [Heq|Heq]; rewrite Heq, Ha; eexists; [done|].
  split; [done|]. apply refreshWindows_spec.
Qed.

(** [Pick] is its specification, and of the state it refreshes windows and
    advances one cursor. *)
Lemma Pick_eq `{GoStd} m s req wall :
  md_state m = Some s → md_closed m = false →
  let now := requestTime req wall in
  ∃ s', touched now s s' ∧ (Pick m req wall).1 = pick_spec s now (sp_Candidates req)
  ∧ ((∀ id, pick_spec s now (sp_Candidates req) ≠ Ok (selected_auth id))
       ∧ (Pick m req wall).2 = put_state s' m
     ∨ ∃ first rest a, pick_candidates s now (sp_Candidates req) = first :: rest
       ∧ st_Accounts s' !! owner s first = Some a
       ∧ as_cursor a = default 0 (as_cursor <$> st_Accounts s !! owner s first)
       ∧ (Pick m req wall).2 = put_state (put_account (owner s first)
           (set_progress (wrapu64 (as_cursor a + 1)) (as_lastPollAt a) a) s') m).
Proof.
  intros Hs Hclosed. cbv zeta. set (now := requestTime req wall). set (cs := sp_Candidates req).
  unfold Pick. rewrite Hs, Hclosed. cbv zeta. fold now cs.
  pose proof (pick_scan_spec now cs s false ∅) as Hscan.
  destruct (pick_scan s now cs false ∅) as [result s']. destruct Hscan as [Ht Hscan].
  exists s'. split; [done|]. unfold pick_spec. destruct result as [[rec' healthy]|e].
  2: { destruct Hscan as (-> & c & Hin & Hclaims & Hm). assert (existsb (λ c,
      candidateClaimsOpenCodeGo c && negb (managed s c)) cs = true) as ->.
    { apply existsb_elem. exists c. split; [done|]. by rewrite Hclaims, Hm. }
    split; [done|]. by left. }
  destruct Hscan as (Hclaims & -> & Hh). rewrite (proj2 (existsb_none
    (λ c, candidateClaimsOpenCodeGo c && negb (managed s c)) cs)).
  2: { intros c Hin. cbn beta. destruct (candidateClaimsOpenCodeGo c) eqn:E; [|reflexivity].
    by rewrite (Hclaims c Hin E). }
  cbn [orb]. destruct (existsb (recognized s) cs); cbn [negb]; [|split; [done|by left]].
  rewrite (eligible_ready now s s' cs healthy) by done. fold (pick_candidates s now cs).
  destruct (pick_candidates s now cs) as [|first rest] eqn:Hc.
  { destruct (bool_decide (healthy = ∅)); (split; [done|by left]). }
  assert (first ∈ pick_candidates s now cs) as Hfirst by (rewrite Hc; left).
  apply pick_candidates_elem in Hfirst as (Hin & Hown & Hready).
  rewrite bool_decide_eq_false_2.
  2: { intros ->. apply (not_elem_of_empty (C := gset string) (owner s first)). apply Hh. right. eauto. }
  unfold select_candidate.
  change (stateAccountByAuthID (Some s') (sc_ID first)).1 with (owner s' first).
  destruct (touched_owner now s s' first Ht) as [-> _].
  assert (∃ a, st_Accounts s !! owner s first = Some a) as [a Ha].
  { unfold account_ready in Hready. destruct (st_Accounts s !! owner s first); [eauto|done]. }
  destruct (touched_lookup now s s' _ a Ht Ha) as (a' & Ha' & Hcur). rewrite Ha', Ha.
  cbn [fst snd fmap option_fmap option_map default from_option id]. rewrite <- Hcur.
  split; [done|]. right. exists first, rest, a'. do 2 (split; [done|]). split; [by rewrite Ha|done].
Qed.

(** The cursor always selects one of the candidates. *)
Lemma rotation_selects s now cs cursor :
  let candidates := pick_candidates s now cs in
  candidates ≠ [] →
  ∃ c, candidates !! Z.to_nat (cursor mod Z.of_nat (length candidates)) = Some c
    ∧ c ∈ cs ∧ own_candidate s c = true ∧ account_ready s now (owner s c) = true.
Proof.
  cbv zeta. set (candidates := pick_candidates s now cs). intros Hne.
  assert (0 < length candidates)%nat as Hlen by (destruct candidates; [done|cbn; lia]).
  pose proof (Z.mod_pos_bound cursor (Z.of_nat (length candidates)) ltac:(lia)) as Hb.
  destruct (lookup_lt_is_Some_2 candidates
    (Z.to_nat (cursor mod Z.of_nat (length candidates)))) as [c Hl]; [lia|].
  exists c. split; [done|]. apply list_elem_of_lookup_2 in Hl. by apply pick_candidates_elem in Hl.
Qed.

(** C30: the choice is exactly what the candidates allow. A request none of whose
    candidates the module recognises is declined, and no other one. A request with a
    candidate that claims the provider and is not configured always fails with
    opencode_go_unmanaged_candidate, whatever the other candidates are, and no other
    request does. Of the rest, one of whose own candidates has a ready account is
    answered with the credential of a ready account that is configured and names no
    other provider; only when no account of its own candidates is ready is the capacity
    reported as lost. *)
Theorem opencode_pick_sound `{GoStd} m s req wall :
  md_state m = Some s → md_closed m = false →
  let now := requestTime req wall in
  let cs := sp_Candidates req in
  let configured c := (stateAccountByAuthID (Some s) (sc_ID c)).2 in
  let all_configured := ∀ c, c ∈ cs → candidateClaimsOpenCodeGo c = true → configured c = true in
  let recognised := ∃ c, c ∈ cs ∧ Recognize m c = true in
  let answer := (Pick m req wall).1 in
  (answer = Ok not_handled ↔ ∀ c, c ∈ cs → Recognize m c = false)
  ∧ (answer = Err unmanaged_candidate ↔ ∃ c, c ∈ cs ∧ candidateClaimsOpenCodeGo c = true ∧ configured c = false)
  ∧ match answer with
    | Ok resp =>
        resp = not_handled
        ∨ all_configured ∧ recognised
          ∧ ∃ c, c ∈ cs ∧ resp = selected_auth (sc_ID c) ∧ configured c = true
            ∧ candidateClaimsOtherProvider c = false ∧ account_ready s now (owner s c) = true
    | Err e =>
        e = unmanaged_candidate
        ∨ e = no_capacity ∧ all_configured ∧ recognised
          ∧ ∀ c, c ∈ cs → configured c = true → candidateClaimsOtherProvider c = false →
              account_ready s now (owner s c) = false
    end.
Proof.
  intros Hs Hclosed. cbv zeta. destruct (Pick_eq m s req wall Hs Hclosed) as (s' & _ & -> & _).
  set (now := requestTime req wall). set (cs := sp_Candidates req).
  assert (∀ c, Recognize m c = recognized s c) as Hrec.
  { intros c. unfold Recognize, recognized, own_candidate, managed. rewrite Hs.
    destruct (stateAccountByAuthID (Some s) (sc_ID c)).2; simpl; [done|by rewrite orb_false_r]. }
  setoid_rewrite Hrec. unfold pick_spec. destruct (existsb (λ c, _ && _) cs) eqn:Hun.
  { apply existsb_elem in Hun as (c & Hin & [Hcl Hm%negb_true_iff]%andb_true_iff).
    split; [|split; [split; [by exists c|done]|by left]]. split; [done|]. intros Hnone. exfalso.
    specialize (Hnone c Hin). unfold recognized in Hnone. by rewrite Hcl in Hnone. }
  assert (∀ c, c ∈ cs → candidateClaimsOpenCodeGo c = true → managed s c = true) as Hconf.
  { intros c Hin Hcl. eapply existsb_none in Hun; [|exact Hin]. cbn beta in Hun. rewrite Hcl in Hun.
    by destruct (managed s c). }
  assert (∀ r : res SchedulerPickResponse, r ≠ Err unmanaged_candidate → r = Err unmanaged_candidate ↔
    ∃ c, c ∈ cs ∧ candidateClaimsOpenCodeGo c = true ∧ managed s c = false) as Hno.
  { intros r Hr. split; [done|]. intros (c & Hin & Hcl & Hm). exfalso. by rewrite (Hconf c Hin Hcl) in Hm. }
  destruct (existsb (recognized s) cs) eqn:Hany; cbn [negb].
  2: { split; [split; [intros _ c Hin; by eapply existsb_none in Hany|done]|]. split; [by apply Hno|by left]. }
  apply existsb_elem in Hany as (c0 & Hin0 & Hc0).
  assert (∃ c, c ∈ cs ∧ Recognize m c = true) as Hsome by (exists c0; by rewrite Hrec).
  assert (∀ r : res SchedulerPickResponse, r ≠ Ok not_handled → r = Ok not_handled ↔
    ∀ c, c ∈ cs → recognized s c = false) as Hrefuse.
  { intros r Hr. split; [done|]. intros Hnone. exfalso. by rewrite (Hnone c0 Hin0) in Hc0. }
  destruct (pick_candidates s now cs) as [|first rest] eqn:Hc.
  - split; [by apply Hrefuse|]. split; [by apply Hno|]. right. split; [done|]. split; [done|].
    split; [done|]. intros c Hin Hm Hother. destruct (account_ready s now (owner s c)) eqn:Hr; [|done]. exfalso.
    assert (c ∈ pick_candidates s now cs) as Hp.
    { apply pick_candidates_elem. split_and!; try done. unfold own_candidate. unfold managed. by rewrite Hm, Hother. }
    rewrite Hc in Hp. by apply elem_of_nil in Hp.
  - split; [by apply Hrefuse|]. split; [by apply Hno|]. right. split; [done|]. split; [done|].
    rewrite <- Hc. destruct (rotation_selects s now cs (default 0 (as_cursor <$> st_Accounts s !! owner s first)))
      as (c & Hsel & Hin & Hown & Hr); [by rewrite Hc|].
    exists c. rewrite Hsel. unfold own_candidate, managed in Hown. by crush_bool.
Qed.

(** ** Lemmas on rotation *)

Lemma refreshWindows_progress cursor polled a now :
  refreshWindows (set_progress cursor polled a) now = set_progress cursor polled (refreshWindows a now).
Proof.
  assert (∀ b k, refresh_window now (set_progress cursor polled b) k
    = set_progress cursor polled (refresh_window now b k)) as Hstep.
  { intros b k. unfold refresh_window. change (window (set_progress cursor polled b) k) with (window b k).
    by destruct (_ && _). }
  unfold refreshWindows. cbn [foldl window_kinds]. by rewrite !Hstep.
Qed.

(** States that answer a request alike but for the cursors. *)
Definition similar (now : Time) (s s' : moduleState) : Prop :=
  st_ByAuthID s' = st_ByAuthID s ∧ ∀ name, account_ready s' now name = account_ready s now name.

Lemma similar_touched now s s' : touched now s s' → similar now s s'.
Proof. intros Ht. split; [apply Ht|]. intros name. by apply touched_ready. Qed.

Lemma similar_progress now s name a cursor polled :
  st_Accounts s !! name = Some a → similar now s (put_account name (set_progress cursor polled a) s).
Proof.
  intros Ha. split; [done|]. intros n. unfold account_ready. cbn [put_account st_Accounts st_Threshold].
  destruct (decide (name = n)) as [<-|]; [|by rewrite lookup_insert_ne].
  by rewrite lookup_insert_eq, Ha, refreshWindows_progress.
Qed.

Lemma similar_trans now s1 s2 s3 : similar now s1 s2 → similar now s2 s3 → similar now s1 s3.
Proof. intros [I1 R1] [I2 R2]. split; [congruence|]. intros name. by rewrite R2. Qed.

Lemma similar_answers now s s' cs :
  similar now s s' →
  (∀ c, owner s' c = owner s c) ∧ pick_candidates s' now cs = pick_candidates s now cs
  ∧ existsb (λ c, candidateClaimsOpenCodeGo c && negb (managed s' c)) cs
    = existsb (λ c, candidateClaimsOpenCodeGo c && negb (managed s c)) cs
  ∧ existsb (recognized s') cs = existsb (recognized s) cs.
Proof.
  intros [Hi Hr].
  assert (∀ c, owner s' c = owner s c ∧ managed s' c = managed s c) as Hsame.
  { intros c. unfold owner, managed, stateAccountByAuthID. by rewrite Hi. }
  assert (∀ (f g : SchedulerAuthCandidate → bool), (∀ c, f c = g c) → existsb f cs = existsb g cs) as Hex.
  { intros f g Hfg. induction cs as [|c cs' IH]; [done|]. simpl. by rewrite Hfg, IH. }
  split; [apply Hsame|]. split.
  - unfold pick_candidates. f_equal. apply list_filter_ext_in. intros c _. unfold own_candidate.
    destruct (Hsame c) as [-> ->]. by rewrite Hr.
  - split; apply Hex; intros c; unfold recognized, own_candidate; by destruct (Hsame c) as [_ ->].
Qed.

(** The answers to the same request, again and again. *)
Fixpoint picks `{GoStd} (m : Module_) (req : SchedulerPickRequest) (wall : Time) (n : nat)
    : list (res SchedulerPickResponse) :=
  match n with
  | O => []
  | S n => (Pick m req wall).1 :: picks (Pick m req wall).2 req wall n
  end.

(** The state can serve the request, with room for [n] more choices. *)
Definition serving (s : moduleState) (now : Time) (cs candidates : list SchedulerAuthCandidate)
    (cursor : Z) (n : nat) : Prop :=
  candidates ≠ [] ∧ pick_candidates s now cs = candidates
  ∧ existsb (λ c, candidateClaimsOpenCodeGo c && negb (managed s c)) cs = false
  ∧ (∀ c, head candidates = Some c → as_cursor <$> st_Accounts s !! owner s c = Some cursor)
  ∧ 0 <= cursor ∧ cursor + Z.of_nat n < 18446744073709551616.

Lemma picks_rotation `{GoStd} m s req wall candidates cursor n :
  md_state m = Some s → md_closed m = false →
  serving s (requestTime req wall) (sp_Candidates req) candidates cursor n →
  picks m req wall n
  = (λ id, Ok (selected_auth (default "" id))) <$> rotation cursor candidates n.
Proof.
  revert m s cursor. induction n as [|n IH]; intros m s cursor Hs Hclosed; [done|].
  intros (Hne & Hc & Hun & Hcur & Hpos & Hmax).
  set (now := requestTime req wall) in *. set (cs := sp_Candidates req) in *.
  destruct candidates as [|first rest] eqn:Hcands; [done|]. rewrite <- Hcands in *.
  assert (existsb (recognized s) cs = true) as Hany.
  { assert (first ∈ pick_candidates s now cs) as Hin by (rewrite Hc, Hcands; left).
    apply pick_candidates_elem in Hin as (Hin & Hown & _). apply existsb_elem. exists first.
    split; [done|]. unfold recognized. by rewrite Hown, orb_true_r. }
  assert (as_cursor <$> st_Accounts s !! owner s first = Some cursor) as Hcur1
    by (apply Hcur; by rewrite Hcands).
  assert (pick_spec s now cs
    = Ok (selected_auth (default "" (sc_ID <$>
        candidates !! Z.to_nat (cursor mod Z.of_nat (length candidates)))))) as Hspec.
  { unfold pick_spec. rewrite Hun, Hany, Hc, Hcands. cbn [negb]. rewrite Hcur1. done. }
  destruct (Pick_eq m s req wall Hs Hclosed) as (s' & Ht & Hres & Hnext). fold now cs in Ht, Hres, Hnext.
  rewrite rotation_S. cbn [picks fmap list_fmap]. rewrite Hres, Hspec. f_equal.
  destruct Hnext as [[Hno _]|(first' & rest' & a & Hc' & Ha & Hca & ->)]; [by apply Hno in Hspec|].
  rewrite Hc, Hcands in Hc'. injection Hc' as <- <-. rewrite Hcur1 in Hca. cbn in Hca.
  assert (similar now s (put_account (owner s first)
    (set_progress (wrapu64 (as_cursor a + 1)) (as_lastPollAt a) a) s')) as Hsim.
  { eapply similar_trans; [by apply similar_touched|by apply similar_progress]. }
  set (s1 := put_account _ _ _) in *.
  destruct (similar_answers now s s1 cs Hsim) as (Ho & Hpc & Hun1 & _).
  apply (IH (put_state s1 m) s1); [done|done|]. fold now cs. split_and!; [done| | | |lia|lia].
  - by rewrite Hpc.
  - by rewrite Hun1.
  - intros c. rewrite Hcands. intros [= <-]. rewrite Ho. unfold s1. cbn [put_account st_Accounts].
    rewrite lookup_insert_eq. cbn. f_equal. rewrite Hca. apply wrapu64_id. lia.
Qed.

(** ** Properties *)

(** The rotation is fair: a request that is repeated while the accounts it may
    use stay ready is given to each of its credentials exactly once before any is
    used again, wherever the cursor of the leading account stands. *)
Theorem pick_round_robin `{GoStd} m s req wall candidates cursor :
  md_state m = Some s → md_closed m = false →
  serving s (requestTime req wall) (sp_Candidates req) candidates cursor (length candidates) →
  picks m req wall (length candidates) ≡ₚ (λ c, Ok (selected_auth (sc_ID c))) <$> candidates.
Proof.
  intros Hs Hclosed Hserving. rewrite (picks_rotation m s req wall candidates cursor) by done.
  destruct Hserving as (Hne & _ & _ & _ & Hpos & _).
  rewrite (rotation_full cursor candidates) by done.
  by rewrite <- list_fmap_compose.
Qed.

(** Two accounts, the first with two credentials, and a dashboard key. *)
Definition demo_config : rawModuleConfig :=
  {| rm_Enabled := None; rm_ThresholdPercent := None; rm_DashboardAPIKey := "key";
     rm_Accounts :=
       [{| ra_Name := "go-a"; ra_AuthIDs := ["a2"; "a1"]; ra_ConnectionID := "";
           ra_DashboardAPIKey := ""; ra_Disabled := false |};
        {| ra_Name := "go-b"; ra_AuthIDs := []; ra_ConnectionID := "b1";
           ra_DashboardAPIKey := ""; ra_Disabled := false |}] |}.

Definition demo_module : Module_ :=
  (Reconfigure (H := DemoStd.demo_std) (λ _, Ok demo_config) NewModule "config").2.

Definition empty_state : moduleState :=
  {| st_Threshold := 0; st_Accounts := ∅; st_ByAuthID := ∅ |}.

Definition demo_state : moduleState := default empty_state (md_state demo_module).

Definition demo_candidate (id : string) : SchedulerAuthCandidate :=
  {| sc_ID := id; sc_Provider := "opencode-go"; sc_Attributes := ∅ |}.

Definition demo_request (ids : list string) : SchedulerPickRequest :=
  {| sp_Provider := ""; sp_Providers := []; sp_Model := "";
     sp_Candidates := demo_candidate <$> ids; sp_Headers := []; sp_Now := None |}.

Lemma demo_module_state : md_state demo_module = Some demo_state.
Proof. vm_compute. reflexivity. Qed.

Lemma pick_round_robin_witness :
  picks (H := DemoStd.demo_std) demo_module (demo_request ["b1"; "a2"; "a1"]) 1000 3
  ≡ₚ (λ c, Ok (selected_auth (sc_ID c))) <$> (demo_candidate <$> ["a1"; "a2"; "b1"]).
Proof.
  change 3%nat with (length (demo_candidate <$> ["a1"; "a2"; "b1"])).
  apply (pick_round_robin (H := DemoStd.demo_std) demo_module demo_state
    (demo_request ["b1"; "a2"; "a1"]) 1000 (demo_candidate <$> ["a1"; "a2"; "b1"]) 0
    demo_module_state eq_refl).
  split; [discriminate|]. split; [vm_compute; reflexivity|]. split; [vm_compute; reflexivity|].
  split; [intros c Hc; apply Some_inj in Hc as <-; vm_compute; reflexivity|].
  split; [lia|vm_compute; reflexivity].
Defined.

(** A candidate that claims the provider and is not configured fails the request, also
    when another candidate is ready. *)
Lemma opencode_pick_sound_witness :
  (∃ c, c ∈ demo_candidate <$> ["a1"]
   ∧ (Pick (H := DemoStd.demo_std) demo_module (demo_request ["a1"]) 1000).1
     = Ok (selected_auth (sc_ID c)) ∧ account_ready demo_state 1000 (owner demo_state c) = true)
  ∧ (Pick (H := DemoStd.demo_std) demo_module (demo_request ["a1"; "stranger"]) 1000).1 = Err unmanaged_candidate.
Proof.
  split.
  - destruct (opencode_pick_sound (H := DemoStd.demo_std) demo_module demo_state
      (demo_request ["a1"]) 1000 demo_module_state eq_refl) as (_ & _ & Hp).
    assert ((Pick (H := DemoStd.demo_std) demo_module (demo_request ["a1"]) 1000).1
      = Ok (selected_auth "a1")) as Heq by (vm_compute; reflexivity).
    rewrite Heq in Hp. destruct Hp as [Hbad|(_ & _ & c & Hin & Hresp & _ & _ & Hr)].
    + exfalso. discriminate Hbad.
    + exists c. split; [exact Hin|]. split; [rewrite Heq; f_equal; exact Hresp|exact Hr].
  - apply (opencode_pick_sound (H := DemoStd.demo_std) demo_module demo_state
      (demo_request ["a1"; "stranger"]) 1000 demo_module_state eq_refl).
    exists (demo_candidate "stranger"). split; [right; left|]. split; vm_compute; reflexivity.
Defined.

(** ** Lemmas on a block *)

(** A window exhausted until its reset at least, with the cooldown that ends the block
    not before it. *)
Record blocked (w : windowState) : Prop := {
  bl_Known : ws_Known w = true;
  bl_Exhausted : ws_Exhausted w = true;
  bl_ResetAt : 0 < ws_ResetAt w <= ws_CooldownAt w;
}.

(** What a 429 response does to it before its reset: the later of the two resets stays,
    and the cooldown ends no earlier than that. *)
Lemma signal_window_blocked w kind now reset :
  blocked w → now < ws_ResetAt w →
  let w' := signal_window w kind now reset in
  blocked w' ∧ ws_ResetAt w' = Z.max (ws_ResetAt w) (default 0 reset)
  ∧ ws_CooldownAt w' <= Z.max (ws_CooldownAt w) (default (time_Add now defaultFailureCooldown) reset).
Proof.
  intros [Hk He [Hpos Hcool]] Hnow. unfold signal_window. cbv zeta.
  set (incoming := quota_signal kind now _ _). set (cooldownAt := default _ reset).
  assert (mergeWindowSignal w incoming = w ∧ default 0 reset <= ws_ResetAt w
    ∨ mergeWindowSignal w incoming = incoming ∧ ws_ResetAt w <= default 0 reset) as Hm.
  { unfold mergeWindowSignal. rewrite Hk, He. cbn [negb andb incoming quota_signal ws_Authoritative
      ws_ObservedAt ws_ResetAt]. unfold time_After.
    destruct (Z.ltb_spec now (ws_ResetAt w)); [|lia].
    destruct (Z.ltb_spec (default 0 reset) (ws_ResetAt w)); cbn [andb]; [left|right]; (split; [done|lia]). }
  unfold time_After. destruct Hm as [[-> Hr]|[-> Hr]].
  - destruct (Z.ltb_spec (ws_CooldownAt w) cooldownAt); (split; [split; cbn; try done; lia|]);
      cbn [set_cooldown ws_ResetAt ws_CooldownAt]; lia.
  - destruct reset as [r|]; [|cbn in Hr; lia]. cbn [default from_option id] in *. subst cooldownAt.
    cbn [incoming quota_signal ws_CooldownAt]. rewrite Z.ltb_irrefl.
    split; [split; cbn; try done; lia|]. cbn [incoming quota_signal ws_ResetAt ws_CooldownAt]. lia.
Qed.

(** A block ends when its cooldown does, and not before. *)
Lemma blocked_until limit u w :
  blocked w → u < ws_CooldownAt w → cooled u w = false ∧ window_blocks limit u w = true.
Proof.
  intros [_ He [Hpos Hcool]] Hu. unfold cooled, window_blocks, time_After. rewrite He.
  destruct (Z.ltb_spec u (ws_CooldownAt w)); [|lia]. by rewrite !orb_true_r, andb_false_r.
Qed.

Lemma blocked_cooled u w : blocked w → ws_CooldownAt w <= u → cooled u w = true.
Proof.
  intros [_ _ [Hpos Hcool]] Hu. unfold cooled, time_IsZero, time_After.
  destruct (Z.eqb_spec (ws_CooldownAt w) 0); [lia|]. by destruct (Z.ltb_spec u (ws_CooldownAt w)); [lia|].
Qed.

Lemma blocked_unhealthy a threshold kind u :
  windows_full a →
  window_blocks (fdiv (float_of_Z threshold) (float_of_Z 100)) u (window a kind) = true →
  accountHealthy a threshold u = false.
Proof.
  intros Hfull Hb. apply not_true_iff_false. intros Hh%accountHealthy_iff; [|done].
  destruct Hh as [_ Hh]. by rewrite (Hh kind) in Hb.
Qed.

(** What happens to a module between two polls: records of usage and choices. *)
Inductive serving_event :=
| UsageRecorded (record : UsageRecord) (wall : Time)
| Picked (req : SchedulerPickRequest) (wall : Time).

Section Blocks.
Context `{GoStd}.

Definition usage_time (record : UsageRecord) (wall : Time) : Time :=
  if time_IsZero (ur_RequestedAt record) then wall else ur_RequestedAt record.

Definition event_time (e : serving_event) : Time :=
  match e with UsageRecorded record wall => usage_time record wall | Picked req wall => requestTime req wall end.

Definition serve_event (m : Module_) (e : serving_event) : Module_ :=
  match e with UsageRecorded record wall => HandleUsage m record wall | Picked req wall => (Pick m req wall).2 end.

(** A response that reports the limit of this window of this account: a failure with 429,
    of one of its credentials, whose text names the window; with the reset it names. *)
Definition quota_response (s : moduleState) (name : string) (kind : windowKind) (e : serving_event)
    : option (option Time) :=
  match e with
  | Picked _ _ => None
  | UsageRecorded record wall =>
      let now := usage_time record wall in
      let failure := ur_Failure record in
      if bool_decide (stateAccountByAuthID (Some s) (ur_AuthID record) = (name, true)) && ur_Failed record
         && negb (isMicrothrottle record) && bool_decide (quotaWindow (uf_Body failure) = Some kind)
         && (uf_StatusCode failure =? 429)
      then Some (match retryAfterReset (ur_ResponseHeaders record) now with
                 | Some r => Some r | None => bodyReset (uf_Body failure) now end)
      else None
  end.

(** The reset a response names, and the end of the cooldown it asks for. *)
Definition named_reset (response : option (option Time)) : Time := default 0 (default None response).

Definition named_cooldown (now : Time) (response : option (option Time)) : Time :=
  match response with Some reset => default (time_Add now defaultFailureCooldown) reset | None => 0 end.

(** A module in which the account has this window, and otherwise the configuration of
    [s]. *)
Definition window_now (s : moduleState) (name : string) (kind : windowKind) (w : windowState) (m' : Module_) : Prop :=
  ∃ s' a', md_state m' = Some s' ∧ md_closed m' = false
    ∧ st_Threshold s' = st_Threshold s ∧ st_ByAuthID s' = st_ByAuthID s
    ∧ st_Accounts s' !! name = Some a' ∧ windows_full a' ∧ window a' kind = w.

(** A window after a response for it, if there was one. *)
Definition after_response (w : windowState) (kind : windowKind) (now : Time) (response : option (option Time)) : windowState :=
  match response with Some reset => signal_window w kind now reset | None => w end.

Lemma HandleUsage_window m s name a kind record wall :
  md_state m = Some s → md_closed m = false → st_Accounts s !! name = Some a → windows_full a →
  window_now s name kind
    (after_response (window a kind) kind (usage_time record wall) (quota_response s name kind (UsageRecorded record wall)))
    (HandleUsage m record wall).
Proof.
  intros Hs Hclosed Ha Hfull. unfold HandleUsage, quota_response. rewrite Hs, Hclosed. fold (usage_time record wall).
  destruct (stateAccountByAuthID (Some s) (ur_AuthID record)) as [name' managed'] eqn:Hown.
  set (reset := match retryAfterReset _ _ with Some r => Some r | None => _ end).
  assert (∀ b, b = false → window_now s name kind
    (after_response (window a kind) kind (usage_time record wall) (if b then Some reset else None)) m) as Hsame
    by (intros b ->; by exists s, a).
  destruct managed', (ur_Failed record); cbn [negb orb]; cbv zeta;
    try (apply Hsame; by rewrite ?andb_false_r, ?bool_decide_eq_false_2 by congruence).
  destruct (isMicrothrottle record); cbn [negb]; [apply Hsame; by rewrite ?andb_false_r|].
  destruct (quotaWindow (uf_Body (ur_Failure record))) as [kind'|];
    [|apply Hsame; by rewrite (bool_decide_eq_false_2 (None = Some kind)), ?andb_false_r by done].
  destruct (uf_StatusCode (ur_Failure record) =? 429); cbn [negb];
    [|destruct (st_Accounts s !! name'); apply Hsame; by rewrite andb_false_r].
  destruct (decide (name' = name)) as [->|Hname].
  2: { rewrite bool_decide_eq_false_2 by congruence. cbn [andb].
    destruct (st_Accounts s !! name') as [a1|]; [|by apply (Hsame false)].
    eexists _, a. split; [reflexivity|]. split; [exact Hclosed|]. do 2 (split; [done|]).
    cbn [put_account st_Accounts]. by rewrite lookup_insert_ne. }
  rewrite Ha, (bool_decide_eq_true_2 ((name, true) = _)) by done. cbn [andb]. rewrite andb_true_r.
  eexists _, _. split; [reflexivity|]. split; [exact Hclosed|]. do 2 (split; [done|]).
  split; [cbn [put_account st_Accounts]; apply lookup_insert_eq|].
  split; [eapply frame_windows_full, Hfull; apply set_window_frame|]. rewrite window_set.
  destruct (decide (kind' = kind)) as [->|Hk]; [by rewrite bool_decide_eq_true_2|].
  by rewrite bool_decide_eq_false_2 by congruence.
Qed.

(** A choice leaves a window alone whose cooldown is not over. *)
Lemma Pick_window m s name a kind req wall :
  md_state m = Some s → md_closed m = false → st_Accounts s !! name = Some a → windows_full a →
  cooled (requestTime req wall) (window a kind) = false →
  window_now s name kind (window a kind) (Pick m req wall).2.
Proof.
  intros Hs Hclosed Ha Hfull Hcool. destruct (Pick_eq m s req wall Hs Hclosed) as (s1 & (Ht & Hi & Hacc) & _ & Hm).
  assert (∃ a1, st_Accounts s1 !! name = Some a1 ∧ windows_full a1 ∧ window a1 kind = window a kind)
    as (a1 & Ha1 & Hfull1 & Hw1).
  { destruct (Hacc name) as [Heq|Heq]; rewrite Ha in Heq; cbn in Heq; [by exists a|].
    destruct (refreshWindows_spec a (requestTime req wall)) as (Hf & _ & _ & Hw).
    eexists. split; [exact Heq|]. split; [by eapply frame_windows_full|]. by rewrite Hw, Hcool. }
  destruct Hm as [[_ ->]|(first & rest & b & _ & Hb1 & _ & ->)]; [exists s1, a1; by split_and!|].
  destruct (decide (owner s first = name)) as [<-|Hn].
  - rewrite Ha1 in Hb1. injection Hb1 as <-. eexists _, _. split; [reflexivity|]. split; [exact Hclosed|].
    do 2 (split; [done|]). split; [cbn [put_account st_Accounts]; apply lookup_insert_eq|]. by split.
  - eexists _, a1. split; [reflexivity|]. split; [exact Hclosed|]. do 2 (split; [done|]).
    split; [cbn [put_account st_Accounts]; by rewrite lookup_insert_ne|]. by split.
Qed.

(** What one event does to a block that is not over. *)
Lemma serve_event_block m s name a kind e :
  md_state m = Some s → md_closed m = false → st_Accounts s !! name = Some a → windows_full a →
  blocked (window a kind) → event_time e < ws_ResetAt (window a kind) →
  window_now s name kind (after_response (window a kind) kind (event_time e) (quota_response s name kind e))
    (serve_event m e).
Proof.
  intros Hs Hclosed Ha Hfull Hb Hnow. destruct e as [record wall|req wall]; cbn [serve_event event_time] in *.
  - by apply HandleUsage_window.
  - apply Pick_window; try done. pose proof (bl_ResetAt _ Hb).
    apply (blocked_until (float_of_Z 0)); [done|lia].
Qed.

Definition latest_reset (s : moduleState) (name : string) (kind : windowKind) (events : list serving_event) (t : Time) : Time :=
  foldl (λ t e, Z.max t (named_reset (quota_response s name kind e))) t events.

Definition latest_cooldown (s : moduleState) (name : string) (kind : windowKind) (events : list serving_event) (t : Time) : Time :=
  foldl (λ t e, Z.max t (named_cooldown (event_time e) (quota_response s name kind e))) t events.

Lemma quota_response_index s s' name kind e :
  st_ByAuthID s' = st_ByAuthID s → quota_response s' name kind e = quota_response s name kind e.
Proof. intros Hi. unfold quota_response, stateAccountByAuthID. by rewrite Hi. Qed.

Lemma latest_ext s s' name kind events t :
  st_ByAuthID s' = st_ByAuthID s →
  latest_reset s' name kind events t = latest_reset s name kind events t
  ∧ latest_cooldown s' name kind events t = latest_cooldown s name kind events t.
Proof.
  intros Hi. unfold latest_reset, latest_cooldown. split; revert t; induction events as [|e events IH]; intros t; try done;
    cbn [foldl]; by rewrite (quota_response_index s s'), IH.
Qed.

Lemma latest_cooldown_mono s name kind events t t' :
  t <= t' → latest_cooldown s name kind events t <= latest_cooldown s name kind events t'.
Proof. revert t t'. unfold latest_cooldown. induction events as [|e events IH]; intros t t' Ht; [done|]. cbn. apply IH. lia. Qed.

Lemma serve_events_block events m s name a kind :
  md_state m = Some s → md_closed m = false → st_Accounts s !! name = Some a → windows_full a →
  blocked (window a kind) → Forall (λ e, event_time e < ws_ResetAt (window a kind)) events →
  ∃ s' a', md_state (foldl serve_event m events) = Some s' ∧ st_Threshold s' = st_Threshold s
    ∧ st_Accounts s' !! name = Some a' ∧ windows_full a' ∧ blocked (window a' kind)
    ∧ ws_ResetAt (window a' kind) = latest_reset s name kind events (ws_ResetAt (window a kind))
    ∧ ws_CooldownAt (window a' kind) <= latest_cooldown s name kind events (ws_CooldownAt (window a kind)).
Proof.
  revert m s a. induction events as [|e events IH]; intros m s a Hs Hclosed Ha Hfull Hb Hall.
  { by exists s, a. }
  apply Forall_cons in Hall as [He Hall].
  destruct (serve_event_block m s name a kind e) as (s1 & a1 & Hs1 & Hc1 & Ht1 & Hi1 & Ha1 & Hf1 & Hw1); try done.
  assert (blocked (window a1 kind)
    ∧ ws_ResetAt (window a1 kind) = Z.max (ws_ResetAt (window a kind)) (named_reset (quota_response s name kind e))
    ∧ ws_CooldownAt (window a1 kind)
      <= Z.max (ws_CooldownAt (window a kind)) (named_cooldown (event_time e) (quota_response s name kind e)))
    as (Hb1 & Hr1 & Hcool1).
  { rewrite Hw1. destruct (quota_response s name kind e) as [reset|]; [by apply signal_window_blocked|].
    pose proof (bl_ResetAt _ Hb). cbn. split; [done|]. lia. }
  destruct (IH (serve_event m e) s1 a1) as (s' & a' & Hs' & Ht' & Ha' & Hf' & Hb' & Hr' & Hcool'); try done.
  { eapply Forall_impl; [exact Hall|]. intros e' He'. cbn beta in *. lia. }
  destruct (latest_ext s s1 name kind events (ws_ResetAt (window a1 kind)) Hi1) as [Hl1 _].
  destruct (latest_ext s s1 name kind events (ws_CooldownAt (window a1 kind)) Hi1) as [_ Hl2].
  exists s', a'. split; [done|]. split; [congruence|]. do 3 (split; [done|]). split.
  - rewrite Hr', Hl1, Hr1. done.
  - etrans; [exact Hcool'|]. rewrite Hl2.
    exact (latest_cooldown_mono s name kind events _ _ Hcool1).
Qed.

(** C38: a block that says when it ends lasts until then. Take an account with a window
    that is exhausted and whose cooldown ends no earlier than its reset, which is how a
    429 response that names its reset leaves it, and serve any records of usage and
    choices before that reset. No choice finds the account ready before the latest of
    the reset and the resets that the 429 responses for this window have named: further
    responses extend the block and never end it early. And the block is not for ever:
    once the cooldown and those that the responses asked for, ten minutes for one
    without a reset, are over, a choice forgets the window. (A block set by a poll has
    no cooldown; what a 429 response does to it is [weaker_signal_unblocks].) *)
Theorem signals_extend_block m s name a kind events :
  md_state m = Some s → md_closed m = false → st_Accounts s !! name = Some a → windows_full a →
  blocked (window a kind) → Forall (λ e, event_time e < ws_ResetAt (window a kind)) events →
  ∃ s' a', md_state (foldl serve_event m events) = Some s' ∧ st_Accounts s' !! name = Some a'
    ∧ (∀ u, u < latest_reset s name kind events (ws_ResetAt (window a kind)) → account_ready s' u name = false)
    ∧ ∀ u, latest_cooldown s name kind events (ws_CooldownAt (window a kind)) <= u →
        window (refreshWindows a' u) kind = zero_window.
Proof.
  intros Hs Hclosed Ha Hfull Hb Hall.
  destruct (serve_events_block events m s name a kind) as (s' & a' & Hs' & _ & Ha' & Hf' & Hb' & Hr' & Hcool'); try done.
  exists s', a'. split; [done|]. split; [done|]. split; intros u Hu;
    destruct (refreshWindows_spec a' u) as (Hf & _ & _ & Hw).
  - unfold account_ready. rewrite Ha'. apply (blocked_unhealthy _ _ kind); [by eapply frame_windows_full|].
    rewrite Hw. pose proof (bl_ResetAt _ Hb').
    edestruct (λ limit, blocked_until limit u _ Hb') as [-> Hblocks]; [lia|exact Hblocks].
  - rewrite Hw, blocked_cooled; [done|done|lia].
Qed.

End Blocks.

(** A 429 response that names its reset blocks the account of [a1]; one without a reset
    and one with an earlier reset follow, with a choice in between. *)
Definition demo_limit (at_ : Time) (hint : string) : serving_event :=
  UsageRecorded
    {| ur_Provider := "opencode-go"; ur_Model := ""; ur_Alias := ""; ur_AuthID := "a1"; ur_RequestedAt := at_;
       ur_Latency := 0; ur_Failed := true;
       ur_Failure := {| uf_StatusCode := 429; uf_Body := "Weekly usage limit reached" +:+ hint |};
       ur_Detail := {| ud_InputTokens := 0; ud_OutputTokens := 0; ud_ReasoningTokens := 0; ud_CacheReadTokens := 0;
                       ud_CacheCreationTokens := 0; ud_TotalTokens := 0 |};
       ur_ResponseHeaders := [] |} 0.

Definition blocked_module : Module_ :=
  serve_event (H := DemoStd.demo_std) demo_module (demo_limit hour " (reset after 9h)").

Definition blocked_state : moduleState := default empty_state (md_state blocked_module).

Definition blocked_account : accountState :=
  default (new_account {| ga_Name := ""; ga_AuthIDs := []; ga_DashboardAPIKey := ""; ga_Disabled := false |})
    (st_Accounts blocked_state !! "go-a").

Definition later_events : list serving_event :=
  [demo_limit (2 * hour) ""; Picked (demo_request ["a1"; "b1"]) (3 * hour); demo_limit (3 * hour) " (reset after 2h)"].

Lemma signals_extend_block_witness :
  ∃ s' a', md_state (foldl (serve_event (H := DemoStd.demo_std)) blocked_module later_events) = Some s'
    ∧ st_Accounts s' !! "go-a" = Some a'
    ∧ (∀ u, u < 10 * hour → account_ready s' u "go-a" = false)
    ∧ ∀ u, 10 * hour <= u → window (refreshWindows a' u) windowWeekly = zero_window.
Proof.
  destruct (signals_extend_block (H := DemoStd.demo_std) blocked_module blocked_state "go-a" blocked_account
    windowWeekly later_events) as (s' & a' & Hs' & Ha' & Hready & Hover).
  - vm_compute. reflexivity.
  - vm_compute. reflexivity.
  - vm_compute. reflexivity.
  - intros []; vm_compute; eauto.
  - split; vm_compute; [reflexivity|reflexivity|split; [reflexivity|discriminate]].
  - repeat constructor; vm_compute; reflexivity.
  - exists s', a'. split; [exact Hs'|]. split; [exact Ha'|].
    assert (latest_reset (H := DemoStd.demo_std) blocked_state "go-a" windowWeekly later_events
      (ws_ResetAt (window blocked_account windowWeekly)) = 10 * hour) as Hr by (vm_compute; reflexivity).
    assert (latest_cooldown (H := DemoStd.demo_std) blocked_state "go-a" windowWeekly later_events
      (ws_CooldownAt (window blocked_account windowWeekly)) = 10 * hour) as Hc by (vm_compute; reflexivity).
    rewrite Hr in Hready. rewrite Hc in Hover. split; [exact Hready|exact Hover].
Defined.

(** A window the dashboard reported as exhausted blocks its account at every
    later time, its reset and after included, until a further poll replaces it; but
    a 429 response that names no reset, which the merge means not to let weaken
    it, starts a cooldown after which the window is forgotten and the account
    serves again, long before the reset. *)
Theorem weaker_signal_unblocks a threshold kind t u :
  let limit := fdiv (float_of_Z threshold) (float_of_Z 100) in
  let w := window a kind in
  windows_full a → as_Disabled a = false → ws_Known w = true → ws_Exhausted w = true →
  ws_CooldownAt w = 0 → 0 <= t < ws_ResetAt w → t + defaultFailureCooldown <= u →
  let a' := set_windows (<[kind := signal_window w kind t None]> (as_Windows a)) a in
  (∀ u', accountHealthy (refreshWindows a u') threshold u' = false)
  ∧ window (refreshWindows a' u) kind = zero_window
  ∧ ((∀ k, k ≠ kind → window_blocks limit u (window (refreshWindows a u) k) = false) →
     accountHealthy (refreshWindows a' u) threshold u = true).
Proof.
  cbv zeta. set (w := window a kind). intros Hfull Hd Hk He Hc Ht Hu.
  set (a' := set_windows _ a).
  assert (account_frame a a') as Hframe by apply set_window_frame.
  assert (signal_window w kind t None = set_cooldown (time_Add t defaultFailureCooldown) w) as Hw.
  { unfold signal_window. cbv zeta. cbn [default from_option id]. set (incoming := quota_signal _ _ _ _).
    assert (mergeWindowSignal w incoming = w) as ->.
    { unfold mergeWindowSignal. rewrite Hk, He. cbn [negb andb incoming quota_signal ws_Authoritative
        ws_ObservedAt ws_ResetAt]. unfold time_After. destruct (Z.ltb_spec t (ws_ResetAt w)); [|lia].
      destruct (Z.ltb_spec 0 (ws_ResetAt w)); [done|lia]. }
    rewrite Hc. unfold time_After, time_Add, defaultFailureCooldown, minute, second.
    by destruct (Z.ltb_spec 0 (t + 10 * (60 * 1000000000))); [|lia]. }
  assert (window a' kind = set_cooldown (time_Add t defaultFailureCooldown) w) as Hw'.
  { unfold a'. rewrite window_set, decide_True by done. exact Hw. }
  assert (window (refreshWindows a' u) kind = zero_window) as Hforgot.
  { destruct (refreshWindows_spec a' u) as (_ & _ & _ & ->). rewrite Hw'. unfold cooled.
    cbn [set_cooldown ws_CooldownAt]. unfold time_IsZero, time_After, time_Add.
    unfold defaultFailureCooldown, minute, second in *.
    destruct (Z.eqb_spec (t + 10 * (60 * 1000000000)) 0); [lia|].
    by destruct (Z.ltb_spec u (t + 10 * (60 * 1000000000))); [lia|]. }
  split_and!; [|exact Hforgot|].
  - intros u'. destruct (refreshWindows_spec a u') as (Hf & _ & _ & Hwin).
    apply (blocked_unhealthy _ _ kind); [by eapply frame_windows_full|].
    rewrite Hwin. fold w. assert (cooled u' w = false) as -> by (unfold cooled; by rewrite Hc).
    unfold window_blocks. by rewrite He, Hc.
  - intros Hothers. apply accountHealthy_iff.
    { destruct (refreshWindows_spec a' u) as (Hf & _). eapply frame_windows_full; [exact Hf|].
      by eapply frame_windows_full. }
    split.
    { destruct (refreshWindows_spec a' u) as (Hf & _). by rewrite (af_Disabled _ _ Hf). }
    intros k. destruct (decide (kind = k)) as [<-|Hne].
    + rewrite Hforgot. unfold window_blocks. reflexivity.
    + rewrite <- (Hothers k) by done. f_equal.
      destruct (refreshWindows_spec a' u) as (_ & _ & _ & ->).
      destruct (refreshWindows_spec a u) as (_ & _ & _ & ->).
      unfold a'. by rewrite window_set, decide_False.
Qed.

(** A poll at its limit until the end of the week, and a 429 an hour later. *)
Lemma weaker_signal_unblocks_witness :
  let w := {| ws_Utilization := Some (float_of_Z 1); ws_Exhausted := true; ws_ResetAt := 100 * hour;
              ws_CooldownAt := 0; ws_Source := "dashboard usage poll"; ws_Known := true;
              ws_Authoritative := true; ws_ObservedAt := hour |} in
  let a := set_windows (<[windowWeekly := w]> (as_Windows (new_account
    {| ga_Name := "go-a"; ga_AuthIDs := ["a1"]; ga_DashboardAPIKey := "key"; ga_Disabled := false |})))
    (new_account
    {| ga_Name := "go-a"; ga_AuthIDs := ["a1"]; ga_DashboardAPIKey := "key"; ga_Disabled := false |}) in
  let a' := set_windows (<[windowWeekly := signal_window w windowWeekly (2 * hour) None]>
    (as_Windows a)) a in
  accountHealthy (refreshWindows a (3 * hour)) 97 (3 * hour) = false
  ∧ accountHealthy (refreshWindows a' (3 * hour)) 97 (3 * hour) = true.
Proof.
  cbv zeta.
  set (item := {| ga_Name := "go-a"; ga_AuthIDs := ["a1"]; ga_DashboardAPIKey := "key";
                  ga_Disabled := false |}).
  set (w := {| ws_Utilization := _ |}).
  set (a := set_windows (<[windowWeekly := w]> (as_Windows (new_account item))) (new_account item)).
  assert (window a windowWeekly = w) as Hw by (vm_compute; reflexivity).
  destruct (weaker_signal_unblocks a 97 windowWeekly (2 * hour) (3 * hour)) as (Hb & _ & Hu).
  - intros []; vm_compute; eauto.
  - reflexivity.
  - by rewrite Hw.
  - by rewrite Hw.
  - by rewrite Hw.
  - rewrite Hw. split; vm_compute; [discriminate|reflexivity].
  - vm_compute. discriminate.
  - rewrite Hw in Hu. split; [apply Hb|]. apply Hu.
    intros [] Hk; [vm_compute; reflexivity|by destruct Hk|vm_compute; reflexivity].
Defined.

(** ** The module's invariant *)

Definition module_ok (m : Module_) : Prop := ∀ s, md_state m = Some s → state_ok s.

Lemma put_state_ok s s' m : state_ok s → state_frame s s' → module_ok (put_state s' m).
Proof. intros Hok Hf x [= <-]. by eapply state_frame_ok. Qed.

Lemma carry_account_frame old a : account_frame a (carry_account old a).
Proof.
  unfold carry_account. destruct old as [old|]; [|done]. destruct (bool_decide _); [|done].
  split; try done. intros k Hk. cbn [set_windows as_Windows foldl window_kinds].
  rewrite !lookup_insert_is_Some'. auto.
Qed.

Lemma carryForwardState_frame staged previous : state_frame staged (carryForwardState staged previous).
Proof.
  unfold carryForwardState. destruct previous as [previous|]; [|done].
  do 2 (split; [done|]). intros name. cbn [st_Accounts]. rewrite map_lookup_imap.
  destruct (st_Accounts staged !! name); simpl; [apply carry_account_frame|done].
Qed.

Lemma Reconfigure_cases `{GoStd} decode m raw :
  let '(result, m') := Reconfigure decode m raw in
  match result with
  | Ok _ => md_closed m = false ∧ md_closed m' = false ∧ md_lastErr m' = ""
      ∧ ∃ cfg staged, parseConfig decode raw = Ok cfg ∧ buildState cfg = Ok staged ∧ state_ok staged
        ∧ md_state m' = Some (carryForwardState staged (md_state m))
  | Err _ => md_state m' = md_state m ∧ md_closed m' = md_closed m
  end.
Proof.
  unfold Reconfigure. destruct (parseConfig decode raw) as [cfg|e] eqn:Hcfg; [|done].
  cbn [mbind res_bind]. destruct (buildState cfg) as [staged|e] eqn:Hst; [|done].
  destruct (md_closed m) eqn:Hc; [done|]. do 3 (split; [done|]). exists cfg, staged.
  destruct (parseConfig_ok _ _ _ Hcfg) as [Hth Hitems].
  split_and!; [done..|by eapply buildState_ok|done].
Qed.

Lemma HandleUsage_frame `{GoStd} m record wall s :
  md_state m = Some s →
  ∃ s', state_frame s s' ∧ HandleUsage m record wall = (if md_closed m then m else put_state s' m).
Proof.
  intros Hs. unfold HandleUsage. rewrite Hs.
  assert (put_state s m = m) as Hm by (destruct m; unfold put_state; cbn in *; by subst).
  destruct (md_closed m); [by exists s|]. destruct (stateAccountByAuthID _ _) as [name managed'].
  destruct (_ || _); [by exists s|]. cbv zeta. destruct (isMicrothrottle record); [by exists s|].
  destruct (quotaWindow _) as [kind|]; [|by exists s].
  destruct (st_Accounts s !! name) as [a|] eqn:Ha; [|by exists s].
  destruct (negb _); [by exists s|]. eexists. split; [|done].
  apply (put_account_frame _ a); [done|]. apply set_window_frame.
Qed.

Lemma poll_apply_frame s result : state_frame s (poll_apply s result).
Proof.
  unfold poll_apply. destruct (result.2) as [snapshot|]; [|done].
  destruct (st_Accounts s !! result.1) as [a|] eqn:Ha; [|done].
  apply (put_account_frame _ a); [done|]. apply apply_snapshot_spec.
Qed.

Lemma poll_results_frame results s : state_frame s (foldl poll_apply s results).
Proof.
  revert s. induction results as [|r results IH]; intros s; [done|]. cbn [foldl].
  etrans; [apply poll_apply_frame|apply IH].
Qed.

(** The module's operations, with every argument and every outcome of the calls
    between their parts. *)
Inductive module_step `{GoStd} : Module_ → Module_ → Prop :=
| step_reconfigure m decode raw : module_step m (Reconfigure decode m raw).2
| step_pick m req wall : module_step m (Pick m req wall).2
| step_usage m record wall : module_step m (HandleUsage m record wall)
| step_poll_begin m now : module_step m (poll_begin m now).2
| step_poll_end m results : module_step m (poll_end m results)
| step_status m now : module_step m (status_body m now).2
| step_close m : module_step m (Close m).

Lemma module_step_ok `{GoStd} m m' : module_ok m → module_step m m' → module_ok m'.
Proof.
  intros Hok Hstep. destruct Hstep as [m decode raw|m req wall|m record wall|m now|m results|m now|m].
  - pose proof (Reconfigure_cases decode m raw) as Hc. destruct (Reconfigure decode m raw) as [[]  m'].
    + destruct Hc as (_ & _ & _ & cfg & staged & _ & _ & Hst & Hm'). intros s Hs. cbn [snd] in Hs.
      rewrite Hm' in Hs. injection Hs as <-. eapply state_frame_ok; [apply carryForwardState_frame|done].
    + destruct Hc as [Hst _]. intros s. cbn [snd]. rewrite Hst. apply Hok.
  - destruct (md_state m) as [s|] eqn:Hs; [|unfold Pick; rewrite Hs; exact Hok].
    destruct (md_closed m) eqn:Hc; [unfold Pick; rewrite Hs, Hc; exact Hok|].
    destruct (Pick_eq m s req wall Hs Hc) as (s' & Ht & _ & Hnext).
    apply touched_frame in Ht. specialize (Hok s Hs).
    destruct Hnext as [[_ ->]|(first & rest & a & _ & Ha & _ & ->)]; [by eapply put_state_ok|].
    eapply put_state_ok; [exact Hok|]. etrans; [exact Ht|]. by apply (put_account_frame _ a).
  - destruct (md_state m) as [s|] eqn:Hs; [|unfold HandleUsage; rewrite Hs; exact Hok].
    destruct (HandleUsage_frame m record wall s Hs) as (s' & Hf & ->).
    destruct (md_closed m); [exact Hok|]. by eapply put_state_ok; [apply Hok|].
  - unfold poll_begin. destruct (md_state m) as [s|] eqn:Hs; [|exact Hok].
    destruct (md_closed m); [exact Hok|]. eapply put_state_ok; [by apply Hok|].
    apply map_frame. intros a. by destruct (poll_due now a).
  - unfold poll_end. destruct (md_state m) as [s|] eqn:Hs; [|exact Hok].
    destruct (md_closed m); [exact Hok|]. eapply put_state_ok; [by apply Hok|]. apply poll_results_frame.
  - unfold status_body. cbv zeta. destruct (md_state m) as [s|] eqn:Hs; [|exact Hok].
    eapply put_state_ok; [by apply Hok|]. apply map_frame. intros a. apply refreshWindows_spec.
  - done.
Qed.

(** ** What is not known is empty *)

Definition window_wf (w : windowState) : Prop := ws_Known w = true ∨ w = zero_window.

Definition windows_wf (s : moduleState) : Prop :=
  ∀ name a k, st_Accounts s !! name = Some a → window_wf (window a k).

Lemma mergeWindowSignal_cases current incoming :
  mergeWindowSignal current incoming = current ∨ mergeWindowSignal current incoming = incoming.
Proof. unfold mergeWindowSignal. repeat case_match; auto. Qed.

Lemma merge_wf current incoming :
  window_wf current → ws_Known incoming = true → window_wf (mergeWindowSignal current incoming).
Proof. intros Hc Hi. destruct (mergeWindowSignal_cases current incoming) as [-> | ->]; [done|by left]. Qed.

Lemma signal_window_wf current kind now reset : window_wf (signal_window current kind now reset).
Proof.
  unfold signal_window. cbv zeta. set (signal := quota_signal _ _ _ _).
  assert (ws_Known (mergeWindowSignal current signal) = true) as Hm.
  { destruct (ws_Known current) eqn:Hk; [|unfold mergeWindowSignal; by rewrite Hk].
    by destruct (mergeWindowSignal_cases current signal) as [-> | ->]. }
  destruct (time_After _ _); by left.
Qed.

Lemma refresh_wf a now k : window_wf (window a k) → window_wf (window (refreshWindows a now) k).
Proof.
  intros Ha. rewrite (proj2 (proj2 (proj2 (refreshWindows_spec a now)))).
  destruct (cooled _ _); [by right|done].
Qed.

Lemma put_account_wf name a s :
  windows_wf s → (∀ k, window_wf (window a k)) → windows_wf (put_account name a s).
Proof.
  intros Hs Ha n b k. cbn [put_account st_Accounts]. destruct (decide (name = n)) as [<-|].
  - rewrite lookup_insert_eq. intros [= <-]. apply Ha.
  - rewrite lookup_insert_ne by done. apply Hs.
Qed.

Lemma touched_wf now s s' : touched now s s' → windows_wf s → windows_wf s'.
Proof.
  intros (_ & _ & Ht) Hs name a k. destruct (Ht name) as [-> | ->]; [apply Hs|].
  destruct (st_Accounts s !! name) as [b|] eqn:Hb; [|done]. intros [= <-]. by eapply refresh_wf, Hs.
Qed.

Lemma buildState_wf `{GoStd} cfg s : buildState cfg = Ok s → windows_wf s.
Proof.
  unfold buildState. destruct (negb _).
  { intros [= <-] name a k. cbn. by rewrite lookup_empty. }
  destruct (foldl_res _ _ _) as [[seen s']|] eqn:Hf; [|done]. intros [= ->].
  apply (foldl_res_ind (λ _ acc, windows_wf acc.2)) in Hf; [exact Hf| |].
  - intros name a k. cbn. by rewrite lookup_empty.
  - clear. intros _ [seen s] item [seen' s'] Hs. unfold buildState_step. cbv zeta.
    destruct (bool_decide _); [done|]. destruct (foldl_res _ _ _) as [ids|]; [|done].
    intros [= <- <-]. cbn [snd] in *. intros name a k. cbn [st_Accounts].
    destruct (decide (ga_Name item = name)) as [<-|].
    + rewrite lookup_insert_eq. intros [= <-]. right. by destruct k.
    + rewrite lookup_insert_ne by done. apply Hs.
Qed.

Lemma carry_account_wf old a k :
  window_wf (window a k) → (∀ o, old = Some o → window_wf (window o k)) →
  window_wf (window (carry_account old a) k).
Proof.
  intros Ha Ho. unfold carry_account. destruct old as [o|]; [|done]. case_bool_decide; [|done].
  assert (window (set_windows (foldl (λ ws kind, <[kind := window o kind]> ws) (as_Windows a) window_kinds)
    (set_progress (as_cursor o) (as_lastPollAt o) a)) k = window o k) as ->; [|by apply Ho].
  unfold window at 1. cbn [set_windows as_Windows foldl window_kinds].
  destruct k; rewrite ?lookup_insert_eq, ?lookup_insert_ne, ?lookup_insert_eq, ?lookup_insert_ne,
    ?lookup_insert_eq by done; done.
Qed.

Lemma poll_apply_wf s result : windows_wf s → windows_wf (poll_apply s result).
Proof.
  intros Hs. unfold poll_apply. destruct (result.2) as [snapshot|]; [|done].
  destruct (st_Accounts s !! result.1) as [a|] eqn:Ha; [|done]. apply put_account_wf; [done|].
  intros k. rewrite (proj2 (proj2 (proj2 (apply_snapshot_spec snapshot a)))).
  apply merge_wf; [by eapply Hs|done].
Qed.

Lemma HandleUsage_wf `{GoStd} m record wall s :
  md_state m = Some s → windows_wf s →
  ∀ s', md_state (HandleUsage m record wall) = Some s' → windows_wf s'.
Proof.
  intros Hs Hok s'. unfold HandleUsage. rewrite Hs. cbv zeta.
  destruct (md_closed m); [rewrite Hs; by intros [= <-]|]. destruct (stateAccountByAuthID _ _) as [name managed'].
  destruct (_ || _); [rewrite Hs; by intros [= <-]|]. destruct (isMicrothrottle record); [rewrite Hs; by intros [= <-]|].
  destruct (quotaWindow _) as [kind|]; [|rewrite Hs; by intros [= <-]].
  destruct (st_Accounts s !! name) as [a|] eqn:Ha; [|rewrite Hs; by intros [= <-]].
  destruct (negb _); [rewrite Hs; by intros [= <-]|]. intros [= <-]. apply put_account_wf; [done|].
  intros k. rewrite window_set. destruct (decide (kind = k)); [apply signal_window_wf|by eapply Hok].
Qed.

Definition module_wf (m : Module_) : Prop := ∀ s, md_state m = Some s → windows_wf s.

Lemma module_step_wf `{GoStd} m m' : module_wf m → module_step m m' → module_wf m'.
Proof.
  intros Hok Hstep. destruct Hstep as [m decode raw|m req wall|m record wall|m now|m results|m now|m].
  - pose proof (Reconfigure_cases decode m raw) as Hc. destruct (Reconfigure decode m raw) as [[]  m'].
    + destruct Hc as (_ & _ & _ & cfg & staged & _ & Hb & _ & Hm'). intros s Hs. cbn [snd] in Hs.
      rewrite Hm' in Hs. injection Hs as <-. apply buildState_wf in Hb. unfold carryForwardState.
      destruct (md_state m) as [p|] eqn:Hp; [|done]. intros name c k. cbn [st_Accounts].
      rewrite map_lookup_imap. destruct (st_Accounts staged !! name) as [b|] eqn:Hst; [|done].
      intros [= <-]. apply carry_account_wf; [by eapply Hb|]. intros o Ho. by eapply (Hok p Hp).
    + destruct Hc as [Hst _]. intros s. cbn [snd]. rewrite Hst. apply Hok.
  - destruct (md_state m) as [s|] eqn:Hs; [|unfold Pick; rewrite Hs; exact Hok].
    destruct (md_closed m) eqn:Hc; [unfold Pick; rewrite Hs, Hc; exact Hok|].
    destruct (Pick_eq m s req wall Hs Hc) as (s' & Ht & _ & Hnext).
    specialize (touched_wf _ _ _ Ht (Hok s Hs)) as Hwf.
    destruct Hnext as [[_ ->]|(first & rest & a & _ & Ha & _ & ->)]; intros x [= <-]; [done|].
    apply put_account_wf; [done|]. intros k. exact (Hwf _ _ k Ha).
  - destruct (md_state m) as [s|] eqn:Hs; [|unfold HandleUsage; rewrite Hs; exact Hok].
    exact (HandleUsage_wf m record wall s Hs (Hok s Hs)).
  - unfold poll_begin. destruct (md_state m) as [s|] eqn:Hs; [|exact Hok].
    destruct (md_closed m); [exact Hok|]. intros x [= <-] name a k. cbn [st_Accounts].
    rewrite lookup_fmap. destruct (st_Accounts s !! name) as [b|] eqn:Hb; [|done]. intros [= <-].
    specialize (Hok s Hs _ _ k Hb). by destruct (poll_due now b).
  - unfold poll_end. destruct (md_state m) as [s|] eqn:Hs; [|exact Hok].
    destruct (md_closed m); [exact Hok|]. intros x [= <-]. specialize (Hok s Hs). revert Hok. clear.
    revert s. induction results as [|r results IH]; intros s Hok; [done|]. by apply IH, poll_apply_wf.
  - unfold status_body. cbv zeta. destruct (md_state m) as [s|] eqn:Hs; [|exact Hok].
    intros x [= <-] name a k. cbn [st_Accounts]. rewrite lookup_fmap.
    destruct (st_Accounts s !! name) as [b|] eqn:Hb; [|done]. intros [= <-].
    apply refresh_wf. by eapply (Hok s Hs).
  - done.
Qed.

(** Both invariants, in every state the module can reach. *)
Lemma reachable_ok `{GoStd} m : rtc module_step NewModule m → module_ok m ∧ module_wf m.
Proof.
  intros Hsteps. assert (module_ok NewModule ∧ module_wf NewModule) as Hnew by done.
  revert Hnew. induction Hsteps as [|x y z Hxy _ IH]; [done|]. intros [Ho Hw]. apply IH.
  split; [by eapply module_step_ok|by eapply module_step_wf].
Qed.

(** C31: the module's index is exact in every state it can reach: whatever sequence
    of reconfigurations, choices, usage records, polls and status requests brought
    it there, an auth ID leads to an account exactly when that account lists it,
    no auth ID is shared, names are unique up to case, every account has its three
    windows, the threshold is a percentage, and the auth IDs the module reports
    are exactly those of its accounts. *)
Theorem opencode_invariant `{GoStd} m s :
  rtc module_step NewModule m → md_state m = Some s →
  state_ok s ∧ NoDup (OwnedAuthIDs m)
  ∧ ∀ id, id ∈ OwnedAuthIDs m ↔ ∃ name a, st_Accounts s !! name = Some a ∧ id ∈ as_AuthIDs a.
Proof.
  intros Hsteps Hs. apply reachable_ok in Hsteps as [Hok _].
  specialize (Hok s Hs). split; [done|]. unfold OwnedAuthIDs. rewrite Hs. split.
  - rewrite sort_by_perm. apply NoDup_fst_map_to_list.
  - intros id. rewrite sort_by_perm, list_elem_of_fmap. split.
    + intros ([id' name] & -> & Hin%elem_of_map_to_list). apply (so_index s Hok) in Hin as (a & ? & ?).
      by exists name, a.
    + intros (name & a & Ha & Hid). exists (id, name). split; [done|].
      apply elem_of_map_to_list, (so_index s Hok). by exists a.
Qed.

Lemma opencode_invariant_witness : NoDup (OwnedAuthIDs demo_module) ∧ "a2" ∈ OwnedAuthIDs demo_module.
Proof.
  assert (rtc (module_step (H := DemoStd.demo_std)) NewModule demo_module) as Hsteps.
  { apply rtc_once. apply (step_reconfigure (H := DemoStd.demo_std) NewModule (λ _, Ok demo_config)). }
  destruct (opencode_invariant (H := DemoStd.demo_std) demo_module demo_state Hsteps demo_module_state)
    as (_ & Hnd & Hin).
  split; [exact Hnd|]. apply Hin. exists "go-a".
  exists (default (new_account {| ga_Name := ""; ga_AuthIDs := []; ga_DashboardAPIKey := "";
    ga_Disabled := false |}) (st_Accounts demo_state !! "go-a")).
  split; [vm_compute; reflexivity|]. by_decision.
Defined.
