(* ===== verification/ProviderModule.v ===== *)
(** * The contract between the coordinator and its modules
    (providermodule/interface.go)

    The operations of a provider module as a class, the laws the coordinator
    relies on as a second one, and the combination of two modules into one type,
    so that a list of modules may hold both. Every call takes what the clock,
    the network and the file system answered during it as one argument of the
    type [E] of the module's calls. *)

From S2P Require Import Prelude GoStrings Host Config.

(** ** Data *)

(** The clock and the HTTP client of [HostConfig] are left to the calls. *)
Record HostConfig := {
  ho_CPAConfigPath : string;
  ho_AuthDir : string;
  ho_ClaudeKeys : list ClaudeKey;
  ho_OpenAICompatibility : list OpenAICompatibility;
}.

Record ManagementRoute := { mo_Method : string; mo_Path : string; mo_Description : string }.
Record ManagementResource := { ms_Path : string; ms_Menu : string; ms_Description : string }.

Record ManagementRoutes := {
  mn_Routes : list ManagementRoute;
  mn_Resources : list ManagementResource;
}.

(** The optional interface of a module that answers management requests. *)
Record ManagementCapable (M E R : Type) := {
  cap_ManagementRoutes : ManagementRoutes;
  cap_HandleManagement : ManagementRequest → E → R * M;
}.
Arguments cap_ManagementRoutes {M E R}.
Arguments cap_HandleManagement {M E R}.

(** [Module]: [M] is the module's state, [E] what a call is answered by its
    environment, [J] the value of its status, [R] its management response.
    [pm_Background] is one step of the module's own goroutines. *)
Class ProviderModule (M E J R : Type) := {
  pm_ID : M → string;
  pm_Recognize : M → SchedulerAuthCandidate → bool;
  pm_Reconfigure : M → HostConfig → string → E → res unit * M;
  pm_OwnedAuthIDs : M → list string;
  pm_Pick : M → SchedulerPickRequest → E → res SchedulerPickResponse * M;
  pm_HandleUsage : M → UsageRecord → E → res unit * M;
  pm_Status : M → E → res J * M;
  pm_Close : M → E → res unit * M;
  pm_Capable : M → option (ManagementCapable M E R);
  pm_Background : M → E → M;
}.

(** ** Laws *)

(** A candidate of which the host says nothing but the ID. *)
Definition bare_candidate (id : string) : SchedulerAuthCandidate :=
  {| sc_ID := id; sc_Provider := ""; sc_Attributes := ∅ |}.

Section Steps.
Context {M E J R : Type} `{ProviderModule M E J R}.

(** What happens to a module between two reconfigurations. *)
Inductive serving_step : M → M → Prop :=
| serve_pick m req e : serving_step m (pm_Pick m req e).2
| serve_usage m record e : serving_step m (pm_HandleUsage m record e).2
| serve_status m e : serving_step m (pm_Status m e).2
| serve_management m cap req e : pm_Capable m = Some cap →
    serving_step m (cap_HandleManagement cap req e).2
| serve_background m e : serving_step m (pm_Background m e).

Inductive module_step : M → M → Prop :=
| step_serving m m' : serving_step m m' → module_step m m'
| step_reconfigure m host raw e : module_step m (pm_Reconfigure m host raw e).2
| step_close m e : module_step m (pm_Close m e).2.

End Steps.

(** What the coordinator relies on, in the states [pm_ok] describes:
    recognition and ownership only change by reconfiguration, an owned auth ID is
    recognised whatever else is known of the candidate, a recognised request is
    never declined, and usage of an auth ID that is not owned changes nothing. *)
Class ProviderModuleLaws (M E J R : Type) `{ProviderModule M E J R} := {
  pm_ok : M → Prop;
  pm_ok_step m m' : pm_ok m → module_step m m' → pm_ok m';
  pm_ID_step m m' : module_step m m' → pm_ID m' = pm_ID m;
  pm_Recognize_serving m m' c :
    pm_ok m → serving_step m m' → pm_Recognize m' c = pm_Recognize m c;
  pm_OwnedAuthIDs_serving m m' :
    pm_ok m → serving_step m m' → pm_OwnedAuthIDs m' = pm_OwnedAuthIDs m;
  pm_Recognize_bare m id :
    pm_ok m → pm_Recognize m (bare_candidate id) = true ↔ TrimSpace id ∈ pm_OwnedAuthIDs m;
  pm_Pick_handled m req e c resp :
    pm_ok m → c ∈ sp_Candidates req → pm_Recognize m c = true →
    (pm_Pick m req e).1 = Ok resp → pr_Handled resp = true;
  pm_HandleUsage_unowned m record e :
    pm_ok m → TrimSpace (ur_AuthID record) ∉ pm_OwnedAuthIDs m →
    (pm_HandleUsage m record e).2 = m;
}.

(** ** Two kinds of modules *)

Definition map_state {A M M'} (f : M → M') (r : A * M) : A * M' := (r.1, f r.2).

Definition map_capable {M M' E E' R} (f : M → M') (g : E' → E) (cap : ManagementCapable M E R)
    : ManagementCapable M' E' R :=
  {| cap_ManagementRoutes := cap_ManagementRoutes cap;
     cap_HandleManagement req e := map_state f (cap_HandleManagement cap req (g e)) |}.

Section Sum.
Context {M1 E1 J1 M2 E2 J2 R : Type}.
Context `{P1 : ProviderModule M1 E1 J1 R} `{P2 : ProviderModule M2 E2 J2 R}.

#[export] Instance sum_module : ProviderModule (M1 + M2) (E1 * E2) (J1 + J2) R := {|
  pm_ID m := match m with inl m => pm_ID m | inr m => pm_ID m end;
  pm_Recognize m c := match m with inl m => pm_Recognize m c | inr m => pm_Recognize m c end;
  pm_Reconfigure m host raw e :=
    match m with
    | inl m => map_state inl (pm_Reconfigure m host raw e.1)
    | inr m => map_state inr (pm_Reconfigure m host raw e.2)
    end;
  pm_OwnedAuthIDs m := match m with inl m => pm_OwnedAuthIDs m | inr m => pm_OwnedAuthIDs m end;
  pm_Pick m req e :=
    match m with
    | inl m => map_state inl (pm_Pick m req e.1)
    | inr m => map_state inr (pm_Pick m req e.2)
    end;
  pm_HandleUsage m record e :=
    match m with
    | inl m => map_state inl (pm_HandleUsage m record e.1)
    | inr m => map_state inr (pm_HandleUsage m record e.2)
    end;
  pm_Status m e :=
    match m with
    | inl m => let '(j, m) := pm_Status m e.1 in (inl <$> j, inl m)
    | inr m => let '(j, m) := pm_Status m e.2 in (inr <$> j, inr m)
    end;
  pm_Close m e :=
    match m with
    | inl m => map_state inl (pm_Close m e.1)
    | inr m => map_state inr (pm_Close m e.2)
    end;
  pm_Capable m :=
    match m with
    | inl m => map_capable inl fst <$> pm_Capable m
    | inr m => map_capable inr snd <$> pm_Capable m
    end;
  pm_Background m e :=
    match m with
    | inl m => inl (pm_Background m e.1)
    | inr m => inr (pm_Background m e.2)
    end;
|}.

(** A step of the combination is a step of the module it holds. *)
Definition sum_rel (R1 : M1 → M1 → Prop) (R2 : M2 → M2 → Prop) (m m' : M1 + M2) : Prop :=
  match m, m' with
  | inl m, inl m' => R1 m m'
  | inr m, inr m' => R2 m m'
  | _, _ => False
  end.

Lemma sum_serving m m' : serving_step m m' → sum_rel serving_step serving_step m m'.
Proof.
  intros [[] req e|[] rec e|[] e|[] cap req e Hcap|[] e]; cbn.
  - apply serve_pick.
  - apply serve_pick.
  - apply serve_usage.
  - apply serve_usage.
  - pose proof (serve_status m0 e.1) as Hs. by destruct (pm_Status m0 e.1).
  - pose proof (serve_status m0 e.2) as Hs. by destruct (pm_Status m0 e.2).
  - cbn in Hcap. apply fmap_Some in Hcap as (cap' & Hcap & ->). cbn. by apply serve_management.
  - cbn in Hcap. apply fmap_Some in Hcap as (cap' & Hcap & ->). cbn. by apply serve_management.
  - apply serve_background.
  - apply serve_background.
Qed.

Lemma sum_step m m' : module_step m m' → sum_rel module_step module_step m m'.
Proof.
  intros [? ? Hs%sum_serving|[] host raw e|[] e]; cbn.
  - destruct m0, m'0; try done; by apply step_serving.
  - apply step_reconfigure.
  - apply step_reconfigure.
  - apply step_close.
  - apply step_close.
Qed.

Context `{L1 : !ProviderModuleLaws M1 E1 J1 R} `{L2 : !ProviderModuleLaws M2 E2 J2 R}.

#[export] Program Instance sum_laws : ProviderModuleLaws (M1 + M2) (E1 * E2) (J1 + J2) R := {|
  pm_ok m := match m with inl m => pm_ok m | inr m => pm_ok m end;
|}.
Next Obligation. intros [m|m] [m'|m'] Hok Hs%sum_step; try done; exact (pm_ok_step m m' Hok Hs). Qed.
Next Obligation. intros [m|m] [m'|m'] Hs%sum_step; try done; exact (pm_ID_step m m' Hs). Qed.
Next Obligation. intros [m|m] [m'|m'] c Hok Hs%sum_serving; try done; exact (pm_Recognize_serving m m' c Hok Hs). Qed.
Next Obligation. intros [m|m] [m'|m'] Hok Hs%sum_serving; try done; exact (pm_OwnedAuthIDs_serving m m' Hok Hs). Qed.
Next Obligation. intros [m|m] id Hok; exact (pm_Recognize_bare m id Hok). Qed.
Next Obligation. intros [m|m] req e c resp Hok Hin Hrec Hp; [exact (pm_Pick_handled m req e.1 c resp Hok Hin Hrec Hp)|exact (pm_Pick_handled m req e.2 c resp Hok Hin Hrec Hp)]. Qed.
Next Obligation. intros [m|m] rec e Hok Hin; cbn; f_equal; by apply pm_HandleUsage_unowned. Qed.

End Sum.
