(* ===== verification/ZaiModule.v ===== *)
(** * The Z.ai module behind the contract (zai/module.go)

    The adapter of the runtime, the poll with its write and the forced refresh,
    and the proof that the runtime satisfies the laws of the contract. *)

From S2P Require Import Prelude GoStrings Host Config Accounts Windows Health Quota Settings Runtime RuntimeSteps Scheduler Management ProviderModule.

(** ** Polls with their writes *)

(** What a poll is answered: the fetch, the state of its context, the outcome of
    the write, and the clock. *)
Record poll_outcome := {
  pq_now : Time;
  pq_later : Time;
  pq_result : res quotaSnapshot;
  pq_cancelled : bool;
  pq_wall : Time;
  pq_fault : option error;
}.

Definition pollOnce (r : pluginRuntime) (identity : string) (generation : Z) (o : poll_outcome)
    : res unit * pluginRuntime :=
  match poll_locked r identity generation (pq_now o) (pq_later o) (pq_result o) (pq_cancelled o) with
  | (Err e, r) => (Err e, r)
  | (Ok None, r) => (Ok (), r)
  | (Ok (Some (store, state)), r) =>
      let '(write, r) := persistStateLocked r store state (pq_wall o) (pq_fault o) in
      (poll_result (pq_result o) write, r)
  end.

(** The polls of a refresh, in one order they may finish in. *)
Definition runRefresh (r : pluginRuntime) (refresh : refreshGeneration)
    (outcome : string → poll_outcome) : res unit * pluginRuntime :=
  let '(results, r) :=
    foldl (λ acc item,
      let '(result, r) :=
        pollOnce acc.2 (ac_Identity item) (rg_generation refresh) (outcome (ac_Identity item)) in
      (acc.1 ++ [result], r)) ([], r) (refresh_polls refresh) in
  (refresh_result results, r).

(** A refresh that no other one is running with. *)
Definition forceRefresh (r : pluginRuntime) (outcome : string → poll_outcome)
    : res unit * pluginRuntime :=
  match (beginRefresh r None 0).1 with
  | Err e => (Err e, r)
  | Ok (refresh, _) => runRefresh r refresh outcome
  end.

(** ** The adapter *)

(** The YAML decoder of the configuration, the JSON decoders of management
    bodies, and the version the build stamps. *)
Class ZaiDecoders := {
  zd_config : string → res rawPluginConfig;
  zd_entries : string → option Z;
  zd_selector : string → option string;
  zd_update : string → option managementAccountConfigRequest;
  zd_version : string;
}.

(** What a call of the module is answered. *)
Record zai_call := {
  zc_now : Time;
  zc_later : Time;
  zc_wall : Time;
  zc_fault : option error;
  zc_flush_error : option error;
  zc_close_error : option error;
  zc_store : res secureStore;
  zc_settings : res settingsFile;
  zc_persisted : res persistedState;
  zc_save : settingsFile → res unit;
  zc_poll : string → poll_outcome;
  zc_poller : string * Z;
}.

Section Adapter.
Context `{GoStd} `{ZaiDecoders}.

Definition host_projection (host : HostConfig) : cpaConfigProjection :=
  {| cc_AuthDir := ho_AuthDir host; cc_ClaudeKeys := ho_ClaudeKeys host;
     cc_OpenAICompatibility := ho_OpenAICompatibility host;
     cc_Plugins := {| cps_Enabled := false; cps_Configs := [] |} |}.

Definition zai_Reconfigure (r : pluginRuntime) (host : HostConfig) (raw : string) (e : zai_call)
    : res unit * pluginRuntime :=
  match parsePluginConfig zd_config raw with
  | Err err => let '(err, r) := recordError r err [] in (Err err, r)
  | Ok cfg =>
      let cpa := host_projection host in
      reconfigureWithAccounts r cfg cpa (cpaProviderKeys cpa) (zc_store e) (zc_settings e)
        (zc_persisted e) (zc_now e) (zc_close_error e)
  end.

Definition zai_Status (r : pluginRuntime) (e : zai_call) : res managementStatusBody * pluginRuntime :=
  let status := if bool_decide (validationStatus r = "") then "registered" else "reconfigure_rejected" in
  let '(body, r) := managementStatus zd_version r status (zc_now e) in
  (Ok body, r).

Definition zai_HandleManagement (r : pluginRuntime) (req : ManagementRequest) (e : zai_call)
    : ManagementResponse * pluginRuntime :=
  handleManagement zd_entries zd_selector zd_update (λ r, forceRefresh r (zc_poll e))
    (λ _, zc_settings e) (zc_save e) zd_version r req (zc_now e).

Definition zai_ManagementRoutes : ManagementRoutes :=
  {| mn_Routes := (λ route, {| mo_Method := mr_Method route; mo_Path := mr_Path route;
                               mo_Description := mr_Description route |}) <$> managementRegistration;
     mn_Resources := [] |}.

#[export] Instance zai_module
    : ProviderModule pluginRuntime zai_call managementStatusBody ManagementResponse := {|
  pm_ID _ := "zai";
  pm_Recognize := Recognize;
  pm_Reconfigure := zai_Reconfigure;
  pm_OwnedAuthIDs := OwnedAuthIDs;
  pm_Pick r req e := pick r req (zc_now e);
  pm_HandleUsage r record e :=
    handleUsage r record (zc_now e) (zc_later e) (zc_wall e) (zc_fault e);
  pm_Status := zai_Status;
  pm_Close r e :=
    shutdown r (zc_now e) (zc_wall e) (zc_fault e) (zc_flush_error e) (zc_close_error e);
  pm_Capable r := Some
    {| cap_ManagementRoutes := zai_ManagementRoutes;
       cap_HandleManagement req e := zai_HandleManagement r req e |};
  pm_Background r e :=
    (pollOnce r (zc_poller e).1 (zc_poller e).2 (zc_poll e (zc_poller e).1)).2;
|}.

End Adapter.

(** ** The index over the operations *)

(** What recognition and ownership read of a runtime. *)
Definition index_of (r : pluginRuntime) : option (gmap string string) :=
  rs_byAuthID <$> rt_snapshot r.

Lemma Recognize_index `{GoStd} r r' c :
  index_of r' = index_of r → Recognize r' c = Recognize r c.
Proof.
  unfold index_of, Recognize. destruct (recognizedZAICandidate c); [done|].
  destruct (rt_snapshot r), (rt_snapshot r'); cbn; [|done..]. by intros [= ->].
Qed.

Lemma OwnedAuthIDs_index r r' : index_of r' = index_of r → OwnedAuthIDs r' = OwnedAuthIDs r.
Proof.
  unfold index_of, OwnedAuthIDs.
  destruct (rt_snapshot r), (rt_snapshot r'); cbn; [|done..]. by intros [= ->].
Qed.

(** A snapshot that differs in quota and health only. *)
Lemma frame_index s s' :
  set_quota_health (rs_Quota s) (rs_Health s) s' = s → rs_byAuthID s' = rs_byAuthID s.
Proof. intros Hf. by rewrite <- Hf. Qed.

Lemma refresh_index s identity now :
  rs_byAuthID (refreshCapacityLocked s identity now).2 = rs_byAuthID s.
Proof. destruct (refreshCapacityLocked_snd s identity now) as (h & _ & ->). done. Qed.

Lemma pick_index `{GoStd} r req now : index_of (pick r req now).2 = index_of r.
Proof.
  unfold pick, index_of. destruct (rt_snapshot r) as [s|] eqn:Hs; [|by cbn; rewrite ?Hs].
  destruct (rt_stopped r); [by cbn; rewrite ?Hs|].
  pose proof (scan_spec s now (sp_Candidates req) s 0 0 (refreshes_same now s)) as Hscan.
  destruct (scan_candidates s now (sp_Candidates req) 0 0) as [counts s1].
  destruct Hscan as (Hr & _). apply rf_frame, frame_index in Hr.
  destruct counts as [[n i]|]; [|by cbn; rewrite Hr].
  destruct (n =? 0)%nat; [by cbn; rewrite Hr|]. destruct (i =? 0)%nat; [by cbn; rewrite Hr|].
  destruct (foldl _ _ _) as [[|h hs] t]; [destruct (negb _); by cbn; rewrite Hr|].
  destruct (negb _); [by cbn; rewrite Hr|]. destruct (next _ _ _). by cbn; rewrite Hr.
Qed.

Lemma persist_index r store state wall fault :
  index_of (persistStateLocked r store state wall fault).2 = index_of r.
Proof.
  unfold persistStateLocked. destruct (negb _ && _); [done|].
  destruct (save_state _ _ _ _ _) as [saved|e]; [done|]. cbn. unfold warn_unsaved, index_of.
  destruct (rt_snapshot r) as [s|] eqn:Hs; [|by cbn; rewrite ?Hs]. destruct (_ && _); [done|by cbn; rewrite ?Hs].
Qed.

Lemma usage_locked_index `{GoStd} r record now later :
  index_of (usage_locked r record now later).2 = index_of r.
Proof.
  destruct (usage_locked_effect r record now later) as [e| |s id h Hs ? ? ?|s id h Hs ? ? ? ?];
    [done|done|unfold index_of; cbn; by rewrite Hs..].
Qed.

Lemma usage_index `{GoStd} r record now later wall fault :
  index_of (handleUsage r record now later wall fault).2 = index_of r.
Proof.
  unfold handleUsage. pose proof (usage_locked_index r record now later) as Hi.
  destruct (usage_locked r record now later) as [[[[store state]|]|e] r']; cbn in Hi; [|done..].
  by rewrite persist_index.
Qed.

Lemma poll_locked_index r identity generation now later result cancelled :
  index_of (poll_locked r identity generation now later result cancelled).2 = index_of r.
Proof.
  destruct (poll_locked_effect r identity generation now later result cancelled)
    as [| |s st accounts byId h Hs]; [done|done|unfold index_of; cbn; by rewrite Hs].
Qed.

Lemma poll_index r identity generation o : index_of (pollOnce r identity generation o).2 = index_of r.
Proof.
  unfold pollOnce. pose proof (poll_locked_index r identity generation (pq_now o) (pq_later o)
    (pq_result o) (pq_cancelled o)) as Hi.
  destruct (poll_locked _ _ _ _ _ _ _) as [[[[store state]|]|e] r']; cbn in Hi; [|done..].
  pose proof (persist_index r' store state (pq_wall o) (pq_fault o)) as Hp.
  destruct (persistStateLocked _ _ _ _ _) as [w r2]. cbn in *. congruence.
Qed.

Lemma forceRefresh_index r outcome : index_of (forceRefresh r outcome).2 = index_of r.
Proof.
  unfold forceRefresh. destruct (beginRefresh r None 0).1 as [[refresh leader]|e]; [|done].
  unfold runRefresh. set (step := λ (acc : list (res unit) * pluginRuntime) (item : account), _).
  assert (∀ items acc, index_of (foldl step acc items).2 = index_of acc.2) as Hfold.
  { induction items as [|item items IH]; intros acc; [done|]. cbn [foldl]. rewrite IH. unfold step.
    pose proof (poll_index acc.2 (ac_Identity item) (rg_generation refresh)
      (outcome (ac_Identity item))) as Hp.
    by destruct (pollOnce acc.2 _ _ _). }
  pose proof (Hfold (refresh_polls refresh) ([], r)) as Hi. by destruct (foldl step _ _).
Qed.

Lemma account_statuses_index s now items :
  rs_byAuthID (account_statuses s now items).2 = rs_byAuthID s.
Proof.
  revert s. induction items as [|item items IH]; intros s; [done|]. cbn [account_statuses].
  unfold account_status at 1. pose proof (refresh_index s (ac_Identity item) now) as Hr.
  destruct (refreshCapacityLocked s (ac_Identity item) now) as [h s1]. cbn in Hr.
  specialize (IH s1). destruct (account_statuses s1 now items) as [l s2]. cbn in *. congruence.
Qed.

Lemma managementStatus_index version r status now :
  index_of (managementStatus version r status now).2 = index_of r.
Proof.
  unfold managementStatus, index_of. cbv zeta. destruct (rt_snapshot r) as [s|] eqn:Hs.
  2: { cbn. by rewrite Hs. }
  pose proof (account_statuses_index s now (rs_Accounts s)) as Hi.
  destruct (account_statuses s now (rs_Accounts s)) as [l s']. cbn in *. by rewrite Hi.
Qed.

Lemma unblock_index r name now : index_of (unblock r name now).2 = index_of r.
Proof.
  unfold unblock, index_of. destruct (rt_snapshot r) as [s|] eqn:Hs; [|by cbn; rewrite Hs].
  destruct (rt_stopped r); [by cbn; rewrite Hs|]. cbv zeta.
  destruct (_ =? 0)%nat; [by cbn; rewrite Hs|]. destruct (_ && _); [by cbn; rewrite Hs|].
  cbn. f_equal. generalize (selected_identities (TrimSpace name) (rs_Accounts s)). intros ids.
  clear Hs. revert s. induction ids as [|i ids IH]; intros s; [done|]. cbn [foldl]. rewrite IH.
  apply frame_index, unblock_identity_frame.
Qed.

(** The snapshot an update publishes is the live one with other accounts. *)
Lemma plan_update_index `{GoStd} r input recovered updated saved :
  plan_update r input recovered = Ok (updated, saved) →
  Some (rs_byAuthID updated) = index_of r.
Proof.
  unfold plan_update, index_of. cbv zeta. destruct (bool_decide _); [done|].
  destruct (rt_snapshot r) as [s|]; [|done]. destruct (_ || _); [done|].
  destruct (select_account _ _ _ _) as [index|]; [|done]. cbn [mbind res_bind].
  destruct (index ≫= _) as [[i item]|]; [|done].
  destruct recovered as [settings|]; [|done]. cbn [mbind res_bind].
  destruct (update_setting _ _) as [setting|]; [|done]. cbn [mbind res_bind].
  destruct (update_config _ _ _) as [[cfg' settings']|]; [|done]. cbn [mbind res_bind].
  destruct (if mc_Clear input then _ else _) as [[candidate settings'']|]; [|done].
  cbn [mbind res_bind]. destruct (validateAccounts _); [|done].
  intros Hup. injection Hup as <- _. done.
Qed.

Lemma commit_index r staged before close_error :
  Some (rs_byAuthID staged) = index_of r →
  index_of (commitSnapshotAfter r staged before close_error).2 = index_of r.
Proof.
  intros Hi. pose proof (commit_snapshot r staged before close_error) as Hc. unfold index_of at 1.
  destruct (rt_snapshot (commitSnapshotAfter r staged before close_error).2) as [s|] eqn:Hs.
  - destruct (Hc s eq_refl) as [Hr|[Hb _]]; [unfold index_of; by rewrite Hr|]. cbn. by rewrite Hb.
  - exfalso. revert Hs Hi. clear Hc. unfold commitSnapshotAfter, index_of.
    destruct (rt_stopped r); [cbn; by intros ->|].
    destruct (rt_snapshot r) as [live|] eqn:Hl; [|done].
    destruct (sameSecureStore _ _); [case_bool_decide; [|destruct (rs_Store staged)]|];
      (destruct before; [|cbn; by rewrite ?Hl]); cbn; repeat (case_match; cbn); done.
Qed.

Lemma update_index `{GoStd} r input recovered save :
  index_of (updateAccountConfig r input recovered save).2 = index_of r.
Proof.
  unfold updateAccountConfig. destruct (plan_update r input recovered) as [[updated saved]|] eqn:Hp;
    [|done]. by apply commit_index, (plan_update_index _ _ _ _ _ Hp).
Qed.

Lemma management_index `{GoStd} `{ZaiDecoders} r req e :
  index_of (zai_HandleManagement r req e).2 = index_of r.
Proof.
  unfold zai_HandleManagement, handleManagement.
  assert (∀ version r code now, index_of (statusResponse version r code now).2 = index_of r) as Hst.
  { intros version r0 code now. unfold statusResponse. set (status := if bool_decide _ then _ else _).
    pose proof (managementStatus_index version r0 status now) as Hi.
    by destruct (managementStatus version r0 status now). }
  repeat match goal with
  | |- context [if ?b then _ else _] => destruct b
  | |- context [match requireEmptyJSONBody ?d ?b with _ => _ end] =>
      destruct (requireEmptyJSONBody d b)
  | |- context [match decodeManagementJSON ?d ?b with _ => _ end] =>
      destruct (decodeManagementJSON d b)
  end; try done; try apply Hst.
  - pose proof (forceRefresh_index r (zc_poll e)) as Hi.
    destruct (forceRefresh r (zc_poll e)) as [[|] r']; cbn in Hi; [by rewrite Hst|done].
  - pose proof (unblock_index r a (zc_now e)) as Hi.
    destruct (unblock r a (zc_now e)) as [[|] r']; cbn in Hi; [by rewrite Hst|done].
  - pose proof (update_index r a (zc_settings e) (zc_save e)) as Hi.
    destruct (updateAccountConfig r a _ _) as [[|] r']; cbn in Hi; [by rewrite Hst|done].
Qed.

Lemma shutdown_index r now wall fault flush_error close_error :
  index_of (shutdown r now wall fault flush_error close_error).2 = index_of r.
Proof.
  destruct (shutdown_effects r now wall fault flush_error close_error)
    as [r' _ _ _ Hs|s r' Hs Hs'|s store r' Hs Hs'];
    unfold index_of; congruence.
Qed.

Lemma serving_index `{GoStd} `{ZaiDecoders} r r' : serving_step r r' → index_of r' = index_of r.
Proof.
  intros [r0 req e|r0 record e|r0 e|r0 cap req e Hcap|r0 e]; cbn.
  - apply pick_index.
  - apply usage_index.
  - unfold zai_Status. set (status := if bool_decide _ then _ else _).
    pose proof (managementStatus_index zd_version r0 status (zc_now e)) as Hi.
    by destruct (managementStatus zd_version r0 status (zc_now e)).
  - injection Hcap as <-. apply management_index.
  - apply poll_index.
Qed.

(** ** The index names accounts *)

Definition index_ok (r : pluginRuntime) : Prop :=
  ∀ index, index_of r = Some index → map_Forall (λ _ identity, identity ≠ "") index.

Lemma index_ok_same r r' : index_of r' = index_of r → index_ok r → index_ok r'.
Proof. unfold index_ok. by intros ->. Qed.

Definition identified (accounts : list account) : Prop :=
  Forall (λ a, ac_Identity a ≠ "") accounts.

Lemma discovered_identified `{GoStdLaws} cpa cfg accounts :
  discoverAccounts cpa cfg = Ok accounts → identified accounts.
Proof.
  unfold discoverAccounts. destruct (discover_pairs cpa) as [pairs|]; [|done].
  cbn [mbind res_bind]. destruct (bool_decide (size pairs = _)); [done|].
  destruct (validatePairs pairs) as [[]|]; [|done]. cbn [mbind res_bind].
  destruct (foldl_res _ [] _) as [ordered|] eqn:Hord; [|done]. cbn [mbind res_bind].
  destruct (validateAccountAuthIDs ordered) as [[]|]; [|done]. cbn [mbind res_bind].
  intros (Hod & _)%applyAccountOverrides_inv. apply order_accounts_eq in Hord as [-> _].
  apply Forall_lookup_2. intros i a Ha.
  destruct (Forall2_lookup_r _ _ _ _ _ Hod Ha) as (a0 & Ha0 & Hover).
  rewrite (od_Identity _ _ Hover). apply list_lookup_fmap_Some in Ha0 as (key & -> & _).
  apply accountIdentity_nonempty.
Qed.

Lemma applyStoredSettings_identified `{GoStd} accounts settings accounts' :
  applyStoredSettings accounts settings = Ok accounts' → identified accounts → identified accounts'.
Proof.
  unfold applyStoredSettings. destruct (_ && _); [by intros [= ->]|].
  destruct (negb _); [done|]. destruct (applyStoredConfig _ _); [|done]. cbn [mbind res_bind].
  destruct (foldl_res _ _ _); [|done]. cbn [mbind res_bind].
  destruct (validateAccounts _); [|done]. intros [= <-] Hid. apply Forall_fmap.
  eapply Forall_impl; [exact Hid|]. intros acc Hacc. cbn. destruct (_ !! _); [|done].
  unfold applyStoredSetting. exact Hacc.
Qed.

Lemma stage_account_identified cfg saved now st i :
  identified (sg_accounts st) ∧ map_Forall (λ _ id, id ≠ "") (sg_byAuthID st) →
  identified (sg_accounts (stage_account cfg saved now st i))
  ∧ map_Forall (λ _ id, id ≠ "") (sg_byAuthID (stage_account cfg saved now st i)).
Proof.
  intros [Hacc Hi]. unfold stage_account.
  destruct (sg_accounts st !! i) as [item|] eqn:Hitem; [|done]. cbv zeta.
  set (accounts := match qs_Authoritative _ with Some _ => _ | None => _ end).
  assert (accounts_only (ac_Identity item) (sg_accounts st) accounts) as Honly.
  { unfold accounts. destruct (qs_Authoritative _);
      [apply syncPlanFromUpstream_only|apply accounts_only_refl]. }
  assert (identified accounts) as Hacc'.
  { apply Forall_lookup_2. intros k a Ha.
    destruct (Forall2_lookup_r _ _ _ _ _ Honly Ha) as (a0 & Ha0 & -> & _).
    by eapply Forall_lookup_1 in Hacc. }
  split; [done|]. intros id owner. cbn [sg_byAuthID]. unfold indexAccountAuthIDs.
  rewrite foldl_insert_lookup. destruct (decide _); [|by apply Hi]. intros [= <-].
  destruct (accounts !! i) as [a|] eqn:Ha; cbn.
  - by eapply Forall_lookup_1 in Hacc'.
  - by eapply (Forall_lookup_1 _ _ _ _ Hacc).
Qed.

Lemma stage_snapshot_identified cfg base accounts store saved now :
  identified accounts →
  map_Forall (λ _ id, id ≠ "") (rs_byAuthID (stage_snapshot cfg base accounts store saved now)).
Proof.
  intros Hacc. unfold stage_snapshot. cbn [rs_byAuthID]. set (st := {| sg_accounts := accounts |}).
  assert (identified (sg_accounts st) ∧ map_Forall (λ _ id, id ≠ "") (sg_byAuthID st)) as Hst.
  { split; [done|apply map_Forall_empty]. }
  clearbody st. revert st Hst. induction (seq 0 (length accounts)) as [|i l IH]; intros st Hst; [apply Hst|].
  cbn [foldl]. apply IH. by apply stage_account_identified.
Qed.

Lemma reconfigure_index_ok `{GoStdLaws} `{ZaiDecoders} r host raw e :
  index_ok r → index_ok (zai_Reconfigure r host raw e).2.
Proof.
  intros Hok. unfold zai_Reconfigure. destruct (parsePluginConfig _ _) as [cfg|].
  2: { cbn. destruct (rt_stopped r); [done|]. by eapply index_ok_same. }
  unfold reconfigureWithAccounts. destruct (rt_stopped r) eqn:Hstop; [done|]. cbv zeta.
  destruct (zc_store e) as [store|]; [|cbn; rewrite Hstop; by eapply index_ok_same].
  destruct (discoverAccounts _ cfg) as [base|] eqn:Hd; [|cbn; rewrite Hstop; by eapply index_ok_same].
  destruct (zc_settings e) as [settings|]; [|cbn; rewrite Hstop; by eapply index_ok_same].
  destruct (applyStoredSettings base settings) as [accounts|] eqn:Hs;
    [|cbn; rewrite Hstop; by eapply index_ok_same].
  destruct (applyStoredConfig cfg settings) as [cfg'|]; [|cbn; rewrite Hstop; by eapply index_ok_same].
  destruct (zc_persisted e) as [saved|]; [|cbn; rewrite Hstop; by eapply index_ok_same].
  apply discovered_identified in Hd. apply applyStoredSettings_identified in Hs; [|done].
  pose proof (stage_snapshot_identified cfg' base accounts store saved (zc_now e) Hs) as Hst.
  set (staged := stage_snapshot _ _ _ _ _ _) in *. clearbody staged.
  assert (index_ok (commitSnapshotAfter r staged (Ok ()) (zc_close_error e)).2) as Hc.
  { intros index. unfold index_of. intros Hsome%fmap_Some. destruct Hsome as (s & Hs' & ->).
    apply commit_snapshot in Hs' as [Hr|[-> _]]; [|done]. apply Hok. unfold index_of. by rewrite Hr. }
  destruct (commitSnapshotAfter _ _ _ _) as [[|] r']; [done|]. by eapply index_ok_same; [|exact Hc].
Qed.

(** ** The laws *)

Lemma membership_managed s c :
  map_Forall (λ _ identity, identity ≠ "") (rs_byAuthID s) →
  is_Some (rs_byAuthID s !! TrimSpace (sc_ID c)) → managed s c.
Proof.
  intros Hok [identity Hid]. unfold managed, candidate_identity. rewrite Hid. by eapply Hok.
Qed.

(** A request with a recognised candidate is handled or refused, never declined. *)
Lemma pick_handled `{GoStd} r req now c resp :
  index_ok r → c ∈ sp_Candidates req → Recognize r c = true →
  (pick r req now).1 = Ok resp → pr_Handled resp = true.
Proof.
  intros Hok Hin Hrec. unfold pick. destruct (rt_snapshot r) as [s|] eqn:Hs; [|done].
  destruct (rt_stopped r); [done|].
  pose proof (scan_spec s now (sp_Candidates req) s 0 0 (refreshes_same now s)) as Hscan.
  destruct (scan_candidates s now (sp_Candidates req) 0 0) as [counts s1].
  destruct Hscan as (_ & _ & Hcounts).
  destruct (existsb (unmanaged_recognized s) (sp_Candidates req)) eqn:Hex.
  { by rewrite Hcounts. }
  destruct Hcounts as [-> _]. cbn [Nat.add].
  assert (managed s c) as Hm.
  { revert Hrec. unfold Recognize. rewrite Hs. destruct (recognizedZAICandidate c) eqn:Hz.
    - intros _. assert (unmanaged_recognized s c = false) as Hu 
        by exact (proj1 (existsb_none _ _) Hex c Hin).
      unfold unmanaged_recognized in Hu. rewrite Hz, andb_true_r in Hu.
      by apply negb_false_iff, bool_decide_eq_true in Hu.
    - intros Hb. crush_bool. apply membership_managed; [|done]. apply Hok. unfold index_of. by rewrite Hs. }
  destruct (Nat.eqb_spec (length (filter (managed s) (sp_Candidates req))) 0) as [H0|_].
  { apply nil_length_inv in H0. assert (c ∈ filter (managed s) (sp_Candidates req)) as Hc
      by (by apply list_elem_of_filter). rewrite H0 in Hc. by apply elem_of_nil in Hc. }
  destruct (_ =? 0)%nat; [by intros [= <-]|]. destruct (foldl _ _ _) as [[|h hs] t].
  { by destruct (negb _). }
  destruct (negb _); [by intros [= <-]|]. destruct (next _ _ _). by intros [= <-].
Qed.


Lemma bare_unrecognized `{GoStd} id : recognizedZAICandidate (bare_candidate id) = false.
Proof. reflexivity. Qed.

#[export] Program Instance zai_laws `{GoStdLaws} `{ZaiDecoders}
    : ProviderModuleLaws pluginRuntime zai_call managementStatusBody ManagementResponse :=
  {| pm_ok := index_ok |}.
Next Obligation.
  intros ????? Hok Hstep. revert Hok. destruct Hstep as [r r' Hs%serving_index|r host raw e|r e];
    intros Hok; cbn.
  - exact (index_ok_same _ _ Hs Hok).
  - exact (reconfigure_index_ok r host raw e Hok).
  - eapply index_ok_same; [apply shutdown_index|done].
Qed.
Next Obligation. done. Qed.
Next Obligation. intros ??? r r' c _ Hs%serving_index. by apply Recognize_index. Qed.
Next Obligation. intros ??? r r' _ Hs%serving_index. by apply OwnedAuthIDs_index. Qed.
Next Obligation.
  intros ??? r id _. cbn. unfold Recognize, OwnedAuthIDs. rewrite bare_unrecognized.
  destruct (rt_snapshot r) as [s|]; [|split; [done|by intros ?%elem_of_nil]].
  cbn [sc_ID bare_candidate]. rewrite bool_decide_eq_true, list_elem_of_fmap. split.
  - intros [identity Hid]. exists (TrimSpace id, identity). split; [done|].
    by apply elem_of_map_to_list.
  - intros ([id' identity] & -> & Hid%elem_of_map_to_list). by eexists.
Qed.
Next Obligation. intros ??? r req e c resp Hok Hin Hrec. by apply pick_handled with c. Qed.
Next Obligation.
  intros ??? r record e _ Hno. cbn. unfold handleUsage, usage_locked.
  revert Hno. cbn. unfold OwnedAuthIDs. destruct (rt_snapshot r) as [s|]; [|done].
  destruct (rt_stopped r); [done|]. intros Hno.
  destruct (rs_byAuthID s !! TrimSpace (ur_AuthID record)) as [identity|] eqn:Hid; [|done].
  exfalso. apply Hno, list_elem_of_fmap. exists (TrimSpace (ur_AuthID record), identity).
  split; [done|]. by apply elem_of_map_to_list.
Qed.
