(* ===== verification/ZaiHost.v ===== *)
(** * The Z.ai runtime from the host's file (zai/config.go, zai/runtime.go)

    Reading the host's configuration, resolving its paths, and the reconfiguration of
    the runtime on its own, of which the one behind the contract is the tail. The parser
    of the host's configuration and the user's home directory are arguments. *)

From S2P Require Import Prelude GoStrings GoFiles Host Config Accounts SecureStore Settings Runtime Scheduler ProviderModule ZaiModule.

(** [filepath.Abs] *)
Definition path_Abs `{GoOS} (path : string) (fs : FS) : res string :=
  if rooted path then Ok (path_Clean path) else
  match os_fault "getwd" "" with
  | Some msg => errorf msg
  | None => Ok (path_Join ["/" +:+ Join (fs_cwd fs) "/"; path])
  end.

Section Host.
Context `{GoStd} `{GoOS}.

(** The SDK's parser of the file, which gives the fields the projection copies, and
    [os.UserHomeDir]. *)
Context (ParseConfigBytes : string → option cpaConfigProjection) (UserHomeDir : res string).

Definition loadCPAConfig (path : string) (fs : FS) : res cpaConfigProjection :=
  data ← wrap_err "read CPA config: " (os_ReadFile path fs);
  match ParseConfigBytes data with
  | None => errorf "load CPA config: invalid configuration"
  | Some cfg => Ok cfg
  end.

Definition resolveCPAConfigPath (pluginConfigPath : string) (fs : FS) : res string :=
  let clean := path_Clean (TrimSpace pluginConfigPath) in
  if bool_decide (clean = ".") || bool_decide (clean = "")
  then errorf "cpa-config-path is required" else
  if rooted clean then Ok clean
  else wrap_err "resolve cpa-config-path: " (path_Abs clean fs).

(** The home directory in place of a leading tilde. *)
Definition expand_home (value : string) : res string :=
  if bool_decide (value = "~") || HasPrefix value "~/" then
    home ← wrap_err "resolve auth-dir: " UserHomeDir;
    Ok (if bool_decide (value = "~") then home else path_Join [home; TrimPrefix value "~/"])
  else Ok value.

Definition resolveAuthDir (raw : string) (fs : FS) : res string :=
  let value := TrimSpace raw in
  let value := if bool_decide (value = "") then "~/.cli-proxy-api" else value in
  value ← expand_home value;
  wrap_err "resolve auth-dir: " (path_Abs (path_Clean value) fs).

Context (decode_plugin_config : string → res rawPluginConfig).

(** The answers of the store once it is opened. *)
Record store_answers := {
  sa_open : string → res secureStore;
  sa_settings : res settingsFile;
  sa_persisted : res persistedState;
  sa_close_error : option error;
}.

Definition reconfigure (r : pluginRuntime) (rawConfig : string) (fs : FS) (now : Time)
    (answers : store_answers) : res unit * pluginRuntime :=
  let reject e secrets := let '(e, r) := recordError r e secrets in (Err e, r) in
  match parsePluginConfig decode_plugin_config rawConfig with
  | Err e => reject e []
  | Ok cfg =>
  match resolveCPAConfigPath (pc_CPAConfigPath cfg) fs with
  | Err e => reject e []
  | Ok configPath =>
  match loadCPAConfig configPath fs with
  | Err e => reject e []
  | Ok cpa =>
  let providerKeys := cpaProviderKeys cpa in
  match validateSchedulerDeployment (cc_Plugins cpa) with
  | Err e => reject e providerKeys
  | Ok _ =>
  match resolveAuthDir (cc_AuthDir cpa) fs with
  | Err e => reject e providerKeys
  | Ok authDir =>
      reconfigureWithAccounts r cfg cpa providerKeys (sa_open answers authDir)
        (sa_settings answers) (sa_persisted answers) now (sa_close_error answers)
  end end end end end.

End Host.

(** ** Paths *)

(** The current directory as the system gives it. *)
Definition cwd_ok (fs : FS) : Prop := Forall plain_name (fs_cwd fs).

Lemma locate_rooted fs fs' path : rooted path = true → locate fs path = locate fs' path.
Proof. intros Hr. unfold locate. by rewrite Hr. Qed.

Lemma foldl_plain l st : Forall plain_name l → foldl (path_step true) st l = rev l ++ st.
Proof.
  intros Hl. revert st. induction Hl as [|n l (Hne & Hdot & Hdots & _) _ IH]; intros st; [done|].
  cbn [foldl rev]. by rewrite path_step_plain, IH, <- app_assoc by done.
Qed.

Lemma rooted_Clean path : rooted path = true → rooted (path_Clean path) = true.
Proof.
  intros Hr. unfold path_Clean. case_bool_decide; [by subst|]. rewrite Hr. apply rooted_cons.
Qed.

(** The steps from the root along the elements of a path lead to the same place when
    the path begins with more slashes, or follows the current directory. *)
Lemma locate_cwd fs path :
  cwd_ok fs → rooted path = false → path ≠ "" →
  locate fs (path_Join ["/" +:+ Join (fs_cwd fs) "/"; path]) = locate fs path.
Proof.
  intros Hcwd Hr Hne. rewrite Join_two, bool_decide_eq_false_2 by done. rewrite locate_Clean by done.
  assert (rooted (("/" +:+ Join (fs_cwd fs) "/") +:+ "/" +:+ path) = true) as Hroot
    by (rewrite rooted_app by done; apply rooted_cons).
  unfold locate at 1. rewrite Hroot. unfold locate. rewrite Hr. f_equal.
  assert (Forall (λ w, "/"%char ∉ chars w) (fs_cwd fs)) as Hfree
    by (eapply Forall_impl; [exact Hcwd|by intros n (_ & _ & _ & Hfree)]).
  destruct (fs_cwd fs) as [|e l] eqn:Hl.
  - unfold Split. cbn [Join]. rewrite !chars_app. cbn [chars app split_list].
    rewrite !decide_True by done. done.
  - assert (("/" +:+ Join (e :: l) "/") +:+ "/" +:+ path = Join ("" :: (e :: l)) "/" +:+ str ["/"%char] +:+ path) as ->
      by done.
    assert (∀ w s, Split (w +:+ str ["/"%char] +:+ s) "/"%char = Split w "/"%char ++ Split s "/"%char) as Happ.
    { intros w s. unfold Split. rewrite !chars_app, chars_str. cbn [app]. rewrite <- fmap_app. f_equal.
      generalize (chars w) as a, (chars s) as b. clear. intros a b.
      induction a as [|c a IH]; cbn [app split_list]; [by rewrite decide_True|]. rewrite IH.
      case_decide; [done|]. pose proof (split_list_nonempty "/" a). by destruct (split_list "/" a). }
    rewrite Happ, foldl_app. f_equal.
    assert (Split (Join ("" :: (e :: l)) "/") "/"%char = "" :: e :: l) as ->
      by (apply (Split_Join ("" :: e :: l) "/"%char); [done|constructor; [apply not_elem_of_nil|done]]).
    change (foldl (path_step true) [] ("" :: e :: l)) with (foldl (path_step true) [] (e :: l)).
    rewrite foldl_plain by (unfold cwd_ok in Hcwd; by rewrite Hl in Hcwd). by rewrite app_nil_r.
Qed.

Lemma locate_Clean_all fs path : locate fs (path_Clean path) = locate fs path.
Proof. destruct (decide (path = "")) as [->|Hne]; [|by apply locate_Clean]. done. Qed.

Lemma Clean_nonempty path : path_Clean path ≠ "".
Proof.
  unfold path_Clean. case_bool_decide; [done|]. destruct (rooted path); [done|]. case_bool_decide as Hnil; [done|].
  pose proof (path_fold_ok false [] (Split path "/"%char) (Forall_nil_2 _)) as Hok. apply Forall_rev in Hok.
  fold (path_elements false path) in Hok. destruct (path_elements false path) as [|e l]; [done|].
  inversion_clear Hok as [|? ? [He _] _]. destruct l; cbn [Join]; [done|]. by destruct e.
Qed.

Lemma rooted_Join_two d path : rooted d = true → rooted (path_Join [d; path]) = true.
Proof.
  intros Hd. assert (d ≠ "") as Hne by by intros ->. rewrite Join_two, bool_decide_eq_false_2 by done.
  apply rooted_Clean. by rewrite rooted_app.
Qed.

(** An absolute path names the file of the path it is made of, in every directory. *)
Lemma path_Abs_ok `{GoOS} fs path p :
  cwd_ok fs → path ≠ "" → path_Abs path fs = Ok p →
  rooted p = true ∧ ∀ fs', locate fs' p = locate fs path.
Proof.
  intros Hcwd Hne. unfold path_Abs.
  assert (∀ q, rooted q = true → locate fs q = locate fs path →
    rooted q = true ∧ ∀ fs', locate fs' q = locate fs path) as Hfix.
  { intros q Hq Hl. split; [done|]. intros fs'. by rewrite (locate_rooted fs' fs). }
  destruct (rooted path) eqn:Hr.
  - intros [= <-]. apply Hfix; [by apply rooted_Clean|by apply locate_Clean].
  - destruct (os_fault "getwd" ""); [done|]. intros [= <-]. apply Hfix; [|by apply locate_cwd].
    apply (rooted_Join_two ("/" +:+ Join (fs_cwd fs) "/") path), rooted_cons.
Qed.

Section Resolved.
Context `{GoStd} `{GoOS} (ParseConfigBytes : string → option cpaConfigProjection) (UserHomeDir : res string).

(** The paths a reconfiguration goes on with are absolute, and name the same files
    whatever the current directory becomes later. *)
Lemma resolveCPAConfigPath_stable raw fs p :
  cwd_ok fs → resolveCPAConfigPath raw fs = Ok p →
  rooted p = true ∧ ∀ fs', locate fs' p = locate fs (TrimSpace raw).
Proof.
  intros Hcwd. unfold resolveCPAConfigPath. destruct (_ || _); [done|].
  destruct (rooted (path_Clean (TrimSpace raw))) eqn:Hr.
  - intros [= <-]. split; [done|]. intros fs'. by rewrite (locate_rooted fs' fs), locate_Clean_all.
  - destruct (path_Abs _ fs) as [q|] eqn:Hq; [|done]. intros [= ->].
    apply path_Abs_ok in Hq as [Hroot Hloc]; [|done|apply Clean_nonempty]. split; [done|].
    intros fs'. by rewrite Hloc, locate_Clean_all.
Qed.

Lemma resolveAuthDir_stable raw fs dir :
  cwd_ok fs → resolveAuthDir UserHomeDir raw fs = Ok dir →
  ∃ value, expand_home UserHomeDir (if bool_decide (TrimSpace raw = "") then "~/.cli-proxy-api" else TrimSpace raw) = Ok value
    ∧ rooted dir = true ∧ ∀ fs', locate fs' dir = locate fs value.
Proof.
  intros Hcwd. unfold resolveAuthDir. passes value as Hvalue.
  destruct (path_Abs _ fs) as [q|] eqn:Hq; [|done]. intros [= ->]. exists value. split; [done|].
  apply path_Abs_ok in Hq as [Hroot Hloc]; [|done|apply Clean_nonempty]. split; [done|].
  intros fs'. by rewrite Hloc, locate_Clean_all.
Qed.

End Resolved.

(** ** The reconfiguration behind the contract is the tail of this one *)

Section Tail.
Context `{GoStd} `{GoOS} `{ZaiDecoders} (ParseConfigBytes : string → option cpaConfigProjection) (UserHomeDir : res string).

(** What the coordinator hands the module, of a host's configuration. *)
Definition host_of (configPath authDir : string) (cpa : cpaConfigProjection) : HostConfig := {|
  ho_CPAConfigPath := configPath; ho_AuthDir := authDir; ho_ClaudeKeys := cc_ClaudeKeys cpa;
  ho_OpenAICompatibility := cc_OpenAICompatibility cpa;
|}.

(** With the file read, the deployment valid and the directory resolved, the runtime on
    its own does what the module does when a coordinator hands it the same keys. *)
Theorem reconfigure_is_module r raw fs answers e cfg configPath cpa authDir :
  parsePluginConfig zd_config raw = Ok cfg →
  resolveCPAConfigPath (pc_CPAConfigPath cfg) fs = Ok configPath →
  loadCPAConfig ParseConfigBytes configPath fs = Ok cpa →
  validateSchedulerDeployment (cc_Plugins cpa) = Ok () →
  resolveAuthDir UserHomeDir (cc_AuthDir cpa) fs = Ok authDir →
  zc_store e = sa_open answers authDir → zc_settings e = sa_settings answers →
  zc_persisted e = sa_persisted answers → zc_close_error e = sa_close_error answers →
  reconfigure ParseConfigBytes UserHomeDir zd_config r raw fs (zc_now e) answers
  = zai_Reconfigure r (host_of configPath authDir cpa) raw e.
Proof.
  intros Hcfg Hpath Hcpa Hdeploy Hdir Hstore Hsettings Hpersisted Hclose.
  unfold reconfigure, zai_Reconfigure. rewrite Hcfg, Hpath, Hcpa, Hdeploy, Hdir, Hstore, Hsettings, Hpersisted, Hclose.
  unfold reconfigureWithAccounts. done.
Qed.

(** Before that, it only records its error: a runtime that was serving keeps its
    snapshot. *)
Theorem early_error_keeps r raw fs now answers e r' :
  (∀ cfg configPath cpa, parsePluginConfig zd_config raw = Ok cfg →
     resolveCPAConfigPath (pc_CPAConfigPath cfg) fs = Ok configPath →
     loadCPAConfig ParseConfigBytes configPath fs = Ok cpa →
     validateSchedulerDeployment (cc_Plugins cpa) = Ok () →
     is_Ok (resolveAuthDir UserHomeDir (cc_AuthDir cpa) fs) = false) →
  reconfigure ParseConfigBytes UserHomeDir zd_config r raw fs now answers = (Err e, r') →
  ∃ cause secrets, recordError r cause secrets = (e, r').
Proof.
  intros Hearly. unfold reconfigure.
  destruct (parsePluginConfig zd_config raw) as [cfg|cause] eqn:Hcfg; [|intros [= <- <-]; by eexists _, _].
  destruct (resolveCPAConfigPath _ fs) as [path|cause] eqn:Hpath; [|intros [= <- <-]; by eexists _, _].
  destruct (loadCPAConfig _ path fs) as [cpa|cause] eqn:Hcpa; [|intros [= <- <-]; by eexists _, _].
  destruct (validateSchedulerDeployment _) as [[]|cause] eqn:Hdeploy; [|intros [= <- <-]; by eexists _, _].
  specialize (Hearly cfg path cpa eq_refl Hpath Hcpa Hdeploy).
  destruct (resolveAuthDir _ _ fs) as [dir|cause]; [done|intros [= <- <-]; by eexists _, _].
Qed.

End Tail.
