(* ===== verification/OpenCodeModule.v ===== *)
(** * The OpenCode Go module behind the contract (opencodego/module.go)

    The instance of the contract, with the clock, the client and the decoders of
    its calls, and the proof of the laws from the invariant of its state. The
    module has no goroutines and no management routes of its own. *)

From S2P Require Import Prelude GoStrings Host Config OpenCodeUsage OpenCodeGo ProviderModule.

(** The JSON decoders of the module's configuration and of a usage response. *)
Class OpenCodeDecoders := {
  od_config : string → res rawModuleConfig;
  od_usage : string → option usageWireUsage;
}.

(** What a call of the module is answered: two readings of the clock and the
    answers of the usage endpoint. *)
Record opencode_call := {
  oc_polled : Time;
  oc_now : Time;
  oc_client : http_request → http_result;
}.

Section Adapter.
Context `{GoStd} `{OpenCodeDecoders} {R : Type}.

Definition opencode_fetch (e : opencode_call) (apiKey : string) : res usageSnapshot :=
  (fetchUsage od_usage (Some (oc_client e)) usageEndpoint apiKey (oc_polled e)).2.

#[export] Instance opencode_module : ProviderModule Module_ opencode_call statusBody R := {|
  pm_ID _ := providerID;
  pm_Recognize := Recognize;
  pm_Reconfigure m _ raw _ := Reconfigure od_config m raw;
  pm_OwnedAuthIDs := OwnedAuthIDs;
  pm_Pick m req e := Pick m req (oc_now e);
  pm_HandleUsage m record e := (Ok (), HandleUsage m record (oc_now e));
  pm_Status m e :=
    let '(body, m) := Status (opencode_fetch e) m (oc_polled e) (oc_now e) in (Ok body, m);
  pm_Close m _ := (Ok (), Close m);
  pm_Capable _ := None;
  pm_Background m _ := m;
|}.

End Adapter.

(** ** The index over the operations *)

Definition index_of (m : Module_) : option (gmap string string) := st_ByAuthID <$> md_state m.

Lemma put_state_index m s s' :
  md_state m = Some s → st_ByAuthID s' = st_ByAuthID s → index_of (put_state s' m) = index_of m.
Proof. intros Hs Hi. unfold index_of. cbn. by rewrite Hs, Hi. Qed.

Lemma state_frame_index m s s' :
  md_state m = Some s → state_frame s s' → index_of (put_state s' m) = index_of m.
Proof. intros Hs (_ & Hi & _). by eapply put_state_index. Qed.

Lemma opencode_Recognize_index m m' c : index_of m' = index_of m → Recognize m' c = Recognize m c.
Proof.
  unfold index_of, Recognize, stateAccountByAuthID.
  destruct (md_state m), (md_state m'); cbn; [|done..]. by intros [= ->].
Qed.

Lemma opencode_OwnedAuthIDs_index m m' : index_of m' = index_of m → OwnedAuthIDs m' = OwnedAuthIDs m.
Proof.
  unfold index_of, OwnedAuthIDs.
  destruct (md_state m), (md_state m'); cbn; [|done..]. by intros [= ->].
Qed.

Lemma Pick_index `{GoStd} m req wall : index_of (Pick m req wall).2 = index_of m.
Proof.
  destruct (md_state m) as [s|] eqn:Hs; [|by unfold Pick; rewrite Hs].
  destruct (md_closed m) eqn:Hc; [by unfold Pick; rewrite Hs, Hc|].
  destruct (Pick_eq m s req wall Hs Hc) as (s' & Ht & _ & Hnext).
  destruct Ht as (_ & Hi & _).
  destruct Hnext as [[_ ->]|(first & rest & a & _ & _ & _ & ->)]; by eapply put_state_index.
Qed.

Lemma HandleUsage_index `{GoStd} m record wall : index_of (HandleUsage m record wall) = index_of m.
Proof.
  destruct (md_state m) as [s|] eqn:Hs; [|by unfold HandleUsage; rewrite Hs].
  destruct (HandleUsage_frame m record wall s Hs) as (s' & Hf & ->).
  destruct (md_closed m); [done|]. by eapply state_frame_index.
Qed.

Lemma poll_begin_index m now : index_of (poll_begin m now).2 = index_of m.
Proof.
  unfold poll_begin. destruct (md_state m) as [s|] eqn:Hs; [|done].
  destruct (md_closed m); [done|]. by eapply put_state_index.
Qed.

Lemma poll_end_index m results : index_of (poll_end m results) = index_of m.
Proof.
  unfold poll_end. destruct (md_state m) as [s|] eqn:Hs; [|done].
  destruct (md_closed m); [done|]. eapply state_frame_index; [done|]. apply poll_results_frame.
Qed.

Lemma Status_steps `{GoStd} fetch m polled now :
  index_of (Status fetch m polled now).2 = index_of m
  ∧ rtc OpenCodeGo.module_step m (Status fetch m polled now).2.
Proof.
  assert (index_of (pollUsageOnce fetch m polled) = index_of m
    ∧ rtc OpenCodeGo.module_step m (pollUsageOnce fetch m polled)) as [Hi Hsteps].
  { unfold pollUsageOnce. pose proof (poll_begin_index m polled) as Hb.
    pose proof (OpenCodeGo.step_poll_begin m polled) as Hst.
    destruct (poll_begin m polled) as [targets m1]. cbn [snd] in *.
    destruct targets as [|t ts]; [split; [done|by apply rtc_once]|].
    split; [by rewrite poll_end_index|].
    eapply rtc_l; [exact Hst|]. apply rtc_once, OpenCodeGo.step_poll_end. }
  unfold Status. set (m1 := pollUsageOnce fetch m polled) in *. split.
  - rewrite <- Hi. unfold status_body. cbv zeta. destruct (md_state m1) as [s|] eqn:Hs; [|done].
    by eapply put_state_index.
  - eapply rtc_r; [exact Hsteps|]. apply OpenCodeGo.step_status.
Qed.

Lemma steps_ok `{GoStd} m m' : module_ok m → rtc OpenCodeGo.module_step m m' → module_ok m'.
Proof. intros Hok Hs. induction Hs as [|x y z Hxy _ IH]; [done|]. by eapply IH, module_step_ok. Qed.

(** Every call of the contract is some steps of the module. *)
Lemma contract_steps `{GoStd} `{OpenCodeDecoders} {R} m m' :
  ProviderModule.module_step (H := opencode_module (R := R)) m m' →
  rtc OpenCodeGo.module_step m m'.
Proof.
  intros [m1 m2 [m0 req e|m0 record e|m0 e|m0 cap req e Hcap|m0 e]|m0 host raw e|m0 e]; cbn.
  - apply rtc_once, OpenCodeGo.step_pick.
  - apply rtc_once, OpenCodeGo.step_usage.
  - pose proof (Status_steps (opencode_fetch e) m0 (oc_polled e) (oc_now e)) as [_ Hs].
    by destruct (Status (opencode_fetch e) m0 (oc_polled e) (oc_now e)).
  - done.
  - done.
  - apply rtc_once, OpenCodeGo.step_reconfigure.
  - apply rtc_once, OpenCodeGo.step_close.
Qed.

Lemma opencode_serving_index `{GoStd} `{OpenCodeDecoders} {R} m m' :
  serving_step (H := opencode_module (R := R)) m m' → index_of m' = index_of m.
Proof.
  intros [m0 req e|m0 record e|m0 e|m0 cap req e Hcap|m0 e]; cbn; try done.
  - apply Pick_index.
  - apply HandleUsage_index.
  - pose proof (Status_steps (opencode_fetch e) m0 (oc_polled e) (oc_now e)) as [Hs _].
    by destruct (Status (opencode_fetch e) m0 (oc_polled e) (oc_now e)).
Qed.

(** ** The laws *)

Lemma managed_owned m s id :
  module_ok m → md_state m = Some s →
  (stateAccountByAuthID (Some s) id).2 = true ↔ TrimSpace id ∈ OwnedAuthIDs m.
Proof.
  intros Hok Hs. specialize (Hok s Hs). unfold OwnedAuthIDs, stateAccountByAuthID. rewrite Hs.
  cbn [snd]. rewrite sort_by_perm, list_elem_of_fmap, negb_true_iff, bool_decide_eq_false. split.
  - intros Hne. destruct (st_ByAuthID s !! TrimSpace id) as [name|] eqn:Hid; [|done].
    exists (TrimSpace id, name). split; [done|]. by apply elem_of_map_to_list.
  - intros ([id' name] & -> & Hid%elem_of_map_to_list). cbn [fst]. rewrite Hid. cbn.
    apply (so_index s Hok) in Hid as (a & Ha & _). by apply (so_account s Hok) in Ha as (_ & ? & _).
Qed.

Lemma Pick_handled `{GoStd} m req wall c resp :
  c ∈ sp_Candidates req → Recognize m c = true → (Pick m req wall).1 = Ok resp →
  pr_Handled resp = true.
Proof.
  intros Hin Hrec. destruct (md_state m) as [s|] eqn:Hs; [|by unfold Pick; rewrite Hs].
  destruct (md_closed m) eqn:Hc; [by unfold Pick; rewrite Hs, Hc|].
  destruct (Pick_eq m s req wall Hs Hc) as (s' & _ & -> & _). unfold pick_spec.
  destruct (existsb _ (sp_Candidates req)); [done|].
  assert (existsb (recognized s) (sp_Candidates req) = true) as ->.
  { apply existsb_elem. exists c. split; [done|]. revert Hrec.
    unfold Recognize, recognized, own_candidate, managed. rewrite Hs.
    destruct (stateAccountByAuthID (Some s) (sc_ID c)).2; cbn; [done|]. by intros ->. }
  cbn [negb]. destruct (pick_candidates _ _ _); [done|]. by intros [= <-].
Qed.

#[export] Program Instance opencode_laws `{GoStd} `{OpenCodeDecoders} {R}
    : ProviderModuleLaws Module_ opencode_call statusBody R := {| pm_ok := module_ok |}.
Next Obligation. intros ????? Hok Hs%contract_steps. by eapply steps_ok. Qed.
Next Obligation. done. Qed.
Next Obligation. intros ??? m m' c _ Hs%opencode_serving_index. by apply opencode_Recognize_index. Qed.
Next Obligation. intros ??? m m' _ Hs%opencode_serving_index. by apply opencode_OwnedAuthIDs_index. Qed.
Next Obligation.
  intros ??? m id Hok. cbn. unfold Recognize.
  change (candidateClaimsOpenCodeGo (bare_candidate id)) with false.
  change (candidateClaimsOtherProvider (bare_candidate id)) with false.
  destruct (md_state m) as [s|] eqn:Hs.
  - rewrite <- (managed_owned m s id Hok Hs). cbn [sc_ID bare_candidate].
    by destruct (stateAccountByAuthID (Some s) id).2.
  - unfold OwnedAuthIDs. rewrite Hs. cbn. split; [done|by intros ?%elem_of_nil].
Qed.
Next Obligation. intros ??? m req e c resp _ Hin Hrec. by apply Pick_handled with c. Qed.
Next Obligation.
  intros ??? m record e Hok Hno. cbn in *. unfold HandleUsage.
  destruct (md_state m) as [s|] eqn:Hs; [|done]. destruct (md_closed m); [done|].
  rewrite <- (managed_owned m s (ur_AuthID record) Hok Hs) in Hno.
  destruct (stateAccountByAuthID (Some s) (ur_AuthID record)) as [name managed']. cbn in Hno.
  by destruct managed'.
Qed.
