(* ===== verification/Coordinator.v ===== *)
(** * The coordinator (coordinator/coordinator.go, config.go, registry.go, management.go)

    Reconfiguration of the hosted modules, the registry of auth IDs, dispatch of
    picks, usage records and management requests, and shutdown, over any modules
    that satisfy the contract. A coordinator call is one step; what the file
    system, the decoders and the modules' own calls answer is its argument. *)

From S2P Require Import Prelude GoStrings GoFloat Host Config Scheduler ProviderModule.

(** ** Identity and configuration *)

Definition PluginID : string := "subscription-pool".
Definition requiredPluginPriority : Z := 1000.
Definition defaultCPAConfigPath : string := "config.yaml".

(** The provider sections are YAML nodes, of a type [N] that only the decoder
    looks into. *)
Record coordinatorConfig (N : Type) := {
  cf_CPAConfigPath : string;
  cf_Providers : gmap string N;
  cf_Enabled : option bool;
  cf_Priority : option Z;
}.
Arguments cf_CPAConfigPath {N}.
Arguments cf_Providers {N}.
Arguments cf_Enabled {N}.
Arguments cf_Priority {N}.

(** What a call of [reconfigure] is answered: the decoders and encoders, the
    functions of [path/filepath], the files, and for each module its own call. *)
Record reconfigure_call (N E : Type) := {
  rc_decode_yaml : string → res (coordinatorConfig N);
  rc_decode_node : N → res any;
  rc_json_Marshal : any → res string;
  rc_Clean : string → string;
  rc_IsAbs : string → bool;
  rc_Abs : string → res string;
  rc_Join : list string → string;
  rc_UserHomeDir : res string;
  rc_ReadFile : string → res string;
  rc_ParseConfigBytes : string → option cpaConfigProjection;
  rc_EnsureEmptyProviderDir : string → res unit;
  rc_module : string → E;
}.
Arguments rc_decode_yaml {N E}.
Arguments rc_decode_node {N E}.
Arguments rc_json_Marshal {N E}.
Arguments rc_Clean {N E}.
Arguments rc_IsAbs {N E}.
Arguments rc_Abs {N E}.
Arguments rc_Join {N E}.
Arguments rc_UserHomeDir {N E}.
Arguments rc_ReadFile {N E}.
Arguments rc_ParseConfigBytes {N E}.
Arguments rc_EnsureEmptyProviderDir {N E}.
Arguments rc_module {N E}.

Section Configuration.
Context {N E : Type} (call : reconfigure_call N E).

Definition parseCoordinatorConfig (raw : string) : res (coordinatorConfig N) :=
  cfg ← wrap_err "decode coordinator config: " (rc_decode_yaml call raw);
  Ok (if bool_decide (TrimSpace (cf_CPAConfigPath cfg) = "")
      then {| cf_CPAConfigPath := defaultCPAConfigPath; cf_Providers := cf_Providers cfg;
              cf_Enabled := cf_Enabled cfg; cf_Priority := cf_Priority cfg |}
      else cfg).

Definition providerConfigRaw (cfg : coordinatorConfig N) (providerID : string) : res string :=
  match cf_Providers cfg !! providerID with
  | None => Ok "{}"
  | Some node =>
      value ← wrap_err ("decode providers." +:+ providerID +:+ ": ") (rc_decode_node call node);
      match value with
      | ANil => Ok "{}"
      | _ => wrap_err ("re-encode providers." +:+ providerID +:+ ": ") (rc_json_Marshal call value)
      end
  end.

Definition resolveCPAConfigPath (pluginConfigPath : string) : res string :=
  let clean := rc_Clean call (TrimSpace pluginConfigPath) in
  if bool_decide (clean = ".") || bool_decide (clean = "")
  then errorf "cpa-config-path is required" else
  if rc_IsAbs call clean then Ok clean
  else wrap_err "resolve cpa-config-path: " (rc_Abs call clean).

Definition resolveAuthDir (raw : string) : res string :=
  let value := TrimSpace raw in
  let value := if bool_decide (value = "") then "~/.cli-proxy-api" else value in
  value ←
    (if bool_decide (value = "~") || HasPrefix value "~/" then
       home ← wrap_err "resolve auth-dir: " (rc_UserHomeDir call);
       Ok (if bool_decide (value = "~") then home
           else rc_Join call [home; TrimPrefix value "~/"])
     else Ok value);
  wrap_err "resolve auth-dir: " (rc_Abs call (rc_Clean call value)).

(** The projection copies the fields of the parsed file that the model keeps. *)
Definition loadHostCPAConfig (path : string) : res cpaConfigProjection :=
  data ← wrap_err "read CPA config: " (rc_ReadFile call path);
  match rc_ParseConfigBytes call data with
  | None => errorf "load CPA config: invalid configuration"
  | Some cfg => Ok cfg
  end.

Definition validateSchedulerDeployment (plugins : cpaPluginsProjection) : res unit :=
  if negb (cps_Enabled plugins) then errorf "plugins must be enabled" else
  match plugin_entry plugins PluginID with
  | None => errorf (PluginID +:+ " must be enabled")
  | Some item =>
      if negb (plugin_enabled item) then errorf (PluginID +:+ " must be enabled") else
      if negb (cpp_Priority item =? requiredPluginPriority)
      then errorf (PluginID +:+ " priority must be " +:+ itoa requiredPluginPriority) else
      foldl_res (λ _ kv,
        if bool_decide (kv.1 = PluginID) || negb (plugin_enabled kv.2) then Ok ()
        else errorf (PluginID +:+ " must be the sole enabled scheduler plugin; disable " +:+ kv.1))
        () (cps_Configs plugins)
  end.

Definition providerStubDir (pluginAuthDir providerID : string) : string :=
  rc_Join call [pluginAuthDir; "providers"; providerID].

(** [reconfigure] up to the first lock. *)
Definition prepare (raw : string) : res (coordinatorConfig N * HostConfig) :=
  cfg ← parseCoordinatorConfig raw;
  configPath ← resolveCPAConfigPath (cf_CPAConfigPath cfg);
  cpa ← loadHostCPAConfig configPath;
  _ ← validateSchedulerDeployment (cc_Plugins cpa);
  rootAuthDir ← resolveAuthDir (cc_AuthDir cpa);
  let pluginAuthDir := rc_Join call [rootAuthDir; PluginID] in
  _ ← rc_EnsureEmptyProviderDir call pluginAuthDir;
  Ok (cfg, {| ho_CPAConfigPath := configPath; ho_AuthDir := pluginAuthDir;
              ho_ClaudeKeys := cc_ClaudeKeys cpa;
              ho_OpenAICompatibility := cc_OpenAICompatibility cpa |}).

End Configuration.

(** ** The registry *)

Section Registry.
Context `{GoStd}.

(** An entry for one auth ID of a provider; the empty one is skipped. *)
Definition register_id (providerID : string) (byAuth : gmap string string) (authID : string)
    : res (gmap string string) :=
  if bool_decide (authID = "") then Ok byAuth else
  match byAuth !! authID with
  | Some existing =>
      errorf ("auth id " +:+ quote authID +:+ " is owned by both " +:+ quote existing +:+ " and "
              +:+ quote providerID)
  | None => Ok (<[authID := providerID]> byAuth)
  end.

Definition buildRegistry (owned : gmap string (list string)) : res (gmap string string) :=
  foldl_res (λ byAuth providerID,
    foldl_res (register_id providerID) byAuth (default [] (owned !! providerID)))
    ∅ (sort_by id (map_to_list owned).*1).

End Registry.

(** ** Management paths *)

Definition managementStatusPath : string := "/v0/management/plugins/" +:+ PluginID +:+ "/status".
Definition resourceStatusPath : string := "/status".
Definition resourcePluginBasePath : string := "/v0/resource/plugins/" +:+ PluginID.

Definition isResourceStatusPath (path : string) : bool :=
  let path := TrimRightSlash (TrimSpace path) in
  bool_decide (path = resourceStatusPath)
  || bool_decide (path = resourcePluginBasePath +:+ resourceStatusPath).

(** ** The coordinator *)

(** The aggregated status, with each module's own. *)
Record statusBody (J : Type) := {
  cs_Plugin : string;
  cs_Status : string;
  cs_Version : string;
  cs_GeneratedAt : Time;
  cs_ValidationError : string;
  cs_Providers : gmap string J;
}.
Arguments cs_Plugin {J}.
Arguments cs_Status {J}.
Arguments cs_Version {J}.
Arguments cs_GeneratedAt {J}.
Arguments cs_ValidationError {J}.
Arguments cs_Providers {J}.

(** What the coordinator answers a management request with: its status, the page
    that shows a status at a time, an error of its own, or a module's response. *)
Inductive response (J R : Type) :=
| StatusResponse (body : statusBody J)
| PageResponse (body : statusBody J) (now : Time)
| ErrorResponse (statusCode : Z) (code message : string)
| ModuleResponse (r : R).
Arguments StatusResponse {J R}.
Arguments PageResponse {J R}.
Arguments ErrorResponse {J R}.
Arguments ModuleResponse {J R}.

(** [Coordinator], with its modules as pairs of ID and state, in order. *)
Record Coordinator (M : Type) := {
  co_modules : list (string * M);
  co_lastErr : option error;
  co_stopped : bool;
  co_registry : gmap string string;
}.
Arguments co_modules {M}.
Arguments co_lastErr {M}.
Arguments co_stopped {M}.
Arguments co_registry {M}.

Definition mixed_pick (ids : list string) : error :=
  EText ("coordinator_mixed_provider_pick: candidates recognized by multiple providers: "
         +:+ Join ids ", ").

Section Coordinator.
Context `{GoStd} {N M E J R : Type} `{ProviderModule M E J R}.

Definition set_modules (modules : list (string * M)) (c : Coordinator M) : Coordinator M :=
  {| co_modules := modules; co_lastErr := co_lastErr c; co_stopped := co_stopped c;
     co_registry := co_registry c |}.

(** A module's entry after a call of it. *)
Definition set_module (providerID : string) (m : M) (c : Coordinator M) : Coordinator M :=
  set_modules ((λ im, if bool_decide (im.1 = providerID) then (im.1, m) else im) <$> co_modules c) c.

(** [None] is the panic on a duplicate module ID. *)
Fixpoint New (modules : list M) : option (Coordinator M) :=
  match modules with
  | [] => Some {| co_modules := []; co_lastErr := None; co_stopped := false; co_registry := ∅ |}
  | m :: modules' =>
      c ← New modules';
      if bool_decide (pm_ID m ∈ (co_modules c).*1) then None
      else Some (set_modules ((pm_ID m, m) :: co_modules c) c)
  end.

Definition recordError (c : Coordinator M) (e : error) : Coordinator M :=
  if co_stopped c then c else
  {| co_modules := co_modules c; co_lastErr := Some e; co_stopped := co_stopped c;
     co_registry := co_registry c |}.

Definition validationStatus (c : Coordinator M) : string :=
  match co_lastErr c with None => "" | Some e => error_text e end.

(** ** Reconfiguration *)

(** One module: its section, its own reconfiguration, its directory. *)
Definition reconfigure_module (call : reconfigure_call N E) (cfg : coordinatorConfig N)
    (host : HostConfig) (entry : string * M) : res unit * (string * M) :=
  let '(providerID, m) := entry in
  match providerConfigRaw call cfg providerID with
  | Err e => (Err e, entry)
  | Ok raw =>
      match pm_Reconfigure m host raw (rc_module call providerID) with
      | (Err e, m) => (Err (EWrap ("provider " +:+ providerID +:+ ": ") e), (providerID, m))
      | (Ok _, m) =>
          (rc_EnsureEmptyProviderDir call (providerStubDir call (ho_AuthDir host) providerID),
           (providerID, m))
      end
  end.

(** The loop, which the first error ends. *)
Fixpoint reconfigure_modules (call : reconfigure_call N E) (cfg : coordinatorConfig N)
    (host : HostConfig) (modules : list (string * M)) : res unit * list (string * M) :=
  match modules with
  | [] => (Ok (), [])
  | entry :: rest =>
      match reconfigure_module call cfg host entry with
      | (Err e, entry) => (Err e, entry :: rest)
      | (Ok _, entry) =>
          let '(result, rest) := reconfigure_modules call cfg host rest in
          (result, entry :: rest)
      end
  end.

Definition owned_ids (modules : list (string * M)) : gmap string (list string) :=
  list_to_map ((λ im, (im.1, pm_OwnedAuthIDs im.2)) <$> modules).

Definition reconfigure (c : Coordinator M) (rawConfig : string) (call : reconfigure_call N E)
    : res unit * Coordinator M :=
  match prepare call rawConfig with
  | Err e => (Err e, recordError c e)
  | Ok (cfg, host) =>
      if co_stopped c then (errorf "plugin is shutting down", c) else
      let '(result, modules) := reconfigure_modules call cfg host (co_modules c) in
      let c := set_modules modules c in
      match result with
      | Err e => (Err e, recordError c e)
      | Ok _ =>
          match buildRegistry (owned_ids modules) with
          | Err e => (Err e, recordError c e)
          | Ok byAuth =>
              (Ok (), {| co_modules := modules; co_lastErr := None; co_stopped := co_stopped c;
                         co_registry := byAuth |})
          end
      end
  end.

(** ** Picks and usage *)

Definition recognizes (m : M) (req : SchedulerPickRequest) : bool :=
  existsb (pm_Recognize m) (sp_Candidates req).

Definition recognizing (modules : list (string * M)) (req : SchedulerPickRequest)
    : list (string * M) :=
  filter (λ im, recognizes im.2 req = true) modules.

Definition pick (c : Coordinator M) (req : SchedulerPickRequest) (call : string → E)
    : res SchedulerPickResponse * Coordinator M :=
  if co_stopped c then (errorf "plugin is shutting down", c) else
  match recognizing (co_modules c) req with
  | [] => (Ok not_handled, c)
  | [(providerID, m)] =>
      let '(resp, m) := pm_Pick m req (call providerID) in (resp, set_module providerID m c)
  | entries => (Err (mixed_pick entries.*1), c)
  end.

Definition providerFor (c : Coordinator M) (authID : string) : string :=
  default "" (co_registry c !! authID).

(** The loop over the modules for one ID. *)
Definition find_module (c : Coordinator M) (providerID : string) : option (string * M) :=
  head (filter (λ im, im.1 = providerID) (co_modules c)).

Definition handleUsage (c : Coordinator M) (record : UsageRecord) (call : string → E)
    : res unit * Coordinator M :=
  let providerID := providerFor c (TrimSpace (ur_AuthID record)) in
  if bool_decide (providerID = "") then (Ok (), c) else
  match find_module c providerID with
  | Some (providerID, m) =>
      let '(result, m) := pm_HandleUsage m record (call providerID) in
      (result, set_module providerID m c)
  | None => (Ok (), c)
  end.

Definition OwnedAuthIDs (c : Coordinator M) (providerID : string) : list string :=
  match find_module c providerID with Some (_, m) => pm_OwnedAuthIDs m | None => [] end.

(** ** Status and management *)

(** The loop over the modules: the statuses of those that give one. *)
Fixpoint module_statuses (call : string → E) (modules : list (string * M))
    : list (string * J) * list (string * M) :=
  match modules with
  | [] => ([], [])
  | (providerID, m) :: rest =>
      let '(raw, m) := pm_Status m (call providerID) in
      let '(statuses, rest) := module_statuses call rest in
      (match raw with Ok raw => (providerID, raw) :: statuses | Err _ => statuses end,
       (providerID, m) :: rest)
  end.

Definition managementStatus (version : string) (c : Coordinator M) (now : Time) (call : string → E)
    : statusBody J * Coordinator M :=
  let '(statuses, modules) := module_statuses call (co_modules c) in
  ({| cs_Plugin := PluginID;
      cs_Status := if bool_decide (validationStatus c = "") then "registered"
                   else "reconfigure_rejected";
      cs_Version := version; cs_GeneratedAt := now; cs_ValidationError := validationStatus c;
      cs_Providers := list_to_map statuses |}, set_modules modules c).

Definition own_routes : ManagementRoutes :=
  {| mn_Routes := [{| mo_Method := "GET"; mo_Path := managementStatusPath;
       mo_Description := "Reports aggregated subscription-pool status across every provider." |}];
     mn_Resources := [{| ms_Path := resourceStatusPath; ms_Menu := "Subscription Quota";
       ms_Description := "Shows Z.ai and OpenCode Go quota and account health." |}] |}.

Definition managementRoutes (c : Coordinator M) : ManagementRoutes :=
  let of_modules := omap (λ im, cap_ManagementRoutes <$> pm_Capable im.2) (co_modules c) in
  {| mn_Routes := mn_Routes own_routes ++ (of_modules ≫= mn_Routes);
     mn_Resources := mn_Resources own_routes ++ (of_modules ≫= mn_Resources) |}.

Definition route_matches (req : ManagementRequest) (route : ManagementRoute) : bool :=
  bool_decide (mo_Method route = mq_Method req) && bool_decide (mo_Path route = mq_Path req).

Definition resource_matches (req : ManagementRequest) (resource : ManagementResource) : bool :=
  bool_decide (mq_Method req = "GET")
  && (bool_decide (mq_Path req = ms_Path resource)
      || bool_decide (mq_Path req = resourcePluginBasePath +:+ ms_Path resource)).

(** The request as a module with these routes sees it, if they include it. *)
Definition delegated (routes : ManagementRoutes) (req : ManagementRequest)
    : option ManagementRequest :=
  if existsb (route_matches req) (mn_Routes routes) then Some req else
  (λ resource, {| mq_Method := mq_Method req; mq_Path := ms_Path resource; mq_Body := mq_Body req |})
    <$> head (filter (λ resource, resource_matches req resource = true) (mn_Resources routes)).

(** The loop over the modules: the first that answers the request. *)
Fixpoint dispatch (call : string → E) (req : ManagementRequest) (modules : list (string * M))
    : option (R * (string * M)) :=
  match modules with
  | [] => None
  | (providerID, m) :: rest =>
      match pm_Capable m ≫= (λ cap, (λ req, (cap, req)) <$> delegated (cap_ManagementRoutes cap) req)
      with
      | Some (cap, req) =>
          let '(r, m) := cap_HandleManagement cap req (call providerID) in
          Some (r, (providerID, m))
      | None => dispatch call req rest
      end
  end.

Definition not_found : response J R := ErrorResponse 404 "not_found" "unknown management route".

Definition handleManagement (version : string) (c : Coordinator M) (req : ManagementRequest)
    (now later : Time) (call : string → E) : response J R * Coordinator M :=
  let get := bool_decide (mq_Method req = "GET") in
  if get && bool_decide (mq_Path req = managementStatusPath) then
    let '(body, c) := managementStatus version c now call in (StatusResponse body, c)
  else if get && isResourceStatusPath (mq_Path req) then
    let '(body, c) := managementStatus version c now call in (PageResponse body later, c)
  else
    match dispatch call req (co_modules c) with
    | Some (r, (providerID, m)) => (ModuleResponse r, set_module providerID m c)
    | None => (not_found, c)
    end.

(** ** Shutdown *)

(** The loop over the modules: every one is closed, the first error is kept. *)
Fixpoint close_modules (call : string → E) (modules : list (string * M))
    : option error * list (string * M) :=
  match modules with
  | [] => (None, [])
  | (providerID, m) :: rest =>
      let '(result, m) := pm_Close m (call providerID) in
      let '(restErr, rest) := close_modules call rest in
      (match result with Err e => Some e | Ok _ => restErr end, (providerID, m) :: rest)
  end.

Definition shutdown (c : Coordinator M) (call : string → E) : res unit * Coordinator M :=
  if co_stopped c then (Ok (), c) else
  let '(firstErr, modules) := close_modules call (co_modules c) in
  (match firstErr with Some e => Err e | None => Ok () end,
   {| co_modules := modules; co_lastErr := co_lastErr c; co_stopped := true;
      co_registry := co_registry c |}).

End Coordinator.

(** ** Lemmas on lists of modules *)

Lemma keyed_unique {A} (l : list (string * A)) k a b :
  NoDup l.*1 → (k, a) ∈ l → (k, b) ∈ l → a = b.
Proof.
  intros Hnd Ha%elem_of_list_to_map Hb%elem_of_list_to_map; [congruence|done|done].
Qed.

Section Lemmas.
Context `{GoStd} {N M E J R : Type} `{ProviderModule M E J R}.

Lemma find_module_Some (c : Coordinator M) p im :
  NoDup (co_modules c).*1 → find_module c p = Some im ↔ im.1 = p ∧ im ∈ co_modules c.
Proof.
  intros Hnd. unfold find_module. revert Hnd. generalize (co_modules c). intros l Hnd. split.
  - intros Hh. assert (im ∈ filter (λ im, im.1 = p) l) as Hin.
    { destruct (filter _ l); [done|]. injection Hh as <-. left. }
    by apply list_elem_of_filter in Hin.
  - destruct im as [p' m]. cbn. intros [-> Hin].
    assert ((p, m) ∈ filter (λ im, im.1 = p) l) as Hf by (by apply list_elem_of_filter).
    destruct (filter _ l) as [|[p' m'] rest] eqn:Hl; [by apply elem_of_nil in Hf|].
    assert ((p', m') ∈ filter (λ im : string * M, im.1 = p) l) as Hf' by (rewrite Hl; left).
    apply list_elem_of_filter in Hf' as [Hp Hin']. cbn in Hp. subst p'. cbn. f_equal. f_equal.
    by eapply keyed_unique.
Qed.

(** Two lists of modules that differ entry by entry. *)
Definition entrywise (Rm : M → M → Prop) : list (string * M) → list (string * M) → Prop :=
  Forall2 (λ e e', e'.1 = e.1 ∧ Rm e.2 e'.2).

Lemma entrywise_ids Rm l l' : entrywise Rm l l' → l'.*1 = l.*1.
Proof. induction 1 as [|e e' l l' [He _] _ IH]; [done|]. cbn. by rewrite He, IH. Qed.

Lemma entrywise_lookup Rm l l' p m' :
  entrywise Rm l l' → (p, m') ∈ l' → ∃ m, (p, m) ∈ l ∧ Rm m m'.
Proof.
  intros Hl [i Hi]%list_elem_of_lookup.
  destruct (Forall2_lookup_r _ _ _ _ _ Hl Hi) as ([p0 m] & Hm & Hp & Hr). cbn in *. subst p0.
  exists m. split; [by eapply list_elem_of_lookup_2|done].
Qed.

Lemma entrywise_lookup_l Rm l l' p m :
  entrywise Rm l l' → (p, m) ∈ l → ∃ m', (p, m') ∈ l' ∧ Rm m m'.
Proof.
  intros Hl [i Hi]%list_elem_of_lookup.
  destruct (Forall2_lookup_l _ _ _ _ _ Hl Hi) as ([p0 m'] & Hm & Hp & Hr). cbn in *. subst p0.
  exists m'. split; [by eapply list_elem_of_lookup_2|done].
Qed.

Lemma entrywise_impl (R1 R2 : M → M → Prop) l l' :
  (∀ m m', R1 m m' → R2 m m') → entrywise R1 l l' → entrywise R2 l l'.
Proof. intros Himp Hl. eapply Forall2_impl; [exact Hl|]. intros e e' []. auto. Qed.

#[export] Instance entrywise_refl Rm `{!Reflexive Rm} : Reflexive (entrywise Rm).
Proof. intros l. induction l; constructor; done. Qed.

#[export] Instance entrywise_trans Rm `{!Transitive Rm} : Transitive (entrywise Rm).
Proof.
  intros l1 l2 l3 H12. revert l3. induction H12 as [|e e' l l' [He Hr] _ IH]; intros l3 H23;
    [done|]. inversion H23 as [|? e'' ? l'' [He' Hr'] Hl]; subst.
  constructor; [|by apply IH]. split; [congruence|by etrans].
Qed.

Lemma set_module_entrywise (Rm : M → M → Prop) `{!Reflexive Rm} (c : Coordinator M) p m m' :
  NoDup (co_modules c).*1 → (p, m) ∈ co_modules c → Rm m m' →
  entrywise Rm (co_modules c) (co_modules (set_module p m' c)).
Proof.
  intros Hnd Hin Hr. unfold entrywise, set_module. cbn. apply Forall2_fmap_r.
  apply Forall_Forall2_diag, Forall_forall. intros [q x] Hx. cbn.
  case_bool_decide as Hq; cbn; [|done]. subst q. split; [done|].
  by rewrite (keyed_unique (co_modules c) p x m).
Qed.

Lemma set_module_same (c : Coordinator M) p m :
  NoDup (co_modules c).*1 → (p, m) ∈ co_modules c → set_module p m c = c.
Proof.
  intros Hnd Hin. unfold set_module, set_modules.
  replace ((λ im, if bool_decide (im.1 = p) then (im.1, m) else im) <$> co_modules c)
    with (co_modules c); [by destruct c|].
  rewrite <- (list_fmap_id (co_modules c)) at 1. apply list_fmap_ext. intros i [q x] Hx. cbn.
  case_bool_decide as Hq; [|done]. subst q. f_equal.
  eapply keyed_unique; [exact Hnd| |exact Hin]. by eapply list_elem_of_lookup_2.
Qed.

(** ** The registry *)

Lemma register_ids_lookup p byAuth ids byAuth' :
  foldl_res (register_id p) byAuth ids = Ok byAuth' →
  ∀ id q, byAuth' !! id = Some q ↔ byAuth !! id = Some q ∨ (q = p ∧ id ≠ "" ∧ id ∈ ids).
Proof.
  revert byAuth. induction ids as [|i ids IH]; intros byAuth; cbn [foldl_res].
  { intros [= ->] id q. rewrite elem_of_nil. tauto. }
  destruct (register_id p byAuth i) as [next|] eqn:Hi; [|done]. cbn [mbind res_bind].
  intros Hf id q. rewrite (IH next Hf), elem_of_cons. clear IH Hf. revert Hi. unfold register_id.
  case_bool_decide as Hempty; [intros [= <-]; naive_solver|].
  destruct (byAuth !! i) as [o|] eqn:Ho; [done|]. intros [= <-].
  destruct (decide (i = id)) as [->|Hne].
  - rewrite lookup_insert_eq, Ho. naive_solver.
  - rewrite lookup_insert_ne by done. naive_solver.
Qed.

Lemma buildRegistry_lookup owned byAuth :
  buildRegistry owned = Ok byAuth →
  ∀ id p, byAuth !! id = Some p ↔ id ≠ "" ∧ ∃ ids, owned !! p = Some ids ∧ id ∈ ids.
Proof.
  unfold buildRegistry. intros Hf.
  pose (visited := λ (k : list string) (m : gmap string string), ∀ id p, m !! id = Some p ↔
    id ≠ "" ∧ p ∈ k ∧ id ∈ default [] (owned !! p)).
  apply (foldl_res_ind visited) in Hf; unfold visited in *; clear visited.
  - intros id p. rewrite Hf, sort_by_perm, list_elem_of_fmap. split.
    + intros (Hid & ([p' ids] & -> & Hp%elem_of_map_to_list) & Hin). cbn in *. rewrite Hp in Hin.
      split; [done|]. by exists ids.
    + intros (Hid & ids & Hp & Hin). split; [done|]. rewrite Hp. split; [|done].
      exists (p, ids). split; [done|]. by apply elem_of_map_to_list.
  - intros id p. rewrite lookup_empty, elem_of_nil. naive_solver.
  - intros k m p m' Hm Hstep id q. rewrite (register_ids_lookup _ _ _ _ Hstep), Hm, elem_of_app,
      list_elem_of_singleton. split; [naive_solver|].
    intros (Hid & [Hk | ->] & Hin); [by left|by right].
Qed.

(** Which module's an auth ID is. *)
Definition owns (c : Coordinator M) (p id : string) : Prop :=
  ∃ m, (p, m) ∈ co_modules c ∧ id ∈ pm_OwnedAuthIDs m.

Lemma owned_ids_lookup (modules : list (string * M)) p ids :
  NoDup modules.*1 →
  owned_ids modules !! p = Some ids ↔ ∃ m, (p, m) ∈ modules ∧ ids = pm_OwnedAuthIDs m.
Proof.
  intros Hnd. unfold owned_ids. rewrite <- elem_of_list_to_map.
  2: { rewrite <- list_fmap_compose. by replace (fst ∘ _) with (@fst string M). }
  rewrite list_elem_of_fmap. split.
  - intros ([p' m] & [= -> ->] & Hin). by exists m.
  - intros (m & Hin & ->). by exists (p, m).
Qed.

End Lemmas.
