(* ===== verification/Plugin.v ===== *)
(** * The plugin's entry points (src/plugin.go, plugin_linux.go, runtime_state.go)

    The two modules the plugin hosts, the dispatch of the host's calls to the
    coordinator and the envelopes they are answered with. The methods are the
    constants of the SDK; payloads are decoded by parameters, and a result is the
    value it encodes. *)

From S2P Require Import Prelude GoStrings GoFloat Host Config Accounts Quota Settings Runtime RuntimeSteps Management OpenCodeUsage OpenCodeGo ProviderModule ZaiModule OpenCodeModule Coordinator.

(** ** The hosted modules *)

Definition hosted : Type := pluginRuntime + Module_.
Definition hosted_call : Type := zai_call * opencode_call.
Definition hosted_status : Type := managementStatusBody + OpenCodeGo.statusBody.

(** [coordinator.New(zai.NewModule(), opencodego.NewModule())] *)
Definition runtimeState `{GoStd} `{ZaiDecoders} `{OpenCodeDecoders} : option (Coordinator hosted) :=
  New [inl new_runtime; inr NewModule].

(** ** Envelopes *)

Record capabilities := { cp_Scheduler : bool; cp_UsagePlugin : bool; cp_ManagementAPI : bool }.

Record registration := {
  rg_SchemaVersion : Z;
  rg_Name : string;
  rg_Version : string;
  rg_Capabilities : capabilities;
}.

Definition pluginRegistration (schemaVersion : Z) (version : string) : registration :=
  {| rg_SchemaVersion := schemaVersion; rg_Name := PluginID; rg_Version := version;
     rg_Capabilities := {| cp_Scheduler := true; cp_UsagePlugin := true; cp_ManagementAPI := true |} |}.

Inductive call_result (J R : Type) :=
| ResultRegistration (r : registration)
| ResultPick (resp : SchedulerPickResponse)
| ResultRoutes (routes : ManagementRoutes)
| ResultManagement (r : response J R)
| ResultEmpty.
Arguments ResultRegistration {J R}.
Arguments ResultPick {J R}.
Arguments ResultRoutes {J R}.
Arguments ResultManagement {J R}.
Arguments ResultEmpty {J R}.

(** [envelope]: a result, or the code, message, retryability and status of an
    error. *)
Inductive envelope (J R : Type) :=
| EnvelopeOK (result : call_result J R)
| EnvelopeError (e : WireError).
Arguments EnvelopeOK {J R}.
Arguments EnvelopeError {J R}.

Definition errorEnvelope {J R} (code message : string) : envelope J R :=
  EnvelopeError {| we_Code := code; we_Message := message; we_Retryable := false; we_HTTPStatus := 0 |}.

(** The type assertion looks at the outermost error only. *)
Definition errorEnvelopeFor {J R} (e : error) : envelope J R :=
  match e with
  | EWire w => EnvelopeError w
  | _ => errorEnvelope "plugin_error" (error_text e)
  end.

(** ** Calls *)

Inductive method :=
| MethodPluginRegister
| MethodPluginReconfigure
| MethodSchedulerPick
| MethodUsageHandle
| MethodManagementRegister
| MethodManagementHandle
| MethodPluginShutdown
| MethodOther.

(** The decoders of the payloads, and what the coordinator's calls are
    answered. *)
Record plugin_call (N E : Type) := {
  pc_lifecycle : string → option string;
  pc_pick : string → option SchedulerPickRequest;
  pc_usage : string → option UsageRecord;
  pc_management : string → option ManagementRequest;
  pc_decode_error : error;
  pc_now : Time;
  pc_later : Time;
  pc_reconfigure : reconfigure_call N E;
  pc_module : string → E;
}.
Arguments pc_lifecycle {N E}.
Arguments pc_pick {N E}.
Arguments pc_usage {N E}.
Arguments pc_management {N E}.
Arguments pc_decode_error {N E}.
Arguments pc_now {N E}.
Arguments pc_later {N E}.
Arguments pc_reconfigure {N E}.
Arguments pc_module {N E}.

Section Calls.
Context `{GoStd} {N M E J R : Type} `{ProviderModule M E J R}.
Context (schemaVersion : Z) (version : string).

Definition decodeLifecycle (call : plugin_call N E) (payload : string) : res string :=
  if len payload =? 0 then errorf "empty lifecycle request" else
  match pc_lifecycle call payload with
  | Some config => Ok config
  | None => Err (pc_decode_error call)
  end.

(** The last lines of the entry point. *)
Definition answer (result : res (call_result J R)) (c : Coordinator M)
    : Z * envelope J R * Coordinator M :=
  match result with
  | Ok result => (0, EnvelopeOK result, c)
  | Err e => (1, errorEnvelopeFor e, c)
  end.

(** Reconfiguration for [plugin.register] and [plugin.reconfigure]. *)
Definition lifecycle (c : Coordinator M) (config : string) (call : plugin_call N E)
    : Z * envelope J R * Coordinator M :=
  match reconfigure c config (pc_reconfigure call) with
  | (Err _, c) => (0, errorEnvelope "invalid_config" (validationStatus c), c)
  | (Ok _, c) => answer (Ok (ResultRegistration (pluginRegistration schemaVersion version))) c
  end.

(** The return code, the envelope written and the coordinator; the method is
    absent for a null pointer. *)
Definition cliproxyPluginCall (c : Coordinator M) (method : option method) (payload : string)
    (call : plugin_call N E) : Z * envelope J R * Coordinator M :=
  let invalid_request := errorEnvelope "invalid_request" "request body is invalid" in
  match method with
  | None => (1, errorEnvelope "invalid_method" "method is required", c)
  | Some MethodPluginRegister =>
      match decodeLifecycle call payload with
      | Err _ => (0, invalid_request, c)
      | Ok config => lifecycle c config call
      end
  | Some MethodPluginReconfigure =>
      match decodeLifecycle call payload with
      | Err e => (0, invalid_request, recordError c e)
      | Ok config => lifecycle c config call
      end
  | Some MethodSchedulerPick =>
      match pc_pick call payload with
      | None => answer (errorf "decode scheduler request") c
      | Some req =>
          let '(resp, c) := pick c req (pc_module call) in answer (ResultPick <$> resp) c
      end
  | Some MethodUsageHandle =>
      match pc_usage call payload with
      | None => answer (errorf "decode usage record") c
      | Some record =>
          let '(_, c) := handleUsage c record (pc_module call) in answer (Ok ResultEmpty) c
      end
  | Some MethodManagementRegister => answer (Ok (ResultRoutes (managementRoutes c))) c
  | Some MethodManagementHandle =>
      match pc_management call payload with
      | None => answer (errorf "decode management request") c
      | Some req =>
          let '(r, c) :=
            handleManagement version c req (pc_now call) (pc_later call) (pc_module call) in
          answer (Ok (ResultManagement r)) c
      end
  | Some MethodPluginShutdown =>
      let '(result, c) := shutdown c (pc_module call) in
      answer ((λ _, ResultEmpty) <$> result) c
  | Some MethodOther =>
      (0, errorEnvelope "unknown_method" "method is not implemented by this plugin", c)
  end.

(** After shutdown a rejected reconfiguration names no reason: the message is the
    recorded status, which a stopped coordinator does not update. *)
Lemma stopped_reconfigure_message c config call :
  co_stopped c = true → co_lastErr c = None →
  lifecycle c config call = (0, errorEnvelope "invalid_config" "", c).
Proof.
  intros Hst Hl. unfold lifecycle, reconfigure, recordError, validationStatus.
  rewrite Hst. destruct (prepare _ config) as [[cfg host]|]; by rewrite Hl.
Qed.

End Calls.

(** ** A plugin to evaluate

    One Z.ai account and the OpenCode Go configuration of two, or a section the
    OpenCode Go decoder refuses. *)
Module DemoPlugin.

#[export] Instance demo_zai : ZaiDecoders := {|
  zd_config _ := Ok Config.demo_raw_config;
  zd_entries _ := Some 0;
  zd_selector _ := Some "";
  zd_update _ := None;
  zd_version := "1";
|}.

(** Another account with other auth IDs. *)
Definition new_config : rawModuleConfig :=
  {| rm_Enabled := None; rm_ThresholdPercent := None; rm_DashboardAPIKey := "key";
     rm_Accounts :=
       [{| ra_Name := "go-c"; ra_AuthIDs := ["c1"]; ra_ConnectionID := "";
           ra_DashboardAPIKey := ""; ra_Disabled := false |}] |}.

#[export] Instance demo_opencode : OpenCodeDecoders := {|
  od_config raw := if decide (raw = "bad") then errorf "unknown field"
                   else if decide (raw = "new") then Ok new_config else Ok OpenCodeGo.demo_config;
  od_usage _ := None;
|}.

Definition poll_answer : poll_outcome :=
  {| pq_now := demo_now; pq_later := demo_now; pq_result := errorf "unavailable";
     pq_cancelled := false; pq_wall := demo_now; pq_fault := None |}.

Definition module_call (_ : string) : hosted_call :=
  ({| zc_now := demo_now; zc_later := demo_now; zc_wall := demo_now; zc_fault := None;
      zc_flush_error := None; zc_close_error := None; zc_store := Ok demo_store;
      zc_settings := Ok zero_settings; zc_persisted := Ok zero_persisted;
      zc_save := λ _, Ok (); zc_poll := λ _, poll_answer; zc_poller := ("", 0) |},
   {| oc_polled := demo_now; oc_now := demo_now; oc_client := λ _, HttpError ECanceled |}).

Definition host_config : cpaConfigProjection :=
  {| cc_AuthDir := "/auth"; cc_ClaudeKeys := cc_ClaudeKeys demo_pair;
     cc_OpenAICompatibility := cc_OpenAICompatibility demo_pair;
     cc_Plugins := {| cps_Enabled := true;
       cps_Configs := [(PluginID, {| cpp_Enabled := Some true; cpp_Priority := 1000 |})] |} |}.

(** The text of the configuration is the OpenCode Go section. *)
Definition demo_reconfigure : reconfigure_call string hosted_call :=
  {| rc_decode_yaml raw := Ok {| cf_CPAConfigPath := "cpa.yaml";
       cf_Providers := {["zai" := "zai"; "opencode-go" := raw]};
       cf_Enabled := Some true; cf_Priority := Some 1000 |};
     rc_decode_node node := Ok (AString node);
     rc_json_Marshal v := match v with AString s => Ok s | _ => errorf "unsupported" end;
     rc_Clean := id; rc_IsAbs _ := false; rc_Abs path := Ok path;
     rc_Join parts := String.concat "/" parts;
     rc_UserHomeDir := Ok "/root"; rc_ReadFile _ := Ok "";
     rc_ParseConfigBytes _ := Some host_config;
     rc_EnsureEmptyProviderDir _ := Ok ();
     rc_module := module_call |}.

#[local] Existing Instance DemoStd.demo_std.

Definition empty_plugin : Coordinator hosted :=
  {| co_modules := []; co_lastErr := None; co_stopped := true; co_registry := ∅ |}.

(** The plugin as it is loaded, configured, and after a configuration that only
    its first module accepts. *)
Definition loaded : Coordinator hosted := default empty_plugin runtimeState.
Definition configured : Coordinator hosted := (reconfigure loaded "ok" demo_reconfigure).2.
Definition half_configured : Coordinator hosted := (reconfigure loaded "bad" demo_reconfigure).2.

Definition zai_of (c : Coordinator hosted) : hosted :=
  default (inl new_runtime) (snd <$> head (co_modules c)).

Definition request (ids : list string) : SchedulerPickRequest :=
  {| sp_Provider := ""; sp_Providers := []; sp_Model := "";
     sp_Candidates := bare_candidate <$> ids; sp_Headers := []; sp_Now := None |}.

Definition usage_of (id : string) : UsageRecord := {|
  ur_Provider := "claude"; ur_Model := "glm-5.3"; ur_Alias := ""; ur_AuthID := id;
  ur_RequestedAt := demo_now; ur_Latency := second; ur_Failed := false;
  ur_Failure := {| uf_StatusCode := 0; uf_Body := "" |};
  ur_Detail := {| ud_InputTokens := 1000; ud_OutputTokens := 200; ud_ReasoningTokens := 0;
                  ud_CacheReadTokens := 50; ud_CacheCreationTokens := 10; ud_TotalTokens := 1 |};
  ur_ResponseHeaders := [] |}.

End DemoPlugin.
