(* ===== verification/Resource.v ===== *)
(** * The quota page (coordinator/resource.go)

    The accounts the page shows, decoded from the statuses of the two modules, and
    the page itself, as the text the code writes. The page is answered without
    authentication; its theorems say that a reader of it sees the template's tags
    and the accounts' own texts, whatever those contain, and what the shown times
    mean. *)

From S2P Require Import Prelude GoStrings GoFloat GoFormat Host Management OpenCodeUsage OpenCodeGo ProviderModule Coordinator Plugin.

Definition resourceContentType : string := "text/html; charset=utf-8".

(** ** What the page shows *)

Record dashboardWindow := {
  dw_Label : string;
  dw_Known : bool;
  dw_Percent : float64;
  dw_ResetAt : option Time;
  dw_Source : string;
}.

Record dashboardAccount := {
  da_Provider : string;
  da_Name : string;
  da_Health : string;
  da_Windows : list dashboardWindow;
}.

Record zaiResourceAccount := {
  za_Name : string;
  za_FiveHourUtilization : float64;
  za_WeeklyUtilization : float64;
  za_FiveHourResetsAt : option Time;
  za_WeeklyResetsAt : option Time;
  za_QuotaSource : string;
  za_QuotaStale : bool;
  za_Health : string;
}.

Definition zaiSourceLabel (source : string) (stale : bool) : string :=
  let label := if bool_decide (source = "") then "unknown" else source in
  if stale then label +:+ " (stale)" else label.

Definition zai_dashboard (a : zaiResourceAccount) : dashboardAccount :=
  let health := if bool_decide (za_Health a = "") then "unknown" else za_Health a in
  let source := zaiSourceLabel (za_QuotaSource a) (za_QuotaStale a) in
  {| da_Provider := "Z.ai"; da_Name := za_Name a; da_Health := health;
     da_Windows :=
       [{| dw_Label := "5h"; dw_Known := true;
           dw_Percent := fmul (za_FiveHourUtilization a) (float_of_Z 100);
           dw_ResetAt := za_FiveHourResetsAt a; dw_Source := source |};
        {| dw_Label := "Weekly"; dw_Known := true;
           dw_Percent := fmul (za_WeeklyUtilization a) (float_of_Z 100);
           dw_ResetAt := za_WeeklyResetsAt a; dw_Source := source |}] |}.

Record opencodeResourceWindow := {
  ow_Known : bool;
  ow_Utilization : option float64;
  ow_Exhausted : bool;
  ow_ResetAt : option Time;
  ow_Source : string;
  ow_Authoritative : bool;
}.

Record opencodeResourceAccount := {
  oa_Name : string;
  oa_Disabled : bool;
  oa_Windows : gmap string opencodeResourceWindow;
}.

Definition opencodeWindowLabel (kind : string) : string :=
  if bool_decide (kind = "five_hour") then "5h"
  else if bool_decide (kind = "weekly") then "Weekly"
  else if bool_decide (kind = "monthly") then "Monthly"
  else kind.

Definition opencodeSourceLabel (w : opencodeResourceWindow) : string :=
  if ow_Authoritative w then "authoritative"
  else if HasPrefix (ow_Source w) "proxy-observed" then "429-derived"
  else if bool_decide (ow_Source w = "") then "unknown"
  else ow_Source w.

Definition dashboard_kinds : list string := ["five_hour"; "weekly"; "monthly"].

Definition opencode_window (windows : gmap string opencodeResourceWindow) (kind : string)
    : dashboardWindow :=
  let label := opencodeWindowLabel kind in
  let unknown := {| dw_Label := label; dw_Known := false; dw_Percent := float_of_Z 0;
                    dw_ResetAt := None; dw_Source := "unknown" |} in
  match windows !! kind with
  | None => unknown
  | Some w =>
      if negb (ow_Known w) then unknown else
      let percent := match ow_Utilization w with
        | Some u => fmul u (float_of_Z 100)
        | None => float_of_Z 0
        end in
      let percent := if ow_Exhausted w && flt percent (float_of_Z 100) then float_of_Z 100
                     else percent in
      {| dw_Label := label; dw_Known := true; dw_Percent := percent; dw_ResetAt := ow_ResetAt w;
         dw_Source := opencodeSourceLabel w |}
  end.

Definition opencode_dashboard (a : opencodeResourceAccount) : dashboardAccount :=
  let exhausted kind :=
    match oa_Windows a !! kind with Some w => ow_Known w && ow_Exhausted w | None => false end in
  let health := if oa_Disabled a then "disabled"
                else if existsb exhausted dashboard_kinds then "exhausted" else "healthy" in
  {| da_Provider := "OpenCode Go"; da_Name := oa_Name a; da_Health := health;
     da_Windows := opencode_window (oa_Windows a) <$> dashboard_kinds |}.

(** ** The page *)

Definition clampPercent (percent : float64) : float64 :=
  if flt percent (float_of_Z 0) then float_of_Z 0
  else if flt (float_of_Z 100) percent then float_of_Z 100
  else percent.

Definition healthClass (health : string) : string :=
  if bool_decide (health ∈ ["healthy"; "throttled"; "exhausted"; "suspended"; "disabled"])
  then health else "unknown".

Definition formatDuration (d : Duration) : string :=
  let d := duration_Round d minute in
  let hours := d [/] hour in
  let d := d [-] (hours [*] hour) in
  let minutes := d [/] minute in
  if 0 <? hours then itoa hours +:+ "h" +:+ str (zero_pad 2 minutes) +:+ "m"
  else itoa minutes +:+ "m".

Definition formatResetAt (resetAt : option Time) (now : Time) : string * string :=
  match resetAt with
  | None => ("unknown", "unknown")
  | Some resetAt =>
      if time_IsZero resetAt then ("unknown", "unknown") else
      let remaining := time_Sub resetAt now in
      (format_UTC resetAt, if remaining <=? 0 then "now" else formatDuration remaining)
  end.

(** The functions that write to the builder give the text they write. *)
Definition renderWindowRow (window : dashboardWindow) (now : Time) : string :=
  raw "<div class=`window`><div class=`window-label`>" +:+ EscapeString (dw_Label window)
  +:+ "</div>" +:+
  if negb (dw_Known window) then raw "<div class=`unknown`>unknown</div></div>" else
  let percent := clampPercent (dw_Percent window) in
  let '(absolute, countdown) := formatResetAt (dw_ResetAt window) now in
  raw "<div class=`bar`><div class=`fill` style=`width:" +:+ format_fixed 1 percent
  +:+ raw "%`></div></div><div class=`stats`><span class=`percent`>"
  +:+ (format_fixed 0 percent +:+ "%")
  +:+ raw "</span><span class=`source`>" +:+ EscapeString (dw_Source window)
  +:+ "</span></div>"
  +:+ raw "<div class=`reset`>resets " +:+ EscapeString absolute
  +:+ " (" +:+ EscapeString countdown +:+ ")</div></div>".

Definition renderAccountCard (account : dashboardAccount) (now : Time) : string :=
  raw "<section class=`card`><header><h2>" +:+ EscapeString (da_Name account)
  +:+ raw "</h2><span class=`provider`>" +:+ EscapeString (da_Provider account)
  +:+ raw "</span><span class=`health " +:+ healthClass (da_Health account)
  +:+ raw "`>" +:+ EscapeString (da_Health account)
  +:+ "</span></header>"
  +:+ foldr String.append "" ((λ window, renderWindowRow window now) <$> da_Windows account)
  +:+ "</section>".

Definition resourceStatusHead : string := raw "<!doctype html>
<html lang=`en`>
<head>
<meta charset=`utf-8`>
<meta name=`viewport` content=`width=device-width,initial-scale=1`>
<title>Subscription Quota</title>
<style>
:root{color-scheme:light dark;font:14px/1.45 system-ui,sans-serif;background:#111;color:#eee}
body{margin:0;padding:24px}
main{max-width:1000px;margin:auto}
h1{font-size:24px;margin:0}
.meta{color:#aaa;margin:4px 0 20px}
.empty{padding:14px 16px;border:1px solid #555;border-radius:10px;background:#222}
.grid{display:grid;grid-template-columns:repeat(auto-fill,minmax(280px,1fr));gap:16px}
.card{border:1px solid #444;border-radius:10px;padding:16px;background:#1a1a1a}
.card header{display:flex;align-items:center;gap:8px;flex-wrap:wrap;margin-bottom:10px}
.card h2{font-size:16px;margin:0}
.provider{color:#aaa;font-size:12px}
.health{margin-left:auto;font-size:11px;padding:2px 8px;border-radius:999px;text-transform:uppercase}
.health.healthy{background:#173d1e;color:#7be495}
.health.throttled{background:#3d3a17;color:#e8dc7b}
.health.exhausted{background:#4a1c1c;color:#ff8a8a}
.health.suspended{background:#4a3a1c;color:#ffd27a}
.health.disabled{background:#333;color:#999}
.health.unknown{background:#333;color:#999}
.window{margin-top:10px}
.window-label{font-size:12px;color:#aaa;margin-bottom:4px}
.bar{height:8px;border-radius:4px;background:#333;overflow:hidden}
.fill{height:100%;background:#58a6ff}
.stats{display:flex;justify-content:space-between;font-size:12px;color:#ccc;margin-top:4px}
.reset{font-size:11px;color:#888;margin-top:2px}
.unknown{font-size:12px;color:#888}
@media(prefers-color-scheme:light){:root{background:#f7f7f7;color:#222}.meta{color:#666}.empty{background:white;border-color:#ddd}.card{background:white;border-color:#ddd}}
</style>
</head>
<body>
".

Record http_response := {
  hp_StatusCode : Z;
  hp_Headers : list (string * list string);
  hp_Body : string;
}.

Section Page.
Context {J : Type} (decode_zai : J → res (list zaiResourceAccount)).
Context (decode_opencode : J → res (list opencodeResourceAccount)).

Definition zaiDashboardAccounts (status : option J) : list dashboardAccount :=
  match status with
  | None => []
  | Some status =>
      match decode_zai status with Ok accounts => zai_dashboard <$> accounts | Err _ => [] end
  end.

Definition opencodeDashboardAccounts (status : option J) : list dashboardAccount :=
  match status with
  | None => []
  | Some status =>
      match decode_opencode status with
      | Ok accounts => opencode_dashboard <$> accounts
      | Err _ => []
      end
  end.

Definition dashboard (status : statusBody J) : list dashboardAccount :=
  zaiDashboardAccounts (cs_Providers status !! "zai")
  ++ opencodeDashboardAccounts (cs_Providers status !! "opencode-go").

Definition renderResourceStatusHTML (status : statusBody J) (now : Time) : string :=
  resourceStatusHead
  +:+ raw "<main><h1>Subscription Quota</h1><p class=`meta`>Generated "
  +:+ EscapeString (format_UTC (cs_GeneratedAt status)) +:+ "</p>"
  +:+ (match dashboard status with
       | [] => raw "<p class=`empty`>No accounts are configured yet.</p>"
       | accounts =>
           raw "<div class=`grid`>"
           +:+ foldr String.append "" ((λ account, renderAccountCard account now) <$> accounts)
           +:+ "</div>"
       end)
  +:+ "</main></body></html>".

Definition page_response (status : statusBody J) (now : Time) : http_response :=
  {| hp_StatusCode := 200;
     hp_Headers :=
       [("Content-Type", [resourceContentType]);
        ("Content-Security-Policy",
         ["default-src 'none'; style-src 'unsafe-inline'; base-uri 'none'; form-action 'none'"]);
        ("Referrer-Policy", ["no-referrer"]); ("X-Content-Type-Options", ["nosniff"]);
        ("Cache-Control", ["no-store"])];
     hp_Body := renderResourceStatusHTML status now |}.

Context `{GoStd} {M E R : Type} `{ProviderModule M E J R}.

Definition resourceStatusResponse (version : string) (c : Coordinator M) (now later : Time)
    (call : string → E) : http_response * Coordinator M :=
  let '(status, c) := managementStatus version c now call in (page_response status later, c).

End Page.

(** ** The modules' statuses as the page decodes them

    The types the page decodes into name fields of the types the modules encode,
    with the same JSON names; a status of the other module has none of them. *)

Definition wire_zai (a : managementAccountStatus) : zaiResourceAccount :=
  {| za_Name := ms_Name a; za_FiveHourUtilization := ms_FiveHourUtilization a;
     za_WeeklyUtilization := ms_WeeklyUtilization a; za_FiveHourResetsAt := ms_FiveHourResetsAt a;
     za_WeeklyResetsAt := ms_WeeklyResetsAt a; za_QuotaSource := ms_QuotaSource a;
     za_QuotaStale := ms_QuotaStale a; za_Health := ms_Health a |}.

Definition wire_window (w : statusWindow) : opencodeResourceWindow :=
  {| ow_Known := sw_Known w; ow_Utilization := sw_Utilization w; ow_Exhausted := sw_Exhausted w;
     ow_ResetAt := sw_ResetAt w; ow_Source := sw_Source w; ow_Authoritative := sw_Authoritative w |}.

Definition wire_opencode (a : statusAccount) : opencodeResourceAccount :=
  {| oa_Name := sa_Name a; oa_Disabled := sa_Disabled a;
     oa_Windows := list_to_map ((λ kw, (window_text kw.1, wire_window kw.2)) <$> sa_Windows a) |}.

Definition hosted_zai (status : hosted_status) : res (list zaiResourceAccount) :=
  match status with inl body => Ok (wire_zai <$> mb_Accounts body) | inr _ => errorf "not a Z.ai status" end.

Definition hosted_opencode (status : hosted_status) : res (list opencodeResourceAccount) :=
  match status with
  | inl _ => errorf "not an OpenCode Go status"
  | inr body => Ok (wire_opencode <$> sb_Accounts body)
  end.

(** ** What a reader of the page sees

    The page as tags and texts, with the accounts' texts as they are. *)

Definition element (name attributes : string) (children : list token) : list token :=
  Tag (name +:+ attributes) :: children ++ [Tag ("/" +:+ name)].

Definition window_document (window : dashboardWindow) (now : Time) : list token :=
  element "div" (raw " class=`window`")
    (element "div" (raw " class=`window-label`") [Text (dw_Label window)]
     ++ if negb (dw_Known window) then element "div" (raw " class=`unknown`") [Text "unknown"] else
        let percent := clampPercent (dw_Percent window) in
        let '(absolute, countdown) := formatResetAt (dw_ResetAt window) now in
        element "div" (raw " class=`bar`")
          (element "div" (raw " class=`fill` style=`width:" +:+ format_fixed 1 percent +:+ raw "%`") [])
        ++ element "div" (raw " class=`stats`")
          (element "span" (raw " class=`percent`") [Text (format_fixed 0 percent +:+ "%")]
           ++ element "span" (raw " class=`source`") [Text (dw_Source window)])
        ++ element "div" (raw " class=`reset`")
          [Text ("resets " +:+ absolute +:+ " (" +:+ countdown +:+ ")")]).

Definition card_document (now : Time) (account : dashboardAccount) : list token :=
  element "section" (raw " class=`card`")
    (element "header" ""
       (element "h2" "" [Text (da_Name account)]
        ++ element "span" (raw " class=`provider`") [Text (da_Provider account)]
        ++ element "span" (raw " class=`health " +:+ healthClass (da_Health account) +:+ raw "`")
             [Text (da_Health account)])
     ++ (da_Windows account ≫= λ window, window_document window now)).

Definition page_document (generated : Time) (accounts : list dashboardAccount) (now : Time)
    : list token :=
  element "main" ""
    (element "h1" "" [Text "Subscription Quota"]
     ++ element "p" (raw " class=`meta`") [Text ("Generated " +:+ format_UTC generated)]
     ++ (if decide (accounts = [])
         then element "p" (raw " class=`empty`") [Text "No accounts are configured yet."]
         else element "div" (raw " class=`grid`") (accounts ≫= card_document now)))
  ++ [Tag "/body"; Tag "/html"].

Definition written (tokens : list token) : list ascii := tokens ≫= token_chars.

Lemma written_app s t : written (s ++ t) = written s ++ written t.
Proof. apply bind_app. Qed.

Lemma written_element name attributes children :
  written (element name attributes children)
  = chars ("<" +:+ name +:+ attributes +:+ ">") ++ written children
    ++ chars ("</" +:+ name +:+ ">").
Proof.
  unfold element. change (written (?t :: ?l)) with (token_chars t ++ written l).
  rewrite written_app. unfold written at 2. cbn [mbind list_bind token_chars].
  rewrite !chars_app, app_nil_r. cbn [app]. rewrite <- !app_assoc. reflexivity.
Qed.

Lemma written_text s : written [Text s] = escape_list (chars s).
Proof. unfold written. cbn [mbind list_bind token_chars]. apply app_nil_r. Qed.

Lemma chars_EscapeString s : chars (EscapeString s) = escape_list (chars s).
Proof. apply chars_str. Qed.

Lemma chars_concat {A} (f : A → string) (g : A → list token) l :
  (∀ x, chars (f x) = written (g x)) →
  chars (foldr String.append "" (f <$> l)) = written (l ≫= g).
Proof.
  intros Hf. induction l as [|x l IH]; [done|]. cbn [fmap list_fmap foldr mbind list_bind].
  rewrite chars_app, written_app, Hf. f_equal. exact IH.
Qed.

Ltac page_text :=
  repeat progress (rewrite ?written_app, ?written_element, ?written_text, ?chars_app,
                   ?chars_EscapeString, ?escape_app).

Lemma renderWindowRow_written window now :
  chars (renderWindowRow window now) = written (window_document window now).
Proof.
  unfold renderWindowRow, window_document. destruct (dw_Known window); cbn [negb].
  - destruct (formatResetAt (dw_ResetAt window) now) as [absolute countdown]. page_text.
    rewrite (plain_escape (chars (format_fixed 0 _))) by apply format_fixed_plain.
    rewrite <- ?app_assoc. reflexivity.
  - page_text. rewrite <- ?app_assoc. reflexivity.
Qed.

Lemma renderAccountCard_written account now :
  chars (renderAccountCard account now) = written (card_document now account).
Proof.
  unfold renderAccountCard, card_document. page_text.
  rewrite (chars_concat _ (λ window, window_document window now))
    by (intros; apply renderWindowRow_written).
  rewrite <- ?app_assoc. reflexivity.
Qed.

Lemma head_written : chars resourceStatusHead = written (html_tokens resourceStatusHead).
Proof. vm_compute. reflexivity. Qed.

#[global] Instance tag_ok_dec t : Decision (tag_ok t).
Proof. destruct t; unfold tag_ok; apply _. Defined.

Lemma head_ok : Forall tag_ok (html_tokens resourceStatusHead).
Proof. apply (bool_decide_unpack _). vm_compute. exact I. Qed.

Lemma element_ok name attributes children :
  ">"%char ∉ chars (name +:+ attributes) → ">"%char ∉ chars ("/" +:+ name) →
  Forall tag_ok children → Forall tag_ok (element name attributes children).
Proof.
  intros Ho Hc Hk. constructor; [exact Ho|]. apply Forall_app. split; [exact Hk|].
  constructor; [exact Hc|constructor].
Qed.

(** Elements whose tags are written out. *)
Ltac no_markup := apply (bool_decide_unpack _); vm_compute; exact I.

Ltac elements_ok :=
  repeat lazymatch goal with
  | |- Forall _ [] => constructor
  | |- Forall _ (_ ++ _) => apply Forall_app; split
  | |- Forall _ (_ :: _) => constructor; [exact I|]
  | |- Forall _ (element _ ?attributes _) =>
      apply element_ok;
      [lazymatch attributes with _ +:+ _ => idtac | _ => no_markup end|no_markup|]
  | _ => fail
  end.

Lemma window_document_ok window now : Forall tag_ok (window_document window now).
Proof.
  unfold window_document. destruct (dw_Known window); cbn [negb]; [|elements_ok].
  destruct (formatResetAt _ _). elements_ok.
  rewrite !chars_app, !not_elem_of_app. split_and!; [no_markup|no_markup| |no_markup].
  apply plain_tag, format_fixed_plain.
Qed.

Lemma healthClass_cases health :
  healthClass health ∈ ["healthy"; "throttled"; "exhausted"; "suspended"; "disabled"; "unknown"].
Proof.
  unfold healthClass. case_bool_decide as Hh; [|by_decision].
  apply (elem_of_app ["healthy"; "throttled"; "exhausted"; "suspended"; "disabled"]). by left.
Qed.

Lemma card_document_ok now account : Forall tag_ok (card_document now account).
Proof.
  unfold card_document. elements_ok.
  - pose proof (healthClass_cases (da_Health account)) as Hc. revert Hc.
    generalize (healthClass (da_Health account)). intros class Hc.
    repeat (apply elem_of_cons in Hc as [->|Hc]; [no_markup|]). by apply elem_of_nil in Hc.
  - apply Forall_bind, Forall_forall. intros window _. apply window_document_ok.
Qed.

Lemma page_document_ok generated accounts now : Forall tag_ok (page_document generated accounts now).
Proof.
  unfold page_document. elements_ok; [|no_markup..].
  case_decide; elements_ok. apply Forall_bind, Forall_forall. intros account _.
  apply card_document_ok.
Qed.

Section Theorems.
Context {J : Type} (decode_zai : J → res (list zaiResourceAccount)).
Context (decode_opencode : J → res (list opencodeResourceAccount)).
Context `{GoStd} {M E R : Type} `{ProviderModule M E J R}.

Lemma page_written (status : statusBody J) now :
  chars (renderResourceStatusHTML decode_zai decode_opencode status now)
  = written (html_tokens resourceStatusHead
      ++ page_document (cs_GeneratedAt status) (dashboard decode_zai decode_opencode status) now).
Proof.
  unfold renderResourceStatusHTML, page_document. rewrite written_app, chars_app, head_written.
  f_equal. page_text. destruct (dashboard _ _ status) as [|a l].
  - page_text. rewrite <- ?app_assoc. reflexivity.
  - page_text. rewrite (chars_concat _ (card_document now)) by (intros; apply renderAccountCard_written).
    rewrite decide_False by done. page_text. rewrite <- ?app_assoc. reflexivity.
Qed.

Lemma page_tokens (status : statusBody J) now :
  html_tokens (renderResourceStatusHTML decode_zai decode_opencode status now)
  = merge [] (html_tokens resourceStatusHead
      ++ page_document (cs_GeneratedAt status) (dashboard decode_zai decode_opencode status) now).
Proof.
  rewrite <- (str_chars (renderResourceStatusHTML _ _ _ _)), page_written.
  apply html_tokens_written. apply Forall_app. split; [apply head_ok|apply page_document_ok].
Qed.

(** C35: the page is what the accounts say and nothing else: a reader that splits
    the answered text into tags and texts, and replaces the entities of the texts,
    finds the template's head, then for each account of the two statuses its card,
    with the account's name, health, sources and times as exact texts. Whatever
    characters they contain, they open no tag and end no attribute. *)
Theorem page_reads_back version (c : Coordinator M) now later (call : string → E) :
  let status := (managementStatus version c now call).1 in
  let '(response, _) := resourceStatusResponse decode_zai decode_opencode version c now later call in
  html_tokens (hp_Body response)
  = merge [] (html_tokens resourceStatusHead
      ++ page_document now (dashboard decode_zai decode_opencode status) later).
Proof.
  unfold resourceStatusResponse. cbv zeta.
  assert (cs_GeneratedAt (managementStatus version c now call).1 = now) as Hg.
  { unfold managementStatus. by destruct (module_statuses _ _). }
  destruct (managementStatus version c now call) as [status c'] eqn:Hm. cbn [fst] in *.
  rewrite <- Hg. apply page_tokens.
Qed.

End Theorems.

(** ** The shown times *)

(** A reader of countdowns: the minutes the text shows. *)
Definition read_countdown (s : string) : option Z :=
  '(n, l) ← read_number (chars s);
  match l with
  | "h"%char :: l =>
      '(m, l) ← read_number l; if decide (l = ["m"%char]) then Some (60 * n + m) else None
  | _ => if decide (l = ["m"%char]) then Some n else None
  end.

Lemma read_countdown_hours h m :
  0 <= h → 0 <= m →
  read_countdown (itoa h +:+ "h" +:+ str (zero_pad 2 m) +:+ "m") = Some (60 * h + m).
Proof.
  intros Hh Hm. unfold read_countdown. rewrite !chars_app, chars_str.
  change (chars (itoa h)) with (zero_pad 0 h).
  rewrite (read_number_pad 0 h "h"%char _ Hh eq_refl : read_number (_ ++ chars "h" ++ _) = _).
  cbn [mbind option_bind].
  by rewrite (read_number_pad 2 m "m"%char [] Hm eq_refl : read_number (_ ++ chars "m") = _).
Qed.

Lemma read_countdown_minutes m : 0 <= m → read_countdown (itoa m +:+ "m") = Some m.
Proof.
  intros Hm. unfold read_countdown. rewrite chars_app. change (chars (itoa m)) with (zero_pad 0 m).
  by rewrite (read_number_pad 0 m "m"%char [] Hm eq_refl : read_number (_ ++ chars "m") = _).
Qed.

Lemma formatDuration_read d :
  0 <= d <= int64_max →
  ∃ k, read_countdown (formatDuration d) = Some k
       ∧ - (30 * second) <= d - k * minute < 30 * second.
Proof.
  intros Hd. unfold formatDuration. cbv zeta.
  destruct (duration_Round_minute d Hd) as (k & -> & Hk & Hnear). exists k. split; [|done].
  unfold int64_max in Hd. revert Hnear. change hour with 3600000000000.
  change minute with 60000000000. change second with 1000000000. intros Hnear.
  assert (0 <= k <= 153722867) as Hk2 by lia. clear Hnear Hd Hk.
  rewrite (Z.quot_div_nonneg (k * 60000000000)) by lia.
  rewrite (wrap64_id (k * 60000000000 / 3600000000000))
    by (unfold in_int64, int64_min, int64_max; divlia).
  replace (k * 60000000000 / 3600000000000) with (k / 60) by divlia.
  rewrite (wrap64_id (k / 60 * 3600000000000)) by (unfold in_int64, int64_min, int64_max; divlia).
  rewrite (wrap64_id (k * 60000000000 - k / 60 * 3600000000000))
    by (unfold in_int64, int64_min, int64_max; divlia).
  replace (k * 60000000000 - k / 60 * 3600000000000) with (k mod 60 * 60000000000) by divlia.
  rewrite Z.quot_mul, wrap64_id by (unfold in_int64, int64_min, int64_max; divlia).
  destruct (Z.ltb_spec 0 (k / 60)).
  - rewrite read_countdown_hours by divlia. f_equal. divlia.
  - rewrite read_countdown_minutes by divlia. f_equal. divlia.
Qed.

(** The reset of a window is shown as it is: the date reads back as the reset's
    second, the countdown is the remaining time rounded to the nearest minute, and
    it says now exactly when the reset is not in the future. Remaining times beyond
    a [time.Duration] are shown as the longest one; no rounding overflows. *)
Theorem reset_shown resetAt now :
  0 < resetAt →
  let '(absolute, countdown) := formatResetAt (Some resetAt) now in
  read_date absolute = Some (resetAt / second)
  ∧ (countdown = "now" ↔ resetAt <= now)
  ∧ (now < resetAt → ∃ k, read_countdown countdown = Some k
       ∧ - (30 * second) <= Z.min int64_max (resetAt - now) - k * minute < 30 * second).
Proof.
  intros Hr. unfold formatResetAt, time_IsZero. destruct (Z.eqb_spec resetAt 0); [lia|].
  cbv zeta. split; [apply read_date_format; lia|].
  unfold time_Sub. destruct (Z.leb_spec (Z.max int64_min (Z.min int64_max (resetAt - now))) 0).
  - unfold int64_min, int64_max in *. split; [split; [lia|done]|lia].
  - replace (Z.max int64_min (Z.min int64_max (resetAt - now)))
      with (Z.min int64_max (resetAt - now)) in * by (unfold int64_min, int64_max in *; lia).
    destruct (formatDuration_read (Z.min int64_max (resetAt - now))) as (k & Hk & Hnear);
      [unfold int64_max in *; lia|].
    split; [|by exists k]. split; [|unfold int64_max in *; lia].
    intros Hnow. rewrite Hnow in Hk. vm_compute in Hk. done.
Qed.

Lemma reset_shown_witness :
  let '(absolute, countdown) := formatResetAt (Some (time_Unix 1767225600)) (time_Unix 1767220000) in
  read_date absolute = Some 63902822400 ∧ read_countdown countdown = Some 93.
Proof.
  pose proof (reset_shown (time_Unix 1767225600) (time_Unix 1767220000) ltac:(by_decision)) as Hs.
  destruct (formatResetAt _ _) as [absolute countdown] eqn:Hf. destruct Hs as (Ha & _ & _).
  split; [rewrite Ha; vm_compute; reflexivity|]. vm_compute in Hf. injection Hf as <- <-.
  vm_compute. reflexivity.
Defined.

(** ** The health badge of OpenCode Go *)

Lemma wire_lookup a kind :
  oa_Windows (wire_opencode (status_account a)) !! window_text kind
  = Some (wire_window (status_window (window a kind))).
Proof.
  cbn [wire_opencode oa_Windows status_account sa_Windows].
  apply elem_of_list_to_map_1.
  - cbn [window_kinds fmap list_fmap fst]. by_decision.
  - apply list_elem_of_fmap. exists (kind, status_window (window a kind)). split; [done|].
    apply list_elem_of_fmap. exists kind. split; [done|]. destruct kind; by_decision.
Qed.

Definition known_exhausted (w : windowState) : bool := ws_Known w && ws_Exhausted w.

(** The badge, in terms of the account's windows. *)
Lemma badge_spec a :
  da_Health (opencode_dashboard (wire_opencode (status_account a)))
  = if as_Disabled a then "disabled"
    else if existsb (λ kind, known_exhausted (window a kind)) window_kinds then "exhausted"
    else "healthy".
Proof.
  unfold opencode_dashboard. cbv zeta. cbn [da_Health oa_Disabled wire_opencode status_account sa_Disabled].
  destruct (as_Disabled a); [done|].
  assert (∀ kind, match oa_Windows (wire_opencode (status_account a)) !! window_text kind with
    | Some w => ow_Known w && ow_Exhausted w | None => false end = known_exhausted (window a kind)) as Hw.
  { intros kind. rewrite wire_lookup. unfold status_window, known_exhausted.
    destruct (ws_Known (window a kind)) eqn:Hk; done. }
  cbn [dashboard_kinds existsb window_kinds].
  by rewrite <- (Hw windowFiveHour), <- (Hw windowWeekly), <- (Hw windowMonthly).
Qed.

(** A refreshed window blocks its account when it is exhausted or its utilization
    has reached the limit. *)
Lemma refreshed_blocks a now k limit :
  let w := window (refreshWindows a now) k in
  window_blocks limit now w
  = ws_Exhausted w || match ws_Utilization w with Some u => fle limit u | None => false end.
Proof.
  cbv zeta. unfold window_blocks. rewrite (proj2 (proj2 (proj2 (refreshWindows_spec a now)))).
  destruct (cooled now (window a k)) eqn:Hc; [done|]. f_equal. revert Hc. unfold cooled.
  destruct (ws_Exhausted (window a k)); [|done].
  destruct (time_IsZero _), (time_After _ now); cbn; done.
Qed.

Lemma status_accounts m now s name a :
  md_state m = Some s → st_Accounts s !! name = Some a →
  status_account (refreshWindows a now) ∈ sb_Accounts (status_body m now).1.
Proof.
  intros Hs Ha. unfold status_body. rewrite Hs. cbv zeta. cbn [fst sb_Accounts].
  apply list_elem_of_fmap. eexists. split; [done|]. apply list_elem_of_omap. exists name.
  split; [|by rewrite lookup_fmap, Ha]. rewrite sort_by_perm. apply list_elem_of_fmap.
  exists (name, refreshWindows a now). split; [done|]. apply elem_of_map_to_list.
  by rewrite lookup_fmap, Ha.
Qed.

(** The badge the page shows for an OpenCode Go account agrees with the choice
    made at the same time: the status has a card for every account; one that is not
    healthy belongs to an account no request is given to, and a healthy one belongs
    to an account that is eligible unless a window's utilization has reached the
    threshold, which the page shows in its percentage only. *)
Theorem page_badge_agrees `{GoStd} m now s name a :
  rtc OpenCodeGo.module_step NewModule m → md_state m = Some s → st_Accounts s !! name = Some a →
  let refreshed := refreshWindows a now in
  let healthy := accountHealthy refreshed (st_Threshold s) now in
  ∃ accounts card,
    hosted_opencode (inr (status_body m now).1) = Ok accounts
    ∧ card ∈ opencode_dashboard <$> accounts ∧ da_Name card = name
    ∧ (healthy = true ↔ da_Health card = "healthy"
         ∧ ∀ k u, ws_Utilization (window refreshed k) = Some u →
             fle (fdiv (float_of_Z (st_Threshold s)) (float_of_Z 100)) u = false).
Proof.
  intros Hsteps Hs Ha. apply reachable_ok in Hsteps as [Hok Hwf]. specialize (Hok s Hs).
  assert (∀ k, ws_Exhausted (window a k) = true → ws_Known (window a k) = true) as Hknown.
  { intros k. destruct (Hwf s Hs name a k Ha) as [?| ->]; done. }
  cbv zeta. set (b := refreshWindows a now).
  destruct (so_account s Hok name a Ha) as (Hname & _ & _ & Hfull).
  destruct (refreshWindows_spec a now) as (Hframe & _ & _ & Hw). fold b in Hframe, Hw.
  exists (wire_opencode <$> sb_Accounts (status_body m now).1),
    (opencode_dashboard (wire_opencode (status_account b))).
  split; [done|]. split; [by do 2 apply list_elem_of_fmap_2; eapply status_accounts|].
  split; [cbn; rewrite <- Hname; apply Hframe|]. rewrite badge_spec.
  rewrite accountHealthy_iff by (intros k; apply Hframe, Hfull).
  assert (∀ k, known_exhausted (window b k) = ws_Exhausted (window b k)) as Hke.
  { intros k. unfold known_exhausted. rewrite Hw. destruct (cooled _ _); [done|].
    specialize (Hknown k). destruct (ws_Exhausted (window a k)); [|apply andb_false_r].
    by rewrite Hknown. }
  set (limit := fdiv _ _). transitivity ((as_Disabled b = false
    ∧ ∀ k, ws_Exhausted (window b k) = false)
    ∧ ∀ k u, ws_Utilization (window b k) = Some u → fle limit u = false).
  - pose proof (refreshed_blocks a now) as Hb. cbv zeta in Hb. fold b in Hb.
    setoid_rewrite Hb.
    setoid_rewrite orb_false_iff. split.
    + intros [Hd Hall]. split; [split; [done|]; intros k; apply Hall|]. intros k u Hu. specialize (Hall k).
      rewrite Hu in Hall. apply Hall.
    + intros [[Hd He] Hu]. split; [done|]. intros k. split; [apply He|]. specialize (Hu k).
      destruct (ws_Utilization (window b k)); [by apply Hu|done].
  - apply and_iff_compat_r. destruct (as_Disabled b).
    { split; [by intros [? _]|discriminate]. }
    cbn [existsb window_kinds]. rewrite !Hke. split.
    + intros [_ He]. by rewrite !He.
    + intros Hb. split; [done|]. intros k.
      destruct (ws_Exhausted (window b windowFiveHour)) eqn:H1, (ws_Exhausted (window b windowWeekly)) eqn:H2,
        (ws_Exhausted (window b windowMonthly)) eqn:H3; try done. by destruct k.
Qed.

Lemma page_badge_agrees_witness :
  ∃ accounts card,
    hosted_opencode (inr (status_body demo_module 1000).1) = Ok accounts
    ∧ card ∈ opencode_dashboard <$> accounts ∧ da_Name card = "go-a" ∧ da_Health card = "healthy".
Proof.
  set (a := default (new_account {| ga_Name := ""; ga_AuthIDs := []; ga_DashboardAPIKey := "";
    ga_Disabled := false |}) (st_Accounts demo_state !! "go-a")).
  destruct (page_badge_agrees (H := DemoStd.demo_std) demo_module 1000 demo_state "go-a" a)
    as (accounts & card & Hd & Hin & Hname & Hh).
  - apply rtc_once. apply (OpenCodeGo.step_reconfigure (H := DemoStd.demo_std) NewModule (λ _, Ok demo_config)).
  - exact demo_module_state.
  - vm_compute. reflexivity.
  - exists accounts, card. do 3 (split; [done|]). apply Hh. vm_compute. reflexivity.
Defined.
