(* ===== verification/Dispatch.v ===== *)
(** * What the coordinator promises (coordinator/coordinator.go)

    The steps of a coordinator whose modules satisfy the laws of the contract,
    and the invariants of dispatch: which module a pick, a usage record and a
    management request reach, how exact the registry is, what a failed
    reconfiguration leaves and what shutdown does. *)

From S2P Require Import Prelude GoStrings GoFloat Host Config Accounts Quota Settings Runtime RuntimeSteps Management OpenCodeUsage OpenCodeGo ProviderModule ZaiModule OpenCodeModule Coordinator Plugin.

Section Dispatch.
Context `{GoStd} {N M E J R : Type} `{L : ProviderModuleLaws M E J R}.

(** ** Steps *)

(** What happens between two reconfigurations. *)
Inductive serving : Coordinator M → Coordinator M → Prop :=
| serving_pick c req call : serving c (pick c req call).2
| serving_usage c record call : serving c (handleUsage c record call).2
| serving_status version c now call : serving c (managementStatus version c now call).2
| serving_management version c req now later call :
    serving c (handleManagement version c req now later call).2
| serving_background c p m e : (p, m) ∈ co_modules c →
    serving c (set_module p (pm_Background m e) c)
| serving_error c e : serving c (recordError c e).

Inductive coordinator_step : Coordinator M → Coordinator M → Prop :=
| step_serving c c' : serving c c' → coordinator_step c c'
| step_reconfigure c raw (call : reconfigure_call N E) :
    coordinator_step c (reconfigure c raw call).2
| step_shutdown c call : coordinator_step c (shutdown c call).2.

Record coordinator_ok (c : Coordinator M) : Prop := {
  ok_ids : NoDup (co_modules c).*1;
  ok_modules p m : (p, m) ∈ co_modules c → pm_ok m ∧ pm_ID m = p ∧ p ≠ "";
}.

(** ** The modules over the steps *)

Lemma rtc_ok m m' : pm_ok m → rtc module_step m m' → pm_ok m' ∧ pm_ID m' = pm_ID m.
Proof.
  intros Hok Hs. induction Hs as [m|m m1 m2 Hs _ IH]; [done|].
  destruct IH as [? ->]; [by eapply pm_ok_step|]. split; [done|by apply pm_ID_step].
Qed.

Lemma rtc_serving_ok m m' :
  pm_ok m → rtc serving_step m m' →
  pm_ok m' ∧ pm_OwnedAuthIDs m' = pm_OwnedAuthIDs m
  ∧ ∀ c, pm_Recognize m' c = pm_Recognize m c.
Proof.
  intros Hok Hs. induction Hs as [m|m m1 m2 Hs _ IH]; [done|].
  destruct IH as (? & Ho & Hr); [by eapply pm_ok_step, ProviderModule.step_serving|].
  split; [done|]. rewrite Ho. split; [by apply pm_OwnedAuthIDs_serving|].
  intros c. rewrite Hr. by apply pm_Recognize_serving.
Qed.

Lemma serving_steps (m m' : M) : rtc serving_step m m' → rtc module_step m m'.
Proof.
  induction 1 as [|m m1 m2 Hs _ IH]; [done|]. eapply rtc_l; [|exact IH].
  by apply ProviderModule.step_serving.
Qed.

Lemma entrywise_ok c c' :
  coordinator_ok c → entrywise (rtc module_step) (co_modules c) (co_modules c') → coordinator_ok c'.
Proof.
  intros [Hnd Hall] He. split; [by rewrite (entrywise_ids _ _ _ He)|].
  intros p m' Hin. destruct (entrywise_lookup _ _ _ _ _ He Hin) as (m & Hm & Hs).
  destruct (Hall p m Hm) as (Hok & Hid & Hne). destruct (rtc_ok m m' Hok Hs) as [? ?].
  split; [done|]. split; [congruence|done].
Qed.

Lemma recognizing_elem (modules : list (string * M)) req p m :
  (p, m) ∈ recognizing modules req ↔ (p, m) ∈ modules ∧ recognizes m req = true.
Proof. unfold recognizing. rewrite list_elem_of_filter. tauto. Qed.

(** What the steps between two reconfigurations leave of a coordinator. *)
Definition served (c c' : Coordinator M) : Prop :=
  entrywise (rtc serving_step) (co_modules c) (co_modules c')
  ∧ co_registry c' = co_registry c ∧ co_stopped c' = co_stopped c.

Lemma entrywise_same (Rm : M → M → Prop) (modules : list (string * M)) :
  entrywise (rtc Rm) modules modules.
Proof. apply entrywise_refl. apply _. Qed.

Lemma served_same c : served c c.
Proof. split; [apply entrywise_same|done]. Qed.

Lemma served_set_module c p m m' :
  NoDup (co_modules c).*1 → (p, m) ∈ co_modules c → serving_step m m' →
  served c (set_module p m' c).
Proof.
  intros Hnd Hin Hs. split; [|done].
  apply (set_module_entrywise _ c p m); [done|done|by apply rtc_once].
Qed.

Lemma module_statuses_serving call (modules : list (string * M)) :
  entrywise (rtc serving_step) modules (module_statuses call modules).2.
Proof.
  induction modules as [|[p m] rest IH]; [constructor|]. cbn [module_statuses].
  pose proof (serve_status m (call p)) as Hs. destruct (pm_Status m (call p)) as [raw m'].
  destruct (module_statuses call rest) as [statuses rest']. constructor; [|exact IH].
  split; [done|]. by apply rtc_once.
Qed.

Lemma dispatch_serving call req modules r p (m' : M) :
  dispatch call req modules = Some (r, (p, m')) → ∃ m, (p, m) ∈ modules ∧ serving_step m m'.
Proof.
  induction modules as [|[q m] rest IH]; [done|]. cbn [dispatch].
  destruct (pm_Capable m) as [cap|] eqn:Hcap; cbn [mbind option_bind].
  2: { intros (m0 & ? & ?)%IH. exists m0. split; [by right|done]. }
  destruct (delegated _ req) as [req'|]; cbn [fmap option_fmap option_map].
  2: { intros (m0 & ? & ?)%IH. exists m0. split; [by right|done]. }
  pose proof (serve_management m cap req' (call q) Hcap) as Hs.
  destruct (cap_HandleManagement cap req' (call q)) as [r' m1]. intros [= -> -> ->].
  exists m. split; [left|done].
Qed.

Lemma managementStatus_served version c now call : served c (managementStatus version c now call).2.
Proof.
  unfold managementStatus. pose proof (module_statuses_serving call (co_modules c)) as Hs.
  by destruct (module_statuses call (co_modules c)).
Qed.

Lemma serving_served c c' : NoDup (co_modules c).*1 → serving c c' → served c c'.
Proof.
  intros Hnd Hs. revert Hnd.
  destruct Hs as [c req call|c record call|version c now call|version c req now later call|c p m e Hin|c e];
    intros Hnd.
  - unfold pick. destruct (co_stopped c); [apply served_same|].
    destruct (recognizing (co_modules c) req) as [|[p m] [|e' rest]] eqn:Hrec;
      [apply served_same| |apply served_same].
    pose proof (serve_pick m req (call p)) as Hs. destruct (pm_Pick m req (call p)) as [resp m'].
    apply (served_set_module c p m); [done| |exact Hs].
    apply (recognizing_elem _ req). rewrite Hrec. left.
  - unfold handleUsage. cbv zeta. case_bool_decide; [apply served_same|].
    destruct (find_module c _) as [[p m]|] eqn:Hf; [|apply served_same].
    apply find_module_Some in Hf as [_ Hin]; [|done].
    pose proof (serve_usage m record (call p)) as Hs. destruct (pm_HandleUsage m record (call p)).
    by apply (served_set_module c p m).
  - apply managementStatus_served.
  - pose proof (managementStatus_served version c now call) as Hs.
    unfold handleManagement. cbv zeta. destruct (_ && _).
    { by destruct (managementStatus version c now call). }
    destruct (_ && _).
    { by destruct (managementStatus version c now call). }
    clear Hs. destruct (dispatch call req (co_modules c)) as [[r [p m']]|] eqn:Hd; [|apply served_same].
    apply dispatch_serving in Hd as (m & Hin & Hs). by apply (served_set_module c p m).
  - apply (served_set_module c p m); [done|done|apply serve_background].
  - unfold recordError. destruct (co_stopped c) eqn:Hst; [apply served_same|].
    split; [apply entrywise_same|done].
Qed.

Lemma rtc_serving_served c c' : NoDup (co_modules c).*1 → rtc serving c c' → served c c'.
Proof.
  intros Hnd Hs. induction Hs as [c|c c1 c2 Hs _ IH]; [apply served_same|].
  destruct (serving_served c c1 Hnd Hs) as (He & Hr & Hst).
  destruct IH as (He' & Hr' & Hst'); [by rewrite (entrywise_ids _ _ _ He)|].
  split; [by etrans|]. split; congruence.
Qed.

Lemma reconfigure_module_steps (call : reconfigure_call N E) cfg host (entry : string * M) :
  (reconfigure_module call cfg host entry).2.1 = entry.1
  ∧ rtc module_step entry.2 (reconfigure_module call cfg host entry).2.2.
Proof.
  destruct entry as [p m]. unfold reconfigure_module. destruct (providerConfigRaw call cfg p); [|done].
  pose proof (ProviderModule.step_reconfigure m host a (rc_module call p)) as Hs.
  destruct (pm_Reconfigure m host a (rc_module call p)) as [[] m']; (split; [done|by apply rtc_once]).
Qed.

Lemma reconfigure_modules_steps (call : reconfigure_call N E) cfg host (modules : list (string * M)) :
  entrywise (rtc module_step) modules (reconfigure_modules call cfg host modules).2.
Proof.
  induction modules as [|entry rest IH]; [constructor|]. cbn [reconfigure_modules].
  pose proof (reconfigure_module_steps call cfg host entry) as Hs.
  destruct (reconfigure_module call cfg host entry) as [[] entry'].
  - destruct (reconfigure_modules call cfg host rest). by constructor.
  - constructor; [done|]. apply entrywise_same.
Qed.

Lemma close_modules_all call (modules : list (string * M)) :
  (close_modules call modules).2 = (λ im, (im.1, (pm_Close im.2 (call im.1)).2)) <$> modules
  ∧ (close_modules call modules).1
    = head (omap (λ im, match (pm_Close im.2 (call im.1)).1 with Err e => Some e | Ok _ => None end)
              modules).
Proof.
  induction modules as [|[p m] rest [IH1 IH2]]; [done|]. cbn [close_modules fmap list_fmap omap list_omap].
  cbn [fst snd]. destruct (pm_Close m (call p)) as [result m']. cbn [fst snd].
  destruct (close_modules call rest) as [err rest']. cbn [fst snd] in *.
  rewrite IH1. split; [done|]. destruct result; [exact IH2|done].
Qed.

(** ** Recorded errors and stopping *)

Lemma recordError_fields (c : Coordinator M) e :
  co_modules (recordError c e) = co_modules c ∧ co_registry (recordError c e) = co_registry c
  ∧ co_stopped (recordError c e) = co_stopped c
  ∧ (co_stopped c = false → co_lastErr (recordError c e) = Some e)
  ∧ (co_stopped c = true → recordError c e = c).
Proof. unfold recordError. destruct (co_stopped c) eqn:Hst; cbn; rewrite ?Hst; by split_and!. Qed.

(** The cases of a reconfiguration. *)
Inductive reconfigured (c : Coordinator M) (call : reconfigure_call N E)
    : res unit * Coordinator M → Prop :=
| refused_early e : reconfigured c call (Err e, recordError c e)
| refused_stopped : co_stopped c = true →
    reconfigured c call (errorf "plugin is shutting down", c)
| failed_midway e modules : co_stopped c = false →
    entrywise (rtc module_step) (co_modules c) modules →
    reconfigured c call (Err e, recordError (set_modules modules c) e)
| succeeded modules byAuth : co_stopped c = false →
    entrywise (rtc module_step) (co_modules c) modules →
    buildRegistry (owned_ids modules) = Ok byAuth →
    reconfigured c call (Ok (), {| co_modules := modules; co_lastErr := None;
                                   co_stopped := false; co_registry := byAuth |}).

Lemma reconfigure_cases c raw (call : reconfigure_call N E) : reconfigured c call (reconfigure c raw call).
Proof.
  unfold reconfigure. destruct (prepare call raw) as [[cfg host]|e]; [|apply refused_early].
  destruct (co_stopped c) eqn:Hst; [by apply refused_stopped|].
  pose proof (reconfigure_modules_steps call cfg host (co_modules c)) as Hs.
  destruct (reconfigure_modules call cfg host (co_modules c)) as [[[]|e] modules]; cbn [snd] in Hs;
    [|by apply failed_midway].
  destruct (buildRegistry (owned_ids modules)) as [byAuth|e] eqn:Hb; [|by apply failed_midway].
  cbn [co_stopped set_modules]. rewrite Hst. by eapply succeeded.
Qed.

Lemma reconfigure_entrywise c raw (call : reconfigure_call N E) :
  entrywise (rtc module_step) (co_modules c) (co_modules (reconfigure c raw call).2)
  ∧ co_stopped (reconfigure c raw call).2 = co_stopped c.
Proof.
  destruct (reconfigure_cases c raw call) as [e|Hst|e modules Hst He|modules byAuth Hst He Hb];
    cbn [snd].
  - destruct (recordError_fields c e) as (-> & _ & -> & _). done.
  - done.
  - destruct (recordError_fields (set_modules modules c) e) as (-> & _ & -> & _). done.
  - done.
Qed.

Lemma shutdown_entrywise c call :
  entrywise (rtc module_step) (co_modules c) (co_modules (shutdown c call).2)
  ∧ co_stopped (shutdown c call).2 = true.
Proof.
  unfold shutdown. destruct (co_stopped c) eqn:Hst; [done|].
  destruct (close_modules_all call (co_modules c)) as [Hc _].
  destruct (close_modules call (co_modules c)) as [err modules]. cbn in *. split; [|done].
  rewrite Hc. apply Forall2_fmap_r, Forall_Forall2_diag, Forall_forall. intros [p m] _. cbn.
  split; [done|]. apply rtc_once, ProviderModule.step_close.
Qed.

Lemma coordinator_step_ok c c' :
  coordinator_ok c → coordinator_step c c' →
  coordinator_ok c' ∧ (co_stopped c = true → co_stopped c' = true).
Proof.
  intros Hok Hs. revert Hok. destruct Hs as [c c' Hs|c raw call|c call]; intros Hok.
  - destruct (serving_served c c' (ok_ids _ Hok) Hs) as (He & _ & ->). split; [|done].
    eapply entrywise_ok; [done|]. eapply entrywise_impl; [|exact He]. apply serving_steps.
  - destruct (reconfigure_entrywise c raw call) as [He ->]. split; [|done].
    by eapply entrywise_ok.
  - destruct (shutdown_entrywise c call) as [He ->]. split; [|done]. by eapply entrywise_ok.
Qed.

(** ** The registry *)

(** The registry holds every owned auth ID under the module that owns it. *)
Definition registry_exact (c : Coordinator M) : Prop :=
  ∀ id p, co_registry c !! id = Some p ↔ id ≠ "" ∧ owns c p id.

(** A registry built of what the modules own is exact. *)
Lemma built_exact c :
  coordinator_ok c → buildRegistry (owned_ids (co_modules c)) = Ok (co_registry c) → registry_exact c.
Proof.
  intros Hok Hb id p. rewrite (buildRegistry_lookup _ _ Hb). unfold owns.
  pose proof (ok_ids _ Hok) as Hnd. split.
  - intros (Hid & ids & Hp & Hin). split; [done|].
    apply owned_ids_lookup in Hp as (m & Hm & ->); [|done]. by exists m.
  - intros (Hid & m & Hm & Hin). split; [done|]. exists (pm_OwnedAuthIDs m). split; [|done].
    apply owned_ids_lookup; [done|]. by exists m.
Qed.

Lemma reconfigure_exact c raw (call : reconfigure_call N E) c1 :
  coordinator_ok c → reconfigure c raw call = (Ok (), c1) →
  coordinator_ok c1 ∧ registry_exact c1 ∧ co_stopped c1 = false.
Proof.
  intros Hok Hrec. pose proof (reconfigure_cases c raw call) as Hc. rewrite Hrec in Hc.
  inversion Hc as [| | |modules byAuth Hst He Hb]; subst.
  assert (coordinator_ok {| co_modules := modules; co_lastErr := None; co_stopped := false;
    co_registry := byAuth |}) as Hok1 by (by eapply entrywise_ok).
  split; [done|]. split; [|done]. by apply built_exact.
Qed.

Lemma served_owns c c' p id :
  coordinator_ok c → served c c' → owns c' p id ↔ owns c p id.
Proof.
  intros Hok (He & _). split.
  - intros (m' & Hin & Hid). destruct (entrywise_lookup _ _ _ _ _ He Hin) as (m & Hm & Hs).
    exists m. split; [done|]. destruct (ok_modules _ Hok p m Hm) as (Hmok & _).
    destruct (rtc_serving_ok m m' Hmok Hs) as (_ & Ho & _). by rewrite <- Ho.
  - intros (m & Hm & Hid). destruct (entrywise_lookup_l _ _ _ _ _ He Hm) as (m' & Hin & Hs).
    exists m'. split; [done|]. destruct (ok_modules _ Hok p m Hm) as (Hmok & _).
    destruct (rtc_serving_ok m m' Hmok Hs) as (_ & Ho & _). by rewrite Ho.
Qed.

Lemma served_ok c c' : coordinator_ok c → served c c' → coordinator_ok c'.
Proof.
  intros Hok (He & _). eapply entrywise_ok; [done|].
  eapply entrywise_impl; [|exact He]. apply serving_steps.
Qed.

Lemma served_exact c c' :
  coordinator_ok c → served c c' → registry_exact c → registry_exact c'.
Proof.
  intros Hok Hs Hex id p. pose proof (served_owns c c' p id Hok Hs). destruct Hs as (_ & -> & _).
  rewrite (Hex id p). tauto.
Qed.

(** After a successful reconfiguration and whatever is served from then on. *)
Lemma serving_exact c raw (call : reconfigure_call N E) c1 c2 :
  coordinator_ok c → reconfigure c raw call = (Ok (), c1) → rtc serving c1 c2 →
  coordinator_ok c2 ∧ registry_exact c2 ∧ co_stopped c2 = false.
Proof.
  intros Hok Hrec Hs. destruct (reconfigure_exact c raw call c1 Hok Hrec) as (Hok1 & Hex & Hst).
  pose proof (rtc_serving_served c1 c2 (ok_ids _ Hok1) Hs) as Hserved.
  split; [by eapply served_ok|]. split; [by eapply served_exact|]. destruct Hserved as (_ & _ & ->). done.
Qed.

(** ** Dispatch of usage records *)

Lemma owner_unique c p q id :
  registry_exact c → id ≠ "" → owns c p id → owns c q id → p = q.
Proof.
  intros Hex Hid Hp Hq. pose proof (proj2 (Hex id p) (conj Hid Hp)).
  pose proof (proj2 (Hex id q) (conj Hid Hq)). congruence.
Qed.

(** Giving a record to every module. *)
Definition broadcast (c : Coordinator M) (record : UsageRecord) (call : string → E) : Coordinator M :=
  set_modules ((λ im, (im.1, (pm_HandleUsage im.2 record (call im.1)).2)) <$> co_modules c) c.

Lemma usage_broadcast c record call :
  coordinator_ok c → registry_exact c → TrimSpace (ur_AuthID record) ≠ "" →
  (handleUsage c record call).2 = broadcast c record call.
Proof.
  intros Hok Hex Hid. set (id := TrimSpace (ur_AuthID record)) in *.
  assert (∀ p m, (p, m) ∈ co_modules c → co_registry c !! id ≠ Some p →
    (pm_HandleUsage m record (call p)).2 = m) as Hno.
  { intros p m Hin Hp. destruct (ok_modules _ Hok p m Hin) as (Hmok & _).
    apply pm_HandleUsage_unowned; [done|]. intros Howned. apply Hp, Hex. split; [done|]. by exists m. }
  unfold handleUsage, providerFor, broadcast. fold id. cbv zeta.
  destruct (co_registry c !! id) as [p|] eqn:Hp; cbn [default from_option].
  - apply Hex in Hp as Hown. destruct Hown as (_ & m & Hin & _).
    destruct (ok_modules _ Hok p m Hin) as (_ & _ & Hne).
    change (Datatypes.id p) with p. rewrite bool_decide_eq_false_2 by done.
    rewrite (proj2 (find_module_Some c p (p, m) (ok_ids _ Hok))) by done.
    pose proof (keyed_unique (co_modules c) p) as Huniq.
    destruct (pm_HandleUsage m record (call p)) as [result m'] eqn:Hu. cbn [snd].
    unfold set_module. f_equal. apply list_fmap_ext. intros i [q x] Hx%list_elem_of_lookup_2. cbn.
    case_bool_decide as Hq.
    + subst q. rewrite (Huniq x m (ok_ids _ Hok) Hx Hin), Hu. done.
    + f_equal. symmetry. apply Hno; [done|]. congruence.
  - rewrite bool_decide_eq_true_2 by done. cbn [snd]. unfold set_modules.
    replace ((λ im, (im.1, (pm_HandleUsage im.2 record (call im.1)).2)) <$> co_modules c)
      with (co_modules c); [by destruct c|].
    rewrite <- (list_fmap_id (co_modules c)) at 1. apply list_fmap_ext.
    intros i [q x] Hx%list_elem_of_lookup_2. cbn. f_equal. symmetry. by apply Hno.
Qed.

(** ** Dispatch of picks *)

(** What the coordinator answers a pick with. *)
Inductive pick_outcome (c : Coordinator M) (req : SchedulerPickRequest) (call : string → E)
    : res SchedulerPickResponse * Coordinator M → Prop :=
| pick_declined : (∀ p m, (p, m) ∈ co_modules c → recognizes m req = false) →
    pick_outcome c req call (Ok not_handled, c)
| pick_dispatched p m : (p, m) ∈ co_modules c → recognizes m req = true →
    (∀ q n, (q, n) ∈ co_modules c → recognizes n req = true → q = p ∧ n = m) →
    pick_outcome c req call
      ((pm_Pick m req (call p)).1, set_module p (pm_Pick m req (call p)).2 c)
| pick_mixed p m q n : (p, m) ∈ co_modules c → recognizes m req = true →
    (q, n) ∈ co_modules c → recognizes n req = true → p ≠ q →
    pick_outcome c req call (Err (mixed_pick (recognizing (co_modules c) req).*1), c).

Lemma pick_cases c req call :
  NoDup (co_modules c).*1 → co_stopped c = false → pick_outcome c req call (pick c req call).
Proof.
  intros Hnd Hst. unfold pick. rewrite Hst.
  assert (NoDup (recognizing (co_modules c) req).*1) as Hnd'.
  { eapply sublist_NoDup; [exact Hnd|]. apply fmap_sublist, sublist_filter. }
  pose proof (recognizing_elem (co_modules c) req) as Helem. revert Helem Hnd'.
  destruct (recognizing (co_modules c) req) as [|[p m] [|[q n] rest]] eqn:Hrec; intros Helem Hnd'.
  - apply pick_declined. intros p m Hin. apply not_true_iff_false. intros Hr.
    assert ((p, m) ∈ @nil (string * M)) as Hnil by (by apply Helem). by apply elem_of_nil in Hnil.
  - destruct (proj1 (Helem p m)) as [Hin Hr]; [by left|].
    destruct (pm_Pick m req (call p)) as [resp m'] eqn:Hp.
    pose proof (pick_dispatched c req call p m Hin Hr) as Hd. rewrite Hp in Hd. apply Hd.
    intros q n Hq Hn. assert ((q, n) ∈ [(p, m)]) as Hone by (by apply Helem).
    apply list_elem_of_singleton in Hone. by injection Hone.
  - destruct (proj1 (Helem p m)) as [Hin Hr]; [by left|].
    destruct (proj1 (Helem q n)) as [Hin' Hr']; [by right; left|].
    rewrite <- Hrec. apply (pick_mixed c req call p m q n); try done.
    intros ->. cbn in Hnd'. apply NoDup_cons in Hnd' as [Hno _]. apply Hno. left.
Qed.

Lemma recognizes_elem (m : M) req :
  recognizes m req = true ↔ ∃ c, c ∈ sp_Candidates req ∧ pm_Recognize m c = true.
Proof. apply existsb_elem. Qed.

End Dispatch.

(** ** Properties *)

Section Promises.
Context `{GoStd} {N M E J R : Type} `{L : ProviderModuleLaws M E J R}.

(** C5: the coordinator's choice follows the modules' recognition exactly: a
    request no module recognises a candidate of is declined and touches nothing;
    one of which a single module recognises a candidate is answered by that module's
    own choice, verbatim, and only that module changes, whether or not it recognises
    the other candidates; one that two modules recognise is an error before any module
    is asked. A request with a recognised candidate is therefore never answered as
    unhandled; that a module's own choice may be to delegate to the host's round-robin
    is not excluded. *)
Theorem coordinator_pick_dispatch c req (call : string → E) :
  coordinator_ok c → co_stopped c = false →
  pick_outcome c req call (pick c req call)
  ∧ ((∃ p m, (p, m) ∈ co_modules c ∧ recognizes m req = true) →
     ∀ resp, (pick c req call).1 = Ok resp → pr_Handled resp = true).
Proof.
  intros Hok Hst. pose proof (pick_cases c req call (ok_ids _ Hok) Hst) as Hp. split; [done|].
  intros (p & m & Hin & Hr) resp. destruct Hp as [Hno|q n Hq Hrec Hu|]; cbn [fst]; [|intros Hresp|done].
  { by rewrite (Hno p m Hin) in Hr. }
  apply recognizes_elem in Hrec as (cand & Hc & Hrec).
  destruct (ok_modules _ Hok q n Hq) as (Hn & _). by eapply pm_Pick_handled.
Qed.

(** C6: after a successful reconfiguration the registry is exact, and stays so
    whatever picks, usage records, status and management requests and background
    work follow: an auth ID leads to a module exactly when that module owns it,
    and no auth ID is owned by two modules. *)
Theorem registry_stays_exact c raw (call : reconfigure_call N E) c1 c2 :
  coordinator_ok c → reconfigure c raw call = (Ok (), c1) → rtc serving c1 c2 →
  (∀ id p, co_registry c2 !! id = Some p ↔ id ≠ "" ∧ owns c2 p id)
  ∧ ∀ id p q, id ≠ "" → owns c2 p id → owns c2 q id → p = q.
Proof.
  intros Hok Hrec Hs. destruct (serving_exact c raw call c1 c2 Hok Hrec Hs) as (Hok2 & Hex & _).
  split; [exact Hex|]. intros id p q. by apply owner_unique.
Qed.

(** C17: after a successful reconfiguration, and as long as nothing but picks, usage
    records, status and management requests, recorded errors and the modules' own work
    has followed it, dispatching a usage record that names an auth ID through the
    registry has the effect of handing it to every module: the modules that do not own
    the auth ID would ignore it, so then the lookup loses no record and charges no other
    module. (After a reconfiguration that failed or overlapped another it may.) *)
Theorem usage_dispatch_broadcast c raw (call : reconfigure_call N E) c1 c2 record calls :
  coordinator_ok c → reconfigure c raw call = (Ok (), c1) → rtc serving c1 c2 →
  TrimSpace (ur_AuthID record) ≠ "" →
  (handleUsage c2 record calls).2 = broadcast c2 record calls.
Proof.
  intros Hok Hrec Hs Hid. destruct (serving_exact c raw call c1 c2 Hok Hrec Hs) as (Hok2 & Hex & _).
  by apply usage_broadcast.
Qed.

(** The credentials of one module reach that module: after a successful
    reconfiguration, a request whose candidates are auth IDs of one module, with
    nothing else known of them, is answered by that module's own choice. *)
Theorem owned_candidates_dispatched c raw (call : reconfigure_call N E) c1 c2 p m req calls :
  coordinator_ok c → reconfigure c raw call = (Ok (), c1) → rtc serving c1 c2 →
  (p, m) ∈ co_modules c2 → sp_Candidates req ≠ [] →
  Forall (λ cand, cand = bare_candidate (sc_ID cand) ∧ TrimSpace (sc_ID cand) ≠ ""
                  ∧ TrimSpace (sc_ID cand) ∈ pm_OwnedAuthIDs m) (sp_Candidates req) →
  pick c2 req calls = ((pm_Pick m req (calls p)).1, set_module p (pm_Pick m req (calls p)).2 c2).
Proof.
  intros Hok Hrec Hs Hin Hne Hall.
  destruct (serving_exact c raw call c1 c2 Hok Hrec Hs) as (Hok2 & Hex & Hst).
  assert (∀ q n cand, (q, n) ∈ co_modules c2 → cand ∈ sp_Candidates req →
    pm_Recognize n cand = true ↔ TrimSpace (sc_ID cand) ∈ pm_OwnedAuthIDs n) as Hbare.
  { intros q n cand Hq Hc. rewrite Forall_forall in Hall. destruct (Hall cand Hc) as (-> & _).
    apply pm_Recognize_bare. by destruct (ok_modules _ Hok2 q n Hq). }
  assert (recognizes m req = true) as Hm.
  { destruct (sp_Candidates req) as [|cand rest] eqn:Hcs; [done|]. apply recognizes_elem.
    exists cand. rewrite Hcs. assert (cand ∈ cand :: rest) as Hc by left. split; [done|].
    apply (Hbare p); [done|done|]. apply Forall_cons in Hall as [(_ & _ & ?) _]. done. }
  assert (∀ q n, (q, n) ∈ co_modules c2 → recognizes n req = true → q = p) as Hone.
  { intros q n Hq (cand & Hc & Hr)%recognizes_elem. apply (Hbare q) in Hr; [|done|done].
    rewrite Forall_forall in Hall. destruct (Hall cand Hc) as (_ & Hid & Ho).
    apply (owner_unique c2 q p (TrimSpace (sc_ID cand))); [done|done|by exists n|by exists m]. }
  destruct (pick_cases c2 req calls (ok_ids _ Hok2) Hst) as [Hno|q n Hq Hr Hu|q n q' n' Hq Hr Hq' Hr' Hd].
  - by rewrite (Hno p m Hin) in Hm.
  - by destruct (Hu p m Hin Hm) as [-> ->].
  - destruct Hd. by rewrite (Hone q n Hq Hr), (Hone q' n' Hq' Hr').
Qed.

(** The loop up to the first module that fails. *)
Lemma reconfigure_modules_fails (call : reconfigure_call N E) cfg host (before : list (string * M)) entry after e entry' :
  Forall (λ im, (reconfigure_module call cfg host im).1 = Ok ()) before →
  reconfigure_module call cfg host entry = (Err e, entry') →
  reconfigure_modules call cfg host (before ++ entry :: after)
  = (Err e, ((λ im, (reconfigure_module call cfg host im).2) <$> before) ++ entry' :: after).
Proof.
  intros Hall Hfail. induction Hall as [|im before Hok _ IH]; cbn [app reconfigure_modules fmap list_fmap].
  { by rewrite Hfail. }
  destruct (reconfigure_module call cfg host im) as [res im']. cbn in Hok. subst res.
  by rewrite IH.
Qed.

(** A request of which one module recognises a candidate is that module's. *)
Lemma pick_single c q n req calls :
  coordinator_ok c → co_stopped c = false → (q, n) ∈ co_modules c → recognizes n req = true →
  (∀ p m, (p, m) ∈ co_modules c → recognizes m req = true → p = q) →
  pick c req calls = ((pm_Pick n req (calls q)).1, set_module q (pm_Pick n req (calls q)).2 c).
Proof.
  intros Hok Hst Hin Hr Hone.
  destruct (pick_cases c req calls (ok_ids _ Hok) Hst) as [Hno|p m Hp Hrp Hu|p m p' m' Hp Hrp Hp' Hrp' Hd].
  - by rewrite (Hno q n Hin) in Hr.
  - by destruct (Hu q n Hin Hr) as [-> ->].
  - destruct Hd. by rewrite (Hone p m Hp Hrp), (Hone p' m' Hp' Hrp').
Qed.

(** C18: a reconfiguration that fails at one module keeps what it has done. The modules
    before that one have accepted their sections and go on with them, the ones after it
    are as they were, and the registry is the old one. So an auth ID that a module before
    it owns now and the registry does not know is recognised by that module, a request
    for it is answered by that module's choice (if no other module recognises it), and
    its usage records are dropped without a trace: no error, no change. *)
Theorem failed_reconfigure_drops_usage c raw (call : reconfigure_call N E) cfg host before entry after e entry' :
  coordinator_ok c → co_stopped c = false → prepare call raw = Ok (cfg, host) →
  co_modules c = before ++ entry :: after →
  Forall (λ im, (reconfigure_module call cfg host im).1 = Ok ()) before →
  reconfigure_module call cfg host entry = (Err e, entry') →
  let '(result, c') := reconfigure c raw call in
  result = Err e ∧ co_lastErr c' = Some e ∧ co_registry c' = co_registry c
  ∧ co_modules c' = ((λ im, (reconfigure_module call cfg host im).2) <$> before) ++ entry' :: after
  ∧ ∀ q n id, (q, n) ∈ before →
      let n' := (reconfigure_module call cfg host (q, n)).2.2 in
      TrimSpace id ∈ pm_OwnedAuthIDs n' → co_registry c !! TrimSpace id = None →
      (q, n') ∈ co_modules c' ∧ pm_Recognize n' (bare_candidate id) = true
      ∧ (∀ req calls, sp_Candidates req = [bare_candidate id] →
           (∀ p m, (p, m) ∈ co_modules c' → recognizes m req = true → p = q) →
           pick c' req calls = ((pm_Pick n' req (calls q)).1, set_module q (pm_Pick n' req (calls q)).2 c'))
      ∧ ∀ record calls, ur_AuthID record = id → handleUsage c' record calls = (Ok (), c').
Proof.
  intros Hok Hst Hprep Hmods Hbefore Hfail. pose proof (reconfigure_entrywise c raw call) as [He Hst'].
  revert He Hst'. unfold reconfigure. rewrite Hprep, Hst, Hmods, (reconfigure_modules_fails _ _ _ _ _ _ _ _ Hbefore Hfail).
  set (modules := ((λ im, _) <$> before) ++ entry' :: after). intros He Hst'. cbn [snd] in He, Hst'.
  destruct (recordError_fields (set_modules modules c) e) as (Hm & Hreg & _ & Hl & _).
  set (c' := recordError (set_modules modules c) e) in *. rewrite <- Hmods in He. rewrite Hm in He |- *.
  split_and!; [done|by apply Hl|done|done|].
  intros q n id Hin. set (n' := (reconfigure_module call cfg host (q, n)).2.2). intros Hown Hno.
  assert ((q, n') ∈ modules) as Hin'.
  { apply elem_of_app. left. apply list_elem_of_fmap. exists (q, n). split; [|done].
    pose proof (proj1 (reconfigure_module_steps call cfg host (q, n))) as Hq. unfold n'.
    by destruct (reconfigure_module call cfg host (q, n)) as [? [? ?]]; cbn in *; subst. }
  assert (coordinator_ok c') as Hok' by (apply (entrywise_ok c); [done|by rewrite Hm]).
  assert (pm_Recognize n' (bare_candidate id) = true) as Hrec.
  { apply pm_Recognize_bare; [|done]. apply (ok_modules _ Hok' q n'). by rewrite Hm. }
  split_and!; [done|done| |].
  - intros req calls Hreq Hone. apply pick_single; [done|congruence|by rewrite Hm| |by rewrite Hm].
    apply recognizes_elem. exists (bare_candidate id). split; [rewrite Hreq; left|done].
  - intros record calls <-. unfold handleUsage, providerFor. rewrite Hreg. cbn [co_registry set_modules].
    by rewrite Hno.
Qed.

(** Shutdown closes every module exactly once, in order, and reports the first
    error; from then on, whatever calls follow, the coordinator stays stopped, it
    refuses picks and reconfigurations without changing anything, and further
    shutdowns close nothing again. *)
Theorem coordinator_shutdown_final c call c1 c2 :
  co_stopped c = false → (shutdown c call).2 = c1 →
  rtc (coordinator_step (N := N)) c1 c2 → coordinator_ok c →
  co_modules c1 = (λ im, (im.1, (pm_Close im.2 (call im.1)).2)) <$> co_modules c
  ∧ (shutdown c call).1
    = match head (omap (λ im, match (pm_Close im.2 (call im.1)).1 with Err e => Some e | Ok _ => None end)
                    (co_modules c)) with Some e => Err e | None => Ok () end
  ∧ (∀ calls, shutdown c2 calls = (Ok (), c2))
  ∧ (∀ req calls, pick c2 req calls = (errorf "plugin is shutting down", c2))
  ∧ ∀ raw (calls : reconfigure_call N E),
      is_Ok (reconfigure c2 raw calls).1 = false ∧ (reconfigure c2 raw calls).2 = c2.
Proof.
  intros Hst <- Hs Hok. destruct (shutdown_entrywise c call) as [He Hst1].
  pose proof (entrywise_ok c _ Hok He) as Hok1. assert (co_stopped c2 = true) as Hst2.
  { revert Hok1 Hst1. clear -Hs. induction Hs as [x|x y z Hxy _ IH]; [done|].
    intros Hx Hstx. destruct (coordinator_step_ok x y Hx Hxy) as [? ?]. auto. }
  clear Hs He Hok1 Hst1. destruct (close_modules_all call (co_modules c)) as [Hm Herr].
  unfold shutdown at 1 2. rewrite Hst. destruct (close_modules call (co_modules c)) as [err modules].
  cbn [fst snd co_modules] in *. split; [done|]. split; [by rewrite <- Herr|].
  split; [intros calls; unfold shutdown; by rewrite Hst2|].
  split; [intros req calls; unfold pick; by rewrite Hst2|].
  intros raw calls. unfold reconfigure, recordError. rewrite Hst2.
  by destruct (prepare calls raw) as [[cfg host]|].
Qed.

(** What the host may call: a route or resource it was given at registration, or
    the page with blanks or slashes around its path. *)
Definition announced (c : Coordinator M) (req : ManagementRequest) : bool :=
  existsb (route_matches req) (mn_Routes (managementRoutes c))
  || existsb (resource_matches req) (mn_Resources (managementRoutes c))
  || bool_decide (mq_Method req = "GET") && isResourceStatusPath (mq_Path req).

Lemma delegated_None (routes : ManagementRoutes) req :
  delegated routes req = None ↔
  existsb (route_matches req) (mn_Routes routes) = false
  ∧ existsb (resource_matches req) (mn_Resources routes) = false.
Proof.
  unfold delegated. destruct (existsb (route_matches req) (mn_Routes routes)); [naive_solver|].
  rewrite existsb_none. split.
  - intros Hh. split; [done|]. intros r Hr. apply not_true_iff_false. intros Hm.
    assert (r ∈ filter (λ r, resource_matches req r = true) (mn_Resources routes)) as Hf
      by (by apply list_elem_of_filter).
    destruct (filter _ (mn_Resources routes)); [by apply elem_of_nil in Hf|done].
  - intros [_ Hno]. rewrite list_filter_none; [done|]. apply Forall_forall.
    intros r Hr. by rewrite Hno.
Qed.

Lemma dispatch_None (call : string → E) req (modules : list (string * M)) :
  dispatch call req modules = None ↔
  let of_modules := omap (λ im, cap_ManagementRoutes <$> pm_Capable im.2) modules in
  existsb (route_matches req) (of_modules ≫= mn_Routes) = false
  ∧ existsb (resource_matches req) (of_modules ≫= mn_Resources) = false.
Proof.
  induction modules as [|[p m] rest IH]; [done|]. cbv zeta in *. cbn [dispatch omap list_omap snd].
  destruct (pm_Capable m) as [cap|]; cbn [fmap option_fmap option_map mbind option_bind]; [|exact IH].
  rewrite !bind_cons, !existsb_app, !orb_false_iff.
  pose proof (delegated_None (cap_ManagementRoutes cap) req) as Hd.
  destruct (delegated (cap_ManagementRoutes cap) req) as [req'|]; cbn [fmap option_fmap option_map].
  - destruct (cap_HandleManagement cap req' (call p)). split; [done|].
    intros [[? _] [? _]]. assert (Some req' = None) by tauto. done.
  - rewrite IH. tauto.
Qed.

(** The routes the coordinator registers are the ones it answers: a management
    request is reported unknown exactly when it matches no route and no resource
    of the registration, and an unknown request changes nothing. *)
Theorem registered_routes_answered version c req now later call :
  ((handleManagement version c req now later call).1 = not_found ↔ announced c req = false)
  ∧ ((handleManagement version c req now later call).1 = not_found →
     (handleManagement version c req now later call).2 = c).
Proof.
  unfold handleManagement, announced. cbn [managementRoutes mn_Routes mn_Resources own_routes].
  set (of_modules := omap _ _). cbn [app existsb].
  unfold route_matches at 1, resource_matches at 1. cbn [mo_Method mo_Path ms_Path].
  rewrite (bool_decide_ext ("GET" = mq_Method req) (mq_Method req = "GET")) by done.
  rewrite (bool_decide_ext (managementStatusPath = mq_Path req) (mq_Path req = managementStatusPath))
    by done.
  destruct (bool_decide (mq_Method req = "GET") && bool_decide (mq_Path req = managementStatusPath)) eqn:H1.
  { destruct (managementStatus version c now call). done. }
  destruct (bool_decide (mq_Method req = "GET") && isResourceStatusPath (mq_Path req)) eqn:H2.
  { destruct (managementStatus version c now call). rewrite !orb_true_r. done. }
  assert (bool_decide (mq_Method req = "GET") && (bool_decide (mq_Path req = resourceStatusPath)
    || bool_decide (mq_Path req = resourcePluginBasePath +:+ resourceStatusPath)) = false) as ->.
  { destruct (bool_decide (mq_Method req = "GET")); [|done]. cbn [andb] in *.
    apply orb_false_iff. split; apply bool_decide_eq_false; intros Heq; rewrite Heq in H2;
      vm_compute in H2; done. }
  cbn [orb]. rewrite orb_false_r. pose proof (dispatch_None call req (co_modules c)) as Hd.
  cbv zeta in Hd. fold of_modules in Hd. rewrite orb_false_iff.
  destruct (dispatch call req (co_modules c)) as [[r [p m]]|]; cbn [fst snd].
  - split; [|done]. split; [done|]. intros Hno. assert (Some (r, (p, m)) = None) by tauto. done.
  - split; [|done]. tauto.
Qed.

End Promises.

(** ** The plugin *)

Section Loaded.
Context `{GoStdLaws} `{ZaiDecoders} `{OpenCodeDecoders}.

Lemma runtimeState_eq :
  runtimeState = Some {| co_modules := [("zai", inl new_runtime); (providerID, inr NewModule)];
                         co_lastErr := None; co_stopped := false; co_registry := ∅ |}.
Proof. reflexivity. Qed.

Lemma runtimeState_ok c : runtimeState = Some c → coordinator_ok c.
Proof.
  rewrite runtimeState_eq. intros [= <-]. split; cbn [co_modules].
  - by_decision.
  - intros p m Hin. apply elem_of_cons in Hin as [[= -> ->]|Hin].
    + split; [|done]. intros index Hi. done.
    + apply list_elem_of_singleton in Hin as [= -> ->]. split; [|done]. intros s Hs. done.
Qed.

(** C2: the plugin answers a recognised request with its module's decision: in whatever
    state a sequence of calls and background work brought it, short of shutdown, a pick
    with a candidate that one of its two modules recognises is either a request of that
    module alone, and then the answer is what the module's own Pick gives, verbatim: a
    response, always marked as handled (it may name a credential or, for Z.ai while no
    account is impaired, delegate explicitly to the host's round-robin), or its error in
    an envelope with return code 1, a coded one with its code; or both recognise one, and
    then the answer is the mixed-provider error and nothing has changed. It is never
    answered as unhandled. *)
Theorem plugin_never_falls_back {N} schemaVersion version c0 c
    (call : plugin_call N hosted_call) payload req :
  runtimeState = Some c0 → rtc (coordinator_step (N := N)) c0 c → co_stopped c = false →
  pc_pick call payload = Some req →
  (∃ p m, (p, m) ∈ co_modules c ∧ recognizes m req = true) →
  let '(code, answer, c') :=
    cliproxyPluginCall (R := ManagementResponse) schemaVersion version c (Some MethodSchedulerPick)
      payload call in
  (∃ p m, (p, m) ∈ co_modules c ∧ recognizes m req = true
     ∧ (∀ q n, (q, n) ∈ co_modules c → recognizes n req = true → q = p)
     ∧ c' = set_module p (pm_Pick m req (pc_module call p)).2 c
     ∧ match (pm_Pick m req (pc_module call p)).1 with
       | Ok resp => code = 0 ∧ answer = EnvelopeOK (ResultPick resp) ∧ pr_Handled resp = true
       | Err (EWire w) => code = 1 ∧ answer = EnvelopeError w
       | Err e => code = 1 ∧ answer = errorEnvelope "plugin_error" (error_text e)
       end)
  ∨ (∃ p m q n, (p, m) ∈ co_modules c ∧ recognizes m req = true
     ∧ (q, n) ∈ co_modules c ∧ recognizes n req = true ∧ p ≠ q)
    ∧ c' = c ∧ code = 1
    ∧ answer = errorEnvelope "plugin_error" (error_text (mixed_pick (recognizing (co_modules c) req).*1)).
Proof.
  intros H0' Hs Hst Hreq (p & m & Hin & Hr). apply runtimeState_ok in H0' as Hok. clear H0'.
  assert (coordinator_ok c) as Hokc.
  { clear -Hs Hok. induction Hs as [x|x y z Hxy _ IH]; [done|].
    apply IH. by eapply coordinator_step_ok. }
  unfold cliproxyPluginCall. rewrite Hreq. cbv zeta.
  pose proof (pick_cases c req (pc_module call) (ok_ids _ Hokc) Hst) as Hp.
  destruct Hp as [Hno|q n Hq Hrec Hu|q n q' n' Hq Hrn Hq' Hrn' Hne].
  - destruct (eq_true_false_abs _ Hr (Hno p m Hin)).
  - assert (∀ resp, (pm_Pick n req (pc_module call q)).1 = Ok resp → pr_Handled resp = true) as Hhandled.
    { intros resp Hres. apply recognizes_elem in Hrec as (cand & Hc & Hrec).
      destruct (ok_modules _ Hokc q n Hq) as (Hn & _).
      exact (pm_Pick_handled n req (pc_module call q) cand resp Hn Hc Hrec Hres). }
    assert (∀ q' n', (q', n') ∈ co_modules c → recognizes n' req = true → q' = q) as Hone
      by (intros q' n' Hq' Hrq'; by destruct (Hu q' n' Hq' Hrq')).
    destruct ((pm_Pick n req (pc_module call q)).1) as [resp|e] eqn:Hres;
      cbn [answer fmap res_fmap]; left; exists q, n; rewrite Hres; split_and!; try done.
    + by apply Hhandled.
    + by destruct e.
  - right. split_and!; try done. by exists q, n, q', n'.
Qed.

End Loaded.

(** ** Witnesses *)

Import DemoStd DemoPlugin.

Lemma loaded_ok : coordinator_ok loaded.
Proof. by apply runtimeState_ok. Qed.

Lemma split_result {A B} (x : A * B) a : x.1 = a → x = (a, x.2).
Proof. intros <-. by destruct x. Qed.

Lemma configured_result : reconfigure loaded "ok" demo_reconfigure = (Ok (), configured).
Proof. refine (split_result (reconfigure loaded "ok" demo_reconfigure) (Ok ()) _). by vm_compute. Qed.

Definition bad_section : error :=
  EWrap "provider opencode-go: " (EWrap "opencode_go_invalid_config: decode provider config: "
    (EText "unknown field")).

Lemma half_configured_result : reconfigure loaded "bad" demo_reconfigure = (Err bad_section, half_configured).
Proof. refine (split_result (reconfigure loaded "bad" demo_reconfigure) _ _). by vm_compute. Qed.

Definition entry (c : Coordinator hosted) (i : nat) : string * hosted :=
  default ("", inl new_runtime) (co_modules c !! i).

Lemma lookup_pair {A} (d : string * A) l i :
  (i < length l)%nat → ((default d (l !! i)).1, (default d (l !! i)).2) ∈ l.
Proof.
  intros [[p x] Hi]%lookup_lt_is_Some_2. rewrite Hi. by eapply list_elem_of_lookup_2.
Qed.

Lemma entry_elem c i : (i < length (co_modules c))%nat → ((entry c i).1, (entry c i).2) ∈ co_modules c.
Proof. exact (lookup_pair _ (co_modules c) i). Qed.

Lemma configured_ok : coordinator_ok configured.
Proof. exact (proj1 (reconfigure_exact loaded "ok" demo_reconfigure configured loaded_ok configured_result)). Qed.

Definition zai_id : string := default "" (head (pm_OwnedAuthIDs (zai_of configured))).

Definition served_once : Coordinator hosted := (handleUsage configured (usage_of zai_id) module_call).2.

Lemma serving_once : rtc serving configured served_once.
Proof. apply rtc_once, serving_usage. Qed.

(** One candidate of the request is a stranger to both modules. *)
Lemma coordinator_pick_dispatch_witness :
  (∀ resp, (pick configured (request ["stranger"; "a1"]) module_call).1 = Ok resp → pr_Handled resp = true)
  ∧ (pick configured (request ["stranger"; "a1"]) module_call).1 = Ok (selected_auth "a1").
Proof.
  destruct (coordinator_pick_dispatch configured (request ["stranger"; "a1"]) module_call configured_ok) as [_ Hh].
  - vm_compute. reflexivity.
  - split; [|vm_compute; reflexivity]. apply Hh. exists (entry configured 1).1, (entry configured 1).2.
    split; [apply entry_elem; vm_compute; lia|vm_compute; reflexivity].
Defined.

Lemma registry_stays_exact_witness :
  co_registry served_once !! "a1" = Some "opencode-go" ∧ owns served_once "opencode-go" "a1".
Proof.
  destruct (registry_stays_exact loaded "ok" demo_reconfigure configured served_once loaded_ok
    configured_result serving_once) as [Hex _].
  assert (co_registry served_once !! "a1" = Some "opencode-go") as Ha by (vm_compute; reflexivity).
  split; [exact Ha|]. apply (Hex "a1" "opencode-go"), Ha.
Defined.

Lemma usage_dispatch_broadcast_witness :
  (handleUsage served_once (usage_of zai_id) module_call).2
  = broadcast served_once (usage_of zai_id) module_call.
Proof.
  apply (usage_dispatch_broadcast loaded "ok" demo_reconfigure configured served_once
    (usage_of zai_id) module_call loaded_ok configured_result serving_once).
  intros Heq. vm_compute in Heq. done.
Defined.

Lemma owned_candidates_dispatched_witness :
  pick served_once (request [zai_id]) module_call
  = ((pm_Pick (entry served_once 0).2 (request [zai_id]) (module_call (entry served_once 0).1)).1,
     set_module (entry served_once 0).1
       (pm_Pick (entry served_once 0).2 (request [zai_id]) (module_call (entry served_once 0).1)).2
       served_once).
Proof.
  apply (owned_candidates_dispatched loaded "ok" demo_reconfigure configured served_once
    (entry served_once 0).1 (entry served_once 0).2 (request [zai_id]) module_call loaded_ok
    configured_result serving_once).
  - apply entry_elem. vm_compute. lia.
  - discriminate.
  - constructor; [|constructor]. split; [reflexivity|]. split.
    + intros Heq. vm_compute in Heq. discriminate.
    + apply (bool_decide_unpack _). vm_compute. exact I.
Defined.

(** What [prepare] makes of the configuration whose second section is refused. *)
Definition bad_prepared : coordinatorConfig string * HostConfig :=
  match prepare demo_reconfigure "bad" with
  | Ok prepared => prepared
  | Err _ => ({| cf_CPAConfigPath := ""; cf_Providers := ∅; cf_Enabled := None; cf_Priority := None |},
              {| ho_CPAConfigPath := ""; ho_AuthDir := ""; ho_ClaudeKeys := []; ho_OpenAICompatibility := [] |})
  end.

Definition reconfigured_entry (i : nat) : res unit * (string * hosted) :=
  reconfigure_module demo_reconfigure bad_prepared.1 bad_prepared.2 (entry loaded i).

Lemma failed_reconfigure_drops_usage_witness :
  co_modules half_configured = [(reconfigured_entry 0).2; (reconfigured_entry 1).2]
  ∧ pm_Recognize (reconfigured_entry 0).2.2 (bare_candidate zai_id) = true
  ∧ handleUsage half_configured (usage_of zai_id) module_call = (Ok (), half_configured).
Proof.
  pose proof (failed_reconfigure_drops_usage loaded "bad" demo_reconfigure bad_prepared.1 bad_prepared.2
    [entry loaded 0] (entry loaded 1) [] bad_section (reconfigured_entry 1).2 loaded_ok eq_refl) as Hf.
  rewrite half_configured_result in Hf. destruct Hf as (_ & _ & _ & Hmods & Hdrop).
  - vm_compute. reflexivity.
  - reflexivity.
  - constructor; [|constructor]. vm_compute. reflexivity.
  - refine (split_result (reconfigured_entry 1) (Err bad_section) _). vm_compute. reflexivity.
  - destruct (Hdrop (entry loaded 0).1 (entry loaded 0).2 zai_id) as (_ & Hr & _ & Hu).
    + left.
    + apply (bool_decide_unpack _). vm_compute. exact I.
    + vm_compute. reflexivity.
    + split; [exact Hmods|]. split; [exact Hr|]. apply Hu. reflexivity.
Defined.

Lemma coordinator_shutdown_final_witness :
  let stopped := (shutdown configured module_call).2 in
  shutdown stopped module_call = (Ok (), stopped)
  ∧ (pick stopped (request ["a1"]) module_call).1 = errorf "plugin is shutting down".
Proof.
  cbv zeta. destruct (coordinator_shutdown_final (N := string) configured module_call
    (shutdown configured module_call).2 (shutdown configured module_call).2) as (_ & _ & Hs & Hp & _).
  - vm_compute. reflexivity.
  - reflexivity.
  - apply rtc_refl.
  - exact configured_ok.
  - split; [apply Hs|]. by rewrite (Hp (request ["a1"]) module_call).
Defined.

Definition pick_call : plugin_call string hosted_call :=
  {| pc_lifecycle raw := Some raw; pc_pick raw := Some (request [raw]); pc_usage _ := None;
     pc_management _ := None; pc_decode_error := EText "invalid"; pc_now := demo_now;
     pc_later := demo_now; pc_reconfigure := demo_reconfigure; pc_module := module_call |}.

Lemma plugin_never_falls_back_witness :
  let '(code, answer, c') :=
    cliproxyPluginCall (R := ManagementResponse) 5 "1" configured (Some MethodSchedulerPick) "a1" pick_call in
  (code = 0 ∨ code = 1) ∧ answer = EnvelopeOK (ResultPick (selected_auth "a1")).
Proof.
  pose proof (plugin_never_falls_back (N := string) 5 "1" loaded configured pick_call "a1"
    (request ["a1"]) eq_refl) as Hp.
  assert ((cliproxyPluginCall (R := ManagementResponse) 5 "1" configured (Some MethodSchedulerPick) "a1" pick_call).1.2
    = EnvelopeOK (ResultPick (selected_auth "a1"))) as Ha by (vm_compute; reflexivity).
  destruct (cliproxyPluginCall 5 "1" configured _ "a1" pick_call) as [[code answer] c'].
  split; [|exact Ha]. destruct Hp as [(p & m & _ & _ & _ & _ & Hm)|(_ & _ & -> & _)].
  - apply rtc_once. apply (step_reconfigure loaded "ok" demo_reconfigure).
  - vm_compute. reflexivity.
  - reflexivity.
  - exists (entry configured 1).1, (entry configured 1).2.
    split; [apply entry_elem; vm_compute; lia|vm_compute; reflexivity].
  - destruct (pm_Pick m (request ["a1"]) (pc_module pick_call p)).1 as [resp|[]]; destruct Hm as [-> _]; tauto.
  - by right.
Defined.
