(* ===== verification/Interleaving.v ===== *)
(** * Calls of the coordinator that run at the same time (coordinator/coordinator.go)

    The host may make its calls from several threads. Here a call is a thread that takes
    one step for each thing it does to what the threads share: a critical section of the
    coordinator's or the registry's mutex, or one call of one module, which serialises
    its own calls. The mutex is not held between these steps, so that the steps of
    several calls interleave in any order; only [reconfigures.Wait] makes a thread wait. *)

From S2P Require Import Prelude GoStrings GoFloat Host Config Accounts Quota Settings Runtime RuntimeSteps Management OpenCodeUsage OpenCodeGo ProviderModule ZaiModule OpenCodeModule Coordinator Plugin Dispatch.

Section Threads.
Context `{GoStd} {N M E J R : Type} `{ProviderModule M E J R}.

(** ** Threads *)

(** Where a reconfiguration is. It counts in [reconfigures] from its admission on. *)
Inductive reconfiguring :=
| RAdmit (cfg : coordinatorConfig N) (host : HostConfig) (call : reconfigure_call N E)
| RModules (cfg : coordinatorConfig N) (host : HostConfig) (call : reconfigure_call N E) (todo : list string)
| ROwned (todo : list string) (owned : gmap string (list string))
| RSwap (byAuth : gmap string string)
| RClear
| RFail (admitted : bool) (e : error).

Inductive closing :=
| SStart (call : string → E)
| SWait (call : string → E)
| SClose (call : string → E) (todo : list string) (firstErr : option error).

(** [found] is [recognizing]; once it is known, the module is called. *)
Inductive picking :=
| PStart (req : SchedulerPickRequest) (call : string → E)
| PRecognize (req : SchedulerPickRequest) (call : string → E) (todo found : list string)
| PPick (req : SchedulerPickRequest) (call : string → E) (providerID : string).

Inductive reporting :=
| UStart (record : UsageRecord) (call : string → E)
| UHandle (record : UsageRecord) (call : string → E) (providerID : string).

Inductive thread :=
| TReconfigure (t : reconfiguring)
| TShutdown (t : closing)
| TPick (t : picking)
| TUsage (t : reporting).

(** What a call returns. *)
Inductive outcome :=
| OReconfigure (r : res unit)
| OShutdown (r : res unit)
| OPick (r : res SchedulerPickResponse)
| OUsage (r : res unit).

Definition ids (c : Coordinator M) : list string := (co_modules c).*1.

Definition set_registry (byAuth : gmap string string) (c : Coordinator M) : Coordinator M :=
  {| co_modules := co_modules c; co_lastErr := co_lastErr c; co_stopped := co_stopped c; co_registry := byAuth |}.

Definition set_stopped (c : Coordinator M) : Coordinator M :=
  {| co_modules := co_modules c; co_lastErr := co_lastErr c; co_stopped := true; co_registry := co_registry c |}.

Definition clear_error (c : Coordinator M) : Coordinator M :=
  if co_stopped c then c else
  {| co_modules := co_modules c; co_lastErr := None; co_stopped := co_stopped c; co_registry := co_registry c |}.

(** ** Steps of a call *)

(** What is read before the first critical section. *)
Definition start_reconfigure (rawConfig : string) (call : reconfigure_call N E) : reconfiguring :=
  match prepare call rawConfig with Err e => RFail false e | Ok (cfg, host) => RAdmit cfg host call end.

Definition step_reconfigure (t : reconfiguring) (c : Coordinator M)
    : option (Coordinator M * (reconfiguring + res unit)) :=
  match t with
  | RAdmit cfg host call =>
      Some (c, if co_stopped c then inr (errorf "plugin is shutting down") else inl (RModules cfg host call (ids c)))
  | RModules cfg host call [] => Some (c, inl (ROwned (ids c) ∅))
  | RModules cfg host call (providerID :: todo) =>
      entry ← find_module c providerID;
      let '(result, (providerID, m)) := reconfigure_module call cfg host entry in
      Some (set_module providerID m c,
            inl match result with Err e => RFail true e | Ok _ => RModules cfg host call todo end)
  | ROwned (providerID :: todo) owned =>
      entry ← find_module c providerID;
      Some (c, inl (ROwned todo (<[providerID := pm_OwnedAuthIDs entry.2]> owned)))
  | ROwned [] owned =>
      Some (c, inl match buildRegistry owned with Err e => RFail true e | Ok byAuth => RSwap byAuth end)
  | RSwap byAuth => Some (set_registry byAuth c, inl RClear)
  | RClear => Some (clear_error c, inr (Ok ()))
  | RFail _ e => Some (recordError c e, inr (Err e))
  end.

(** [idle] is whether [reconfigures] counts nothing. *)
Definition step_shutdown (idle : bool) (t : closing) (c : Coordinator M)
    : option (Coordinator M * (closing + res unit)) :=
  match t with
  | SStart call => Some (if co_stopped c then (c, inr (Ok ())) else (set_stopped c, inl (SWait call)))
  | SWait call => if idle then Some (c, inl (SClose call (ids c) None)) else None
  | SClose call (providerID :: todo) firstErr =>
      entry ← find_module c providerID;
      let '(result, m) := pm_Close entry.2 (call providerID) in
      Some (set_module providerID m c,
            inl (SClose call todo match firstErr, result with None, Err e => Some e | _, _ => firstErr end))
  | SClose call [] firstErr => Some (c, inr match firstErr with Some e => Err e | None => Ok () end)
  end.

Definition step_pick (t : picking) (c : Coordinator M)
    : option (Coordinator M * (picking + res SchedulerPickResponse)) :=
  match t with
  | PStart req call =>
      Some (c, if co_stopped c then inr (errorf "plugin is shutting down") else inl (PRecognize req call (ids c) []))
  | PRecognize req call (providerID :: todo) found =>
      entry ← find_module c providerID;
      Some (c, inl (PRecognize req call todo (if recognizes entry.2 req then found ++ [providerID] else found)))
  | PRecognize req call [] found =>
      Some (c, match found with
               | [] => inr (Ok not_handled)
               | [providerID] => inl (PPick req call providerID)
               | ids => inr (Err (mixed_pick ids))
               end)
  | PPick req call providerID =>
      entry ← find_module c providerID;
      let '(resp, m) := pm_Pick entry.2 req (call providerID) in Some (set_module providerID m c, inr resp)
  end.

Definition step_usage (t : reporting) (c : Coordinator M) : option (Coordinator M * (reporting + res unit)) :=
  match t with
  | UStart record call =>
      let providerID := providerFor c (TrimSpace (ur_AuthID record)) in
      Some (c, if bool_decide (providerID = "") then inr (Ok ())
               else if bool_decide (providerID ∈ ids c) then inl (UHandle record call providerID) else inr (Ok ()))
  | UHandle record call providerID =>
      entry ← find_module c providerID;
      let '(result, m) := pm_HandleUsage entry.2 record (call providerID) in
      Some (set_module providerID m c, inr result)
  end.

Definition lift {A B} (next : A → thread) (done : B → outcome)
    (s : option (Coordinator M * (A + B))) : option (Coordinator M * (thread + outcome)) :=
  prod_map id (λ n, match n with inl t => inl (next t) | inr r => inr (done r) end) <$> s.

Definition step_thread (idle : bool) (t : thread) (c : Coordinator M)
    : option (Coordinator M * (thread + outcome)) :=
  match t with
  | TReconfigure t => lift TReconfigure OReconfigure (step_reconfigure t c)
  | TShutdown t => lift TShutdown OShutdown (step_shutdown idle t c)
  | TPick t => lift TPick OPick (step_pick t c)
  | TUsage t => lift TUsage OUsage (step_usage t c)
  end.

(** ** Calls in flight *)

Definition counted (t : thread) : bool :=
  match t with
  | TReconfigure (RAdmit _ _ _) | TReconfigure (RFail false _) => false
  | TReconfigure _ => true
  | _ => false
  end.

Definition idle (ts : list thread) : bool := forallb (λ t, negb (counted t)) ts.

(** The coordinator, the calls in flight and what the finished ones returned. *)
Definition world : Type := Coordinator M * list thread * list outcome.

Definition begins (t : thread) : Prop :=
  (∃ raw call, t = TReconfigure (start_reconfigure raw call)) ∨ (∃ call, t = TShutdown (SStart call))
  ∨ (∃ req call, t = TPick (PStart req call)) ∨ (∃ record call, t = TUsage (UStart record call)).

(** A call begins, a call takes a step and may return, or something else is served: the
    status and the routes, the modules' own goroutines, errors of the entry points. *)
Inductive step : world → world → Prop :=
| step_begin t c ts log : begins t → step (c, ts, log) (c, t :: ts, log)
| step_run l t r c log c' next :
    step_thread (idle (l ++ r)) t c = Some (c', next) →
    step (c, l ++ t :: r, log)
         (c', l ++ match next with inl t => [t] | inr _ => [] end ++ r,
          log ++ match next with inl _ => [] | inr o => [o] end)
| step_serve c c' ts log : serving c c' → step (c, ts, log) (c', ts, log).

End Threads.

Section Theorems.
Context `{GoStd} {N M E J R : Type} `{L : ProviderModuleLaws M E J R}.

Abbreviation coordinator := (Coordinator M) (only parsing).
Abbreviation world := (world (N := N) (M := M) (E := E)) (only parsing).
Abbreviation thread := (thread (N := N) (E := E)) (only parsing).

(** ** What a step does to the coordinator *)

Lemma find_in (c : coordinator) p im : coordinator_ok c → find_module c p = Some im → im.1 = p ∧ (p, im.2) ∈ co_modules c.
Proof. intros Hok Hf%find_module_Some; [|apply Hok]. destruct im as [q m], Hf as [Hq Hin]. cbn in *. by subst. Qed.

Lemma find_some (c : coordinator) p m : coordinator_ok c → (p, m) ∈ co_modules c → find_module c p = Some (p, m).
Proof. intros Hok Hin. by apply find_module_Some; [apply Hok|]. Qed.

Lemma pick_step_served t (c c' : coordinator) n : coordinator_ok c → step_pick t c = Some (c', n) → served c c'.
Proof.
  intros Hok. destruct t as [req call|req call [|p todo] found|req call p]; cbn [step_pick].
  - intros [= <- _]. apply served_same.
  - intros [= <- _]. apply served_same.
  - destruct (find_module c p); [|done]. intros [= <- _]. apply served_same.
  - destruct (find_module c p) as [im|] eqn:Hf; [|done]. cbn [mbind option_bind].
    apply find_in in Hf as [_ Hin]; [|done]. pose proof (serve_pick im.2 req (call p)) as Hs.
    destruct (pm_Pick im.2 req (call p)) as [resp m]. intros [= <- _].
    apply (served_set_module c p im.2); [apply Hok|done|done].
Qed.

Lemma usage_step_served t (c c' : coordinator) n : coordinator_ok c → step_usage t c = Some (c', n) → served c c'.
Proof.
  intros Hok. destruct t as [record call|record call p]; cbn [step_usage].
  - intros [= <- _]. apply served_same.
  - destruct (find_module c p) as [im|] eqn:Hf; [|done]. cbn [mbind option_bind].
    apply find_in in Hf as [_ Hin]; [|done]. pose proof (serve_usage im.2 record (call p)) as Hs.
    destruct (pm_HandleUsage im.2 record (call p)) as [resp m]. intros [= <- _].
    apply (served_set_module c p im.2); [apply Hok|done|done].
Qed.

(** A step of a reconfiguration: the only ones that change what others rely on are the
    reconfiguration of a module and the swap of the registry. *)
Definition reconfigure_effect (t : reconfiguring (N := N) (E := E)) (c c' : coordinator) : Prop :=
  match t with
  | RModules _ _ _ (_ :: _) =>
      entrywise (rtc module_step) (co_modules c) (co_modules c')
      ∧ co_registry c' = co_registry c ∧ co_stopped c' = co_stopped c
  | RSwap byAuth => c' = set_registry byAuth c
  | _ => co_modules c' = co_modules c ∧ co_registry c' = co_registry c ∧ co_stopped c' = co_stopped c
  end.

Lemma reconfigure_step_effect t (c c' : coordinator) n :
  coordinator_ok c → step_reconfigure t c = Some (c', n) → reconfigure_effect t c c'.
Proof.
  intros Hok. destruct t as [cfg host call|cfg host call [|p todo]|[|p todo] owned|byAuth| |admitted e];
    cbn [step_reconfigure reconfigure_effect].
  - by intros [= <- _].
  - by intros [= <- _].
  - destruct (find_module c p) as [im|] eqn:Hf; [|done]. cbn [mbind option_bind].
    apply find_in in Hf as [<- Hin]; [|done]. pose proof (reconfigure_module_steps call cfg host im) as [Hid Hs].
    destruct (reconfigure_module call cfg host im) as [result [q m]]. cbn [fst snd] in *. subst q.
    intros [= <- _]. split; [|done].
    apply (set_module_entrywise _ c im.1 im.2); [apply Hok|done|done].
  - by intros [= <- _].
  - destruct (find_module c p); [|done]. by intros [= <- _].
  - by intros [= <- _].
  - intros [= <- _]. unfold clear_error. by destruct (co_stopped c) eqn:Hst; cbn; rewrite ?Hst.
  - intros [= <- _]. by destruct (recordError_fields c e) as (? & ? & ? & _).
Qed.

(** One of a shutdown. *)
Definition shutdown_effect (t : closing (E := E)) (c c' : coordinator) : Prop :=
  co_registry c' = co_registry c
  ∧ match t with
    | SStart _ => co_modules c' = co_modules c ∧ co_stopped c' = true
    | SClose _ (_ :: _) _ =>
        entrywise (rtc (λ m m', ∃ e, m' = (pm_Close m e).2)) (co_modules c) (co_modules c')
        ∧ co_stopped c' = co_stopped c
    | _ => c' = c
    end.

Lemma shutdown_step_effect b t (c c' : coordinator) n :
  coordinator_ok c → step_shutdown b t c = Some (c', n) → shutdown_effect t c c'.
Proof.
  intros Hok. destruct t as [call|call|call [|p todo] err]; cbn [step_shutdown]; unfold shutdown_effect.
  - intros [= Hc]. destruct (co_stopped c) eqn:Hst; injection Hc as <- _; [by split_and!|done].
  - destruct b; [|done]. by intros [= <- _].
  - by intros [= <- _].
  - destruct (find_module c p) as [im|] eqn:Hf; [|done]. cbn [mbind option_bind].
    apply find_in in Hf as [_ Hin]; [|done]. destruct (pm_Close im.2 (call p)) as [result m] eqn:Hc.
    intros [= <- _]. split; [done|]. split; [|done].
    apply (set_module_entrywise _ c p im.2); [apply Hok|done|]. apply rtc_once. exists (call p). by rewrite Hc.
Qed.

(** What any step of a call leaves true. *)
Lemma thread_step_ok b (t : thread) (c c' : coordinator) n :
  coordinator_ok c → step_thread b t c = Some (c', n) →
  coordinator_ok c' ∧ (co_stopped c = true → co_stopped c' = true).
Proof.
  intros Hok. destruct t as [t|t|t|t]; cbn [step_thread]; unfold lift.
  - destruct (step_reconfigure t c) as [[c1 n1]|] eqn:Hs; [|done]. intros [= <- _].
    apply reconfigure_step_effect in Hs; [|done].
    assert (entrywise (rtc module_step) (co_modules c) (co_modules c1) ∧ co_stopped c1 = co_stopped c) as [He ->].
    { assert (co_modules c1 = co_modules c → entrywise (rtc module_step) (co_modules c) (co_modules c1)) as Hsame
        by (intros ->; apply entrywise_same).
      destruct t as [|cfg host call [|p todo]|[|p todo]| | |]; cbn in Hs; subst;
        try (destruct Hs as (Hm & _ & Hst); by auto); cbn; split; (done || apply entrywise_same). }
    split; [by eapply entrywise_ok|done].
  - destruct (step_shutdown b t c) as [[c1 n1]|] eqn:Hs; [|done]. intros [= <- _].
    apply shutdown_step_effect in Hs as [_ Hs]; [|done].
    destruct t as [call|call|call [|p todo] err]; [|by subst|by subst|].
    + destruct Hs as [Hm Hst]. split; [|done]. eapply entrywise_ok; [done|]. rewrite Hm. apply entrywise_same.
    + destruct Hs as [He Hst]. split; [|congruence]. eapply entrywise_ok; [done|].
      eapply entrywise_impl; [|exact He]. intros m m' Hr. eapply rtc_subrel; [|exact Hr].
      intros x y [e ->]. apply ProviderModule.step_close.
  - destruct (step_pick t c) as [[c1 n1]|] eqn:Hs; [|done]. intros [= <- _].
    apply pick_step_served in Hs; [|done]. split; [by eapply served_ok|]. by destruct Hs as (_ & _ & ->).
  - destruct (step_usage t c) as [[c1 n1]|] eqn:Hs; [|done]. intros [= <- _].
    apply usage_step_served in Hs; [|done]. split; [by eapply served_ok|]. by destruct Hs as (_ & _ & ->).
Qed.

(** ** Shutdown waits for reconfigurations, and ends them *)

Definition past_stop (t : thread) : bool :=
  match t with TShutdown (SStart _) => false | TShutdown _ => true | _ => false end.

Definition is_closing (t : thread) : bool :=
  match t with TShutdown (SClose _ _ _) => true | _ => false end.

Lemma idle_spec (ts : list thread) : idle ts = true ↔ ∀ t, t ∈ ts → counted t = false.
Proof.
  unfold idle. rewrite forallb_forall. split.
  - intros Hall t Ht%list_elem_of_In. by apply negb_true_iff, Hall.
  - intros Hall t Ht%list_elem_of_In. by apply negb_true_iff, Hall.
Qed.

Lemma begins_fresh t : begins t → counted (N := N) (E := E) t = false ∧ past_stop t = false.
Proof.
  intros [(raw & call & ->)|[(call & ->)|[(req & call & ->)|(record & call & ->)]]]; try done.
  unfold start_reconfigure. by destruct (prepare call raw) as [[]|].
Qed.

(** What the next state of a call says of the one before. *)
Lemma thread_next b (t t' : thread) (c c' : coordinator) :
  step_thread b t c = Some (c', inl t') →
  (counted t' = true → counted t = true ∨ co_stopped c = false)
  ∧ (past_stop t' = true → past_stop t = true ∨ co_stopped c' = true)
  ∧ (is_closing t' = true → past_stop t = true ∧ (is_closing t = true ∨ b = true)).
Proof.
  destruct t as [t|t|t|t]; cbn [step_thread]; unfold lift.
  - destruct (step_reconfigure t c) as [[c1 [t1|r1]]|] eqn:Hs; [|done|done]. intros [= <- <-].
    split; [|done]. intros _. destruct t as [| | | | |[]]; try (by left); cbn in Hs.
    right. by destruct (co_stopped c).
  - destruct (step_shutdown b t c) as [[c1 [t1|r1]]|] eqn:Hs; [|done|done]. intros [= <- <-]. split; [done|].
    destruct t as [call|call|call [|p todo] err]; cbn in Hs.
    + destruct (co_stopped c); [done|]. injection Hs as <- <-. split; [by right|done].
    + destruct b; [|done]. injection Hs as <- <-. split; [by left|]. split; [done|by right].
    + done.
    + split; [by left|]. split; [done|by left].
  - destruct (step_pick t c) as [[c1 [t1|r1]]|]; by intros [= <- <-].
  - destruct (step_usage t c) as [[c1 [t1|r1]]|]; by intros [= <- <-].
Qed.

Record protocol (w : world) : Prop := {
  pr_ok : coordinator_ok w.1.1;
  pr_stopped t : t ∈ w.1.2 → past_stop t = true → co_stopped w.1.1 = true;
  pr_closing t : t ∈ w.1.2 → is_closing t = true → idle w.1.2 = true;
}.

Lemma serving_ok (c c' : coordinator) : coordinator_ok c → serving c c' → coordinator_ok c' ∧ served c c'.
Proof. intros Hok Hs. apply serving_served in Hs; [|apply Hok]. split; [by eapply served_ok|done]. Qed.

Lemma elem_of_next (l r : list thread) (next : thread + outcome) u :
  u ∈ l ++ match next with inl t => [t] | inr _ => [] end ++ r ↔ u ∈ l ++ r ∨ next = inl u.
Proof. rewrite !elem_of_app. destruct next; rewrite ?list_elem_of_singleton, ?elem_of_nil; naive_solver. Qed.

Lemma elem_of_mid (l r : list thread) t u : u ∈ l ++ t :: r ↔ u ∈ l ++ r ∨ u = t.
Proof. rewrite !elem_of_app, elem_of_cons. naive_solver. Qed.

Lemma closing_stopped (t : thread) : is_closing t = true → past_stop t = true ∧ counted t = false.
Proof. by destruct t as [|[]| |]. Qed.

Lemma protocol_step w w' : step w w' → protocol w → protocol w'.
Proof.
  intros Hs [Hok Hstop Hclose]. destruct Hs as [t c ts log Hb|l t r c log c' next Hs|c c' ts log Hs];
    cbn [fst snd] in *.
  - apply begins_fresh in Hb as [Hcount Hpast]. split; cbn [fst snd]; [done| |].
    + intros u [->|Hu]%elem_of_cons; [congruence|eauto].
    + intros u [->|Hu]%elem_of_cons Hc; [by apply closing_stopped in Hc as [? _]; congruence|].
      apply idle_spec. intros v [->|Hv]%elem_of_cons; [done|]. by apply (proj1 (idle_spec ts) (Hclose u Hu Hc)).
  - destruct (thread_step_ok _ _ _ _ _ Hok Hs) as [Hok' Hmono]. split; cbn [fst snd]; [done| |].
    + intros u [Hu| ->]%elem_of_next Hp; [apply Hmono, (Hstop u); [by apply elem_of_mid; left|done]|].
      apply thread_next in Hs as (_ & Hpast & _). destruct (Hpast Hp) as [Hp'|?]; [|done].
      apply Hmono, (Hstop t); [apply elem_of_mid; by right|done].
    + intros u Hu Hc.
      destruct (decide (Exists (λ v, is_closing v = true) (l ++ t :: r))) as [Hex|Hno].
      * apply Exists_exists in Hex as (v & Hv & Hcv). pose proof (proj1 (idle_spec _) (Hclose v Hv Hcv)) as Hidle.
        pose proof (Hstop v Hv (proj1 (closing_stopped v Hcv))) as Hst.
        apply idle_spec. intros x [Hx| ->]%elem_of_next; [apply Hidle, elem_of_mid; by left|].
        apply thread_next in Hs as (Hcount & _). apply not_true_iff_false. intros [Hx|Hx]%Hcount; [|congruence].
        assert (counted t = false) by (apply Hidle, elem_of_mid; by right). congruence.
      * assert (∀ v, v ∈ l ++ t :: r → is_closing v ≠ true) as Hnone.
        { intros v Hv Hcv. apply Hno, Exists_exists. eauto. }
        apply elem_of_next in Hu as [Hu| ->]; [by destruct (Hnone u); [apply elem_of_mid; left|]|].
        apply thread_next in Hs as (_ & _ & Hcl). destruct (Hcl Hc) as [_ [Ht|Hidle]];
          [by destruct (Hnone t); [apply elem_of_mid; right|]|].
        apply idle_spec. intros x [Hx|[= ->]]%(elem_of_next _ _ (inl u)); [by apply (proj1 (idle_spec _) Hidle)|].
        by apply closing_stopped.
  - apply serving_ok in Hs as [Hok' (_ & _ & Hst)]; [|done]. split; cbn [fst snd]; [done| |done].
    intros u Hu Hp. rewrite Hst. eauto.
Qed.

Lemma protocol_initial (c : coordinator) : coordinator_ok c → protocol (c, [], []).
Proof. intros Hok. split; cbn [fst snd]; [done|..]; intros u Hu; by apply elem_of_nil in Hu. Qed.

Lemma protocol_rtc w w' : rtc step w w' → protocol w → protocol w'.
Proof. induction 1; eauto using protocol_step. Qed.

(** What happens to a module other than a reconfiguration. *)
Definition unconfigured (m m' : M) : Prop := serving_step m m' ∨ ∃ e, m' = (pm_Close m e).2.

(** A coordinator that is stopped with no reconfiguration in flight. *)
Definition ended (w : world) : Prop :=
  coordinator_ok w.1.1 ∧ co_stopped w.1.1 = true ∧ idle w.1.2 = true.

Lemma served_unconfigured (c c' : coordinator) :
  served c c' → entrywise (rtc unconfigured) (co_modules c) (co_modules c').
Proof.
  intros (He & _). eapply entrywise_impl; [|exact He]. intros m m' Hr.
  eapply rtc_subrel; [|exact Hr]. intros x y Hxy. by left.
Qed.

(** A step of a call that is not a reconfiguration in flight. *)
Lemma uncounted_step b (t : thread) (c c' : coordinator) n :
  coordinator_ok c → counted t = false → step_thread b t c = Some (c', n) →
  entrywise (rtc unconfigured) (co_modules c) (co_modules c').
Proof.
  intros Hok Hcount. destruct t as [t|t|t|t]; cbn [step_thread]; unfold lift.
  - destruct (step_reconfigure t c) as [[c1 n1]|] eqn:Hs; [|done]. intros [= <- _].
    apply reconfigure_step_effect in Hs; [|done]. destruct t as [| | | | |[]]; try done;
      cbn in Hs; destruct Hs as (-> & _); apply entrywise_same.
  - destruct (step_shutdown b t c) as [[c1 n1]|] eqn:Hs; [|done]. intros [= <- _].
    apply shutdown_step_effect in Hs as [_ Hs]; [|done].
    destruct t as [call|call|call [|p todo] err]; [|subst; apply entrywise_same|subst; apply entrywise_same|].
    + destruct Hs as [-> _]. apply entrywise_same.
    + destruct Hs as [He _]. eapply entrywise_impl; [|exact He]. intros m m' Hr.
      eapply rtc_subrel; [|exact Hr]. intros x y Hxy. by right.
  - destruct (step_pick t c) as [[c1 n1]|] eqn:Hs; [|done]. intros [= <- _].
    by eapply served_unconfigured, pick_step_served.
  - destruct (step_usage t c) as [[c1 n1]|] eqn:Hs; [|done]. intros [= <- _].
    by eapply served_unconfigured, usage_step_served.
Qed.

Lemma ended_step w w' :
  step w w' → ended w →
  ended w' ∧ entrywise (rtc unconfigured) (co_modules w.1.1) (co_modules w'.1.1).
Proof.
  intros Hs (Hok & Hstop & Hidle). pose proof (proj1 (idle_spec _) Hidle) as Hnone.
  destruct Hs as [t c ts log Hb|l t r c log c' next Hs|c c' ts log Hs]; cbn [fst snd] in *.
  - split; [|apply entrywise_same]. split; [done|]. split; [done|]. apply idle_spec.
    intros u [->|Hu]%elem_of_cons; [by apply begins_fresh in Hb as [? _]|by apply Hnone].
  - destruct (thread_step_ok _ _ _ _ _ Hok Hs) as [Hok' Hmono].
    assert (counted t = false) as Ht by (apply Hnone, elem_of_mid; by right).
    split; [|by eapply uncounted_step]. split; [done|]. split; [by apply Hmono|]. apply idle_spec.
    intros u [Hu| ->]%elem_of_next; [by apply Hnone, elem_of_mid; left|].
    apply thread_next in Hs as (Hcount & _). apply not_true_iff_false. intros [Hu|Hu]%Hcount; congruence.
  - apply serving_ok in Hs as [Hok' Hs]; [|done]. split; [|by apply served_unconfigured].
    split; [done|]. split; [|done]. destruct Hs as (_ & _ & Hst). cbn [fst snd]. congruence.
Qed.

(** C12: shutdown excludes reconfiguration. However the calls of the host interleave,
    when a shutdown has come to close the modules no reconfiguration is in flight any
    more, and from then on none is ever admitted again: whatever the calls do, a module
    changes only by what is served and by being closed. *)
Theorem shutdown_excludes_reconfigure (c : coordinator) w1 w2 t :
  coordinator_ok c → rtc step (c, [], []) w1 → t ∈ w1.1.2 → is_closing t = true → rtc step w1 w2 →
  idle w1.1.2 = true ∧ idle w2.1.2 = true ∧ co_stopped w2.1.1 = true
  ∧ entrywise (rtc unconfigured) (co_modules w1.1.1) (co_modules w2.1.1).
Proof.
  intros Hok H1 Ht Hc H2. destruct (protocol_rtc _ _ H1 (protocol_initial c Hok)) as [Hok1 Hstop Hclose].
  assert (ended w1) as Hend. { split; [done|]. split; [|eauto]. eapply Hstop; [exact Ht|]. by apply closing_stopped. }
  split; [apply Hend|]. clear -H2 Hend. induction H2 as [w|w w' w'' Hs _ IH].
  - destruct Hend as (_ & ? & ?). split_and!; [done|done|apply entrywise_same].
  - destruct (ended_step _ _ Hs Hend) as [Hend' He]. destruct (IH Hend') as (? & ? & He').
    split_and!; [done|done|by etrans].
Qed.

(** ** The registry after reconfigurations one at a time *)

Lemma served_owned_ids (c c' : coordinator) :
  coordinator_ok c → served c c' → owned_ids (co_modules c') = owned_ids (co_modules c).
Proof.
  intros Hok (He & _). unfold owned_ids. f_equal. pose proof (ok_modules _ Hok) as Hall. revert He Hall.
  generalize (co_modules c), (co_modules c'). intros l l' He. induction He as [|[p m] [q m'] l l' [Hq Hs] _ IH]; [done|].
  intros Hall. cbn in *. subst q. rewrite IH by (intros; apply Hall; by right).
  destruct (Hall p m) as (Hm & _); [left|]. by destruct (rtc_serving_ok m m' Hm Hs) as (_ & -> & _).
Qed.

(** What a reconfiguration in flight knows of the modules. *)
Definition exact_upto (c : coordinator) (t : thread) : Prop :=
  match t with
  | TReconfigure (ROwned todo owned) =>
      NoDup todo ∧ ∀ p, owned !! p = if decide (p ∈ todo) then None else owned_ids (co_modules c) !! p
  | TReconfigure (RSwap byAuth) => buildRegistry (owned_ids (co_modules c)) = Ok byAuth
  | TReconfigure RClear => registry_exact c
  | _ => True
  end.

Lemma exact_upto_served (c c' : coordinator) t :
  coordinator_ok c → served c c' → exact_upto c t → exact_upto c' t.
Proof.
  intros Hok Hs. destruct t as [[| |todo owned|byAuth| |]| | |]; cbn [exact_upto]; try done;
    rewrite ?(served_owned_ids c c' Hok Hs); [done|done|]. by apply served_exact.
Qed.

Lemma owned_ids_none (c : coordinator) p : p ∉ ids c → owned_ids (co_modules c) !! p = None.
Proof.
  intros Hp. unfold owned_ids. apply not_elem_of_list_to_map_1. rewrite <- list_fmap_compose.
  by replace (fst ∘ _) with (@fst string M).
Qed.

Lemma exact_upto_next (c c' : coordinator) t n :
  coordinator_ok c → exact_upto c (TReconfigure t) → step_reconfigure t c = Some (c', inl n) →
  exact_upto c' (TReconfigure n).
Proof.
  intros Hok He Hs.
  destruct t as [cfg host call|cfg host call [|p todo]|[|p todo] owned|byAuth| |admitted e]; cbn in Hs.
  - destruct (co_stopped c); [done|]. by injection Hs as <- <-.
  - injection Hs as <- <-. split; [apply Hok|]. intros p. rewrite lookup_empty. case_decide; [done|].
    by rewrite owned_ids_none.
  - destruct (find_module c p) as [im|]; [|done]. cbn in Hs.
    destruct (reconfigure_module call cfg host im) as [[[]|] [q m]]; by injection Hs as <- <-.
  - injection Hs as <- <-. destruct He as [_ He].
    assert (owned = owned_ids (co_modules c)) as -> by by apply map_eq.
    by destruct (buildRegistry (owned_ids (co_modules c))) eqn:Hb.
  - destruct (find_module c p) as [im|] eqn:Hf; [|done]. cbn in Hs. injection Hs as <- <-.
    apply find_in in Hf as [_ Hin]; [|done]. destruct He as [[Hp Hnd]%NoDup_cons He]. split; [done|].
    intros q. destruct (decide (q = p)) as [->|Hne].
    + rewrite lookup_insert_eq, decide_False by done. symmetry. apply owned_ids_lookup; [apply Hok|]. eauto.
    + rewrite lookup_insert_ne, He by done. apply decide_ext. rewrite elem_of_cons. naive_solver.
  - injection Hs as <- <-. apply built_exact; [|exact He]. destruct Hok. by split.
  - done.
  - done.
Qed.

Definition reconfigures (t : thread) : bool := match t with TReconfigure _ => true | _ => false end.

(** At most one reconfiguration at a time, as a host that waits for each makes them. *)
Definition one_at_a_time (w : world) : Prop :=
  (length (filter (λ t, reconfigures t = true) w.1.2) <= 1)%nat.

Definition serialised (w w' : world) : Prop := one_at_a_time w ∧ step w w'.

Lemma only_one (l r : list thread) t (c : coordinator) log :
  one_at_a_time (c, l ++ t :: r, log) → reconfigures t = true → ∀ u, u ∈ l ++ r → reconfigures u = false.
Proof.
  unfold one_at_a_time. cbn [fst snd]. rewrite filter_app, filter_cons. intros Hlen Ht u Hu.
  rewrite decide_True, length_app in Hlen by done. cbn in Hlen. rewrite Nat.add_succ_r, <- length_app, <- filter_app in Hlen.
  destruct (filter _ (l ++ r)) as [|v vs] eqn:Hf; [|cbn in Hlen; lia].
  apply not_true_iff_false. intros Hr. assert (u ∈ @nil thread) as Hnil; [|by apply elem_of_nil in Hnil].
  rewrite <- Hf. by apply list_elem_of_filter.
Qed.

Lemma exact_upto_trivial (c : coordinator) (t : thread) : counted t = false → exact_upto c t.
Proof. by destruct t as [[| | | | |[]]| | |]. Qed.

Lemma uncounted_next b (t t' : thread) (c c' : coordinator) :
  reconfigures t = false → step_thread b t c = Some (c', inl t') → counted t' = false.
Proof.
  intros Hr Hs. destruct t as [t|t|t|t]; [done|..]; cbn [step_thread] in Hs; unfold lift in Hs;
    [destruct (step_shutdown b t c) as [[? []]|]|destruct (step_pick t c) as [[? []]|]|destruct (step_usage t c) as [[? []]|]];
    by simplify_eq/=.
Qed.

(** A step of a call other than a reconfiguration keeps what one in flight knows. *)
Lemma other_step_exact b (t : thread) (c c' : coordinator) n :
  coordinator_ok c → reconfigures t = false → is_closing t = false → step_thread b t c = Some (c', n) →
  ∀ u, exact_upto c u → exact_upto c' u.
Proof.
  intros Hok Hr Hc Hs u. destruct t as [t|t|t|t]; [done| | |]; cbn [step_thread] in Hs; unfold lift in Hs.
  - destruct (step_shutdown b t c) as [[c1 n1]|] eqn:Hst; [|done]. injection Hs as <- _.
    apply shutdown_step_effect in Hst as [Hreg Hst]; [|done].
    destruct t as [call|call|call todo err]; [|by subst|done]. destruct Hst as [Hm _].
    destruct u as [[| |todo owned|byAuth| |]| | |]; cbn [exact_upto]; rewrite ?Hm; try done.
    unfold registry_exact, owns. by rewrite Hreg, Hm.
  - destruct (step_pick t c) as [[c1 n1]|] eqn:Hst; [|done]. injection Hs as <- _.
    apply exact_upto_served; [done|]. by eapply pick_step_served.
  - destruct (step_usage t c) as [[c1 n1]|] eqn:Hst; [|done]. injection Hs as <- _.
    apply exact_upto_served; [done|]. by eapply usage_step_served.
Qed.

Lemma serialised_exact_upto w w' :
  serialised w w' → protocol w → (∀ t, t ∈ w.1.2 → exact_upto w.1.1 t) → ∀ t, t ∈ w'.1.2 → exact_upto w'.1.1 t.
Proof.
  intros [Hone Hs] [Hok _ Hclose] He. destruct Hs as [t c ts log Hb|l t r c log c' next Hs|c c' ts log Hs];
    cbn [fst snd] in *.
  - apply begins_fresh in Hb as [Hcount _]. intros u [->|Hu]%elem_of_cons; [by apply exact_upto_trivial|by apply He].
  - assert (∀ u, u ∈ l ++ r → exact_upto c u) as Hothers by (intros u Hu; apply He, elem_of_mid; by left).
    assert (exact_upto c t) as Ht by (apply He, elem_of_mid; by right).
    destruct (reconfigures t) eqn:Hr.
    { pose proof (only_one _ _ _ _ _ Hone Hr) as Hnone. destruct t as [t| | |]; try done.
      cbn [step_thread] in Hs. unfold lift in Hs. destruct (step_reconfigure t c) as [[c1 n1]|] eqn:Hst; [|done].
      injection Hs as <- <-. intros u [Hu| Hnext]%elem_of_next; [by apply exact_upto_trivial; destruct u; [apply Hnone in Hu|..]|].
      destruct n1 as [n1|]; [|done]. injection Hnext as <-. by eapply exact_upto_next. }
    destruct (is_closing t) eqn:Hc.
    { pose proof (proj1 (idle_spec _) (Hclose t (proj2 (elem_of_mid l r t t) (or_intror eq_refl)) Hc)) as Hnone.
      intros u [Hu| ->]%elem_of_next; apply exact_upto_trivial; [apply Hnone, elem_of_mid; by left|].
      by eapply uncounted_next. }
    intros u [Hu| ->]%elem_of_next; [by eapply other_step_exact; [..|apply Hothers]|].
    by eapply exact_upto_trivial, uncounted_next.
  - apply serving_ok in Hs as [_ Hs]; [|done]. intros u Hu. by eapply exact_upto_served; [| |apply He].
Qed.

Lemma serialised_invariant w w' :
  rtc serialised w w' → protocol w → (∀ t, t ∈ w.1.2 → exact_upto w.1.1 t) →
  protocol w' ∧ ∀ t, t ∈ w'.1.2 → exact_upto w'.1.1 t.
Proof.
  induction 1 as [w|w w' w'' Hs _ IH]; [done|]. intros Hp He. apply IH.
  - destruct Hs. by eapply protocol_step.
  - by eapply serialised_exact_upto.
Qed.

(** No module is being reconfigured or closed, and no registry is about to be published. *)
Definition settled (w : world) : Prop :=
  ∀ t, t ∈ w.1.2 → is_closing t = false ∧ (counted t = true → t = TReconfigure RClear).

Lemma settled_exact w w' :
  step w w' → settled w → coordinator_ok w.1.1 → registry_exact w.1.1 →
  coordinator_ok w'.1.1 ∧ registry_exact w'.1.1.
Proof.
  intros Hs Hset Hok Hex. destruct Hs as [t c ts log Hb|l t r c log c' next Hs|c c' ts log Hs]; cbn [fst snd] in *.
  - done.
  - destruct (thread_step_ok _ _ _ _ _ Hok Hs) as [Hok' _]. split; [done|].
    destruct (Hset t) as [Hc Hcount]; [apply elem_of_mid; by right|].
    destruct (reconfigures t) eqn:Hr; [|by apply (other_step_exact _ _ _ _ _ Hok Hr Hc Hs (TReconfigure RClear))].
    destruct t as [t| | |]; try done. cbn [step_thread] in Hs. unfold lift in Hs.
    destruct (step_reconfigure t c) as [[c1 n1]|] eqn:Hst; [|done]. injection Hs as <- _.
    apply reconfigure_step_effect in Hst; [|done].
    assert (co_modules c1 = co_modules c ∧ co_registry c1 = co_registry c) as [Hm Hreg].
    { destruct t as [| | | | |[]]; try (by specialize (Hcount eq_refl)); cbn in Hst; by destruct Hst as (? & ? & _). }
    unfold registry_exact, owns. by rewrite Hm, Hreg.
  - apply serving_ok in Hs as [Hok' Hs]; [|done]. split; [done|]. by eapply served_exact.
Qed.

(** C11: reconfigurations made one at a time publish an exact registry, whatever picks,
    usage records, status and management requests, background work and shutdown
    requests run in between: when one is about to return successfully, and until the
    next one or a shutdown touches the modules, an auth ID leads to a module exactly
    when that module owns it, and no auth ID is owned by two modules. *)
Theorem serialised_registry_exact (c : coordinator) w1 w2 :
  coordinator_ok c → rtc serialised (c, [], []) w1 → one_at_a_time w1 → TReconfigure RClear ∈ w1.1.2 →
  rtc (λ w w', step w w' ∧ settled w') w1 w2 →
  (∀ id p, co_registry w2.1.1 !! id = Some p ↔ id ≠ "" ∧ owns w2.1.1 p id)
  ∧ ∀ id p q, id ≠ "" → owns w2.1.1 p id → owns w2.1.1 q id → p = q.
Proof.
  intros Hok H1 Hone Hclear H2.
  destruct (serialised_invariant _ _ H1 (protocol_initial c Hok)) as [[Hok1 _ Hclose] He];
    [intros u Hu; by apply elem_of_nil in Hu|].
  assert (settled w1) as Hset.
  { intros t Ht. split; [apply not_true_iff_false; intros Hc|].
    - pose proof (proj1 (idle_spec _) (Hclose t Ht Hc) _ Hclear). done.
    - intros Hcount. apply list_elem_of_split in Hclear as (l & r & Hw). destruct w1 as [[c1 ts] log]. cbn in *. subst ts.
      apply elem_of_mid in Ht as [Ht|Ht]; [|done].
      pose proof (only_one _ _ _ _ _ Hone eq_refl t Ht). by destruct t. }
  assert (registry_exact w2.1.1) as Hex.
  { pose proof (He _ Hclear) as Hex. cbn in Hex. clear -H2 Hset Hok1 Hex.
    induction H2 as [w|w w' w'' [Hs Hset'] _ IH]; [done|].
    destruct (settled_exact _ _ Hs Hset Hok1 Hex). by apply IH. }
  split; [exact Hex|]. intros id p q. by apply owner_unique.
Qed.

(** ** Picks and usage records take effect at once *)

(** Whether a module recognises a request. *)
Definition recog (c : coordinator) (req : SchedulerPickRequest) (p : string) : bool :=
  match find_module c p with Some im => recognizes im.2 req | None => false end.

Lemma recog_ids (c : coordinator) req :
  coordinator_ok c → (recognizing (co_modules c) req).*1 = filter (λ p, recog c req p = true) (ids c).
Proof.
  intros Hok. unfold recognizing, ids.
  assert (∀ p m, (p, m) ∈ co_modules c → recog c req p = recognizes m req) as Hrec.
  { intros p m Hin. unfold recog. by rewrite (find_some c p m). }
  revert Hrec. generalize (co_modules c). intros l. induction l as [|[p m] l IH]; intros Hrec; [done|].
  cbn [fmap list_fmap fst]. rewrite !filter_cons. cbn [snd]. rewrite (Hrec p m) by left.
  case_decide; cbn [fmap list_fmap fst]; rewrite IH; (done || (intros; apply Hrec; by right)).
Qed.

(** What a pick and a usage record in flight know. *)
Definition call_upto (c : coordinator) (t : thread) : Prop :=
  match t with
  | TPick (PRecognize req _ todo found) =>
      ∃ before, ids c = before ++ todo ∧ found = filter (λ p, recog c req p = true) before
  | TPick (PPick req _ p) => filter (λ p, recog c req p = true) (ids c) = [p]
  | TUsage (UHandle record _ p) => providerFor c (TrimSpace (ur_AuthID record)) = p ∧ p ≠ ""
  | _ => True
  end.

(** What a step leaves of the coordinator while no module is reconfigured or closed. *)
Definition calm (c c' : coordinator) : Prop :=
  entrywise (rtc serving_step) (co_modules c) (co_modules c') ∧ co_registry c' = co_registry c.

Lemma calm_same (c c' : coordinator) : co_modules c' = co_modules c → co_registry c' = co_registry c → calm c c'.
Proof. intros Hm Hr. split; [|done]. rewrite Hm. apply entrywise_same. Qed.

Lemma served_calm (c c' : coordinator) : served c c' → calm c c'.
Proof. by intros (? & ? & _). Qed.

Lemma settled_calm w w' : step w w' → settled w → coordinator_ok w.1.1 → coordinator_ok w'.1.1 ∧ calm w.1.1 w'.1.1.
Proof.
  intros Hs Hset Hok. destruct Hs as [t c ts log Hb|l t r c log c' next Hs|c c' ts log Hs]; cbn [fst snd] in *.
  - split; [done|]. by apply calm_same.
  - destruct (thread_step_ok _ _ _ _ _ Hok Hs) as [Hok' _]. split; [done|].
    destruct (Hset t) as [Hc Hcount]; [apply elem_of_mid; by right|].
    destruct t as [t|t|t|t]; cbn [step_thread] in Hs; unfold lift in Hs.
    + destruct (step_reconfigure t c) as [[c1 n1]|] eqn:Hst; [|done]. injection Hs as <- _.
      apply reconfigure_step_effect in Hst; [|done].
      destruct t as [| | | | |[]]; try (by specialize (Hcount eq_refl)); cbn in Hst;
        destruct Hst as (? & ? & _); by apply calm_same.
    + destruct (step_shutdown _ t c) as [[c1 n1]|] eqn:Hst; [|done]. injection Hs as <- _.
      apply shutdown_step_effect in Hst as [Hr Hst]; [|done].
      destruct t as [call|call|call todo err]; [destruct Hst; by apply calm_same|by subst; apply calm_same|done].
    + destruct (step_pick t c) as [[c1 n1]|] eqn:Hst; [|done]. injection Hs as <- _.
      by eapply served_calm, pick_step_served.
    + destruct (step_usage t c) as [[c1 n1]|] eqn:Hst; [|done]. injection Hs as <- _.
      by eapply served_calm, usage_step_served.
  - apply serving_ok in Hs as [Hok' Hs]; [|done]. split; [done|]. by apply served_calm.
Qed.

Lemma calm_ids (c c' : coordinator) : calm c c' → ids c' = ids c.
Proof. intros [He _]. exact (entrywise_ids _ _ _ He). Qed.

Lemma calm_recog (c c' : coordinator) req p :
  coordinator_ok c → coordinator_ok c' → calm c c' → recog c' req p = recog c req p.
Proof.
  intros Hok Hok' [He _]. unfold recog. destruct (find_module c p) as [im|] eqn:Hf.
  - apply find_in in Hf as [_ Hin]; [|done]. destruct (entrywise_lookup_l _ _ _ _ _ He Hin) as (m' & Hin' & Hs).
    rewrite (find_some c' p m') by done. cbn. destruct (ok_modules _ Hok p im.2 Hin) as (Hm & _).
    destruct (rtc_serving_ok _ _ Hm Hs) as (_ & _ & Hrec). unfold recognizes.
    induction (sp_Candidates req) as [|x l IH]; [done|]. cbn. by rewrite Hrec, IH.
  - destruct (find_module c' p) as [im|] eqn:Hf'; [|done]. apply find_in in Hf' as [_ Hin]; [|done].
    destruct (entrywise_lookup _ _ _ _ _ He Hin) as (m & Hin' & _). by rewrite (find_some c p m) in Hf.
Qed.

Lemma call_upto_calm (c c' : coordinator) t :
  coordinator_ok c → coordinator_ok c' → calm c c' → call_upto c t → call_upto c' t.
Proof.
  intros Hok Hok' Hcalm. pose proof (calm_ids _ _ Hcalm) as Hids.
  assert (∀ req (l : list string), filter (λ p, recog c' req p = true) l = filter (λ p, recog c req p = true) l) as Hfilter.
  { intros req l. apply list_filter_iff. intros p. by rewrite (calm_recog c c'). }
  destruct t as [| |[req call|req call todo found|req call p]|[record call|record call p]]; cbn [call_upto]; try done.
  - rewrite Hids. intros (before & Hb & ->). exists before. by rewrite Hfilter.
  - by rewrite Hids, Hfilter.
  - unfold providerFor. by rewrite (proj2 Hcalm).
Qed.

Lemma call_upto_next b (c c' : coordinator) t n :
  coordinator_ok c → call_upto c t → step_thread b t c = Some (c', inl n) → call_upto c' n.
Proof.
  intros Hok Hc Hs. destruct t as [t|t|t|t]; cbn [step_thread] in Hs; unfold lift in Hs.
  - destruct (step_reconfigure t c) as [[? []]|]; by simplify_eq/=.
  - destruct (step_shutdown b t c) as [[? []]|]; by simplify_eq/=.
  - destruct t as [req call|req call [|p todo] found|req call p]; cbn in Hs.
    + destruct (co_stopped c); [done|]. injection Hs as <- <-. by exists [].
    + destruct Hc as (before & Hids & ->). rewrite app_nil_r in Hids. subst before.
      destruct (filter _ (ids c)) as [|p [|]] eqn:Hf; try done. by injection Hs as <- <-.
    + destruct (find_module c p) as [im|] eqn:Hf; [|done]. cbn in Hs. injection Hs as <- <-.
      destruct Hc as (before & Hids & ->). exists (before ++ [p]). split; [by rewrite <- app_assoc|].
      assert (recog c req p = recognizes im.2 req) as Hr by (unfold recog; by rewrite Hf).
      rewrite filter_app, filter_cons, filter_nil, <- Hr. case_decide as Hd; [by rewrite Hd|].
      apply not_true_is_false in Hd. by rewrite Hd, app_nil_r.
    + destruct (find_module c p) as [im|]; [|done]. cbn in Hs. by destruct (pm_Pick im.2 req (call p)).
  - destruct t as [record call|record call p]; cbn in Hs.
    + case_bool_decide as Hne; [done|]. case_bool_decide; [|done]. by injection Hs as <- <-.
    + destruct (find_module c p) as [im|]; [|done]. cbn in Hs. by destruct (pm_HandleUsage im.2 record (call p)).
Qed.

Lemma settled_invariant w w' :
  rtc (λ w w', step w w' ∧ settled w') w w' → coordinator_ok w.1.1 → settled w →
  (∀ t, t ∈ w.1.2 → call_upto w.1.1 t) →
  coordinator_ok w'.1.1 ∧ ∀ t, t ∈ w'.1.2 → call_upto w'.1.1 t.
Proof.
  induction 1 as [w|w w' w'' [Hs Hset'] _ IH]; [done|]. intros Hok Hset Hall.
  destruct (settled_calm _ _ Hs Hset Hok) as [Hok' Hcalm]. apply IH; [done|done|].
  destruct Hs as [t c ts log Hb|l t r c log c' next Hs|c c' ts log Hs]; cbn [fst snd] in *.
  - intros u [->|Hu]%elem_of_cons; [|by apply Hall].
    destruct Hb as [(raw & call & ->)|[(call & ->)|[(req & call & ->)|(record & call & ->)]]]; done.
  - intros u [Hu| ->]%elem_of_next; [apply (call_upto_calm c c'); [done..|]; apply Hall, elem_of_mid; by left|].
    apply (call_upto_next (idle (l ++ r)) c c' t u Hok); [|exact Hs]. apply Hall, elem_of_mid. by right.
  - intros u Hu. by apply (call_upto_calm c c'); [..|apply Hall].
Qed.

(** What a pick was called with. *)
Definition pick_request (t : picking (E := E)) : SchedulerPickRequest * (string → E) :=
  match t with PStart req call | PRecognize req call _ _ | PPick req call _ => (req, call) end.

Definition usage_record (t : reporting (E := E)) : UsageRecord * (string → E) :=
  match t with UStart record call | UHandle record call _ => (record, call) end.

Lemma pick_returns (c c' : coordinator) t r :
  coordinator_ok c → co_stopped c = false → call_upto c (TPick t) → step_pick t c = Some (c', inr r) →
  pick c (pick_request t).1 (pick_request t).2 = (r, c').
Proof.
  intros Hok Hst Hc. unfold pick. rewrite Hst. pose proof (recog_ids c (pick_request t).1 Hok) as Hrec. revert Hrec.
  destruct t as [req call|req call [|p todo] found|req call p]; cbn [pick_request fst snd step_pick].
  - by rewrite Hst.
  - destruct Hc as (before & Hids & ->). rewrite app_nil_r in Hids. subst before. intros <-.
    destruct (recognizing (co_modules c) req) as [|[p m] [|[q n] rest]]; cbn; by intros [= <- <-].
  - by destruct (find_module c p).
  - cbn in Hc. rewrite Hc. intros Hrec.
    destruct (recognizing (co_modules c) req) as [|[q m] [|]] eqn:Hr; try done. cbn in Hrec. injection Hrec as ->.
    destruct (proj1 (recognizing_elem (co_modules c) req p m)) as [Hin _]; [rewrite Hr; left|].
    rewrite (find_some c p m) by done. cbn. destruct (pm_Pick m req (call p)). by intros [= <- <-].
Qed.

Lemma find_none (c : coordinator) p : p ∉ ids c → find_module c p = None.
Proof.
  intros Hp. unfold find_module. destruct (filter _ _) as [|im l] eqn:Hf; [done|]. destruct Hp.
  assert (im ∈ filter (λ im : string * M, im.1 = p) (co_modules c)) as Hin by (rewrite Hf; left).
  apply list_elem_of_filter in Hin as [<- Hin]. apply list_elem_of_fmap. eauto.
Qed.

Lemma usage_returns (c c' : coordinator) t r :
  coordinator_ok c → call_upto c (TUsage t) → step_usage t c = Some (c', inr r) →
  handleUsage c (usage_record t).1 (usage_record t).2 = (r, c').
Proof.
  intros Hok Hc. unfold handleUsage. destruct t as [record call|record call p]; cbn [usage_record fst snd step_usage].
  - case_bool_decide; [by intros [= <- <-]|]. case_bool_decide as Hin; [done|]. rewrite find_none by done.
    by intros [= <- <-].
  - destruct Hc as [-> Hne]. rewrite bool_decide_eq_false_2 by done.
    destruct (find_module c p) as [[q m]|] eqn:Hf; [|done]. apply find_in in Hf as [Hq _]; [|done]. cbn in Hq. subst q.
    cbn. destruct (pm_HandleUsage m record (call p)). by intros [= <- <-].
Qed.

(** C14: picks and usage records take effect at once. While no module is reconfigured or
    closed, however the calls of the host interleave, what a pick returns and does in its
    last step is what the uninterrupted pick would return and do at that moment, unless
    the coordinator was stopped meanwhile; and so for a usage record. *)
Theorem calls_take_effect_at_once (c : coordinator) w t c' :
  coordinator_ok c → rtc (λ w w', step w w' ∧ settled w') (c, [], []) w → t ∈ w.1.2 →
  match t with
  | TPick t => ∀ r, co_stopped w.1.1 = false → step_pick t w.1.1 = Some (c', inr r) →
      pick w.1.1 (pick_request t).1 (pick_request t).2 = (r, c')
  | TUsage t => ∀ r, step_usage t w.1.1 = Some (c', inr r) →
      handleUsage w.1.1 (usage_record t).1 (usage_record t).2 = (r, c')
  | _ => True
  end.
Proof.
  intros Hok Hs Ht. destruct (settled_invariant _ _ Hs) as [Hok' Hall]; [done|intros u Hu; by apply elem_of_nil in Hu..|].
  specialize (Hall t Ht). destruct t as [t|t|t|t]; [done|done|..].
  - intros r Hst Hstep. by apply pick_returns.
  - intros r Hstep. by apply usage_returns.
Qed.

(** ** A call that is not interrupted is the atomic one *)

Lemma step_on l (t t' : thread) r (c c' : coordinator) log :
  step_thread (idle (l ++ r)) t c = Some (c', inl t') → step (c, l ++ t :: r, log) (c', l ++ t' :: r, log).
Proof. intros Hs. pose proof (step_run l t r c log c' (inl t') Hs) as Hr. by rewrite app_nil_r in Hr. Qed.

Lemma step_off l (t : thread) r (c c' : coordinator) log o :
  step_thread (idle (l ++ r)) t c = Some (c', inr o) → step (c, l ++ t :: r, log) (c', l ++ r, log ++ [o]).
Proof. intros Hs. exact (step_run l t r c log c' (inr o) Hs). Qed.

Lemma reconfigure_on l r log (c c' : coordinator) (t t' : reconfiguring (N := N) (E := E)) :
  step_reconfigure t c = Some (c', inl t') →
  step (c, l ++ TReconfigure t :: r, log) (c', l ++ TReconfigure t' :: r, log).
Proof. intros Hs. apply step_on. cbn [step_thread]. by rewrite Hs. Qed.

Lemma reconfigure_off l r log (c c' : coordinator) (t : reconfiguring (N := N) (E := E)) o :
  step_reconfigure t c = Some (c', inr o) →
  step (c, l ++ TReconfigure t :: r, log) (c', l ++ r, log ++ [OReconfigure o]).
Proof. intros Hs. apply step_off. cbn [step_thread]. by rewrite Hs. Qed.

Lemma set_module_middle (c : coordinator) before p m m' rest :
  NoDup (co_modules c).*1 → co_modules c = before ++ (p, m) :: rest →
  set_module p m' c = set_modules (before ++ (p, m') :: rest) c.
Proof.
  intros Hnd Hm. unfold set_module. f_equal. rewrite Hm in Hnd |- *. rewrite (fmap_app fst), fmap_cons in Hnd.
  rewrite fmap_app, fmap_cons. cbn [fst] in Hnd |- *.
  rewrite bool_decide_eq_true_2 by done. apply NoDup_app in Hnd as (_ & Hb & [Hr _]%NoDup_cons).
  assert (∀ l : list (string * M), p ∉ l.*1 → (λ im, if bool_decide (im.1 = p) then (im.1, m') else im) <$> l = l) as Hid.
  { intros l Hp. rewrite <- (list_fmap_id l) at 2. apply list_fmap_ext. intros i [q x] Hq. cbn.
    rewrite bool_decide_eq_false_2; [done|]. intros ->. apply Hp, list_elem_of_fmap. exists (p, x).
    split; [done|]. by eapply list_elem_of_lookup_2. }
  rewrite !Hid; [done|exact Hr|]. intros Hp. apply (Hb p Hp). left.
Qed.

Lemma run_modules l r log (cfg : coordinatorConfig N) host (call : reconfigure_call N E) (rest before : list (string * M)) (c : coordinator) :
  NoDup (co_modules c).*1 → co_modules c = before ++ rest →
  let '(result, rest') := reconfigure_modules call cfg host rest in
  rtc step (c, l ++ TReconfigure (RModules cfg host call rest.*1) :: r, log)
    (set_modules (before ++ rest') c,
     l ++ TReconfigure match result with Ok _ => RModules cfg host call [] | Err e => RFail true e end :: r, log).
Proof.
  revert before c. induction rest as [|[p m] rest IH]; intros before c Hnd Hm; cbn [reconfigure_modules].
  { rewrite app_nil_r in *. replace (set_modules before c) with c; [done|]. rewrite <- Hm. by destruct c. }
  assert (find_module c p = Some (p, m)) as Hf.
  { apply find_module_Some; [done|]. split; [done|]. rewrite Hm. apply elem_of_app. right. left. }
  pose proof (reconfigure_module_steps call cfg host (p, m)) as [Hid _].
  destruct (reconfigure_module call cfg host (p, m)) as [result [q m']] eqn:Hr. cbn [fst snd] in Hid. subst q.
  pose proof (set_module_middle c before p m m' rest Hnd Hm) as Hset.
  assert (step (c, l ++ TReconfigure (RModules cfg host call (p :: rest.*1)) :: r, log)
    (set_modules (before ++ (p, m') :: rest) c,
     l ++ TReconfigure match result with Ok _ => RModules cfg host call rest.*1 | Err e => RFail true e end :: r, log))
    as Hstep.
  { apply reconfigure_on. cbn [step_reconfigure]. rewrite Hf. cbn [mbind option_bind]. by rewrite Hr, Hset. }
  destruct result as [[]|e]; [|by apply rtc_once].
  specialize (IH (before ++ [(p, m')]) (set_modules (before ++ (p, m') :: rest) c)).
  destruct (reconfigure_modules call cfg host rest) as [result rest'] eqn:Hrest.
  eapply rtc_l; [exact Hstep|]. cbn [co_modules set_modules] in IH. rewrite <- app_assoc in IH. cbn [app] in IH.
  specialize (IH ltac:(rewrite Hm in Hnd; rewrite fmap_app, fmap_cons in Hnd |- *; exact Hnd) eq_refl).
  rewrite <- app_assoc in IH. exact IH.
Qed.

Lemma run_owned (l r : list thread) log (c : coordinator) todo owned :
  coordinator_ok c → todo ⊆ ids c → exact_upto c (TReconfigure (ROwned todo owned)) →
  rtc step (c, l ++ TReconfigure (ROwned todo owned) :: r, log)
    (c, l ++ TReconfigure (ROwned [] (owned_ids (co_modules c))) :: r, log).
Proof.
  intros Hok. revert owned. induction todo as [|p todo IH]; intros owned Hsub He.
  - destruct He as [_ He]. replace owned with (owned_ids (co_modules c)); [done|]. symmetry. by apply map_eq.
  - assert (∃ m, find_module c p = Some (p, m)) as [m Hf].
    { assert (p ∈ ids c) as Hp by (apply Hsub; left). unfold ids in Hp. apply list_elem_of_fmap in Hp as ([q m] & -> & Hin).
      exists m. by apply find_some. }
    assert (step_reconfigure (ROwned (N := N) (E := E) (p :: todo) owned) c
      = Some (c, inl (ROwned todo (<[p := pm_OwnedAuthIDs m]> owned)))) as Hs by (cbn; by rewrite Hf).
    eapply rtc_l; [by apply reconfigure_on|].
    apply IH; [intros q Hq; apply Hsub; by right|]. by eapply exact_upto_next.
Qed.

(** Up to where a reconfiguration has seen what every module owns. *)
Lemma run_to_built (l r : list thread) log (c : coordinator) cfg host (call : reconfigure_call N E) modules :
  coordinator_ok c → co_stopped c = false → reconfigure_modules call cfg host (co_modules c) = (Ok (), modules) →
  rtc step (c, l ++ TReconfigure (RAdmit cfg host call) :: r, log)
    (set_modules modules c, l ++ TReconfigure match buildRegistry (owned_ids modules) with
                                             | Ok byAuth => RSwap byAuth | Err e => RFail true e end :: r, log).
Proof.
  intros Hok Hst Hmodules. pose proof (run_modules l r log cfg host call (co_modules c) [] c (ok_ids _ Hok) eq_refl) as Hrun.
  pose proof (reconfigure_modules_steps call cfg host (co_modules c)) as He. rewrite Hmodules in Hrun, He. cbn [app snd] in *.
  assert (coordinator_ok (set_modules modules c)) as Hok' by by eapply entrywise_ok.
  eapply rtc_l; [apply reconfigure_on; cbn [step_reconfigure]; by rewrite Hst|]. etrans; [exact Hrun|].
  eapply rtc_l; [by apply reconfigure_on|]. etrans; [apply run_owned; [done..|]|].
  - split; [apply Hok'|]. intros p. rewrite lookup_empty. case_decide; [done|]. by rewrite owned_ids_none.
  - by apply rtc_once, reconfigure_on.
Qed.

(** Up to where one that will succeed publishes the registry. *)
Lemma run_to_swap (l r : list thread) log (c c' : coordinator) raw call :
  coordinator_ok c → Coordinator.reconfigure c raw call = (Ok (), c') →
  co_stopped c = false
  ∧ rtc step (c, l ++ TReconfigure (start_reconfigure raw call) :: r, log)
      (set_modules (co_modules c') c, l ++ TReconfigure (RSwap (co_registry c')) :: r, log)
  ∧ c' = clear_error (set_registry (co_registry c') (set_modules (co_modules c') c)).
Proof.
  intros Hok. unfold reconfigure, start_reconfigure. destruct (prepare call raw) as [[cfg host]|]; [|done].
  destruct (co_stopped c) eqn:Hst; [done|]. pose proof (run_to_built l r log c cfg host call) as Hrun.
  destruct (reconfigure_modules call cfg host (co_modules c)) as [[[]|e] modules]; [|done].
  specialize (Hrun modules Hok Hst eq_refl).
  destruct (buildRegistry (owned_ids modules)) as [byAuth|]; [|done]. intros [= <-]. cbn [co_modules co_registry].
  split; [done|]. split; [exact Hrun|]. unfold clear_error. cbn. by rewrite Hst.
Qed.

(** A reconfiguration that is not interrupted is the one of [Coordinator]. *)
Theorem run_alone (l r : list thread) log (c : coordinator) raw (call : reconfigure_call N E) :
  coordinator_ok c →
  rtc step (c, l ++ TReconfigure (start_reconfigure raw call) :: r, log)
    ((Coordinator.reconfigure c raw call).2, l ++ r, log ++ [OReconfigure (Coordinator.reconfigure c raw call).1]).
Proof.
  intros Hok. unfold reconfigure, start_reconfigure. destruct (prepare call raw) as [[cfg host]|e].
  2: { by apply rtc_once, reconfigure_off. }
  destruct (co_stopped c) eqn:Hst.
  { apply rtc_once, reconfigure_off. cbn [step_reconfigure]. by rewrite Hst. }
  pose proof (run_modules l r log cfg host call (co_modules c) [] c (ok_ids _ Hok) eq_refl) as Hrun.
  pose proof (run_to_built l r log c cfg host call) as Hbuilt.
  destruct (reconfigure_modules call cfg host (co_modules c)) as [[[]|e] modules]; cbn [app snd] in *.
  - specialize (Hbuilt modules Hok Hst eq_refl). etrans; [exact Hbuilt|].
    destruct (buildRegistry (owned_ids modules)) as [byAuth|e]; [|by apply rtc_once, reconfigure_off].
    eapply rtc_l; [by apply reconfigure_on|]. apply rtc_once, reconfigure_off.
    cbn [step_reconfigure]. unfold clear_error. cbn. by rewrite Hst.
  - eapply rtc_l; [apply reconfigure_on; cbn [step_reconfigure]; by rewrite Hst|].
    etrans; [exact Hrun|]. by apply rtc_once, reconfigure_off.
Qed.

(** ** Two reconfigurations at the same time *)

(** A successful reconfiguration depends on the modules alone. *)
Lemma reconfigure_same_modules (c d c' : coordinator) raw (call : reconfigure_call N E) :
  co_modules d = co_modules c → co_stopped d = co_stopped c →
  Coordinator.reconfigure c raw call = (Ok (), c') → Coordinator.reconfigure d raw call = (Ok (), c').
Proof.
  intros Hm Hst. unfold reconfigure. rewrite Hm, Hst. destruct (prepare call raw) as [[cfg host]|]; [|done].
  destruct (co_stopped c) eqn:Hc; [done|].
  destruct (reconfigure_modules call cfg host (co_modules c)) as [[[]|e] modules]; [|done].
  destruct (buildRegistry (owned_ids modules)); [|done]. cbn [co_stopped set_modules]. by rewrite Hst, Hc.
Qed.

(** C13: two reconfigurations that overlap can leave the registry of the one and the
    modules of the other. Whenever two reconfigurations succeed one after the other, some
    interleaving of them lets both return successfully and ends with the modules as the
    second leaves them under the registry of the first: usage of an auth ID that only the
    second configuration has is then dropped without an error. *)
Theorem overlapping_reconfigures_stale (c cA cB : coordinator) rawA rawB (callA callB : reconfigure_call N E) :
  coordinator_ok c → Coordinator.reconfigure c rawA callA = (Ok (), cA) →
  Coordinator.reconfigure cA rawB callB = (Ok (), cB) →
  let stale := set_registry (co_registry cA) cB in
  rtc step (c, [TReconfigure (start_reconfigure rawA callA); TReconfigure (start_reconfigure rawB callB)], [])
    (stale, [], [OReconfigure (Ok ()); OReconfigure (Ok ())])
  ∧ ∀ p id record call, owns stale p id → co_registry cA !! id = None → TrimSpace (ur_AuthID record) = id →
      handleUsage stale record call = (Ok (), stale).
Proof.
  intros Hok HA HB. cbv zeta. split.
  - destruct (run_to_swap [] [TReconfigure (start_reconfigure rawB callB)] [] c cA rawA callA Hok HA) as (HstA & Hrun & HcA).
    destruct (reconfigure_entrywise c rawA callA) as [He Hst]. rewrite HA in He, Hst. cbn [snd] in He, Hst.
    assert (coordinator_ok (set_modules (co_modules cA) c)) as Hok' by by eapply entrywise_ok.
    assert (Coordinator.reconfigure (set_modules (co_modules cA) c) rawB callB = (Ok (), cB)) as HB'.
    { by apply (reconfigure_same_modules cA). }
    pose proof (run_alone [TReconfigure (RSwap (co_registry cA))] [] [] _ rawB callB Hok') as Hrun'.
    rewrite HB' in Hrun'. cbn [fst snd app] in *. etrans; [exact Hrun|]. etrans; [exact Hrun'|].
    destruct (run_to_swap [] [] [] _ cB rawB callB Hok' HB') as (_ & _ & HcB).
    assert (co_lastErr cB = None) as Herr.
    { rewrite HcB. unfold clear_error. cbn. by rewrite HstA. }
    eapply rtc_l; [by apply (reconfigure_on [] [])|]. cbn [app].
    eapply rtc_l; [by apply (reconfigure_off [] [])|]. cbn [app].
    replace (clear_error (set_registry (co_registry cA) cB)) with (set_registry (co_registry cA) cB); [done|].
    unfold clear_error. destruct (co_stopped (set_registry (co_registry cA) cB)) eqn:Hs; [done|].
    unfold set_registry in *. cbn in *. by rewrite Herr, Hs.
  - intros p id record call Hown Hnone Hid. unfold handleUsage, providerFor. cbn [co_registry set_registry].
    by rewrite Hid, Hnone.
Qed.

End Theorems.

(** ** Schedules *)

Section Schedules.
Context `{GoStd} {N M E J R : Type} `{ProviderModule M E J R}.

Abbreviation world := (world (N := N) (M := M) (E := E)) (only parsing).
Abbreviation thread := (thread (N := N) (E := E)) (only parsing).

(** Run the calls in the order of a schedule of their positions, as long as every state
    on the way passes a test. *)
Fixpoint play (ok : world → bool) (schedule : list nat) (w : world) : option world :=
  match schedule with
  | [] => Some w
  | i :: schedule =>
      let '(c, ts, log) := w in
      t ← ts !! i;
      let l := take i ts in
      let r := drop (S i) ts in
      '(c', next) ← step_thread (idle (l ++ r)) t c;
      let w' := (c', l ++ match next with inl t => [t] | inr _ => [] end ++ r,
                 log ++ match next with inl _ => [] | inr o => [o] end) in
      if ok w && ok w' then play ok schedule w' else None
  end.

Definition played (ok : world → bool) (schedule : list nat) (w : world) : world :=
  default w (play ok schedule w).

Definition plays (ok : world → bool) (schedule : list nat) (w : world) : bool :=
  match play ok schedule w with Some _ => true | None => false end.

Lemma play_rtc (ok : world → bool) (R' : world → world → Prop) schedule w :
  (∀ w w', ok w = true → step w w' → ok w' = true → R' w w') →
  plays ok schedule w = true → rtc R' w (played ok schedule w).
Proof.
  unfold plays, played. intros HR. revert w. induction schedule as [|i schedule IH]; intros [[c ts] log]; [done|].
  cbn [play]. destruct (ts !! i) as [t|] eqn:Ht; [|done]. cbn [mbind option_bind].
  destruct (step_thread (idle (take i ts ++ drop (S i) ts)) t c) as [[c' next]|] eqn:Hs; [|done]. cbn [mbind option_bind].
  set (w' := (c', _, _)). destruct (ok (c, ts, log)) eqn:Hok; [|done]. destruct (ok w') eqn:Hok'; [|done]. cbn [andb].
  intros Hplay. specialize (IH w' Hplay). destruct (play ok schedule w') as [w''|]; [|done].
  eapply rtc_l; [|exact IH]. apply HR; [done| |done].
  rewrite <- (take_drop_middle ts i t Ht) at 1. by apply step_run.
Qed.

Definition any_world (w : world) : bool := true.

Definition serial_test (w : world) : bool :=
  bool_decide (length (filter (λ t, reconfigures t = true) w.1.2) <= 1)%nat.

Lemma serial_test_ok (w : world) : serial_test w = true → one_at_a_time w.
Proof. exact (bool_decide_eq_true_1 _). Qed.

Definition is_clear (t : thread) : bool := match t with TReconfigure RClear => true | _ => false end.

Definition settled_test (w : world) : bool :=
  forallb (λ t, negb (is_closing t) && (negb (counted t) || is_clear t)) w.1.2.

Lemma settled_test_ok (w : world) : settled_test w = true → settled w.
Proof.
  unfold settled_test. rewrite forallb_forall. intros Hall t Ht%list_elem_of_In.
  apply Hall, andb_true_iff in Ht as [Hc%negb_true_iff Ht]. split; [done|].
  intros Hcount. rewrite Hcount in Ht. by destruct t as [[]| | |].
Qed.

Lemma play_steps schedule (w : world) : plays any_world schedule w = true → rtc step w (played any_world schedule w).
Proof. by apply play_rtc. Qed.

Lemma play_serialised schedule (w : world) :
  plays serial_test schedule w = true → rtc serialised w (played serial_test schedule w).
Proof. apply play_rtc. intros v v' Hv Hs _. split; [by apply serial_test_ok|done]. Qed.

Lemma play_settled schedule (w : world) :
  plays settled_test schedule w = true → rtc (λ w w', step w w' ∧ settled w') w (played settled_test schedule w).
Proof. apply play_rtc. intros v v' _ Hs Hv. split; [done|by apply settled_test_ok]. Qed.

End Schedules.

(** ** Witnesses *)

Import DemoStd DemoPlugin.

Abbreviation demo_world := (world (N := string) (M := hosted) (E := hosted_call)) (only parsing).
Abbreviation demo_thread := (thread (N := string) (E := hosted_call)) (only parsing).

Definition begun (t : demo_thread) (w : demo_world) : demo_world :=
  (w.1.1, t :: w.1.2, w.2).

Lemma begun_step t w : begins t → step w (begun t w).
Proof. destruct w as [[c ts] log]. apply step_begin. Qed.

Definition reconfiguration (raw : string) : demo_thread := TReconfigure (start_reconfigure raw demo_reconfigure).
Definition a_pick (ids : list string) : demo_thread := TPick (PStart (request ids) module_call).
Definition a_report (id : string) : demo_thread := TUsage (UStart (usage_of id) module_call).
Definition a_shutdown : demo_thread := TShutdown (SStart module_call).

Lemma reconfiguration_begins raw : begins (reconfiguration raw).
Proof. left. by exists raw, demo_reconfigure. Qed.

Lemma pick_begins ids : begins (a_pick ids).
Proof. right. right. left. by exists (request ids), module_call. Qed.

Lemma report_begins id : begins (a_report id).
Proof. right. right. right. by exists (usage_of id), module_call. Qed.

Lemma shutdown_begins : begins a_shutdown.
Proof. right. left. by exists module_call. Qed.

(** A shutdown is requested while the modules are reconfigured: it waits. *)
Definition stopping : demo_world := begun a_shutdown (begun (reconfiguration "ok") (loaded, [], [])).
Definition about_to_close : demo_world := played any_world [1; 0; 1; 1; 1; 1; 1; 1; 1; 1; 0]%nat stopping.
Definition closed : demo_world := played any_world [0; 0; 0]%nat about_to_close.

Example shutdown_waits : plays any_world [1; 0; 0]%nat stopping = false.
Proof. vm_compute. reflexivity. Qed.

Lemma shutdown_excludes_reconfigure_witness :
  idle closed.1.2 = true ∧ co_stopped closed.1.1 = true ∧ closed.2 = [OReconfigure (Ok ()); OShutdown (Ok ())].
Proof.
  destruct (shutdown_excludes_reconfigure loaded about_to_close closed
    (TShutdown (SClose module_call (ids loaded) None)) loaded_ok) as (_ & Hidle & Hstop & _).
  - eapply rtc_l; [apply begun_step, reconfiguration_begins|]. eapply rtc_l; [apply begun_step, shutdown_begins|].
    apply play_steps. vm_compute. reflexivity.
  - apply (list_elem_of_lookup_2 _ 0). vm_compute. reflexivity.
  - reflexivity.
  - apply play_steps. vm_compute. reflexivity.
  - split; [exact Hidle|]. split; [exact Hstop|]. vm_compute. reflexivity.
Defined.

(** A pick is served between the steps of a reconfiguration; then another one, and a
    usage record. *)
Definition reconfiguring_once : demo_world :=
  played serial_test [1; 1; 1; 0; 0; 0; 1; 1; 1; 1; 1]%nat
    (begun (a_pick ["a1"]) (begun (reconfiguration "ok") (loaded, [], []))).

Definition served_since : demo_world :=
  played settled_test [0; 1; 0; 1; 0; 0]%nat (begun (a_report "a1") (begun (a_pick ["a1"]) reconfiguring_once)).

Lemma serialised_registry_exact_witness :
  owns served_since.1.1 "opencode-go" "a1" ∧ ¬ owns served_since.1.1 "zai" "a1".
Proof.
  destruct (serialised_registry_exact loaded reconfiguring_once served_since loaded_ok) as [Hex Huniq].
  - eapply rtc_l; [split; [apply serial_test_ok; vm_compute; reflexivity|apply begun_step, reconfiguration_begins]|].
    eapply rtc_l; [split; [apply serial_test_ok; vm_compute; reflexivity|apply begun_step, pick_begins]|].
    apply play_serialised. vm_compute. reflexivity.
  - apply serial_test_ok. vm_compute. reflexivity.
  - apply (list_elem_of_lookup_2 _ 1). vm_compute. reflexivity.
  - eapply rtc_l; [split; [apply begun_step, pick_begins|]|eapply rtc_l; [split; [apply begun_step, report_begins|]|]];
      [apply settled_test_ok; vm_compute; reflexivity..|]. apply play_settled. vm_compute. reflexivity.
  - assert (owns served_since.1.1 "opencode-go" "a1") as Ha.
    { apply (Hex "a1" "opencode-go"). vm_compute. reflexivity. }
    split; [exact Ha|]. intros Hz. discriminate (Huniq "a1" "opencode-go" "zai" ltac:(done) Ha Hz).
Defined.

(** A usage record is handled while a pick is being decided. *)
Definition two_calls : demo_world :=
  played settled_test [0; 1; 0; 0; 0; 1]%nat (begun (a_pick ["a1"]) (begun (a_report "a1") (configured, [], []))).

Definition chosen : picking (E := hosted_call) := PPick (request ["a1"]) module_call "opencode-go".

Definition after_pick : Coordinator hosted := (default (two_calls.1.1, inr (Err ECanceled)) (step_pick chosen two_calls.1.1)).1.

Lemma calls_take_effect_at_once_witness :
  two_calls.2 = [OUsage (Ok ())]
  ∧ pick two_calls.1.1 (request ["a1"]) module_call = (Ok (selected_auth "a1"), after_pick).
Proof.
  split; [vm_compute; reflexivity|].
  apply (calls_take_effect_at_once configured two_calls (TPick chosen) after_pick configured_ok).
  - eapply rtc_l; [split; [apply begun_step, report_begins|apply settled_test_ok; vm_compute; reflexivity]|].
    eapply rtc_l; [split; [apply begun_step, pick_begins|apply settled_test_ok; vm_compute; reflexivity]|].
    apply play_settled. vm_compute. reflexivity.
  - apply (list_elem_of_lookup_2 _ 0). vm_compute. reflexivity.
  - vm_compute. reflexivity.
  - vm_compute. reflexivity.
Defined.

(** The second configuration renames the account. *)
Definition renamed : Coordinator hosted := (Coordinator.reconfigure configured "new" demo_reconfigure).2.

Lemma renamed_result : Coordinator.reconfigure configured "new" demo_reconfigure = (Ok (), renamed).
Proof. refine (split_result (Coordinator.reconfigure configured "new" demo_reconfigure) (Ok ()) _). by vm_compute. Qed.

Lemma overlapping_reconfigures_stale_witness :
  let stale := set_registry (co_registry configured) renamed in
  rtc step (loaded, [reconfiguration "ok"; reconfiguration "new"], []) (stale, [], [OReconfigure (Ok ()); OReconfigure (Ok ())])
  ∧ owns stale "opencode-go" "c1" ∧ handleUsage stale (usage_of "c1") module_call = (Ok (), stale).
Proof.
  cbv zeta.
  destruct (overlapping_reconfigures_stale loaded configured renamed "ok" "new" demo_reconfigure demo_reconfigure
    loaded_ok configured_result renamed_result) as [Hrun Hdrop].
  assert (owns (set_registry (co_registry configured) renamed) "opencode-go" "c1") as Hown.
  { exists (entry renamed 1).2. split; [apply (list_elem_of_lookup_2 _ 1); vm_compute; reflexivity|]. by_decision. }
  split; [exact Hrun|]. split; [exact Hown|]. apply (Hdrop _ _ _ _ Hown); vm_compute; reflexivity.
Defined.
