(* ===== verification/CInterface.v ===== *)
(** * The plugin's C interface (src/src/plugin_linux.go, src/internal/abiclient)

    The plugin is a shared library, called through a table of C functions. A request is
    copied into memory of [malloc], the plugin copies it from there and answers in a
    buffer of [malloc] that the caller hands back to be freed. Both sides are modelled on
    one process: the plugin's entry points, and the client that drives them as the host
    does. Whatever C leaves undefined (freeing twice, reading what is freed or behind the
    end of a block, calling into a library that is closed) is [Undefined], and a run-time
    panic of Go, which ends the process, is [Panicked]. *)

From S2P Require Import Prelude GoStrings GoFloat Host Config Accounts Quota Settings Runtime RuntimeSteps Management OpenCodeUsage OpenCodeGo ProviderModule ZaiModule OpenCodeModule Coordinator Plugin.

(** ** Memory of C *)

Abbreviation addr := positive (only parsing).

(** A process of the host: the blocks [malloc] has given out, the state of the plugin's
    own runtime, and how often the library is open. *)
Record process (S : Type) := {
  proc_heap : gmap addr string;
  proc_plugin : S;
  proc_loaded : nat;
}.
Arguments proc_heap {S}.
Arguments proc_plugin {S}.
Arguments proc_loaded {S}.

Inductive effect (A : Type) :=
| Returned (a : A)
| Panicked
| Undefined.
Arguments Returned {A}.
Arguments Panicked {A}.
Arguments Undefined {A}.

Definition cprog (S A : Type) : Type := process S → effect (A * process S).

#[export] Instance cprog_ret S : MRet (cprog S) := λ A a p, Returned (a, p).

#[export] Instance cprog_bind S : MBind (cprog S) := λ A B f m p,
  match m p with Returned (a, p) => f a p | Panicked => Panicked | Undefined => Undefined end.

#[export] Instance cprog_fmap S : FMap (cprog S) := λ A B f m p,
  match m p with Returned (a, p) => Returned (f a, p) | Panicked => Panicked | Undefined => Undefined end.

(** Where [malloc] puts the next block. It never fails: Go ends the process first. *)
Class CMalloc := { malloc : gmap addr string → addr }.

Class CMallocLaws `{CMalloc} := { malloc_fresh h : h !! malloc h = None }.

Definition nul : ascii := "000"%char.

(** The characters before the first NUL, when there is one. *)
Fixpoint before_nul (l : list ascii) : option (list ascii) :=
  match l with
  | [] => None
  | c :: l => if bool_decide (c = nul) then Some [] else (c ::.) <$> before_nul l
  end.

(** What C sees of a Go string. *)
Definition c_string (s : string) : string := str (default (chars s) (before_nul (chars s))).

(** [C.int] *)
Definition wrap32 (z : Z) : Z := (z + 2147483648) mod 4294967296 - 2147483648.
Arguments wrap32 : simpl never.

Section Memory.
Context `{CMalloc} {S : Type}.

Abbreviation cprog := (cprog S) (only parsing).
Abbreviation process := (process S) (only parsing).

Definition with_heap (h : gmap addr string) (p : process) : process :=
  {| proc_heap := h; proc_plugin := proc_plugin p; proc_loaded := proc_loaded p |}.

Definition with_plugin (s : S) (p : process) : process :=
  {| proc_heap := proc_heap p; proc_plugin := s; proc_loaded := proc_loaded p |}.

Definition with_loaded (n : nat) (p : process) : process :=
  {| proc_heap := proc_heap p; proc_plugin := proc_plugin p; proc_loaded := n |}.

Definition undefined {A} : cprog A := λ _, Undefined.
Definition panic {A} : cprog A := λ _, Panicked.

(** A new block with these bytes. *)
Definition alloc (bytes : string) : cprog addr := λ p,
  let a := malloc (proc_heap p) in Returned (a, with_heap (<[a := bytes]> (proc_heap p)) p).

Definition load (a : addr) : cprog string := λ p,
  match proc_heap p !! a with Some bytes => Returned (bytes, p) | None => Undefined end.

(** [C.free] *)
Definition free (a : option addr) : cprog () := λ p,
  match a with
  | None => Returned ((), p)
  | Some a =>
      match proc_heap p !! a with
      | Some _ => Returned ((), with_heap (delete a (proc_heap p)) p)
      | None => Undefined
      end
  end.

(** [C.CString], [C.CBytes], [C.GoString] and [C.GoBytes] *)
Definition CString (s : string) : cprog addr := alloc (str (chars s ++ [nul])).
Definition CBytes (bytes : string) : cprog addr := alloc bytes.

Definition GoString (a : addr) : cprog string :=
  bytes ← load a;
  match before_nul (chars bytes) with Some l => mret (str l) | None => undefined end.

Definition GoBytes (a : option addr) (n : Z) : cprog string :=
  if n =? 0 then mret "" else
  if n <? 0 then panic else
  match a with
  | None => undefined
  | Some a =>
      bytes ← load a;
      if n <=? len bytes then mret (prefix_bytes (Z.to_nat n) bytes) else undefined
  end.

(** ** Tables of functions *)

(** [cliproxy_buffer] *)
Record buffer := { bf_ptr : option addr; bf_len : Z }.

Definition null_buffer : buffer := {| bf_ptr := None; bf_len := 0 |}.

(** The plugin's function writes the buffer it is pointed to, if it is. *)
Definition call_fn : Type := option addr → option addr → Z → option buffer → cprog (Z * option buffer).

(** [cliproxy_plugin_api] *)
Record plugin_api := {
  api_abi_version : Z;
  api_call : option call_fn;
  api_free_buffer : option (option addr → Z → cprog ());
  api_shutdown : option (cprog ());
}.

Definition empty_api : plugin_api :=
  {| api_abi_version := 0; api_call := None; api_free_buffer := None; api_shutdown := None |}.

(** A call through a pointer into the library. *)
Definition enter {A} (m : cprog A) : cprog A := λ p,
  match proc_loaded p with O => Undefined | _ => m p end.

(** A change of the plugin's own state. *)
Definition on_plugin {A} (f : S → A * S) : cprog A := λ p,
  let '(a, s) := f (proc_plugin p) in Returned (a, with_plugin s p).

(** ** The plugin's side *)

Section Plugin.

(** The return code and the envelope for a method, if any, and a payload; and shutdown. *)
Context (abiVersion : Z) (respond : option string → string → S → (Z * string) * S) (stop : S → S).

Definition writeResponse (response : option buffer) (raw : string) : cprog (option buffer) :=
  match response with
  | None => mret None
  | Some _ =>
      if len raw =? 0 then mret response else
      a ← CBytes raw; mret (Some {| bf_ptr := Some a; bf_len := len raw |})
  end.

Definition cliproxyPluginCall : call_fn := λ method request requestLen response,
  let response := (λ _, null_buffer) <$> response in
  match method with
  | None =>
      '(code, raw) ← on_plugin (respond None "");
      response ← writeResponse response raw; mret (code, response)
  | Some method =>
      payload ← GoBytes request (wrap32 requestLen);
      name ← GoString method;
      '(code, raw) ← on_plugin (respond (Some name) payload);
      response ← writeResponse response raw; mret (code, response)
  end.

Definition cliproxyPluginFree (a : option addr) (length : Z) : cprog () :=
  match a with Some _ => free a | None => mret () end.

Definition cliproxyPluginShutdown : cprog () := on_plugin (λ s, ((), stop s)).

Definition cliproxy_plugin_init (plugin : option plugin_api) : cprog (Z * option plugin_api) :=
  match plugin with
  | None => mret (1, None)
  | Some _ =>
      mret (0, Some {| api_abi_version := abiVersion; api_call := Some cliproxyPluginCall;
                       api_free_buffer := Some cliproxyPluginFree; api_shutdown := Some cliproxyPluginShutdown |})
  end.

End Plugin.

(** ** The client's side *)

Record Client := { cl_handle : bool; cl_api : plugin_api }.

(** A library [dlopen] has loaded: its [cliproxy_plugin_init]. *)
Record library := { lib_init : option (option plugin_api → cprog (Z * option plugin_api)) }.

Definition dlclose : cprog () := λ p, Returned ((), with_loaded (Nat.pred (proc_loaded p)) p).

Definition Close (c : Client) : cprog Client :=
  api ← match api_shutdown (cl_api c) with
        | Some shutdown =>
            _ ← enter shutdown;
            mret {| api_abi_version := api_abi_version (cl_api c); api_call := api_call (cl_api c);
                    api_free_buffer := api_free_buffer (cl_api c); api_shutdown := None |}
        | None => mret (cl_api c)
        end;
  _ ← if cl_handle c then dlclose else mret ();
  mret {| cl_handle := false; cl_api := api |}.

Section Client.

(** The library at a path, and the text of [dlerror]. *)
Context (abiVersion : Z) (dlopen : string → option library) (dlerror : string).

Definition refuse (c : Client) (message : string) : cprog (res Client) :=
  _ ← Close c; mret (errorf message).

(** The checks of [Open] once the library is loaded. *)
Definition load_client (lib : library) : cprog (res Client) :=
  cSymbol ← CString "cliproxy_plugin_init";
  _ ← free (Some cSymbol);
  match lib_init lib with
  | None => _ ← dlclose; mret (errorf ("missing cliproxy_plugin_init: " +:+ dlerror))
  | Some init =>
      '(rc, api) ← enter (init (Some empty_api));
      let client := {| cl_handle := true; cl_api := default empty_api api |} in
      if negb (rc =? 0) then refuse client ("cliproxy_plugin_init returned " +:+ itoa rc) else
      if negb (api_abi_version (cl_api client) =? abiVersion) then
        refuse client ("plugin ABI version = " +:+ itoa (api_abi_version (cl_api client)) +:+ ", want " +:+ itoa abiVersion)
      else
      match api_call (cl_api client), api_free_buffer (cl_api client) with
      | Some _, Some _ => mret (Ok client)
      | _, _ => refuse client "plugin function table is incomplete"
      end
  end.

Definition Open (path : string) : cprog (res Client) :=
  cPath ← CString path;
  name ← GoString cPath;
  result ← match dlopen name with
           | None => mret (errorf ("dlopen " +:+ path +:+ ": " +:+ dlerror))
           | Some lib => λ p, load_client lib (with_loaded (Datatypes.S (proc_loaded p)) p)
           end;
  _ ← free (Some cPath); mret result.

End Client.

(** The bytes of the response and the error, of which there may be both. *)
Definition Call (c : option Client) (method request : string) : cprog (string * option error) :=
  match c with
  | Some {| cl_api := {| api_call := Some call; api_free_buffer := free_buffer |} |} =>
      cMethod ← CString method;
      cRequest ← if 0 <? len request then Some <$> CBytes request else mret None;
      '(rc, response) ← enter (call (Some cMethod) cRequest (len request) (Some null_buffer));
      let response := default null_buffer response in
      out ← if bool_decide (is_Some (bf_ptr response)) && (0 <? bf_len response)
            then GoBytes (bf_ptr response) (wrap32 (bf_len response)) else mret "";
      _ ← match bf_ptr response, free_buffer with
          | Some a, Some free_buffer => enter (free_buffer (Some a) (bf_len response))
          | Some _, None => undefined
          | None, _ => mret ()
          end;
      _ ← free cRequest;
      _ ← free (Some cMethod);
      mret (out, if rc =? 0 then None
                 else Some (EText ("plugin call " +:+ method +:+ " returned " +:+ itoa rc +:+ ": " +:+ out)))
  | _ => mret ("", Some (EText "plugin client is closed"))
  end.

End Memory.

(** ** Memory *)

Lemma wrap32_id z : -2147483648 <= z < 2147483648 → wrap32 z = z.
Proof. intros Hz. unfold wrap32. rewrite Z.mod_small by lia. lia. Qed.

Lemma wrap32_le z : 0 <= z → wrap32 z <= z.
Proof.
  intros Hz. unfold wrap32. destruct (decide (z < 2147483648)); [rewrite Z.mod_small; lia|].
  pose proof (Z.mod_pos_bound (z + 2147483648) 4294967296). lia.
Qed.

Lemma prefix_all s n : len s <= n → prefix_bytes (Z.to_nat n) s = s.
Proof. intros Hn. unfold prefix_bytes, len in *. rewrite take_ge, str_chars; [done|]. rewrite length_chars. lia. Qed.

Lemma prefix_len s n : 0 <= n → len (prefix_bytes (Z.to_nat n) s) <= n.
Proof. intros Hn. unfold prefix_bytes, len. rewrite length_str, length_take. lia. Qed.

Lemma before_nul_app l rest : before_nul (l ++ nul :: rest) = Some (default l (before_nul l)).
Proof.
  induction l as [|c l IH]; [done|]. cbn [app before_nul]. case_bool_decide; [done|]. rewrite IH.
  by destruct (before_nul l).
Qed.

Section Laws.
Context `{CMallocLaws} {S : Type}.
Implicit Types (p : process S) (h : gmap addr string).

Lemma bind_run {A B} (m : cprog S A) (f : A → cprog S B) p a p' :
  m p = Returned (a, p') → (m ≫= f) p = f a p'.
Proof. intros Hm. unfold mbind, cprog_bind. by rewrite Hm. Qed.

Lemma with_heap_heap h p : proc_heap (with_heap h p) = h.
Proof. done. Qed.

Lemma with_heap_twice h h' p : with_heap h (with_heap h' p) = with_heap h p.
Proof. done. Qed.

Lemma with_heap_same p : with_heap (proc_heap p) p = p.
Proof. by destruct p. Qed.

Lemma CBytes_run bytes p :
  CBytes bytes p = Returned (malloc (proc_heap p), with_heap (<[malloc (proc_heap p) := bytes]> (proc_heap p)) p).
Proof. done. Qed.

Lemma CString_run s p :
  CString s p
  = Returned (malloc (proc_heap p), with_heap (<[malloc (proc_heap p) := str (chars s ++ [nul])]> (proc_heap p)) p).
Proof. done. Qed.

Lemma GoString_run a s p :
  proc_heap p !! a = Some (str (chars s ++ [nul])) → GoString a p = Returned (c_string s, p).
Proof.
  intros Ha. unfold GoString, mbind, cprog_bind, load. rewrite Ha, chars_str, before_nul_app.
  done.
Qed.

Lemma GoBytes_run (a : option addr) bytes n p :
  0 <= n <= len bytes → (bytes = "" ∨ ∃ b, a = Some b ∧ proc_heap p !! b = Some bytes) →
  GoBytes a n p = Returned (prefix_bytes (Z.to_nat n) bytes, p).
Proof.
  intros Hn. unfold GoBytes. destruct (Z.eqb_spec n 0) as [->|Hz]; [done|].
  destruct (Z.ltb_spec n 0) as [|_]; [lia|].
  intros [->|(b & -> & Hb)]; [unfold len in Hn; cbn in Hn; lia|]. unfold mbind, cprog_bind, load. rewrite Hb.
  by destruct (Z.leb_spec n (len bytes)); [|lia].
Qed.

Lemma free_run a bytes p :
  proc_heap p !! a = Some bytes → free (Some a) p = Returned ((), with_heap (delete a (proc_heap p)) p).
Proof. intros Ha. unfold free. by rewrite Ha. Qed.

(** The last block given out goes back. *)
Lemma free_last bytes h p :
  free (Some (malloc h)) (with_heap (<[malloc h := bytes]> h) p) = Returned ((), with_heap h p).
Proof.
  rewrite (free_run _ bytes) by (cbn; apply lookup_insert_eq). cbn [proc_heap with_heap].
  by rewrite delete_insert_id by apply malloc_fresh.
Qed.

(** ** A call across the interface *)

Section Exchange.
Context (abiVersion : Z) (respond : option string → string → S → (Z * string) * S) (stop : S → S).

Definition api : plugin_api (S := S) :=
  {| api_abi_version := abiVersion; api_call := Some (cliproxyPluginCall respond);
     api_free_buffer := Some cliproxyPluginFree; api_shutdown := Some (cliproxyPluginShutdown stop) |}.

(** The buffer that answers with some bytes, and the heap with it. *)
Definition answer_buffer h (raw : string) : buffer :=
  if len raw =? 0 then null_buffer else {| bf_ptr := Some (malloc h); bf_len := len raw |}.

Definition answer_heap h (raw : string) : gmap addr string :=
  if len raw =? 0 then h else <[malloc h := raw]> h.

Lemma writeResponse_run raw p :
  writeResponse (Some null_buffer) raw p
  = Returned (Some (answer_buffer (proc_heap p) raw), with_heap (answer_heap (proc_heap p) raw) p).
Proof.
  unfold writeResponse, answer_buffer, answer_heap. case_match; [|done]. by rewrite with_heap_same.
Qed.

(** What the plugin copies of a request: its length is converted to a [C.int]. *)
Definition payload (request : string) : string := prefix_bytes (Z.to_nat (wrap32 (len request))) request.

Lemma payload_all request : len request < 2147483648 → payload request = request.
Proof. intros Hlen. apply prefix_all. rewrite wrap32_id; unfold len in *; lia. Qed.

Lemma pluginCall_run m name a request b p code raw s :
  proc_heap p !! m = Some (str (chars name ++ [nul])) →
  (request = "" ∨ ∃ r, a = Some r ∧ proc_heap p !! r = Some request) → 0 <= wrap32 (len request) →
  respond (Some (c_string name)) (payload request) (proc_plugin p) = ((code, raw), s) →
  cliproxyPluginCall respond (Some m) a (len request) (Some b) p
  = Returned ((code, Some (answer_buffer (proc_heap p) raw)),
              with_heap (answer_heap (proc_heap p) raw) (with_plugin s p)).
Proof.
  intros Hm Hr Hlen Hs. unfold cliproxyPluginCall.
  rewrite (bind_run _ _ _ (payload request) p)
    by (apply GoBytes_run; [split; [|apply wrap32_le; unfold len]; lia|done]).
  rewrite (bind_run _ _ _ (c_string name) p) by by apply GoString_run.
  rewrite (bind_run _ _ _ (code, raw) (with_plugin s p)) by (unfold on_plugin; by rewrite Hs).
  by rewrite (bind_run _ _ _ _ _ (writeResponse_run raw (with_plugin s p))).
Qed.

Lemma take_answer h raw p :
  len raw < 2147483648 →
  (if bool_decide (is_Some (bf_ptr (answer_buffer h raw))) && (0 <? bf_len (answer_buffer h raw))
   then GoBytes (bf_ptr (answer_buffer h raw)) (wrap32 (bf_len (answer_buffer h raw))) else mret "")
    (with_heap (answer_heap h raw) p) = Returned (raw, with_heap (answer_heap h raw) p).
Proof.
  intros Hlen. unfold answer_buffer, answer_heap. destruct (Z.eqb_spec (len raw) 0) as [Hz|Hz]; cbn [bf_ptr bf_len].
  - destruct raw; [done|]. unfold len in Hz. cbn in Hz. lia.
  - rewrite bool_decide_eq_true_2 by eauto. destruct (Z.ltb_spec 0 (len raw)) as [_|Hn]; [|unfold len in *; lia].
    cbn [andb]. rewrite wrap32_id by (unfold len in *; lia). rewrite (GoBytes_run _ raw) by
      ((unfold len in *; lia) || (right; eexists; split; [done|]; cbn; apply lookup_insert_eq)). by rewrite prefix_all.
Qed.

Lemma free_answer h raw p :
  proc_loaded p ≠ 0%nat →
  match bf_ptr (answer_buffer h raw), Some (cliproxyPluginFree (S := S)) with
  | Some a, Some free_buffer => enter (free_buffer (Some a) (bf_len (answer_buffer h raw)))
  | Some _, None => undefined
  | None, _ => mret ()
  end (with_heap (answer_heap h raw) p) = Returned ((), with_heap h p).
Proof.
  intros Hp. unfold answer_buffer, answer_heap. destruct (len raw =? 0); [done|]. cbn [bf_ptr bf_len].
  unfold enter. cbn [proc_loaded with_heap]. destruct (proc_loaded p); [done|]. apply free_last.
Qed.

(** What [Call] returns. *)
Definition call_result (method : string) (code : Z) (raw : string) : string * option error :=
  (raw, if code =? 0 then None
        else Some (EText ("plugin call " +:+ method +:+ " returned " +:+ itoa code +:+ ": " +:+ raw))).

Lemma Call_run b method request p code raw s :
  proc_loaded p ≠ 0%nat → 0 <= wrap32 (len request) → len raw < 2147483648 →
  respond (Some (c_string method)) (payload request) (proc_plugin p) = ((code, raw), s) →
  Call (Some {| cl_handle := b; cl_api := api |}) method request p
  = Returned (call_result method code raw, with_plugin s p).
Proof.
  intros Hp Hreq Hraw Hs. unfold Call, api.
  rewrite (bind_run _ _ _ _ _ (CString_run method p)). set (h := proc_heap p). set (m := malloc h).
  set (h1 := <[m := str (chars method ++ [nul])]> h).
  set (h2 := if 0 <? len request then <[malloc h1 := request]> h1 else h1).
  set (a := if 0 <? len request then Some (malloc h1) else None).
  rewrite (bind_run _ _ _ a (with_heap h2 p)) by (unfold a, h2; by destruct (0 <? len request)).
  assert (h2 !! m = Some (str (chars method ++ [nul]))) as Hm.
  { assert (h1 !! m = Some (str (chars method ++ [nul]))) as Hm1 by apply lookup_insert_eq. unfold h2.
    case_match; [|done]. rewrite lookup_insert_ne; [done|]. intros Heq.
    pose proof (malloc_fresh h1) as Hf. rewrite Heq in Hf. congruence. }
  assert (request = "" ∨ ∃ r, a = Some r ∧ h2 !! r = Some request) as Hr.
  { unfold a, h2. destruct (Z.ltb_spec 0 (len request)) as [_|Hn]; [|left; by destruct request; [|unfold len in Hn; cbn in Hn; lia]].
    right. eexists. split; [done|]. apply lookup_insert_eq. }
  rewrite (bind_run _ _ _ (code, Some (answer_buffer h2 raw)) (with_heap (answer_heap h2 raw) (with_plugin s p))).
  2: { unfold enter. cbn [proc_loaded with_heap]. destruct (proc_loaded p); [done|].
       by apply (pluginCall_run m method a request null_buffer (with_heap h2 p) code raw s). }
  cbn [default].
  rewrite (bind_run _ _ _ _ _ (take_answer h2 raw (with_plugin s p) Hraw)).
  rewrite (bind_run _ _ _ _ _ (free_answer h2 raw (with_plugin s p) Hp)).
  rewrite (bind_run _ _ _ () (with_heap h1 (with_plugin s p))).
  2: { unfold a, h2. destruct (0 <? len request); [apply free_last|done]. }
  rewrite (bind_run _ _ (with_heap h1 (with_plugin s p)) _ _ (free_last _ h (with_plugin s p))).
  unfold call_result, mret, cprog_ret. by do 2 f_equal.
Qed.

(** A request of 2 GiB or more ends the process, one of 4 GiB or more is cut. *)
Lemma Call_panics b method request p :
  proc_loaded p ≠ 0%nat → wrap32 (len request) < 0 → 
  Call (Some {| cl_handle := b; cl_api := api |}) method request p = Panicked.
Proof.
  intros Hp Hlen. unfold Call, api. rewrite (bind_run _ _ _ _ _ (CString_run method p)).
  destruct (Z.ltb_spec 0 (len request)) as [_|Hn].
  2: { exfalso. rewrite wrap32_id in Hlen; unfold len in *; lia. }
  rewrite (bind_run _ _ _ _ _ eq_refl). unfold mbind, cprog_bind, enter. cbn [proc_loaded with_heap].
  destruct (proc_loaded p); [done|]. unfold cliproxyPluginCall, mbind, cprog_bind, GoBytes.
  destruct (Z.eqb_spec (wrap32 (len request)) 0); [lia|]. by destruct (Z.ltb_spec (wrap32 (len request)) 0); [|lia].
Qed.

(** ** Opening and closing *)

Lemma init_run x p : 
  cliproxy_plugin_init abiVersion respond stop (Some x) p = Returned ((0, Some api), p).
Proof. done. Qed.

Definition client : Client := {| cl_handle := true; cl_api := api |}.

(** The client after [Close]. *)
Definition closed_client : Client :=
  {| cl_handle := false;
     cl_api := {| api_abi_version := abiVersion; api_call := Some (cliproxyPluginCall respond);
                  api_free_buffer := Some cliproxyPluginFree; api_shutdown := None |} |}.

Lemma Close_run p :
  proc_loaded p ≠ 0%nat →
  Close client p
  = Returned (closed_client, with_loaded (Nat.pred (proc_loaded p)) (with_plugin (stop (proc_plugin p)) p)).
Proof.
  destruct p as [h s [|n]]; [done|]. intros _. reflexivity.
Qed.

Lemma Close_closed p : Close closed_client p = Returned (closed_client, p).
Proof. done. Qed.

End Exchange.

(** ** Loading any library *)

(** Code that changes nothing but the plugin's own state. *)
Definition quiet {A} (m : cprog S A) : Prop := ∀ p, ∃ a s, m p = Returned (a, with_plugin s p).

Definition quiet_library (lib : library (S := S)) : Prop :=
  ∀ init x, lib_init lib = Some init → quiet (init x)
  ∧ ∀ p rc api p', init x p = Returned ((rc, Some api), p') → ∀ hook, api_shutdown api = Some hook → quiet hook.

(** A client that can be called. *)
Definition usable (abiVersion : Z) (c : Client (S := S)) : Prop :=
  cl_handle c = true ∧ api_abi_version (cl_api c) = abiVersion
  ∧ is_Some (api_call (cl_api c)) ∧ is_Some (api_free_buffer (cl_api c)).

Lemma refuse_run table message p :
  proc_loaded p ≠ 0%nat → (∀ hook, api_shutdown table = Some hook → quiet hook) →
  ∃ s, refuse {| cl_handle := true; cl_api := table |} message p
       = Returned (errorf message, with_plugin s (with_loaded (Nat.pred (proc_loaded p)) p)).
Proof.
  intros Hp Hq. unfold refuse, Close, mbind, cprog_bind. cbn [cl_api cl_handle].
  destruct (api_shutdown table) as [hook|]; [|exists (proc_plugin p); by destruct p as [h s [|n]]].
  destruct (Hq hook eq_refl p) as (a & s & Hs). exists s. unfold enter. destruct p as [h s0 [|n]]; [done|].
  cbn [proc_loaded]. by rewrite Hs.
Qed.

Lemma load_client_run abiVersion dlerror lib p :
  quiet_library lib →
  let p1 := with_loaded (Datatypes.S (proc_loaded p)) p in
  ∃ result s, load_client abiVersion dlerror lib p1
              = Returned (result, with_plugin s match result with Ok _ => p1 | Err _ => p end)
  ∧ ∀ c, result = Ok c → usable abiVersion c.
Proof.
  intros Hlib p1. unfold load_client. rewrite (bind_run _ _ _ _ _ (CString_run _ p1)).
  rewrite (bind_run _ _ _ _ _ (free_last _ (proc_heap p1) p1)), with_heap_same.
  destruct (lib_init lib) as [init|] eqn:Hi.
  2: { eexists (Err _), (proc_plugin p). split; [|done]. unfold p1. destruct p. reflexivity. }
  destruct (Hlib init (Some empty_api) Hi) as [Hq Hhook]. destruct (Hq p1) as ([rc api'] & s & Hs).
  rewrite (bind_run (enter (init (Some empty_api))) _ p1 _ _ Hs). set (table := default empty_api api').
  assert (∀ message, ∃ s', refuse {| cl_handle := true; cl_api := table |} message (with_plugin s p1)
            = Returned (errorf message, with_plugin s' p)) as Hrefuse.
  { intros message. destruct (refuse_run table message (with_plugin s p1)) as [s' Hr]; [done| |].
    - intros hook Hsome. destruct api' as [api'|]; [|done]. by eapply Hhook.
    - exists s'. rewrite Hr. unfold p1. by destruct p. }
  assert (∀ message, ∃ result s', refuse {| cl_handle := true; cl_api := table |} message (with_plugin s p1)
     = Returned (result, with_plugin s' match result with Ok _ => p1 | Err _ => p end)
     ∧ ∀ c, result = Ok c → usable abiVersion c) as Hno.
  { intros message. destruct (Hrefuse message) as [s' Hr]. by exists (errorf message), s'. }
  destruct (negb (rc =? 0)); [apply Hno|]. cbn [cl_api].
  destruct (Z.eqb_spec (api_abi_version table) abiVersion) as [Hv|]; cbn [negb]; [|apply Hno].
  destruct (api_call table) as [f|] eqn:Hcall; [|apply Hno]. destruct (api_free_buffer table) as [g|] eqn:Hfree; [|apply Hno].
  eexists (Ok _), s. split; [reflexivity|]. intros c [= <-]. unfold usable. cbn [cl_handle cl_api]. rewrite Hcall, Hfree. eauto.
Qed.

(** Opening a library is balanced. Whatever the library is, as long as its code
    changes nothing of the process but its own state, [Open] returns; it leaves no memory
    behind, the library stays loaded exactly when it returns a client, and the client's
    table then has the version that is asked for and the functions a call needs. *)
Theorem Open_balanced abiVersion dlopen dlerror path p :
  (∀ lib, dlopen (c_string path) = Some lib → quiet_library lib) →
  ∃ result s,
    Open abiVersion dlopen dlerror path p
    = Returned (result, with_plugin s match result with
                                      | Ok _ => with_loaded (Datatypes.S (proc_loaded p)) p
                                      | Err _ => p
                                      end)
    ∧ ∀ c, result = Ok c → usable abiVersion c.
Proof.
  intros Hlib. unfold Open. rewrite (bind_run _ _ _ _ _ (CString_run _ p)).
  set (a := malloc (proc_heap p)). set (p1 := with_heap _ p).
  rewrite (bind_run _ _ _ (c_string path) p1) by (apply GoString_run, lookup_insert_eq).
  assert (∀ s, free (Some a) (with_plugin s p1) = Returned ((), with_plugin s p)) as Hfree.
  { intros s. unfold p1, a. etrans; [apply (free_last _ (proc_heap p) (with_plugin s p))|]. by destruct p. }
  destruct (dlopen (c_string path)) as [lib|].
  - destruct (load_client_run abiVersion dlerror lib p1 (Hlib lib eq_refl)) as (result & s & Hrun & Hok).
    rewrite (bind_run _ _ p1 result _ Hrun). exists result, s. split; [|done]. destruct result as [c|e].
    + rewrite (bind_run _ _ _ () (with_plugin s (with_loaded (Datatypes.S (proc_loaded p)) p))); [done|].
      unfold p1, a. etrans; [exact (free_last _ (proc_heap p) (with_plugin s (with_loaded _ p)))|]. by destruct p.
    + by rewrite (bind_run _ _ _ () (with_plugin s p)).
  - eexists (Err _), (proc_plugin p). split; [|done]. rewrite (bind_run _ _ p1 _ p1 eq_refl).
    rewrite (bind_run _ _ _ () (with_plugin (proc_plugin p) p)); [done|]. rewrite <- Hfree. by destruct p.
Qed.

(** ** A whole session *)

Section Session.
Context (abiVersion : Z) (respond : option string → string → S → (Z * string) * S) (stop : S → S).
Context (dlopen : string → option (library (S := S))) (dlerror : string).

Abbreviation api := (api abiVersion respond stop) (only parsing).
Abbreviation client := (client abiVersion respond stop) (only parsing).

(** Calls of an open client, one after the other. *)
Fixpoint calls_of (c : Client (S := S)) (calls : list (string * string)) : cprog S (list (string * option error)) :=
  match calls with
  | [] => mret []
  | (method, request) :: calls =>
      x ← Call (Some c) method request; l ← calls_of c calls; mret (x :: l)
  end.

(** Open the library, make the calls, close it. *)
Definition session (path : string) (calls : list (string * string)) : cprog S (res (list (string * option error))) :=
  opened ← Open abiVersion dlopen dlerror path;
  match opened with
  | Err e => mret (Err e)
  | Ok c => l ← calls_of c calls; _ ← Close c; mret (Ok l)
  end.

(** The same calls on the state of the plugin. *)
Fixpoint answers (calls : list (string * string)) (s : S) : list (string * option error) * S :=
  match calls with
  | [] => ([], s)
  | (method, request) :: calls =>
      let '(code, raw, s) := respond (Some (c_string method)) request s in
      let '(l, s) := answers calls s in
      (call_result method code raw :: l, s)
  end.

(** No request and no answer has 2 GiB. *)
Fixpoint fits (calls : list (string * string)) (s : S) : Prop :=
  match calls with
  | [] => True
  | (method, request) :: calls =>
      let '(code, raw, s) := respond (Some (c_string method)) request s in
      len request < 2147483648 ∧ len raw < 2147483648 ∧ fits calls s
  end.

Lemma calls_run calls p :
  proc_loaded p ≠ 0%nat → fits calls (proc_plugin p) →
  calls_of client calls p
  = Returned ((answers calls (proc_plugin p)).1, with_plugin (answers calls (proc_plugin p)).2 p).
Proof.
  revert p. induction calls as [|[method request] calls IH]; intros p Hp Hfit; [by destruct p|].
  cbn [calls_of answers fits] in *.
  destruct (respond (Some (c_string method)) request (proc_plugin p)) as [[code raw] s] eqn:Hs.
  destruct Hfit as (Hreq & Hraw & Hfit).
  rewrite (bind_run _ _ _ _ _ (Call_run abiVersion respond stop true method request p code raw s Hp
    ltac:(rewrite wrap32_id; unfold len in *; lia) Hraw ltac:(by rewrite payload_all))).
  rewrite (bind_run _ _ _ _ _ (IH (with_plugin s p) Hp Hfit)). cbn [proc_plugin with_plugin].
  by destruct (answers calls s) as [l s'].
Qed.

Lemma Open_run path p :
  dlopen (c_string path) = Some {| lib_init := Some (cliproxy_plugin_init abiVersion respond stop) |} →
  Open abiVersion dlopen dlerror path p
  = Returned (Ok client, with_loaded (Datatypes.S (proc_loaded p)) p).
Proof.
  intros Hd. unfold Open. rewrite (bind_run _ _ _ _ _ (CString_run _ p)).
  set (a := malloc (proc_heap p)). set (p1 := with_heap _ p).
  rewrite (bind_run _ _ _ (c_string path) p1) by (apply GoString_run, lookup_insert_eq). rewrite Hd.
  set (p2 := with_loaded (Datatypes.S (proc_loaded p)) p1).
  rewrite (bind_run _ _ p1 (Ok client) p2).
  - rewrite (bind_run _ _ _ () (with_loaded (Datatypes.S (proc_loaded p)) p)); [done|].
    unfold p2, p1, a. etrans; [exact (free_last _ (proc_heap p) (with_loaded _ p))|]. by destruct p.
  - fold p2. unfold load_client. rewrite (bind_run _ _ _ _ _ (CString_run _ p2)).
    rewrite (bind_run _ _ _ _ _ (free_last _ (proc_heap p2) p2)), with_heap_same. cbn [lib_init].
    rewrite (bind_run (enter _) _ p2 _ _ (init_run abiVersion respond stop empty_api p2)). cbn. by rewrite Z.eqb_refl.
Qed.

Lemma session_run path calls p :
  dlopen (c_string path) = Some {| lib_init := Some (cliproxy_plugin_init abiVersion respond stop) |} →
  fits calls (proc_plugin p) →
  session path calls p
  = Returned (Ok (answers calls (proc_plugin p)).1, with_plugin (stop (answers calls (proc_plugin p)).2) p).
Proof.
  intros Hd Hfit. unfold session. rewrite (bind_run _ _ _ _ _ (Open_run path p Hd)).
  set (p1 := with_loaded (Datatypes.S (proc_loaded p)) p).
  rewrite (bind_run _ _ _ _ _ (calls_run calls p1 ltac:(done) Hfit)).
  rewrite (bind_run _ _ _ _ _ (Close_run abiVersion respond stop (with_plugin _ p1) ltac:(done))).
  by destruct p.
Qed.

(** A call after [Close] is not refused: the client keeps the pointer into the library. *)
Lemma call_after_close method request p :
  proc_loaded p = 1%nat → (c ← Close client; Call (Some c) method request) p = Undefined.
Proof.
  intros Hp. rewrite (bind_run _ _ _ _ _ (Close_run abiVersion respond stop p ltac:(by rewrite Hp))).
  unfold Call, closed_client. rewrite (bind_run _ _ _ _ _ (CString_run method _)). rewrite Hp.
  by destruct (0 <? len request).
Qed.

End Session.

End Laws.

(** ** The plugin behind its C interface *)

Section Behind.
Context `{CMallocLaws} `{GoStd} {N M E J R : Type} `{ProviderModule M E J R}.

(** The SDK's version numbers and method names, and JSON of an envelope. *)
Context (abiVersion schemaVersion : Z) (version : string).
Context (methodOf : string → method) (encode : envelope J R → string).

(** The coordinator, and what the calls to come are answered. *)
Definition hosting : Type := Coordinator M * list (plugin_call N E).

Context (idle : plugin_call N E).

Definition respond (name : option string) (payload : string) (s : hosting) : (Z * string) * hosting :=
  let '(c, calls) := s in
  let '(code, answer, c) :=
    Plugin.cliproxyPluginCall schemaVersion version c (methodOf <$> name) payload (default idle (head calls)) in
  ((code, encode answer), (c, tail calls)).

Definition stop (s : hosting) : hosting :=
  let '(c, calls) := s in ((shutdown c (pc_module (default idle (head calls)))).2, tail calls).

Definition plugin_library : library := {| lib_init := Some (cliproxy_plugin_init abiVersion respond stop) |}.

(** C19: the C interface is transparent. A host that opens the plugin, makes any calls
    and closes it gets, in order, exactly the envelopes and return codes of the plugin's
    entry point, and leaves the coordinator as those calls and the shutdown leave it, as
    long as no request and no answer has 2 GiB. Nothing undefined happens on the way, all
    memory of [malloc] is given back, and the library is no longer loaded. *)
Theorem session_refines dlopen dlerror path calls (p : process hosting) :
  dlopen (c_string path) = Some plugin_library → fits respond calls (proc_plugin p) →
  session abiVersion dlopen dlerror path calls p
  = Returned (Ok (answers respond calls (proc_plugin p)).1,
              {| proc_heap := proc_heap p; proc_plugin := stop (answers respond calls (proc_plugin p)).2;
                 proc_loaded := proc_loaded p |}).
Proof. intros Hd Hfit. exact (session_run abiVersion respond stop dlopen dlerror path calls p Hd Hfit). Qed.

(** C20: the length of a request is converted to a C [int], so that only what it leaves
    of a multiple of 4 GiB counts. If that is 2 GiB or more, the request is not refused
    but ends the host's process; if it is less, the plugin is given that many bytes of
    the request, which is the whole of it exactly when it is shorter than 2 GiB, and
    answers for them. *)
Theorem long_requests b method request (p : process hosting) :
  proc_loaded p ≠ 0%nat →
  let rest := len request mod 4294967296 in
  let called := Call (Some {| cl_handle := b; cl_api := api abiVersion respond stop |}) method request p in
  if 2147483648 <=? rest then called = Panicked
  else (prefix_bytes (Z.to_nat rest) request = request ↔ len request < 2147483648)
    ∧ ∀ code raw s,
        respond (Some (c_string method)) (prefix_bytes (Z.to_nat rest) request) (proc_plugin p) = ((code, raw), s) →
        len raw < 2147483648 → called = Returned (call_result method code raw, with_plugin s p).
Proof.
  intros Hp rest called. assert (0 <= rest < 4294967296) as Hr by (apply Z.mod_pos_bound; lia).
  assert (len request = 4294967296 * (len request / 4294967296) + rest) as Hdiv by (apply Z.div_mod; lia).
  assert (0 <= len request / 4294967296) as Hq by (apply Z.div_pos; unfold len; lia).
  destruct (Z.leb_spec 2147483648 rest).
  - apply Call_panics; [done|]. unfold wrap32.
    rewrite <- (Z.mod_unique_pos _ _ (len request / 4294967296 + 1) (rest - 2147483648)) by lia. lia.
  - assert (wrap32 (len request) = rest) as Hw.
    { unfold wrap32. rewrite <- (Z.mod_unique_pos _ _ (len request / 4294967296) (rest + 2147483648)) by lia. lia. }
    split.
    + split; [|intros Hlen; apply prefix_all; unfold rest; rewrite Z.mod_small; unfold len in *; lia].
      intros Hall. pose proof (prefix_len request rest ltac:(lia)) as Hle. rewrite Hall in Hle. lia.
    + intros code raw s Hs Hraw. apply Call_run; [done|lia|done|]. unfold payload. by rewrite Hw.
Qed.

End Behind.

(** ** Witnesses *)

Import DemoStd DemoPlugin.

#[export] Instance demo_malloc : CMalloc := {| malloc h := fresh (dom (D := gset addr) h) |}.

#[export] Instance demo_malloc_laws : CMallocLaws.
Proof. split. intros h. apply (not_elem_of_dom (D := gset addr)). exact (is_fresh (dom (D := gset addr) h)). Qed.

Definition demo_methodOf (name : string) : method :=
  if decide (name = "plugin.register") then MethodPluginRegister
  else if decide (name = "scheduler.pick") then MethodSchedulerPick else MethodOther.

Definition demo_encode {J R} (e : envelope J R) : string :=
  match e with
  | EnvelopeOK (ResultPick resp) => "picked " +:+ pr_AuthID resp
  | EnvelopeOK _ => "ok"
  | EnvelopeError w => we_Message w
  end.

(** A payload is the text it encodes. *)
Definition demo_call : plugin_call string hosted_call :=
  {| pc_lifecycle raw := Some raw; pc_pick raw := Some (request [raw]); pc_usage _ := None;
     pc_management _ := None; pc_decode_error := EText "invalid"; pc_now := demo_now;
     pc_later := demo_now; pc_reconfigure := demo_reconfigure; pc_module := module_call |}.

Definition demo_respond := respond (J := hosted_status) (R := ManagementResponse) 5 "1" demo_methodOf demo_encode demo_call.

Abbreviation demo_hosting := (hosting (N := string) (M := hosted) (E := hosted_call)) (only parsing).

Definition demo_process : process demo_hosting := {| proc_heap := ∅; proc_plugin := (loaded, []); proc_loaded := 1 |}.

Definition demo_library : library (S := demo_hosting) :=
  plugin_library (J := hosted_status) (R := ManagementResponse) 3 5 "1" demo_methodOf demo_encode demo_call.

Definition demo_calls : list (string * string) :=
  [("plugin.register", "ok"); ("scheduler.pick", "a1"); ("no.method", "")].

Lemma demo_fits : fits demo_respond demo_calls (loaded, []).
Proof. vm_compute. by split_and!. Qed.

Lemma session_refines_witness :
  ∃ s, session 3 (λ _, Some demo_library) "" "/plugins/pool.so" demo_calls demo_process
       = Returned (Ok [("ok", None); ("picked a1", None); ("method is not implemented by this plugin", None)],
                   {| proc_heap := ∅; proc_plugin := s; proc_loaded := 1 |}).
Proof.
  eexists. etrans.
  - apply (session_refines (J := hosted_status) (R := ManagementResponse) 3 5 "1" demo_methodOf demo_encode demo_call
      (λ _, Some demo_library) "" "/plugins/pool.so" demo_calls demo_process eq_refl). exact demo_fits.
  - do 3 f_equal.
Defined.

Definition long_text (n : Z) : string := str (replicate (Z.to_nat n) "a"%char).

Lemma long_text_len n : 0 <= n → len (long_text n) = n.
Proof. intros Hn. unfold len, long_text. rewrite length_str, length_replicate. lia. Qed.

Lemma long_requests_witness :
  Call (Some {| cl_handle := true; cl_api := api 3 demo_respond (stop demo_call) |}) "scheduler.pick"
    (long_text 2147483648) demo_process = Panicked
  ∧ Call (Some {| cl_handle := true; cl_api := api 3 demo_respond (stop demo_call) |}) "scheduler.pick"
    (long_text 6442450944) demo_process = Panicked.
Proof.
  split.
  - pose proof (long_requests (J := hosted_status) (R := ManagementResponse) 3 5 "1" demo_methodOf demo_encode demo_call
      true "scheduler.pick" (long_text 2147483648) demo_process ltac:(discriminate)) as Hl.
    cbv zeta in Hl. rewrite long_text_len in Hl by lia. exact Hl.
  - pose proof (long_requests (J := hosted_status) (R := ManagementResponse) 3 5 "1" demo_methodOf demo_encode demo_call
      true "scheduler.pick" (long_text 6442450944) demo_process ltac:(discriminate)) as Hl.
    cbv zeta in Hl. rewrite long_text_len in Hl by lia. exact Hl.
Defined.

(** The plugin, and a library whose initialisation fails after it has set its table. *)
Definition failing_library : library (S := demo_hosting) :=
  {| lib_init := Some (λ _, mret (7, Some {| api_abi_version := 3; api_call := None; api_free_buffer := None;
                                             api_shutdown := Some (cliproxyPluginShutdown (stop demo_call)) |})) |}.

Definition demo_dlopen (path : string) : option (library (S := demo_hosting)) :=
  if decide (path = "/plugins/pool.so") then Some demo_library
  else if decide (path = "/plugins/bad.so") then Some failing_library else None.

Lemma shutdown_quiet : quiet (cliproxyPluginShutdown (S := demo_hosting) (stop demo_call)).
Proof. intros p. by exists (), (stop demo_call (proc_plugin p)). Qed.

Lemma demo_quiet path lib : demo_dlopen path = Some lib → quiet_library lib.
Proof.
  intros Hd init x Hi. unfold demo_dlopen in Hd. case_decide; [|case_decide; [|done]]; injection Hd as <-; injection Hi as <-.
  - split.
    + intros p. destruct x; [eexists _, (proc_plugin p)|eexists _, (proc_plugin p)]; by destruct p.
    + intros p rc t p' Hr hook Hh. destruct x; [|done]. injection Hr as <- <- <-. injection Hh as <-. exact shutdown_quiet.
  - split.
    + intros p. eexists _, (proc_plugin p). by destruct p.
    + intros p rc t p' [= <- <- <-] hook [= <-]. exact shutdown_quiet.
Qed.

Lemma Open_balanced_witness :
  ∃ s, Open 3 demo_dlopen "" "/plugins/bad.so" demo_process
       = Returned (errorf "cliproxy_plugin_init returned 7", with_plugin s demo_process).
Proof.
  destruct (Open_balanced 3 demo_dlopen "" "/plugins/bad.so" demo_process (demo_quiet _)) as (result & s & Hrun & _).
  exists s. rewrite Hrun. assert (result = errorf "cliproxy_plugin_init returned 7") as ->; [|reflexivity].
  enough (match Open 3 demo_dlopen "" "/plugins/bad.so" demo_process with
          | Returned (r, _) => r = errorf "cliproxy_plugin_init returned 7" | _ => False end) as He
    by (rewrite Hrun in He; exact He).
  vm_compute. reflexivity.
Defined.
