(* ===== verification/Poller.v ===== *)
(** * The polling loop of an account (zai/runtime.go, pollAccount)

    A poller is started for one generation of the snapshot. Each turn of its loop polls
    the quota endpoint, waits and starts over; before each of the moments at which it
    reads the runtime, anything else may happen to it: the events of [RuntimeSteps]. *)

From S2P Require Import Prelude GoStrings Host Config Accounts Windows Health Quota Settings Runtime RuntimeSteps Lifecycle ProviderModule ZaiModule.

Section Poller.
Context `{GoStd}.

(** What a turn meets: what happens before its poll, the poll's answers, what happens
    before the failures are counted, and the error of [Sleep], if the wait is cut short. *)
Record poll_turn := {
  pt_before : list event;
  pt_poll : poll_outcome;
  pt_between : list event;
  pt_sleep : option error;
}.

(** A wait of the loop: the failures that were counted, and how long it is. *)
Record wait := { wt_attempt : Z; wt_failures : Z; wt_delay : Duration }.

Definition next_delay (r : pluginRuntime) (identity : string) (base : Duration) (attempt : Z) : wait :=
  let delay := jitteredPollInterval base identity attempt in
  let failures := pollFailureCount r identity in
  {| wt_attempt := attempt; wt_failures := failures;
     wt_delay := if 0 <? failures then pollBackoff delay failures else delay |}.

Definition poll_over (result : res unit) : bool :=
  match result with Err e => error_is_canceled e | Ok _ => false end.

(** The loop over the turns that are given: the runtime at the end, the waits, and
    whether the poller has returned. There is none when an event cannot happen. *)
Fixpoint pollAccount (identity : string) (generation : Z) (base : Duration) (attempt : Z)
    (turns : list poll_turn) (x : world) : option (world * list wait * bool) :=
  match turns with
  | [] => Some (x, [], false)
  | t :: turns =>
      '(r, w) ← run_events (pt_before t) x;
      let '(result, r) := pollOnce r identity generation (pt_poll t) in
      if poll_over result then Some ((r, w), [], true) else
      let attempt := attempt [+] 1 in
      '(r, w) ← run_events (pt_between t) (r, w);
      let wait := next_delay r identity base attempt in
      match pt_sleep t with
      | Some _ => Some ((r, w), [wait], true)
      | None =>
          '(y, waits, over) ← pollAccount identity generation base attempt turns (r, w);
          Some (y, wait :: waits, over)
      end
  end.

(** ** Generations *)

Definition generation_of (r : pluginRuntime) : option Z := rs_Generation <$> rt_snapshot r.

(** The generation of the next snapshot. *)
Definition next_generation (r : pluginRuntime) : Z :=
  match generation_of r with Some g => wrapu64 (g + 1) | None => 1 end.

(** What an event leaves: a stopped runtime stays so, and the snapshot is the one there
    was or has the next generation. *)
Definition ages (r r' : pluginRuntime) : Prop :=
  (rt_stopped r = true → rt_stopped r' = true)
  ∧ (generation_of r' = generation_of r ∨ generation_of r' = Some (next_generation r)).

Lemma ages_same r r' : rt_stopped r' = rt_stopped r → generation_of r' = generation_of r → ages r r'.
Proof. intros Hs Hg. split; [by rewrite Hs|by left]. Qed.

Lemma frame_generation s s' :
  set_quota_health (rs_Quota s) (rs_Health s) s' = s → rs_Generation s' = rs_Generation s.
Proof. intros Hf. by rewrite <- Hf. Qed.

Lemma persist_ages r store state wall fault : ages r (persistStateLocked r store state wall fault).2.
Proof.
  unfold persistStateLocked. destruct (negb _ && _); [by apply ages_same|].
  destruct (save_state _ _ _ _ _) as [saved|e]; [by apply ages_same|]. cbn. unfold warn_unsaved.
  destruct (rt_snapshot r) as [s|] eqn:Hs; [|by apply ages_same].
  destruct (_ && _); (apply ages_same; [done|]); unfold generation_of; cbn; by rewrite ?Hs.
Qed.

Lemma usage_ages r record now later : ages r (usage_locked r record now later).2.
Proof.
  destruct (usage_locked_effect r record now later) as [e| |s id h Hs ? ? ?|s id h Hs ? ? ? ?];
    (apply ages_same; [done|]); [done|done|unfold generation_of; cbn; by rewrite Hs..].
Qed.

Lemma poll_locked_same r identity generation now later result cancelled :
  let r' := (poll_locked r identity generation now later result cancelled).2 in
  rt_stopped r' = rt_stopped r ∧ generation_of r' = generation_of r.
Proof.
  destruct (poll_locked_effect r identity generation now later result cancelled)
    as [| |s st accounts byId h Hs]; [done|done|unfold generation_of; cbn; by rewrite Hs].
Qed.

Lemma commit_ages r staged before close_error : ages r (commitSnapshotAfter r staged before close_error).2.
Proof.
  split; [by destruct (commitSnapshotAfter_frame r staged before close_error) as (_ & _ & _ & ->)|].
  unfold commitSnapshotAfter, next_generation, generation_of. destruct (rt_stopped r); [by left|].
  destruct (rt_snapshot r) as [live|] eqn:Hl; [|destruct before; cbn; [by right|rewrite Hl; by left]].
  destruct (sameSecureStore _ _); cbn.
  - destruct before; cbn.
    + right. destruct (rs_Store live); [case_bool_decide|]; done.
    + left. case_bool_decide; [|destruct (rs_Store staged)]; cbn; by rewrite Hl.
  - destruct before; cbn; [|rewrite Hl; by left]. right. destruct (rs_Store live); [case_bool_decide|]; done.
Qed.

Lemma step_ages e x y : step e x = Some y → ages x.1 y.1.
Proof.
  destruct x as [r w], e; cbn [step]; intros He.
  - injection He as <-. apply usage_ages.
  - injection He as <-. by apply ages_same; apply poll_locked_same.
  - destruct (w !! index) as [p|]; [|done]. injection He as <-. apply persist_ages.
  - injection He as <-. unfold updateCapacity. destruct (rt_snapshot r) as [s|] eqn:Hs; [|by apply ages_same].
    destruct (_ || _); [by apply ages_same|]. destruct (_ !! _); [|by apply ages_same].
    apply ages_same; [done|]. unfold generation_of. cbn. by rewrite Hs.
  - injection He as <-. unfold health. destruct (rt_snapshot r) as [s|] eqn:Hs; [|by apply ages_same].
    destruct (_ !! _); [|by apply ages_same].
    destruct (refreshCapacityLocked_snd s account_id now) as (h & _ & Hr).
    destruct (refreshCapacityLocked s account_id now) as [st s']. cbn in Hr. subst s'.
    apply ages_same; [done|]. unfold generation_of. cbn. by rewrite Hs.
  - injection He as <-. apply commit_ages.
  - destruct w; [|done]. injection He as <-. split.
    + cbn [fst]. intros Hst. unfold shutdown. by rewrite Hst.
    + left. cbn [fst]. unfold generation_of. by destruct (shutdown_effects r now wall fault flush_error close_error)
        as [r' _ _ _ ->|s r' Hs -> _ _ _|s store r' Hs -> _ _]; [|rewrite Hs..].
Qed.

(** The runtime has left a generation: it is stopped, or a later snapshot is published,
    and the counter of the generations does not run over in the next [n] events. *)
Definition left_behind (n : nat) (generation : Z) (r : pluginRuntime) : Prop :=
  rt_stopped r = true
  ∨ ∃ h, generation_of r = Some h ∧ generation < h ∧ h + Z.of_nat n < 18446744073709551616.

Lemma ages_left_behind n g r r' : 0 <= g → ages r r' → left_behind (S n) g r → left_behind n g r'.
Proof.
  intros Hg [Hst Hgen] [Hs|(h & Hh & Hlt & Hroom)]; [left; by auto|]. right. unfold next_generation in Hgen.
  rewrite Hh in Hgen. destruct Hgen as [Hgen|Hgen].
  - exists h. split_and!; [done|done|lia].
  - exists (h + 1). rewrite Hgen. rewrite wrapu64_id by lia. split_and!; [done|lia..].
Qed.

Lemma run_left_behind es g x y :
  0 <= g → left_behind (length es) g x.1 → run_events es x = Some y → left_behind 0 g y.1.
Proof.
  intros Hg. apply (run_events_ind (λ n x, left_behind n g x.1)). intros n e z z' _ Hz Hs.
  by eapply ages_left_behind; [|apply step_ages in Hs|].
Qed.

(** A publication and a shutdown leave the generation they find. *)
Lemma publish_leaves r staged before close_error r' g n :
  commitSnapshotAfter r staged before close_error = (Ok (), r') → generation_of r = Some g → 0 <= g →
  g + 1 + Z.of_nat n < 18446744073709551616 → left_behind n g r'.
Proof.
  intros Hc Hg Hpos Hroom. right. exists (g + 1). split; [|lia].
  revert Hc Hg. unfold commitSnapshotAfter, generation_of. destruct (rt_stopped r); [done|].
  destruct (rt_snapshot r) as [live|]; [|done]. intros Hc [= <-].
  assert (wrapu64 (rs_Generation live + 1) = rs_Generation live + 1) as Hw by (apply wrapu64_id; lia).
  destruct (sameSecureStore _ _); cbn in Hc; (destruct before; [|done]); cbn in Hc; rewrite Hw in Hc;
    (destruct (rs_Store live); [case_bool_decide; [|destruct close_error]|]); by simplify_eq/=.
Qed.

Lemma shutdown_leaves n g r now wall fault flush_error close_error :
  left_behind n g (shutdown r now wall fault flush_error close_error).2.
Proof.
  left. unfold shutdown. destruct (rt_stopped r) eqn:Hst; [done|]. cbn. destruct (rt_snapshot r) as [s|]; [|done].
  cbn. destruct (rs_Store s); [|done]. destruct (_ || _); [|done]. by destruct (save_state _ _ _ _ _).
Qed.

(** A poll that finds its generation left changes nothing and ends the poller. *)
Lemma left_poll r identity g o : left_behind 0 g r → pollOnce r identity g o = (Err ECanceled, r).
Proof.
  intros Hl. unfold pollOnce. assert (poll_locked r identity g (pq_now o) (pq_later o) (pq_result o) (pq_cancelled o)
    = (Err ECanceled, r)) as ->; [|done].
  unfold poll_locked. destruct (_ && _); [done|]. destruct (rt_snapshot r) as [s|] eqn:Hs; [|done].
  destruct Hl as [Hst|(h & Hh & Hlt & _)]; [by rewrite Hst|]. unfold generation_of in Hh. rewrite Hs in Hh.
  injection Hh as <-. destruct (Z.eqb_spec (rs_Generation s) g); [lia|]. by rewrite orb_true_r.
Qed.

(** ** The loop *)

Definition attempts_from (attempt : Z) (turns : list poll_turn) : Z := foldl (λ a _, a [+] 1) attempt turns.

Lemma pollAccount_app identity g base attempt before rest x y waits :
  pollAccount identity g base attempt before x = Some (y, waits, false) →
  pollAccount identity g base attempt (before ++ rest) x
  = '(z, more, over) ← pollAccount identity g base (attempts_from attempt before) rest y;
    Some (z, waits ++ more, over).
Proof.
  revert attempt x waits. induction before as [|t before IH]; intros attempt x waits; cbn [pollAccount app].
  { intros [= <- <-]. unfold attempts_from. cbn [foldl]. by destruct (pollAccount identity g base attempt rest x) as [[[]]|]. }
  destruct (run_events (pt_before t) x) as [[r w]|]; [|done]. cbn [mbind option_bind].
  destruct (pollOnce r identity g (pt_poll t)) as [result r1]. destruct (poll_over result); [done|].
  destruct (run_events (pt_between t) (r1, w)) as [[r2 w2]|]; [|done]. cbn [mbind option_bind].
  destruct (pt_sleep t); [done|].
  destruct (pollAccount identity g base (attempt [+] 1) before (r2, w2)) as [[[z more] over]|] eqn:Hrec; [|done].
  cbn [mbind option_bind]. intros [= <- <- ->]. rewrite (IH _ _ _ Hrec). unfold attempts_from. cbn [foldl].
  by destruct (pollAccount identity g base _ rest z) as [[[]]|].
Qed.

Lemma next_delay_bounds r identity base attempt :
  minute <= base <= 3 * minute →
  let w := next_delay r identity base attempt in
  in_int64 (wt_failures w) →
  base / 2 <= wt_delay w <= 15 * minute ∧ (wt_failures w <= 1 → wt_delay w <= base + base / 2).
Proof.
  intros Hb w Hf. unfold w, next_delay in *. cbn [wt_failures wt_delay] in *.
  pose proof (jitteredPollInterval_range base identity attempt Hb) as Hd.
  assert (15 * minute = 900000000000 ∧ minute = 60000000000) as [H15 H1] by done.
  assert (30000000000 <= base / 2 <= 90000000000) as Hh
    by (split; [apply Z.div_le_lower_bound|apply Z.div_le_upper_bound]; lia).
  set (delay := jitteredPollInterval base identity attempt) in *. set (failures := pollFailureCount r identity) in *.
  destruct (Z.ltb_spec 0 failures); [|lia]. destruct (decide (1 < failures)) as [Hlt|].
  - rewrite pollBackoff_eq by (done || lia). assert (2 ^ 1 <= 2 ^ Z.min 4 (failures - 1)) by (apply Z.pow_le_mono_r; lia).
    split; [nia|lia].
  - unfold pollBackoff. destruct (Z.leb_spec failures 1); lia.
Qed.

Lemma pollAccount_waits identity g base attempt turns x y waits over :
  minute <= base <= 3 * minute → pollAccount identity g base attempt turns x = Some (y, waits, over) →
  Forall (λ w, in_int64 (wt_failures w) →
    base / 2 <= wt_delay w <= 15 * minute ∧ (wt_failures w <= 1 → wt_delay w <= base + base / 2)) waits.
Proof.
  intros Hb. revert attempt x waits. induction turns as [|t turns IH]; intros attempt x waits; cbn [pollAccount].
  { intros [= _ <- _]. constructor. }
  destruct (run_events (pt_before t) x) as [[r w]|]; [|done]. cbn [mbind option_bind].
  destruct (pollOnce r identity g (pt_poll t)) as [result r1]. destruct (poll_over result); [intros [= _ <- _]; constructor|].
  destruct (run_events (pt_between t) (r1, w)) as [[r2 w2]|]; [|done]. cbn [mbind option_bind].
  pose proof (next_delay_bounds r2 identity base (attempt [+] 1) Hb) as Hw.
  destruct (pt_sleep t); [intros [= _ <- _]; by constructor|].
  destruct (pollAccount _ _ _ _ turns (r2, w2)) as [[[z more] over']|] eqn:Hrec; [|done]. cbn [mbind option_bind].
  intros [= <- <- <-]. constructor; [done|]. by eapply IH.
Qed.

(** C16: a poller does not outlive its snapshot. Whatever happens between the turns of
    its loop, once the runtime has left the poller's generation, by publishing another
    snapshot or by shutting down, the next poll changes nothing and is the last one, even
    if its context is not cancelled; and the waits before it are at least half the
    configured interval and at most fifteen minutes. *)
Theorem poller_ends identity g base before t after x x1 waits y :
  0 <= g → minute <= base <= 3 * minute →
  pollAccount identity g base 0 before x = Some (x1, waits, false) →
  left_behind (length (pt_before t)) g x1.1 → run_events (pt_before t) x1 = Some y →
  pollAccount identity g base 0 (before ++ t :: after) x = Some (y, waits, true)
  ∧ Forall (λ w, in_int64 (wt_failures w) →
      base / 2 <= wt_delay w <= 15 * minute ∧ (wt_failures w <= 1 → wt_delay w <= base + base / 2)) waits.
Proof.
  intros Hg Hb Hbefore Hleft Hrun. split; [|by eapply pollAccount_waits].
  rewrite (pollAccount_app _ _ _ _ _ _ _ _ _ Hbefore). cbn [pollAccount]. rewrite Hrun. destruct y as [r w].
  cbn [mbind option_bind]. rewrite (left_poll r identity g (pt_poll t)) by by apply (run_left_behind (pt_before t) g x1 (r, w)).
  cbn [poll_over error_is_canceled mbind option_bind]. by rewrite app_nil_r.
Qed.

End Poller.

(** ** Witnesses *)

Import DemoStd.

(** A turn whose poll fails, and one before which the snapshot is published again. *)
Definition failed_poll : poll_outcome :=
  {| pq_now := demo_now; pq_later := demo_now; pq_result := errorf "unavailable"; pq_cancelled := false;
     pq_wall := demo_now; pq_fault := None |}.

Definition quiet_turn : poll_turn :=
  {| pt_before := []; pt_poll := failed_poll; pt_between := [EvHealth demo_identity demo_now]; pt_sleep := None |}.

Definition last_turn : poll_turn :=
  {| pt_before := [EvHealth demo_identity demo_now]; pt_poll := failed_poll; pt_between := []; pt_sleep := None |}.

Definition replaced_turn : poll_turn :=
  {| pt_before := []; pt_poll := failed_poll; pt_between := [EvPublish demo_live (Ok ()) None]; pt_sleep := None |}.

Definition poll_demo (turns : list poll_turn) : option (world * list wait * bool) :=
  pollAccount demo_identity 1 (2 * minute) 0 turns (demo_runtime, []).

Definition after_replaced : world * list wait :=
  default ((demo_runtime, []), []) (fst <$> poll_demo [quiet_turn; quiet_turn; replaced_turn]).

Definition at_last : world := default after_replaced.1 (run_events (pt_before last_turn) after_replaced.1).

Lemma poller_ends_witness :
  poll_demo ([quiet_turn; quiet_turn; replaced_turn] ++ last_turn :: [quiet_turn]) = Some (at_last, after_replaced.2, true)
  ∧ wt_failures <$> after_replaced.2 = [1; 2; 3].
Proof.
  split; [|vm_compute; reflexivity].
  apply (poller_ends demo_identity 1 (2 * minute) [quiet_turn; quiet_turn; replaced_turn] last_turn [quiet_turn]
    (demo_runtime, []) after_replaced.1).
  - lia.
  - split; discriminate.
  - vm_compute. reflexivity.
  - right. exists 2. vm_compute. repeat split.
  - vm_compute. reflexivity.
Defined.
