(* ===== verification/HostIntegration.v ===== *)
(** * The host integration check (src/.github/scripts/host-integration)

    The program that checks a built plugin: it loads it and looks at its registration,
    then starts a host with it and a stub of the upstream, and makes requests. What it
    does to the system is an action with an answer; the program is a script of actions,
    run against any environment that answers them. *)

From S2P Require Import Prelude GoStrings Host GoFiles.

(** ** Scripts *)

(** A request of the HTTP client, with everything up to reading at most 1 MiB of the
    response's body. *)
Record http_call := {
  hc_method : string;
  hc_url : string;
  hc_headers : list (string * string);
  hc_body : string;
}.

(** The upstream stub: the requests it has seen. *)
Record upstreamStub := { us_counts : gmap string Z; us_paths : list string }.

Inductive action : Type → Type :=
| LoadPlugin (path : string) : action (res unit)
| CallPlugin (method request : string) : action (string * option error)
| ClosePlugin : action unit
| MkdirTemp (pattern : string) : action (res string)
| RemoveAll (dir : string) : action unit
| MkdirAll (dir : string) (perm : Z) : action (res unit)
| ReadFile (path : string) : action (res string)
| WriteFile (path data : string) (perm : Z) : action (res unit)
| OpenLog (path : string) : action (res unit)
| CloseLog : action unit
| NewCertificate : action (res (string * string))
| ListenTCP (address : string) : action (res unit)
| ServeStub (certPath keyPath : string) : action unit
| StubSeen : action upstreamStub
| ShutdownStub : action unit
| FreePort : action (res Z)
| Environ : action (list string)
| StartHost (binary : string) (args : list string) (dir : string) (env : list string) : action (res unit)
| KillHost : action unit
| WaitHost : action unit
| HTTP (call : http_call) : action (res (Z * string))
| Now : action Time
| Sleep (d : Duration) : action unit
| PrintLine (line : string) : action unit.

Inductive script (A : Type) : Type :=
| Ret (a : A)
| Do {X : Type} (a : action X) (k : X → script A).
Arguments Ret {A}.
Arguments Do {A X}.

#[export] Instance script_ret : MRet script := @Ret.

#[export] Instance script_bind : MBind script := λ A B f,
  fix go m := match m with Ret a => f a | Do a k => Do a (λ x, go (k x)) end.

Definition act {X} (a : action X) : script X := Do a Ret.

(** [if err != nil { return err }] *)
Definition attempt {A B} (m : script (res A)) (f : A → script (res B)) : script (res B) :=
  r ← m; match r with Ok a => f a | Err e => mret (Err e) end.

Notation "x ⟵ m ; k" := (attempt m (λ x : _, k))
  (at level 20, m at level 100, k at level 200, only parsing).
Notation "' p ⟵ m ; k" := (attempt m (λ x : _, match x with p => k end))
  (at level 20, p pattern, m at level 100, k at level 200, only parsing).

(** [defer]: whatever the rest returns, the deferred action comes after it. *)
Definition deferring {A} (last : script unit) (rest : script A) : script A :=
  r ← rest; _ ← last; mret r.

(** What is done and answered, and an environment: the answer to an action after what
    has been done. *)
Inductive logged :=
| Logged {X : Type} (a : action X) (x : X).

Definition environment : Type := ∀ X, list logged → action X → X.

Fixpoint run {A} (env : environment) (log : list logged) (s : script A) : A * list logged :=
  match s with
  | Ret a => (a, log)
  | Do a k => let x := env _ log a in run env (log ++ [Logged a x]) (k x)
  end.

(** ** Texts *)

Definition dq : string := str ["034"%char].

Definition in_quotes (s : string) : string := dq +:+ s +:+ dq.

Definition text (lines : list string) : string := foldr (λ l r, l +:+ newline +:+ r) "" lines.

Definition pluginID : string := "subscription-pool".
Definition statusPath : string := "/v0/management/plugins/subscription-pool/status".
Definition pluginListPath : string := "/v0/management/plugins".
Definition smokePlanKey : string := "release-integration-plan-key-000001".
Definition managementKey : string := "release-integration-management-key".
Definition clientKey : string := "release-integration-client-key".

Definition anthropicUpstreamPath : string := "/api/anthropic/v1/messages".
Definition openAIUpstreamPath : string := "/api/coding/paas/v4/chat/completions".
Definition quotaUpstreamPath : string := "/api/monitor/usage/quota/limit".

(** ** The upstream stub (stub.go) *)

Record stub_request := {
  sr_method : string;
  sr_path : string;
  sr_uri : string;
  sr_lane : string;
  sr_authorization : string;
}.

(** A text with a quotation mark for each apostrophe. *)
Fixpoint double_quoted (s : string) : string :=
  match s with
  | EmptyString => EmptyString
  | String c s => String (if Ascii.eqb c "'"%char then "034"%char else c) (double_quoted s)
  end.

(** What the stub answers: a text, or the value of the quota, of which only the reset
    times, in milliseconds, vary. *)
Inductive stub_body :=
| StubText (body : string)
| StubQuota (resetFiveHour resetWeekly : Z).

(** [http.Error]: the message and the end of the line. *)
Definition stub_error (message : string) : stub_body :=
  StubText (double_quoted ("{'error':'" +:+ message +:+ "'}") +:+ newline).

Definition anthropic_message : string := double_quoted (
  "{'id':'msg_smoke','type':'message','role':'assistant','model':'smoke-upstream-anthropic',"
  +:+ "'content':[{'type':'text','text':'anthropic smoke ok'}],'stop_reason':'end_turn',"
  +:+ "'stop_sequence':null,'usage':{'input_tokens':1,'output_tokens':1}}").

Definition openai_message : string := double_quoted (
  "{'id':'chatcmpl-smoke','object':'chat.completion','created':0,'model':'smoke-upstream-openai',"
  +:+ "'choices':[{'index':0,'message':{'role':'assistant','content':'openai smoke ok'},"
  +:+ "'finish_reason':'stop'}],'usage':{'prompt_tokens':1,'completion_tokens':1,'total_tokens':2}}").

Definition unix_milli (t : Time) : Z := (t - unix_epoch) / 1000000.

Definition serveHTTP (stub : upstreamStub) (request : stub_request) (now now' : Time)
    : upstreamStub * (Z * stub_body) :=
  let path := sr_path request in
  let stub :=
    {| us_counts := <[path := default 0 (us_counts stub !! path) [+] 1]> (us_counts stub);
       us_paths := us_paths stub ++ [sr_method request +:+ " " +:+ sr_uri request] |} in
  (stub,
   if bool_decide (path = anthropicUpstreamPath) then
     if negb (bool_decide (sr_method request = "POST")) || negb (bool_decide (sr_lane request = "anthropic"))
     then (400, stub_error "invalid anthropic smoke request") else (200, StubText anthropic_message)
   else if bool_decide (path = openAIUpstreamPath) then
     if negb (bool_decide (sr_method request = "POST")) || negb (bool_decide (sr_lane request = "openai"))
     then (400, stub_error "invalid OpenAI smoke request") else (200, StubText openai_message)
   else if bool_decide (path = quotaUpstreamPath) then
     if negb (bool_decide (sr_method request = "GET"))
        || negb (bool_decide (sr_authorization request = "Bearer " +:+ smokePlanKey))
     then (401, stub_error "invalid quota smoke request")
     else (200, StubQuota (unix_milli (time_Add now (5 * hour))) (unix_milli (time_Add now' (7 * 24 * hour))))
   else (404, stub_error "unexpected upstream path")).

Definition new_stub : upstreamStub := {| us_counts := ∅; us_paths := [] |}.

Definition assertRequests (stub : upstreamStub) : res unit :=
  foldl_res (λ _ path,
    let count := default 0 (us_counts stub !! path) in
    if negb (count =? 1)
    then errorf ("upstream request count for " +:+ path +:+ " = " +:+ itoa count +:+ ", want 1; observed "
                 +:+ Join (us_paths stub) ", ")
    else Ok ()) () [anthropicUpstreamPath; openAIUpstreamPath].

(** The paths of the certificate, the key and the certificate again. *)
Definition writeTestCertificate (root : string) : script (res (string * string * string)) :=
  '(certPEM, keyPEM) ⟵ act NewCertificate;
  let certPath := path_Join [root; "api-z-ai.pem"] in
  let keyPath := path_Join [root; "api-z-ai-key.pem"] in
  _ ⟵ act (WriteFile certPath certPEM 384);
  _ ⟵ act (WriteFile keyPath keyPEM 384);
  mret (Ok (certPath, keyPath, certPath)).

Definition startUpstreamStub (root : string) : script (res string) :=
  '(certPath, keyPath, caPath) ⟵ writeTestCertificate root;
  _ ⟵ (r ← act (ListenTCP "127.0.0.1:443"); mret (wrap_err "listen for Z.ai upstream stub: " r));
  _ ← act (ServeStub certPath keyPath);
  mret (Ok caPath).

(** ** The program (main.go) *)

(** What the JSON bodies carry, and the flags of the command line. *)
Record plugin_item := {
  pi_ID : string;
  pi_Configured : bool;
  pi_Registered : bool;
  pi_Enabled : bool;
  pi_EffectiveEnabled : bool;
}.

Class HarnessCodecs := {
  (** the SDK's name of the registration *)
  hx_register : string;
  hx_flags : list string → res (string * string * string * list string);
  hx_marshal_config : string → res string;
  hx_marshal_inference : string → res string;
  (** the [ok] and the [result] of an envelope *)
  hx_envelope : string → res (bool * string);
  (** the capabilities scheduler, usage_plugin and management_api *)
  hx_registration : string → res (bool * bool * bool);
  hx_plugins : string → res (bool * list plugin_item);
  (** the plugin, its status and the part of the provider zai *)
  hx_status : string → res (string * string * string);
  (** the key suffixes of the accounts *)
  hx_zai_status : string → res (list string);
}.

Section Harness.
Context `{GoStd} `{HarnessCodecs}.

Definition capability_cpa_config (root : string) : string :=
  text [
    "auth-dir: " +:+ quote (path_Join [root; "auth"]);
    "claude-api-key:";
    "  - api-key: " +:+ quote smokePlanKey;
    "    base-url: https://api.z.ai/api/anthropic";
    "    prefix: zai";
    "    headers:";
    "      X-CPA-Smoke-Lane: anthropic";
    "openai-compatibility:";
    "  - name: zai-coding-plan";
    "    prefix: zai-openai";
    "    base-url: https://api.z.ai/api/coding/paas/v4";
    "    api-key-entries:";
    "      - api-key: " +:+ quote smokePlanKey;
    "plugins:";
    "  enabled: true";
    "  dir: plugins";
    "  configs:";
    "    subscription-pool:";
    "      enabled: true";
    "      priority: 1000"].

Definition capability_plugin_config (cpaConfigPath : string) : string :=
  text [
    "cpa-config-path: " +:+ cpaConfigPath;
    "providers:";
    "  zai:";
    "    default-plan: pro";
    "    accounts:";
    "      - key-suffix: 000001";
    "        name: release-capability";
    "        plan: pro"].

Definition host_config (root : string) (port : Z) (authDir configPath : string) : string :=
  text [
    "host: " +:+ dq +:+ "127.0.0.1" +:+ dq;
    "port: " +:+ itoa port;
    "remote-management:";
    "  allow-remote: false";
    "  secret-key: " +:+ quote managementKey;
    "  disable-control-panel: true";
    "auth-dir: " +:+ quote authDir;
    "api-keys: [" +:+ quote clientKey +:+ "]";
    "force-model-prefix: true";
    "claude-api-key:";
    "  - api-key: " +:+ quote smokePlanKey;
    "    base-url: https://api.z.ai/api/anthropic";
    "    prefix: zai";
    "    headers:";
    "      X-CPA-Smoke-Lane: anthropic";
    "    models:";
    "      - name: smoke-upstream-anthropic";
    "        alias: smoke-model";
    "openai-compatibility:";
    "  - name: zai-coding-plan";
    "    prefix: zai-openai";
    "    base-url: https://api.z.ai/api/coding/paas/v4";
    "    headers:";
    "      X-CPA-Smoke-Lane: openai";
    "    api-key-entries:";
    "      - api-key: " +:+ quote smokePlanKey;
    "    models:";
    "      - name: smoke-upstream-openai";
    "        alias: smoke-model";
    "plugins:";
    "  enabled: true";
    "  dir: " +:+ quote (path_Join [root; "plugins"]);
    "  configs:";
    "    subscription-pool:";
    "      enabled: true";
    "      priority: 1000";
    "      cpa-config-path: " +:+ quote configPath;
    "      providers:";
    "        zai:";
    "          quota-refresh-interval: 1m";
    "          authoritative-max-age: 3m";
    "          default-plan: pro";
    "          accounts:";
    "            - key-suffix: 000001";
    "              name: release-integration";
    "              plan: pro"].

Definition show_bool (b : bool) : string := if b then "true" else "false".

Definition show_error (e : option error) : string := match e with Some e => error_text e | None => "<nil>" end.

(** The decision on the response to the registration. *)
Definition check_registration (raw : string) (callErr : option error) : res unit :=
  let context := " (raw " +:+ quote raw +:+ ", call error " +:+ show_error callErr +:+ ")" in
  match callErr, len raw =? 0 with
  | Some e, true => Err (EWrap "plugin registration: " e)
  | _, _ =>
      match hx_envelope raw with
      | Err e => errorf ("decode registration envelope: " +:+ error_text e +:+ context)
      | Ok (ok, result) =>
          if len result =? 0 then errorf ("registration returned no result" +:+ context) else
          '(scheduler, usagePlugin, managementAPI) ← wrap_err "decode registration result: " (hx_registration result);
          if negb ok || negb scheduler || negb usagePlugin || negb managementAPI
          then errorf ("required capabilities not advertised: scheduler=" +:+ show_bool scheduler
                       +:+ " usage_plugin=" +:+ show_bool usagePlugin
                       +:+ " management_api=" +:+ show_bool managementAPI)
          else Ok ()
      end
  end.

Definition verifyCapabilities (plugin : string) : script (res unit) :=
  _ ⟵ (r ← act (LoadPlugin plugin); mret (wrap_err "load plugin registration: " r));
  deferring (act ClosePlugin) (
    root ⟵ act (MkdirTemp "zai-capability-check-");
    deferring (act (RemoveAll root)) (
      let cpaConfigPath := path_Join [root; "config.yaml"] in
      _ ⟵ act (WriteFile cpaConfigPath (capability_cpa_config root) 384);
      request ⟵ mret (hx_marshal_config (capability_plugin_config cpaConfigPath));
      '(raw, callErr) ← act (CallPlugin hx_register request);
      mret (check_registration raw callErr))).

Definition requestJSON (method url key body : string) : script (res (Z * string)) :=
  act (HTTP {| hc_method := method; hc_url := url; hc_body := body;
               hc_headers := if bool_decide (key = "") then [] else [("Authorization", "Bearer " +:+ key)] |}).

Fixpoint plugin_entry (enabled : bool) (items : list plugin_item) : bool :=
  match items with
  | [] => false
  | item :: items =>
      if bool_decide (pi_ID item = pluginID)
      then enabled && pi_Configured item && pi_Registered item && pi_Enabled item && pi_EffectiveEnabled item
      else plugin_entry enabled items
  end.

Definition pluginRegistered (baseURL : string) : script (res bool) :=
  '(code, body) ⟵ requestJSON "GET" (baseURL +:+ pluginListPath) managementKey "";
  if negb (code =? 200) then mret (errorf ("plugin list status = " +:+ itoa code)) else
  mret ('(enabled, items) ← hx_plugins body; Ok (plugin_entry enabled items)).

Definition not_registered : error :=
  EText "tested host image did not register and enable the plugin within 30 seconds".

(** The loop, for at most so many turns. *)
Fixpoint wait_loop (fuel : nat) (baseURL : string) (deadline : Time) : script (res unit) :=
  match fuel with
  | O => mret (Err not_registered)
  | S fuel =>
      now ← act Now;
      if time_Before now deadline then
        registered ← pluginRegistered baseURL;
        match registered with
        | Ok true => mret (Ok ())
        | _ => _ ← act (Sleep (250 * millisecond)); wait_loop fuel baseURL deadline
        end
      else mret (Err not_registered)
  end.

Definition wait_fuel : nat := 121.

Definition waitForRegistered (baseURL : string) : script (res unit) :=
  now ← act Now; wait_loop wait_fuel baseURL (time_Add now (30 * second)).

Definition firstSuffix (suffixes : list string) : string := default "" (head suffixes).

(** The decision on the two status responses. *)
Definition check_status (authorized : Z * string) : res unit :=
  if negb (authorized.1 =? 200) then errorf ("authenticated status code = " +:+ itoa authorized.1 +:+ ", want 200") else
  '(plugin, status, zai) ← wrap_err "decode authenticated status: " (hx_status authorized.2);
  suffixes ← wrap_err "decode zai provider status: " (hx_zai_status zai);
  if negb (bool_decide (plugin = pluginID)) || negb (bool_decide (status = "registered"))
     || negb (Z.of_nat (length suffixes) =? 1) || negb (bool_decide (firstSuffix suffixes = "redacted"))
  then errorf ("authenticated status is not registered and redacted: plugin=" +:+ quote plugin +:+ " status="
               +:+ quote status +:+ " accounts=" +:+ itoa (Z.of_nat (length suffixes)) +:+ " suffix="
               +:+ quote (firstSuffix suffixes))
  else Ok ().

Definition verifyStatusAuthentication (baseURL : string) : script (res unit) :=
  '(unauthorized, _) ⟵ requestJSON "GET" (baseURL +:+ statusPath) "" "";
  if negb (unauthorized =? 401)
  then mret (errorf ("unauthenticated status code = " +:+ itoa unauthorized +:+ ", want 401")) else
  authorized ⟵ requestJSON "GET" (baseURL +:+ statusPath) managementKey "";
  mret (check_status authorized).

Definition inferenceRoundTrip (baseURL path model marker : string) (anthropic : bool) : script (res unit) :=
  raw ⟵ mret (hx_marshal_inference model);
  '(code, body) ⟵ act (HTTP
    {| hc_method := "POST"; hc_url := baseURL +:+ path; hc_body := raw;
       hc_headers := ("Content-Type", "application/json") ::
         if anthropic then [("X-Api-Key", clientKey); ("Anthropic-Version", "2023-06-01")]
         else [("Authorization", "Bearer " +:+ clientKey)] |});
  mret (if negb (code =? 200) || negb (Contains body marker)
        then errorf (model +:+ " inference status = " +:+ itoa code +:+ ", marker " +:+ quote marker
                     +:+ " absent; body " +:+ quote body)
        else Ok ()).

Definition copyFile (dst src : string) (mode : Z) : script (res unit) :=
  raw ⟵ act (ReadFile src); act (WriteFile dst raw mode).

Definition host_log (root : string) : string := path_Join [root; "host.log"].

Definition rejected_markers : list string := ["zai_unmanaged_candidate"; "scheduler rejected auth pick"].

Definition rejectSchedulerErrors (root : string) : script (res unit) :=
  log ⟵ act (ReadFile (host_log root));
  mret (foldl_res (λ _ marker,
    if Contains log marker
    then errorf ("host log contains scheduler failure " +:+ quote marker +:+ newline +:+ "host log:" +:+ newline +:+ log)
    else Ok ()) () rejected_markers).

(** The error, with the host's log after it when it can be read. *)
Definition withHostLog (root : string) (cause : error) : script error :=
  raw ← act (ReadFile (host_log root));
  mret match raw with
       | Err _ => cause
       | Ok raw => EText (error_text cause +:+ newline +:+ "host log:" +:+ newline +:+ raw)
       end.

(** [if err := check; err != nil { return withHostLog(root, err) }] *)
Definition with_log (root : string) (check : script (res unit)) : script (res unit) :=
  result ← check;
  match result with
  | Ok _ => mret (Ok ())
  | Err cause => e ← withHostLog root cause; mret (Err e)
  end.

(** [environment[:0]] shares its array with [environment]: the loop reads the elements
    while it writes the ones it keeps. [i] is the position it reads and [k] the length of
    what it has kept. *)
Definition proxy_variables : list string := ["HTTP_PROXY"; "HTTPS_PROXY"; "ALL_PROXY"; "NO_PROXY"].

Definition is_proxy (item : string) : bool :=
  bool_decide (ToUpper (default "" (head (Split item "="%char))) ∈ proxy_variables).

Fixpoint clean_loop (n i k : nat) (array : list string) : nat * list string :=
  match n with
  | O => (k, array)
  | S n =>
      let item := default "" (array !! i) in
      if is_proxy item then clean_loop n (S i) k array
      else clean_loop n (S i) (S k) (<[k := item]> array)
  end.

Definition cleanProxyEnvironment (environment : list string) : list string :=
  let '(k, array) := clean_loop (length environment) 0 0 environment in
  take k array ++ ["NO_PROXY=*"; "no_proxy=*"].

(** The process has been started. *)
Definition stopProcess : script unit := _ ← act KillHost; act WaitHost.

(** The checks, once the host runs. *)
Definition host_checks (root baseURL : string) : script (res unit) :=
  _ ⟵ with_log root (waitForRegistered baseURL);
  _ ⟵ with_log root (verifyStatusAuthentication baseURL);
  _ ⟵ with_log root (inferenceRoundTrip baseURL "/v1/messages" "zai/smoke-model" "anthropic smoke ok" true);
  _ ⟵ with_log root
        (inferenceRoundTrip baseURL "/v1/chat/completions" "zai-openai/smoke-model" "openai smoke ok" false);
  _ ⟵ with_log root (stub ← act StubSeen; mret (assertRequests stub));
  rejectSchedulerErrors root.

Definition verifyHostHTTP (hostBinary plugin image : string) : script (res unit) :=
  root ⟵ act (MkdirTemp "zai-host-integration-");
  deferring (act (RemoveAll root)) (
    caPath ⟵ startUpstreamStub root;
    deferring (act ShutdownStub) (
      let pluginDir := path_Join [root; "plugins"; "linux"; "amd64"] in
      let authDir := path_Join [root; "auth"] in
      _ ⟵ act (MkdirAll pluginDir 493);
      _ ⟵ act (MkdirAll authDir 448);
      _ ⟵ copyFile (path_Join [pluginDir; pluginID +:+ "-v0.2.0.so"]) plugin 493;
      port ⟵ (r ← act FreePort; mret (wrap_err "reserve host integration port: " r));
      let configPath := path_Join [root; "config.yaml"] in
      _ ⟵ act (WriteFile configPath (host_config root port authDir configPath) 384);
      _ ⟵ act (OpenLog (host_log root));
      deferring (act CloseLog) (
        inherited ← act Environ;
        let environment := cleanProxyEnvironment (inherited ++ ["SSL_CERT_FILE=" +:+ caPath]) in
        _ ⟵ (r ← act (StartHost hostBinary ["-config"; configPath] root environment);
              mret (wrap_err "start tested host binary: " r));
        deferring stopProcess (
          _ ⟵ host_checks root ("http://127.0.0.1:" +:+ itoa port);
          _ ← act (PrintLine (image +:+ ": registered with scheduler, usage_plugin, management_api; "
                +:+ "real scheduler picks served zai/* and zai-openai/* with HTTP 200"));
          mret (Ok ()))))).

Definition main_run (args : list string) : script (res unit) :=
  match hx_flags args with
  | Err e => mret (Err e)
  | Ok (hostBinary, plugin, image, rest) =>
      if negb (bool_decide (rest = [])) then mret (errorf ("unexpected arguments: " +:+ Join rest " ")) else
      if bool_decide (hostBinary = "") || bool_decide (plugin = "")
      then mret (errorf "host-binary and plugin are required") else
      _ ⟵ verifyCapabilities plugin;
      verifyHostHTTP hostBinary plugin image
  end.

End Harness.

(** ** Running a script *)

Lemma run_bind {A B} env log (m : script A) (f : A → script B) :
  run env log (m ≫= f) = let '(a, log) := run env log m in run env log (f a).
Proof. revert log. induction m as [a|X a k IH]; intros log; [done|]. cbn. apply IH. Qed.

Lemma run_extends {A} env log (m : script A) : ∃ more, (run env log m).2 = log ++ more.
Proof.
  revert log. induction m as [a|X a k IH]; intros log; [exists []; by rewrite app_nil_r|]. cbn.
  destruct (IH (env X log a) (log ++ [Logged a (env X log a)])) as [more Hm].
  eexists. rewrite Hm, <- app_assoc. done.
Qed.

Lemma run_attempt {A B} env log (m : script (res A)) (f : A → script (res B)) :
  run env log (attempt m f)
  = let '(r, log) := run env log m in match r with Ok a => run env log (f a) | Err e => (Err e, log) end.
Proof. unfold attempt. rewrite run_bind. by destruct (run env log m) as [[a|e] log']. Qed.

Lemma run_deferring {A} env log (last : script unit) (rest : script A) :
  run env log (deferring last rest)
  = let '(a, log) := run env log rest in (a, (run env log last).2).
Proof.
  unfold deferring. rewrite run_bind. destruct (run env log rest) as [a log1]. rewrite run_bind.
  by destruct (run env log1 last).
Qed.

(** ** What is acquired is released *)

Inductive resource := RPlugin | RDirectory (dir : string) | RStub | RLog | RHost.

#[global] Instance resource_eq_dec : EqDecision resource.
Proof. solve_decision. Defined.

Definition acquired {X} (a : action X) : X → option resource :=
  match a in action X return X → option resource with
  | LoadPlugin _ => λ r, match r with Ok _ => Some RPlugin | Err _ => None end
  | MkdirTemp _ => λ r, match r with Ok dir => Some (RDirectory dir) | Err _ => None end
  | ListenTCP _ => λ r, match r with Ok _ => Some RStub | Err _ => None end
  | OpenLog _ => λ r, match r with Ok _ => Some RLog | Err _ => None end
  | StartHost _ _ _ _ => λ r, match r with Ok _ => Some RHost | Err _ => None end
  | _ => λ _, None
  end.

Definition released {X} (a : action X) : option resource :=
  match a with
  | ClosePlugin => Some RPlugin
  | RemoveAll dir => Some (RDirectory dir)
  | ShutdownStub => Some RStub
  | CloseLog => Some RLog
  | WaitHost => Some RHost
  | _ => None
  end.

(** The resources held after what is logged: the last one acquired is released first. *)
Fixpoint replay (log : list logged) (held : list resource) : option (list resource) :=
  match log with
  | [] => Some held
  | Logged a x :: log =>
      match released a, held with
      | Some r, r' :: held => if decide (r = r') then replay log held else None
      | Some _, [] => None
      | None, _ => replay log match acquired a x with Some r => r :: held | None => held end
      end
  end.

Lemma replay_app log1 log2 held : replay (log1 ++ log2) held = replay log1 held ≫= replay log2.
Proof.
  revert held. induction log1 as [|[X a x] log1 IH]; intros held; [done|]. cbn [app replay].
  destruct (released a); [|apply IH]. destruct held as [|r' held]; [done|]. case_decide; [apply IH|done].
Qed.

(** A script after which the resources are held that were before, and one that may leave
    another one, given its result. *)
Definition leaves {A} (extra : A → list resource) (s : script A) : Prop :=
  ∀ env log held, ∃ more, (run env log s).2 = log ++ more
    ∧ replay more held = Some (extra (run env log s).1 ++ held).

Definition tidy {A} (s : script A) : Prop := leaves (λ _, []) s.

Lemma tidy_ret {A} (a : A) : tidy (mret a).
Proof. intros env log held. exists []. by rewrite app_nil_r. Qed.

Lemma leaves_bind {A B} (e1 : A → list resource) (e2 : B → list resource) (m : script A) (f : A → script B) :
  leaves e1 m → (∀ a env log held, ∃ more, (run env log (f a)).2 = log ++ more
     ∧ replay more (e1 a ++ held) = Some (e2 (run env log (f a)).1 ++ held)) →
  leaves e2 (m ≫= f).
Proof.
  intros Hm Hf env log held. rewrite run_bind. destruct (Hm env log held) as (m1 & Hl1 & Hr1).
  destruct (run env log m) as [a log1]. cbn [fst snd] in *. subst log1.
  destruct (Hf a env (log ++ m1) held) as (m2 & Hl2 & Hr2). exists (m1 ++ m2).
  rewrite Hl2, app_assoc. split; [done|]. rewrite replay_app, Hr1. exact Hr2.
Qed.

Lemma tidy_bind {A B} (m : script A) (f : A → script B) : tidy m → (∀ a, tidy (f a)) → tidy (m ≫= f).
Proof. intros Hm Hf. eapply leaves_bind; [exact Hm|]. intros a env log held. apply Hf. Qed.

Lemma tidy_attempt {A B} (m : script (res A)) (f : A → script (res B)) :
  tidy m → (∀ a, tidy (f a)) → tidy (attempt m f).
Proof. intros Hm Hf. apply tidy_bind; [done|]. intros [a|e]; [apply Hf|apply tidy_ret]. Qed.

(** An action that neither acquires nor releases. *)
Lemma tidy_act {X} (a : action X) : released a = None → (∀ x, acquired a x = None) → tidy (act a).
Proof.
  intros Hr Ha env log held. eexists. split; [reflexivity|]. cbn. by rewrite Hr, Ha.
Qed.

(** What is acquired is released after the rest, whatever it returns. *)
Lemma tidy_bracket {A B} (m : script (res A)) (r : A → resource) (last : A → script unit) (rest : A → script (res B)) :
  leaves (λ x, match x with Ok a => [r a] | Err _ => [] end) m →
  (∀ a env log held, ∃ more, (run env log (last a)).2 = log ++ more ∧ replay more (r a :: held) = Some held) →
  (∀ a, tidy (rest a)) → tidy (attempt m (λ a, deferring (last a) (rest a))).
Proof.
  intros Hm Hlast Hrest. eapply leaves_bind; [exact Hm|]. intros [a|e] env log held.
  2: { exists []. by rewrite app_nil_r. }
  rewrite run_deferring. destruct (Hrest a env log (r a :: held)) as (m1 & Hl1 & Hr1).
  destruct (run env log (rest a)) as [b log1]. cbn [fst snd app] in *. subst log1.
  destruct (Hlast a env (log ++ m1) held) as (m2 & Hl2 & Hr2). exists (m1 ++ m2).
  rewrite Hl2, app_assoc. split; [done|]. by rewrite replay_app, Hr1.
Qed.

(** Follow a script of neutral actions. *)
Ltac tidy_script :=
  repeat match goal with
  | |- tidy (attempt _ _) => apply tidy_attempt; [|intros ?]
  | |- tidy (_ ≫= _) => apply tidy_bind; [|intros ?]
  | |- tidy (mret _) => apply tidy_ret
  | |- tidy (act _) => apply tidy_act; [reflexivity|done]
  | |- tidy (match ?x with _ => _ end) => destruct x
  | |- tidy (if ?b then _ else _) => destruct b
  end.

Lemma leaves_act {X} (a : action X) (e : X → list resource) :
  released a = None → (∀ x, match acquired a x with Some r => [r] | None => [] end = e x) → leaves e (act a).
Proof.
  intros Hr He env log held. eexists. split; [reflexivity|]. cbn. rewrite Hr, <- He. by destruct (acquired _ _).
Qed.

(** A release at the end. *)
Lemma release_act (a : action unit) r env log held :
  released a = Some r → ∃ more, (run env log (act a)).2 = log ++ more ∧ replay more (r :: held) = Some held.
Proof. intros Hr. eexists. split; [reflexivity|]. cbn. rewrite Hr. by rewrite decide_True. Qed.

(** What a result that is not an error has acquired. *)
Definition holding {A} (r : A → resource) (x : res A) : list resource :=
  match x with Ok a => [r a] | Err _ => [] end.

Lemma leaves_after {A B} (r : B → resource) (m : script (res A)) (f : A → script (res B)) :
  tidy m → (∀ a, leaves (holding r) (f a)) → leaves (holding r) (attempt m f).
Proof.
  intros Hm Hf. eapply leaves_bind; [exact Hm|]. intros [a|e] env log held; [apply Hf|].
  exists []. by rewrite app_nil_r.
Qed.

Lemma leaves_before {A B} (r : A → resource) (r' : B → resource) (m : script (res A)) (f : A → script (res B)) :
  leaves (holding r) m → (∀ a, tidy (f a)) → (∀ a env log, holding r' (run env log (f a)).1 = [r a]) →
  leaves (holding r') (attempt m f).
Proof.
  intros Hm Hf Hr. eapply leaves_bind; [exact Hm|]. intros [a|e] env log held.
  - destruct (Hf a env log (r a :: held)) as (more & Hl & Hp). exists more. split; [done|].
    rewrite Hr. exact Hp.
  - exists []. by rewrite app_nil_r.
Qed.

Lemma leaves_wrap {A} (r : A → resource) prefix (m : script (res A)) :
  leaves (holding r) m → leaves (holding r) (x ← m; mret (wrap_err prefix x)).
Proof.
  intros Hm. eapply leaves_bind; [exact Hm|]. intros x env log held. exists []. rewrite app_nil_r. by destruct x.
Qed.

Section Tidy.
Context `{GoStd} `{HarnessCodecs}.

Lemma tidy_request method url key body : tidy (requestJSON method url key body).
Proof. unfold requestJSON. tidy_script. Qed.

Lemma tidy_registered baseURL : tidy (pluginRegistered baseURL).
Proof. unfold pluginRegistered, requestJSON. tidy_script. Qed.

Lemma tidy_wait fuel baseURL deadline : tidy (wait_loop fuel baseURL deadline).
Proof.
  induction fuel as [|fuel IH]; cbn [wait_loop]; [apply tidy_ret|]. apply tidy_bind; [tidy_script|]. intros now.
  destruct (time_Before now deadline); [|apply tidy_ret]. apply tidy_bind; [apply tidy_registered|].
  intros [[]|e]; [apply tidy_ret|..]; (apply tidy_bind; [tidy_script|done]).
Qed.

Lemma tidy_with_log root check : tidy check → tidy (with_log root check).
Proof. intros Hc. unfold with_log, withHostLog. apply tidy_bind; [done|]. intros [[]|e]; tidy_script. Qed.

Lemma tidy_host_checks root baseURL : tidy (host_checks root baseURL).
Proof.
  unfold host_checks.
  repeat (apply tidy_attempt; [apply tidy_with_log|intros _]);
    unfold waitForRegistered, verifyStatusAuthentication, inferenceRoundTrip, requestJSON, rejectSchedulerErrors; tidy_script.
  apply tidy_wait.
Qed.

Lemma stub_leaves root : leaves (holding (λ _ : string, RStub)) (startUpstreamStub root).
Proof.
  unfold startUpstreamStub. apply leaves_after; [unfold writeTestCertificate; tidy_script|].
  intros [[certPath keyPath] caPath]. eapply leaves_before.
  - apply leaves_wrap, (leaves_act _ (holding (λ _, RStub))); [done|]. by intros [].
  - intros []. tidy_script.
  - done.
Qed.

Lemma tidy_capabilities plugin : tidy (verifyCapabilities plugin).
Proof.
  unfold verifyCapabilities. apply (tidy_bracket _ (λ _, RPlugin)).
  - apply leaves_wrap, (leaves_act _ (holding (λ _, RPlugin))); [done|]. by intros [].
  - intros a env log held. by apply release_act.
  - intros _. apply (tidy_bracket _ RDirectory).
    + apply (leaves_act _ (holding RDirectory)); [done|]. by intros [].
    + intros dir env log held. by apply release_act.
    + intros dir. tidy_script.
Qed.

Lemma tidy_hosting root baseURL image binary args env :
  tidy (_ ⟵ (r ← act (StartHost binary args root env); mret (wrap_err "start tested host binary: " r));
        deferring stopProcess (
          _ ⟵ host_checks root baseURL; _ ← act (PrintLine image); mret (Ok ()))).
Proof.
  apply (tidy_bracket _ (λ _, RHost)).
  - apply leaves_wrap, (leaves_act _ (holding (λ _, RHost))); [done|]. by intros [].
  - intros a e log held. unfold stopProcess. eexists. split; [rewrite run_bind; cbn; by rewrite <- app_assoc|]. done.
  - intros _. apply tidy_attempt; [apply tidy_host_checks|]. intros _. tidy_script.
Qed.

(** The check of a host cleans up after itself. Wherever it stops, and whatever the
    system answers, everything it has acquired, the plugin, the temporary directories,
    the stub of the upstream, the log and the host process, has been released, once each
    and in the opposite order, so that nothing is removed while something started later
    still uses it. *)
Theorem harness_tidy args env :
  replay (run env [] (main_run args)).2 [] = Some [].
Proof.
  assert (tidy (main_run args)) as Ht.
  2: { destruct (Ht env [] []) as (more & -> & Hr). exact Hr. }
  unfold main_run. destruct (hx_flags args) as [[[[binary plugin] image] rest]|e]; [|apply tidy_ret].
  destruct (negb _); [apply tidy_ret|]. destruct (_ || _); [apply tidy_ret|].
  apply tidy_attempt; [apply tidy_capabilities|]. intros _. unfold verifyHostHTTP.
  apply (tidy_bracket _ RDirectory).
  { apply (leaves_act _ (holding RDirectory)); [done|]. by intros []. }
  { intros dir e log held. by apply release_act. }
  intros root. apply (tidy_bracket _ (λ _, RStub)); [apply stub_leaves|intros _ e log held; by apply release_act|].
  intros caPath. cbv zeta. do 2 (apply tidy_attempt; [tidy_script|intros _]).
  apply tidy_attempt; [unfold copyFile; tidy_script|intros _]. apply tidy_attempt; [tidy_script|intros port].
  apply tidy_attempt; [tidy_script|intros _]. apply (tidy_bracket _ (λ _, RLog)).
  { apply (leaves_act _ (holding (λ _, RLog))); [done|]. by intros []. }
  { intros _ e log held. by apply release_act. }
  intros _. apply tidy_bind; [tidy_script|]. intros inherited. apply tidy_hosting.
Qed.

End Tidy.

(** ** What a success has seen *)

(** A script that only succeeds once something of a kind has happened. *)
Definition sees {A} (P : logged → Prop) (s : script (res A)) : Prop :=
  ∀ env log a, (run env log s).1 = Ok a → Exists P (run env log s).2.

Lemma exists_extends {A} P env log (s : script A) : Exists P log → Exists P (run env log s).2.
Proof. intros HP. destruct (run_extends env log s) as [more ->]. apply Exists_app. by left. Qed.

Lemma sees_first {A B} P (m : script (res A)) (f : A → script (res B)) : sees P m → sees P (attempt m f).
Proof.
  intros Hm env log b. rewrite run_attempt. specialize (Hm env log).
  destruct (run env log m) as [[a|e] log1]; [|done]. intros _. eapply exists_extends, Hm. reflexivity.
Qed.

Lemma sees_then {A B} P (m : script (res A)) (f : A → script (res B)) : (∀ a, sees P (f a)) → sees P (attempt m f).
Proof. intros Hf env log b. rewrite run_attempt. destruct (run env log m) as [[a|e] log1]; [apply Hf|done]. Qed.

Lemma sees_bind {A B} P (m : script A) (f : A → script (res B)) : (∀ a, sees P (f a)) → sees P (m ≫= f).
Proof. intros Hf env log b. rewrite run_bind. destruct (run env log m) as [a log1]. apply Hf. Qed.

Lemma sees_deferring {A} P last (rest : script (res A)) : sees P rest → sees P (deferring last rest).
Proof.
  intros Hr env log a. rewrite run_deferring. specialize (Hr env log a).
  destruct (run env log rest) as [r log1]. cbn [fst snd] in *. intros Ha. by apply exists_extends, Hr.
Qed.

(** An action whose answer decides. *)
Lemma sees_answer {X A} P (a : action X) (f : X → script (res A)) :
  (∀ env log x b, (run env log (f x)).1 = Ok b → P (Logged a x)) → sees P (act a ≫= f).
Proof.
  intros HP env log b. rewrite run_bind. cbn. intros Hb. apply exists_extends, Exists_app. right. constructor.
  by eapply HP.
Qed.

Lemma sees_result {X A} P (a : action (res X)) (f : X → script (res A)) :
  (∀ env log x b, (run env log (f x)).1 = Ok b → P (Logged a (Ok x))) → sees P (attempt (act a) f).
Proof. intros HP. apply sees_answer. intros env log [x|e] b Hb; [by eapply HP|done]. Qed.

(** A run that succeeds, of which the final log keeps what it has logged. *)
Definition succeeds {A} (env : environment) (log : list logged) (s : script (res A)) (final : list logged) : Prop :=
  (∃ a, (run env log s).1 = Ok a) ∧ ∃ more, final = (run env log s).2 ++ more.

Lemma succeeds_err {A} env log e final : succeeds env log (mret (Err e) : script (res A)) final → False.
Proof. by intros [[a Ha] _]. Qed.

Lemma succeeds_attempt {A B} env log (m : script (res A)) (f : A → script (res B)) final :
  succeeds env log (attempt m f) final → ∃ a log', succeeds env log' (f a) final.
Proof.
  intros Hs. unfold succeeds in Hs. rewrite run_attempt in Hs.
  destruct (run env log m) as [[a|e] log1]; [by exists a, log1|]. by destruct Hs as [[b Hb] _].
Qed.

Lemma succeeds_first {A B} env log (m : script (res A)) (f : A → script (res B)) final :
  succeeds env log (attempt m f) final → succeeds env log m final.
Proof.
  intros Hs. unfold succeeds in *. rewrite run_attempt in Hs.
  destruct (run env log m) as [[a|e] log1]; [|by destruct Hs as [[b Hb] _]].
  split; [by exists a|]. destruct Hs as [_ [more ->]]. destruct (run_extends env log1 (f a)) as [more' ->].
  exists (more' ++ more). by rewrite app_assoc.
Qed.

Lemma succeeds_bind {A B} env log (m : script A) (f : A → script (res B)) final :
  succeeds env log (m ≫= f) final → succeeds env (run env log m).2 (f (run env log m).1) final.
Proof. unfold succeeds. rewrite run_bind. by destruct (run env log m). Qed.

Lemma succeeds_deferring {A} env log last (rest : script (res A)) final :
  succeeds env log (deferring last rest) final → succeeds env log rest final.
Proof.
  unfold succeeds. rewrite run_deferring. destruct (run env log rest) as [r log1]. cbn [fst snd].
  intros [Hr [more ->]]. split; [done|]. destruct (run_extends env log1 last) as [more' ->].
  exists (more' ++ more). by rewrite app_assoc.
Qed.

Lemma succeeds_sees {A} P env log (s : script (res A)) final :
  sees P s → succeeds env log s final → Exists P final.
Proof. intros Hs [[a Ha] [more ->]]. apply Exists_app. left. by eapply Hs. Qed.

(** An action that succeeded, and one of which an error would have been wrapped. *)
Lemma succeeds_act {X A} env log (a : action (res X)) (f : X → script (res A)) final :
  succeeds env log (attempt (act a) f) final →
  ∃ x log', Logged a (Ok x) ∈ final ∧ succeeds env log' (f x) final.
Proof.
  intros Hs. pose proof (succeeds_first _ _ _ _ _ Hs) as [[x Hx] [more ->]]. cbn in Hx |- *.
  unfold succeeds in Hs. rewrite run_attempt in Hs. cbn in Hs. rewrite Hx in Hs |- *.
  exists x, (log ++ [Logged a (Ok x)]). split; [|exact Hs]. rewrite !elem_of_app. left. right. left.
Qed.

Lemma succeeds_wrapped {X A} env log prefix (a : action (res X)) (f : X → script (res A)) final :
  succeeds env log (attempt (r ← act a; mret (wrap_err prefix r)) f) final →
  ∃ x log', Logged a (Ok x) ∈ final ∧ succeeds env log' (f x) final.
Proof.
  intros Hs. pose proof (succeeds_first _ _ _ _ _ Hs) as [[x Hx] [more ->]]. rewrite run_bind in Hx |- *. cbn in Hx |- *.
  unfold succeeds in Hs. rewrite run_attempt, run_bind in Hs. cbn in Hs.
  destruct (env _ log a) as [x'|e]; [|done]. cbn in Hx, Hs |- *.
  exists x', (log ++ [Logged a (Ok x')]). split; [|exact Hs]. rewrite !elem_of_app. left. right. left.
Qed.

Section Accepted.
Context `{GoStd} `{HarnessCodecs}.

Lemma sees_with_log P root check : sees P check → sees P (with_log root check).
Proof.
  intros Hc env log a. unfold with_log, withHostLog. rewrite run_bind. specialize (Hc env log).
  destruct (run env log check) as [[[]|e] log1]; [intros _; by eapply Hc|]. cbn. by destruct (env _ _ _).
Qed.

(** The evidence of each check: the request the harness sent, to the root and the port
    it uses, and an answer that passes. *)
Definition saw_registration (l : logged) : Prop :=
  ∃ request raw callErr result, l = Logged (CallPlugin hx_register request) (raw, callErr)
    ∧ hx_envelope raw = Ok (true, result) ∧ hx_registration result = Ok (true, true, true).

Definition saw_start (binary root : string) (l : logged) : Prop :=
  ∃ environment, l = Logged (StartHost binary ["-config"; path_Join [root; "config.yaml"]] root environment) (Ok ()).

(** A request with the management key, or without one. *)
Definition management_call (url : string) (authorized : bool) : http_call :=
  {| hc_method := "GET"; hc_url := url; hc_body := "";
     hc_headers := if authorized then [("Authorization", "Bearer " +:+ managementKey)] else [] |}.

Definition saw_listed (baseURL : string) (l : logged) : Prop :=
  ∃ body enabled items,
    l = Logged (HTTP (management_call (baseURL +:+ "/v0/management/plugins") true)) (Ok (200, body))
    ∧ hx_plugins body = Ok (enabled, items) ∧ plugin_entry enabled items = true.

Definition status_url (baseURL : string) : string := baseURL +:+ "/v0/management/plugins/subscription-pool/status".

Definition saw_refusal (baseURL : string) (l : logged) : Prop :=
  ∃ body, l = Logged (HTTP (management_call (status_url baseURL) false)) (Ok (401, body)).

Definition saw_status (baseURL : string) (l : logged) : Prop :=
  ∃ body zai, l = Logged (HTTP (management_call (status_url baseURL) true)) (Ok (200, body))
    ∧ hx_status body = Ok (pluginID, "registered", zai) ∧ hx_zai_status zai = Ok ["redacted"].

Definition saw_inference (baseURL path model marker : string) (key : list (string * string)) (l : logged) : Prop :=
  ∃ request body, hx_marshal_inference model = Ok request ∧ Contains body marker = true
    ∧ l = Logged (HTTP {| hc_method := "POST"; hc_url := baseURL +:+ path; hc_body := request;
                          hc_headers := ("Content-Type", "application/json") :: key |}) (Ok (200, body)).

Definition saw_messages (baseURL : string) : logged → Prop :=
  saw_inference baseURL "/v1/messages" "zai/smoke-model" "anthropic smoke ok"
    [("X-Api-Key", clientKey); ("Anthropic-Version", "2023-06-01")].

Definition saw_completions (baseURL : string) : logged → Prop :=
  saw_inference baseURL "/v1/chat/completions" "zai-openai/smoke-model" "openai smoke ok"
    [("Authorization", "Bearer " +:+ clientKey)].

Definition saw_upstream (l : logged) : Prop :=
  ∃ stub, l = Logged StubSeen stub
    ∧ us_counts stub !! anthropicUpstreamPath = Some 1 ∧ us_counts stub !! openAIUpstreamPath = Some 1.

Definition saw_log (root : string) (l : logged) : Prop :=
  ∃ log, l = Logged (ReadFile (path_Join [root; "host.log"])) (Ok log)
    ∧ Contains log "zai_unmanaged_candidate" = false ∧ Contains log "scheduler rejected auth pick" = false.

Lemma check_registration_ok raw callErr :
  check_registration raw callErr = Ok () →
  ∃ result, hx_envelope raw = Ok (true, result) ∧ hx_registration result = Ok (true, true, true).
Proof.
  unfold check_registration. cbv zeta. intros Hc.
  assert (match hx_envelope raw with
          | Ok (ok, result) => ok = true ∧ hx_registration result = Ok (true, true, true) | Err _ => False end) as Hm.
  2: { destruct (hx_envelope raw) as [[ok result]|]; [|done]. destruct Hm as [-> Hr]. eauto. }
  assert (∀ r, match callErr with
          | Some e => if len raw =? 0 then Err (EWrap "plugin registration: " e) else r | None => r end = Ok () → r = Ok ())
    as Hinner by (intros r; destruct callErr; [destruct (len raw =? 0)|]; done).
  destruct (hx_envelope raw) as [[ok result]|e]; [|destruct callErr, (len raw =? 0); done].
  destruct (hx_registration result) as [[[scheduler usagePlugin] managementAPI]|e];
    destruct callErr, (len raw =? 0), (len result =? 0); cbn in Hc; try done;
    destruct ok, scheduler, usagePlugin, managementAPI; done.
Qed.

Lemma check_status_ok answer :
  check_status answer = Ok () →
  ∃ body zai, answer = (200, body) ∧ hx_status body = Ok (pluginID, "registered", zai) ∧ hx_zai_status zai = Ok ["redacted"].
Proof.
  destruct answer as [code body]. unfold check_status. cbn [fst snd]. destruct (Z.eqb_spec code 200) as [->|]; [|done].
  cbn [negb]. destruct (hx_status body) as [[[plugin status] zai]|] eqn:Hstatus; [|done]. cbn [wrap_err mbind res_bind].
  destruct (hx_zai_status zai) as [suffixes|] eqn:Hz; [|done]. cbn [wrap_err mbind res_bind].
  destruct (_ || negb (bool_decide (firstSuffix suffixes = _))) eqn:Hb; [done|]. intros _. crush_bool. subst.
  destruct suffixes as [|x [|]]; cbn in *; [lia| |lia]. subst x. by exists body, zai.
Qed.

Lemma assertRequests_ok stub :
  assertRequests stub = Ok () →
  us_counts stub !! anthropicUpstreamPath = Some 1 ∧ us_counts stub !! openAIUpstreamPath = Some 1.
Proof.
  intros Ha. assert (∀ path, path ∈ [anthropicUpstreamPath; openAIUpstreamPath] → us_counts stub !! path = Some 1) as Hall.
  { intros path Hp. pose proof (foldl_res_check _ _ _ Ha path Hp) as Hc. cbn in Hc.
    destruct (us_counts stub !! path) as [n|]; [|done]. cbn in Hc.
    destruct (n =? 1) eqn:Hn; [|done]. crush_bool. by rewrite Hn. }
  split; apply Hall; [left|right; left].
Qed.

Lemma capabilities_sees plugin : sees saw_registration (verifyCapabilities plugin).
Proof.
  unfold verifyCapabilities. apply sees_then. intros _. apply sees_deferring, sees_then. intros root.
  apply sees_deferring. cbv zeta. apply sees_then. intros _. apply sees_then. intros request.
  apply sees_answer. intros env log [raw callErr] [] Hc.
  apply check_registration_ok in Hc as (result & Hr). by exists request, raw, callErr, result.
Qed.

Lemma registered_sees env log baseURL :
  (run env log (pluginRegistered baseURL)).1 = Ok true →
  Exists (saw_listed baseURL) (run env log (pluginRegistered baseURL)).2.
Proof.
  unfold pluginRegistered, requestJSON. rewrite run_attempt. cbn [act run].
  destruct (env _ log _) as [[code body]|e] eqn:Hanswer; [|done].
  destruct (Z.eqb_spec code 200) as [->|]; [|done]. cbn [negb run mret script_ret fst snd].
  destruct (hx_plugins body) as [[enabled items]|e] eqn:Hp; [|done]. cbn [mbind res_bind]. intros [= Hentry].
  apply Exists_app. right. constructor. by exists body, enabled, items.
Qed.

Lemma wait_sees fuel baseURL deadline : sees (saw_listed baseURL) (wait_loop fuel baseURL deadline).
Proof.
  induction fuel as [|fuel IH]; cbn [wait_loop]; [done|]. apply sees_bind. intros now.
  destruct (time_Before now deadline); [|done]. intros env log a. rewrite run_bind.
  pose proof (registered_sees env log baseURL) as Hlist.
  destruct (run env log (pluginRegistered baseURL)) as [registered log1]. cbn [fst snd] in Hlist.
  destruct registered as [[]|e]; [intros _; by apply Hlist|..]; apply (sees_bind _ _ _ (λ _, IH)).
Qed.

Lemma status_sees baseURL : sees (saw_refusal baseURL) (verifyStatusAuthentication baseURL)
  ∧ sees (saw_status baseURL) (verifyStatusAuthentication baseURL).
Proof.
  unfold verifyStatusAuthentication, requestJSON. split.
  - apply sees_result. intros env log [code body] b. destruct (Z.eqb_spec code 401) as [->|]; [|done].
    intros _. by exists body.
  - apply sees_then. intros [code body]. destruct (negb _); [done|]. apply sees_result.
    intros env log answer [] Hc. apply check_status_ok in Hc as (body' & zai & -> & Hs). by exists body', zai.
Qed.

Lemma inference_sees baseURL path model marker (anthropic : bool) :
  sees (saw_inference baseURL path model marker
    (if anthropic then [("X-Api-Key", clientKey); ("Anthropic-Version", "2023-06-01")]
     else [("Authorization", "Bearer " +:+ clientKey)]))
  (inferenceRoundTrip baseURL path model marker anthropic).
Proof.
  unfold inferenceRoundTrip. destruct (hx_marshal_inference model) as [request|e] eqn:Hm; [|done].
  intros env log0 a. rewrite run_attempt. cbn [run mret script_ret]. revert a. revert env log0. apply sees_result.
  intros env log [code body] []. destruct (Z.eqb_spec code 200) as [->|]; [|done]. cbn [negb orb].
  destruct (Contains body marker) eqn:Hb; [|done]. intros _. by exists request, body.
Qed.

Lemma upstream_sees : sees saw_upstream (stub ← act StubSeen; mret (assertRequests stub)).
Proof. apply sees_answer. intros env log stub [] Hs. exists stub. split; [done|by apply assertRequests_ok]. Qed.

Lemma log_sees root : sees (saw_log root) (rejectSchedulerErrors root).
Proof.
  unfold rejectSchedulerErrors. apply sees_result. intros env log0 log [] Hl. exists log. split; [done|].
  assert (∀ marker, marker ∈ rejected_markers → Contains log marker = false) as Hall.
  { intros marker Hm. pose proof (foldl_res_check _ _ _ Hl marker Hm) as Hc. cbn in Hc. by destruct (Contains log marker). }
  split; apply Hall; [left|right; left].
Qed.

(** All that the checks see. *)
Definition checked (root baseURL : string) (P : logged → Prop) : Prop :=
  P = saw_listed baseURL ∨ P = saw_refusal baseURL ∨ P = saw_status baseURL ∨ P = saw_messages baseURL
  ∨ P = saw_completions baseURL ∨ P = saw_upstream ∨ P = saw_log root.

Lemma checks_see root baseURL P : checked root baseURL P → sees P (host_checks root baseURL).
Proof.
  intros HP. unfold host_checks.
  destruct HP as [->|HP]; [by apply sees_first, sees_with_log, sees_bind; intros now; apply wait_sees|].
  apply sees_then. intros _. destruct HP as [->|HP]; [apply sees_first, sees_with_log, status_sees|].
  destruct HP as [->|HP]; [apply sees_first, sees_with_log, status_sees|]. apply sees_then. intros _.
  destruct HP as [->|HP]; [apply sees_first, sees_with_log, (inference_sees _ _ _ _ true)|]. apply sees_then. intros _.
  destruct HP as [->|HP]; [apply sees_first, sees_with_log, (inference_sees _ _ _ _ false)|]. apply sees_then. intros _.
  destruct HP as [->| ->]; [apply sees_first, sees_with_log, upstream_sees|]. apply sees_then. intros _. apply log_sees.
Qed.

Lemma host_succeeds binary plugin image env log final :
  succeeds env log (verifyHostHTTP binary plugin image) final →
  ∃ root port, Logged (MkdirTemp "zai-host-integration-") (Ok root) ∈ final ∧ Logged FreePort (Ok port) ∈ final
    ∧ Exists (saw_start binary root) final
    ∧ ∀ P, checked root ("http://127.0.0.1:" +:+ itoa port) P → Exists P final.
Proof.
  unfold verifyHostHTTP. intros Hs. apply succeeds_act in Hs as (root & log1 & Hroot & Hs).
  apply succeeds_deferring, succeeds_attempt in Hs as (caPath & log2 & Hs). apply succeeds_deferring in Hs.
  cbv zeta in Hs. do 3 (apply succeeds_attempt in Hs as (? & ? & Hs)).
  apply succeeds_wrapped in Hs as (port & log3 & Hport & Hs).
  do 2 (apply succeeds_attempt in Hs as (? & ? & Hs)). apply succeeds_deferring, succeeds_bind in Hs.
  apply succeeds_wrapped in Hs as ([] & log4 & Hstart & Hs). apply succeeds_deferring in Hs.
  exists root, port. split; [done|]. split; [done|]. split.
  - apply Exists_exists. eexists. split; [exact Hstart|]. by eexists.
  - intros P HP. eapply succeeds_sees; [|exact Hs]. by apply sees_first, checks_see.
Qed.

(** C27: the check of a host accepts nothing it has not seen. When it succeeds, the
    plugin named by the arguments was loaded and its registration advertised the three
    capabilities, the named host was started on the configuration in the temporary
    directory, and at the port reserved for that host: the list of plugins showed the
    plugin registered and enabled; the status was refused without the management key,
    and was registered and redacted with it; the two lanes of inference, each asked with
    its model and the client's key, answered 200 with the upstream's marker. The
    upstream saw each of its two paths exactly once, and the log of that host, host.log
    in the same directory, has neither of the two scheduler failures. *)
Theorem harness_accepts args env log :
  run env [] (main_run args) = (Ok (), log) →
  ∃ binary plugin image root port, hx_flags args = Ok (binary, plugin, image, [])
    ∧ Logged (LoadPlugin plugin) (Ok ()) ∈ log ∧ Exists saw_registration log
    ∧ Logged (MkdirTemp "zai-host-integration-") (Ok root) ∈ log ∧ Logged FreePort (Ok port) ∈ log
    ∧ Exists (saw_start binary root) log
    ∧ let baseURL := "http://127.0.0.1:" +:+ itoa port in
      Exists (saw_listed baseURL) log ∧ Exists (saw_refusal baseURL) log ∧ Exists (saw_status baseURL) log
      ∧ Exists (saw_messages baseURL) log ∧ Exists (saw_completions baseURL) log
      ∧ Exists saw_upstream log ∧ Exists (saw_log root) log.
Proof.
  intros Hrun. assert (succeeds env [] (main_run args) log) as Hs.
  { split; rewrite Hrun; [by exists ()|exists []; by rewrite app_nil_r]. }
  clear Hrun. unfold main_run in Hs.
  destruct (hx_flags args) as [[[[binary plugin] image] rest]|e]; [|by apply succeeds_err in Hs].
  destruct (decide (rest = [])) as [->|Hrest];
    [|rewrite bool_decide_eq_false_2 in Hs by done; by apply succeeds_err in Hs].
  rewrite bool_decide_eq_true_2 in Hs by done. cbn [negb] in Hs.
  destruct (_ || _); [by apply succeeds_err in Hs|].
  pose proof Hs as Hcap. apply succeeds_first in Hcap. apply succeeds_attempt in Hs as ([] & log1 & Hs).
  apply host_succeeds in Hs as (root & port & Hroot & Hport & Hstart & Hall).
  exists binary, plugin, image, root, port. split; [done|].
  split; [unfold verifyCapabilities in Hcap; by apply succeeds_wrapped in Hcap as ([] & ? & Hload & _)|].
  split; [eapply succeeds_sees; [|exact Hcap]; apply capabilities_sees|]. do 3 (split; [done|]).
  cbv zeta. unfold checked in Hall. split_and!; apply Hall; tauto.
Qed.

End Accepted.

(** ** The environment of the host, filtered in place *)

Lemma clean_loop_spec (environment array : list string) n k :
  (n <= length environment)%nat → length array = length environment →
  let i := (length environment - n)%nat in
  (k <= i)%nat → drop i array = drop i environment →
  let '(k', array') := clean_loop n i k array in
  (k' <= length array')%nat
  ∧ take k' array' = take k array ++ filter (λ item, is_proxy item = false) (drop i environment).
Proof.
  revert array k. induction n as [|n IH]; intros array k Hn Hlen i Hk Hdrop; cbn [clean_loop].
  { unfold i in *. rewrite Nat.sub_0_r, drop_all, filter_nil, app_nil_r in *. split; [lia|done]. }
  assert (is_Some (environment !! i)) as [item Hi] by (apply lookup_lt_is_Some; unfold i; lia).
  assert (array !! i = Some item) as Ha.
  { rewrite <- (Nat.add_0_r i), <- lookup_drop, Hdrop, lookup_drop, Nat.add_0_r. done. }
  rewrite Ha. change (default "" (Some item)) with item. assert (S i = length environment - n)%nat as HSi by (unfold i; lia).
  assert (drop i environment = item :: drop (S i) environment) as -> by (by apply drop_S).
  assert (drop (S i) array = drop (S i) environment) as HdropS.
  { rewrite <- !(Nat.add_1_r i), <- !drop_drop. by rewrite Hdrop. }
  rewrite filter_cons. destruct (is_proxy item) eqn:Hp.
  - rewrite decide_False by congruence. pose proof (IH array k ltac:(lia) Hlen ltac:(lia)) as Hrec.
    rewrite <- HSi in Hrec. exact (Hrec HdropS).
  - rewrite decide_True by done. pose proof (IH (<[k:=item]> array) (S k) ltac:(lia)
      ltac:(by rewrite length_insert) ltac:(lia)) as Hrec.
    rewrite <- HSi in Hrec. specialize (Hrec ltac:(rewrite drop_insert_lt by lia; exact HdropS)).
    destruct (clean_loop n (S i) (S k) (<[k:=item]> array)) as [k' array']. destruct Hrec as [Hk' Ht]. split; [done|].
    rewrite Ht. rewrite (take_S_r _ _ item) by (apply list_lookup_insert_eq; unfold i in Hk; lia).
    rewrite take_insert_ge by lia. by rewrite <- app_assoc.
Qed.

(** Filtering the environment within its own array, the loop never reads what it has
    written: the result is the variables that are not those of a proxy, in order, and the
    two that turn proxies off. *)
Theorem cleanProxyEnvironment_filter environment :
  cleanProxyEnvironment environment
  = filter (λ item, is_proxy item = false) environment ++ ["NO_PROXY=*"; "no_proxy=*"].
Proof.
  unfold cleanProxyEnvironment. pose proof (clean_loop_spec environment environment (length environment) 0) as Hl.
  rewrite Nat.sub_diag in Hl. specialize (Hl ltac:(lia) eq_refl ltac:(lia) eq_refl).
  destruct (clean_loop _ 0 0 environment) as [k array]. destruct Hl as [_ ->]. done.
Qed.

(** ** The stub's count of requests *)

(** The stub after some requests, each with the two readings of the clock. *)
Definition served (requests : list (stub_request * Time * Time)) (stub : upstreamStub) : upstreamStub :=
  foldl (λ stub r, (serveHTTP stub r.1.1 r.1.2 r.2).1) stub requests.

Definition hits (path : string) (requests : list (stub_request * Time * Time)) : nat :=
  length (filter (λ r, sr_path r.1.1 = path) requests).

Lemma served_counts requests stub path :
  Z.of_nat (length requests) + default 0 (us_counts stub !! path) < 9223372036854775808 →
  0 <= default 0 (us_counts stub !! path) →
  default 0 (us_counts (served requests stub) !! path) = default 0 (us_counts stub !! path) + Z.of_nat (hits path requests).
Proof.
  revert stub. induction requests as [|[[request now] now'] requests IH]; intros stub Hlt Hpos; [cbn; lia|].
  cbn [length] in Hlt. unfold hits. rewrite filter_cons. cbn [fst snd].
  change (served ((request, now, now') :: requests) stub) with (served requests (serveHTTP stub request now now').1).
  set (stub' := (serveHTTP stub request now now').1).
  assert (default 0 (us_counts stub' !! path)
    = default 0 (us_counts stub !! path) + if decide (sr_path request = path) then 1 else 0) as Hcount.
  { unfold stub', serveHTTP. cbn [fst us_counts]. case_decide as Hp.
    - subst path. rewrite lookup_insert_eq. cbn [default]. rewrite wrap64_id; [done|]. unfold in_int64, int64_min, int64_max. lia.
    - rewrite lookup_insert_ne by done. lia. }
  rewrite IH, Hcount by (rewrite Hcount; case_decide; lia). unfold hits. case_decide; cbn [length]; lia.
Qed.

(** The stub is satisfied exactly when each of the two inference paths was asked for
    once, whatever else was asked for and whatever it answered. *)
Theorem assertRequests_once requests :
  Z.of_nat (length requests) < 9223372036854775808 →
  assertRequests (served requests new_stub) = Ok ()
  ↔ hits anthropicUpstreamPath requests = 1%nat ∧ hits openAIUpstreamPath requests = 1%nat.
Proof.
  intros Hlt. unfold assertRequests. cbn [foldl_res].
  rewrite !(served_counts requests new_stub) by (cbn; rewrite ?lookup_empty; cbn; lia). cbn [new_stub us_counts].
  rewrite !lookup_empty. cbn [default].
  destruct (Z.eqb_spec (0 + Z.of_nat (hits anthropicUpstreamPath requests)) 1); cbn [negb mbind res_bind];
    [|split; [done|lia]].
  destruct (Z.eqb_spec (0 + Z.of_nat (hits openAIUpstreamPath requests)) 1); cbn [negb mbind res_bind];
    [split; [lia|done]|split; [done|lia]].
Qed.

(** ** Waiting for the host ends *)

Section Waiting.
Context `{GoStd} `{HarnessCodecs}.

Definition slept_by (l : logged) : Duration :=
  match l with Logged a _ => match a with Sleep d => Z.max 0 d | _ => 0 end end.

Definition slept (log : list logged) : Duration := foldr (λ l d, slept_by l + d) 0 log.

Lemma slept_app log more : slept (log ++ more) = slept log + slept more.
Proof. unfold slept. induction log as [|l log IH]; [done|]. cbn. rewrite IH. lia. Qed.

Lemma slept_pos log : 0 <= slept log.
Proof.
  unfold slept. induction log as [|[X a x] log IH]; [done|]. cbn [foldr].
  assert (0 <= slept_by (Logged a x)) by (unfold slept_by; destruct a; lia). lia.
Qed.

(** A clock that goes on by at least what is slept. *)
Record clock_of (env : environment) (clock : list logged → Time) : Prop := {
  clock_now log : env _ log Now = clock log;
  clock_forward log more : clock log + slept more <= clock (log ++ more);
}.

Lemma wait_loop_fuel env clock baseURL deadline n fuel fuel' log :
  clock_of env clock → deadline - clock log <= 250 * millisecond * Z.of_nat n → (n < fuel)%nat → (n < fuel')%nat →
  run env log (wait_loop fuel baseURL deadline) = run env log (wait_loop fuel' baseURL deadline).
Proof.
  intros [Hnow Hforward]. revert fuel fuel' log.
  induction n as [|n IH]; intros [|fuel] [|fuel'] log Hd Hf Hf'; try lia; cbn [wait_loop]; rewrite !run_bind;
    cbn [act run]; rewrite (Hnow log).
  - unfold time_Before. destruct (Z.ltb_spec (clock log) deadline); [lia|done].
  - destruct (time_Before (clock log) deadline); [|done]. rewrite !run_bind.
    destruct (run_extends env (log ++ [Logged Now (clock log)]) (pluginRegistered baseURL)) as [more Hm].
    destruct (run env _ (pluginRegistered baseURL)) as [registered log1]. cbn [snd] in Hm. subst log1.
    assert (∀ x : unit, run env (((log ++ [Logged Now (clock log)]) ++ more) ++ [Logged (Sleep (250 * millisecond)) x])
        (wait_loop fuel baseURL deadline)
      = run env (((log ++ [Logged Now (clock log)]) ++ more) ++ [Logged (Sleep (250 * millisecond)) x])
        (wait_loop fuel' baseURL deadline)) as Hrec.
    { intros x. apply IH; [|lia..]. rewrite <- !app_assoc.
      pose proof (Hforward log ([Logged Now (clock log)] ++ more ++ [Logged (Sleep (250 * millisecond)) x])) as Hc.
      rewrite !slept_app in Hc. pose proof (slept_pos more).
      change (slept [Logged Now (clock log)]) with 0 in Hc.
      change (slept [Logged (Sleep (250 * millisecond)) x]) with (250 * millisecond) in Hc. lia. }
    destruct registered as [[]|e]; [done|..]; rewrite !run_bind; cbn [act run]; apply Hrec.
Qed.

(** C28: waiting for the host ends. On a clock that goes on by at least what is slept,
    the loop is over after 121 readings of the clock: giving it more turns changes
    neither what it returns nor what it does. *)
Theorem waitForRegistered_ends env clock baseURL fuel log :
  clock_of env clock → (wait_fuel <= fuel)%nat →
  run env log (now ← act Now; wait_loop fuel baseURL (time_Add now (30 * second)))
  = run env log (waitForRegistered baseURL).
Proof.
  intros Hc Hf. unfold waitForRegistered. rewrite !run_bind. cbn [act run]. rewrite (clock_now _ _ Hc log).
  unfold wait_fuel in *. apply (wait_loop_fuel env clock baseURL _ 120); [done| |lia|lia].
  pose proof (clock_forward _ _ Hc log [Logged Now (clock log)]) as Hl.
  change (slept [Logged Now (clock log)]) with 0 in Hl. unfold time_Add, millisecond, second in *. lia.
Qed.

End Waiting.

(** ** Witnesses *)

Import DemoStd.

#[export] Instance demo_codecs : HarnessCodecs := {|
  hx_register := "plugin.register";
  hx_flags args := match args with [binary; plugin] => Ok (binary, plugin, "host image", []) | _ => errorf "usage" end;
  hx_marshal_config config := Ok config;
  hx_marshal_inference model := Ok model;
  hx_envelope raw := if decide (raw = "registered") then Ok (true, "all") else errorf "no envelope";
  hx_registration result := Ok (true, true, bool_decide (result = "all"));
  hx_plugins body :=
    Ok (true, [{| pi_ID := pluginID; pi_Configured := true; pi_Registered := bool_decide (body = "registered");
                  pi_Enabled := true; pi_EffectiveEnabled := true |}]);
  hx_status body := Ok (pluginID, "registered", body);
  hx_zai_status zai := Ok ["redacted"];
|}.

Definition started_at : Time := unix_epoch + 1767225600 * second.

Definition lane_request (path lane : string) : stub_request * Time * Time :=
  ({| sr_method := "POST"; sr_path := path; sr_uri := path; sr_lane := lane; sr_authorization := "" |}, started_at, started_at).

(** A host that registers the plugin half a second after it is started. *)
Definition demo_http (waited : Duration) (call : http_call) : res (Z * string) :=
  if HasSuffix (hc_url call) statusPath then
    if bool_decide (hc_headers call = []) then Ok (401, "") else Ok (200, "status")
  else if HasSuffix (hc_url call) pluginListPath then
    Ok (200, if waited <? 500 * millisecond then "loading" else "registered")
  else if HasSuffix (hc_url call) "/v1/messages" then Ok (200, "anthropic smoke ok")
  else Ok (200, "openai smoke ok").

Definition demo_env : environment := λ X log a,
  match a in action X return X with
  | LoadPlugin _ => Ok ()
  | CallPlugin _ _ => ("registered", None)
  | ClosePlugin => ()
  | MkdirTemp pattern => Ok ("/tmp/" +:+ pattern +:+ "1")
  | RemoveAll _ => ()
  | MkdirAll _ _ => Ok ()
  | ReadFile _ => Ok "started"
  | WriteFile _ _ _ => Ok ()
  | OpenLog _ => Ok ()
  | CloseLog => ()
  | NewCertificate => Ok ("certificate", "key")
  | ListenTCP _ => Ok ()
  | ServeStub _ _ => ()
  | StubSeen => served [lane_request anthropicUpstreamPath "anthropic"; lane_request openAIUpstreamPath "openai"] new_stub
  | ShutdownStub => ()
  | FreePort => Ok 8080
  | Environ => ["PATH=/bin"; "http_proxy=http://proxy"]
  | StartHost _ _ _ _ => Ok ()
  | KillHost => ()
  | WaitHost => ()
  | HTTP call => demo_http (slept log) call
  | Now => started_at + slept log
  | Sleep _ => ()
  | PrintLine _ => ()
  end.

Definition demo_run : res unit * list logged := run demo_env [] (main_run (H := demo_std) ["/bin/host"; "/plugin.so"]).

Lemma harness_accepts_witness :
  Exists saw_registration demo_run.2 ∧ Exists saw_upstream demo_run.2
  ∧ ∃ root port, Logged (MkdirTemp "zai-host-integration-") (Ok root) ∈ demo_run.2 ∧ Logged FreePort (Ok port) ∈ demo_run.2
      ∧ Exists (saw_status ("http://127.0.0.1:" +:+ itoa port)) demo_run.2 ∧ Exists (saw_log root) demo_run.2.
Proof.
  destruct (harness_accepts (H := demo_std) ["/bin/host"; "/plugin.so"] demo_env demo_run.2)
    as (binary & plugin & image & root & port & _ & _ & Hreg & Hroot & Hport & _ & _ & _ & Hst & _ & _ & Hu & Hl).
  - vm_compute. reflexivity.
  - split; [exact Hreg|]. split; [exact Hu|]. exists root, port. auto.
Defined.

Lemma demo_clock : clock_of demo_env (λ log, started_at + slept log).
Proof. split; [done|]. intros log more. rewrite slept_app. lia. Qed.

Definition demo_wait (fuel : nat) : script (res unit) :=
  now ← act Now; wait_loop fuel "http://127.0.0.1:8080" (time_Add now (30 * second)).

Lemma waitForRegistered_ends_witness :
  run demo_env [] (demo_wait 150) = run demo_env [] (waitForRegistered "http://127.0.0.1:8080")
  ∧ slept (run demo_env [] (demo_wait 150)).2 = 500 * millisecond.
Proof.
  split; [unfold demo_wait|vm_compute; reflexivity].
  apply (waitForRegistered_ends demo_env (λ log, started_at + slept log) "http://127.0.0.1:8080" 150 []).
  - exact demo_clock.
  - unfold wait_fuel. lia.
Defined.

Example environment_cleaned :
  cleanProxyEnvironment ["PATH=/bin"; "http_proxy=http://proxy"; "HOME=/root"]
  = ["PATH=/bin"; "HOME=/root"; "NO_PROXY=*"; "no_proxy=*"].
Proof. vm_compute. reflexivity. Qed.

(** Each lane's message has the marker the check looks for, and not that of the other. *)
Example messages_marked :
  Contains anthropic_message "anthropic smoke ok" = true ∧ Contains openai_message "openai smoke ok" = true
  ∧ Contains anthropic_message "openai smoke ok" = false ∧ Contains openai_message "anthropic smoke ok" = false.
Proof. vm_compute. repeat split. Qed.
