(* ===== verification/Manifest.v ===== *)
(** * The coordinator's diagnostic manifest (coordinator/manifest.go)

    The file manifest.json that a successful reconfiguration writes next to the
    directories of the providers, over the secure store on system calls. Nothing reads
    it back, and the result of writing it is ignored. *)

From S2P Require Import Prelude GoStrings SecureStore SecureDir Coordinator.

Definition manifestVersion : Z := 1.

Record manifestEntry := { me_RegisteredAt : Time }.

Record manifest := {
  mf_Version : Z;
  mf_CoordinatorID : string;
  mf_Providers : gmap string manifestEntry;
}.

Definition manifest_of (ids : list string) (now : Time) : manifest :=
  {| mf_Version := manifestVersion; mf_CoordinatorID := PluginID;
     mf_Providers := foldl (λ providers id, <[id := {| me_RegisteredAt := now |}]> providers) ∅ ids |}.

Section Writing.
Context (json_Marshal : manifest → string + string) (json_Decode : string → string → option manifest).
Context (Clean : string → string) (IsAbs : string → bool) (view : string → path_view).

(** The answers are those to opening the directory and to the write. *)
Definition writeManifest (mkdir chmod open : answer) (a : write_answers) (pluginAuthDir : string)
    (ids : list string) (now : Time) : IO (res unit) := λ d,
  match SecureDir.New Clean IsAbs view mkdir chmod open pluginAuthDir d with
  | Err e => (Err e, d, [])
  | Ok d =>
      let '(r, d, trace) := SecureDir.WriteJSON json_Marshal a "manifest.json" (manifest_of ids now) d in
      (r, SecureDir.Close d, trace)
  end.

Lemma manifest_providers ids now id :
  mf_Providers (manifest_of ids now) !! id = if decide (id ∈ ids) then Some {| me_RegisteredAt := now |} else None.
Proof.
  unfold manifest_of. cbn [mf_Providers].
  assert (∀ m : gmap string manifestEntry,
    foldl (λ providers id, <[id := {| me_RegisteredAt := now |}]> providers) m ids !! id
    = if decide (id ∈ ids) then Some {| me_RegisteredAt := now |} else m !! id) as Hall; [|by rewrite Hall, lookup_empty].
  induction ids as [|x ids IH]; intros m; [done|]. cbn [foldl]. rewrite IH.
  destruct (decide (id ∈ ids)) as [Hin|Hout]; [by rewrite decide_True by by right|].
  destruct (decide (id = x)) as [->|Hne]; [rewrite lookup_insert_eq, decide_True by left; done|].
  rewrite lookup_insert_ne by done. rewrite decide_False; [done|]. by intros [?|?]%elem_of_cons.
Qed.

Lemma implements_closed (C : Type) (decode : string → string → option C) b d s :
  implements decode d s →
  implements decode {| sd_inodes := sd_inodes d; sd_durable := sd_durable d; sd_pending := sd_pending d; sd_closed := b |}
    {| st_durable := st_durable s; st_pending := st_pending s; st_closed := b |}.
Proof. by intros [_ ? ? ?]. Qed.

Lemma write_contents (s : Store manifest) f value :
  contents (SecureStore.WriteJSON "manifest.json" value f s).2 = contents s
  ∧ is_Ok (SecureStore.WriteJSON "manifest.json" value f s).1 = false
  ∨ contents (SecureStore.WriteJSON "manifest.json" value f s).2 = <["manifest.json" := value]> (contents s).
Proof.
  unfold SecureStore.WriteJSON, checked. destruct (st_closed s); [by left|]. cbn [negb].
  assert (contents (push (Put "manifest.json" value) s) = <["manifest.json" := value]> (contents s)) as Hp.
  { unfold contents, push. cbn [st_durable st_pending]. unfold apply_changes. by rewrite foldl_app. }
  destruct (negb (valid_name "manifest.json")); [by left|].
  destruct f; [right|left|right|right]; cbn [fst snd]; try (split; done); try exact Hp;
    unfold syncDir, contents at 1; cbn [st_durable st_pending]; exact Hp.
Qed.

(** Writing the manifest touches nothing else. Whatever the system answers, the
    directory holds afterwards what it held before, except that manifest.json may be the
    new one, and is when the write succeeds; a crash on the way leaves one of the two,
    never a part of it; and the manifest lists exactly the modules of the coordinator. *)
Theorem manifest_written_alone mkdir chmod open a pluginAuthDir ids now d s :
  implements json_Decode d s → round_trips json_Marshal json_Decode "manifest.json" (manifest_of ids now) →
  let '(r, d', trace) := writeManifest mkdir chmod open a pluginAuthDir ids now d in
  (∃ s', implements json_Decode d' s'
     ∧ (contents s' = contents s ∧ is_Ok r = false
        ∨ contents s' = <["manifest.json" := manifest_of ids now]> (contents s)))
  ∧ (∀ x x', x ∈ d :: trace → dir_crashed x x' →
       ∃ m, implements json_Decode x' (SecureStore.New m)
         ∧ (crashed s m ∨ crashed (push (Put "manifest.json" (manifest_of ids now)) s) m))
  ∧ ∀ id, id ∈ ids ↔ is_Some (mf_Providers (manifest_of ids now) !! id).
Proof.
  intros Him Hround.
  assert (∀ id, id ∈ ids ↔ is_Some (mf_Providers (manifest_of ids now) !! id)) as Hids.
  { intros id. rewrite manifest_providers. case_decide; split; eauto; [done|by intros [? ?]]. }
  assert (∀ x', dir_crashed d x' → ∃ m, implements json_Decode x' (SecureStore.New m)
    ∧ (crashed s m ∨ crashed (push (Put "manifest.json" (manifest_of ids now)) s) m)) as Hbefore.
  { intros x' Hx. destruct (implements_crashed _ _ _ _ Him Hx) as (m & Hm & Hi). eauto. }
  assert (∀ r : res unit, is_Ok r = false →
    (∃ s', implements json_Decode d s' ∧ (contents s' = contents s ∧ is_Ok r = false
        ∨ contents s' = <["manifest.json" := manifest_of ids now]> (contents s)))
    ∧ (∀ x x', x ∈ d :: [] → dir_crashed x x' →
       ∃ m, implements json_Decode x' (SecureStore.New m)
         ∧ (crashed s m ∨ crashed (push (Put "manifest.json" (manifest_of ids now)) s) m))
    ∧ ∀ id, id ∈ ids ↔ is_Some (mf_Providers (manifest_of ids now) !! id)) as Hfailed.
  { intros r Hr. split; [exists s; auto|]. split; [|done]. intros x x' ->%list_elem_of_singleton. apply Hbefore. }
  unfold writeManifest. unfold SecureDir.New. destruct (clean_path Clean IsAbs pluginAuthDir) as [clean|];
    [|by apply Hfailed]. cbn [mbind res_bind].
  destruct (ensureSecureDirectory _ _ _); [|by apply Hfailed]. cbn [mbind res_bind].
  destruct open; [by apply Hfailed|].
  set (d0 := {| sd_inodes := _ |}). apply (implements_closed _ _ false) in Him. fold d0 in Him.
  set (s0 := {| st_durable := _ |}) in Him.
  pose proof (WriteJSON_spec json_Marshal json_Decode s0 "manifest.json" (manifest_of ids now) a d0 Hround) as Hw.
  specialize (Hw ltac:(discriminate) Him). unfold io_ok in Hw.
  destruct (SecureDir.WriteJSON json_Marshal a "manifest.json" (manifest_of ids now) d0) as [[r d1] trace].
  destruct Hw as [(f & Hr & Hs) Htrace]. split; [|split; [|done]].
  2: { intros x x' [->|Hx]%elem_of_cons Hcrash; [by apply Hbefore|].
       apply (passing_crashed json_Decode s0 (push (Put "manifest.json" (manifest_of ids now)) s0) x x'); [|done].
       exact (proj1 (Forall_forall _ _) Htrace x Hx). }
  pose proof (write_contents s0 f (manifest_of ids now)) as Hc.
  destruct (SecureStore.WriteJSON "manifest.json" (manifest_of ids now) f s0) as [r1 s1]. cbn [fst snd] in *.
  exists {| st_durable := st_durable s1; st_pending := st_pending s1; st_closed := true |}.
  split; [exact (implements_closed _ _ true _ _ Hs)|]. change (contents {| st_durable := _ |}) with (contents s1).
  change (contents s) with (contents s0). destruct Hc as [[Hc Hf]|Hc]; [left|by right].
  split; [done|]. destruct r, r1; done.
Qed.

End Writing.
