(* ===== verification/SnapshotCopy.v ===== *)
(** * Copies of the snapshot (zai/runtime.go, cloneRuntimeSnapshot)

    The other files have a snapshot as a value, so that a reader's copy is the snapshot
    itself. Here the snapshot is what the code has: a struct with pointers to maps and
    slices, in a memory that is shared, and the copy is made cell by cell. The theorem is
    what the other files rely on: the copy reads as the same value, and no write through
    the one is seen through the other. [update_in_copy] is its use in the update of an
    account (zai/management.go).

    The slices inside an account and inside the configuration, which the copies share,
    are values here: nothing writes them once they are built. *)

From S2P Require Import Prelude GoStrings Host Credits Quota Config Accounts Windows Health Settings Runtime Management.

(** ** Memory *)

Notation loc := positive (only parsing).

(** A slice: an array, the position in it and the length; [nil] is [None]. *)
Record slice := Slice { sl_array : loc; sl_from : nat; sl_len : nat }.

(** accountQuotaState as it is in memory. *)
Record quotaStruct := {
  qr_Authoritative : option loc;
  qr_LastPollAttempt : Time;
  qr_LastPollError : string;
  qr_ConsecutiveFailures : Z;
  qr_Events : option slice;
  qr_DedupHashes : option slice;
  qr_CompleteSince : Time;
  qr_DeliveryWarning : bool;
  qr_PersistenceWarning : bool;
  qr_UnknownModelWarning : bool;
  qr_DedupCollisionWarn : bool;
  qr_LastSourceTransition : string;
  qr_LastDivergence : string;
}.

(** runtimeSnapshot as it is in memory. *)
Record snapshotStruct := {
  sm_Config : pluginConfig;
  sm_BaseAccounts : option slice;
  sm_Accounts : option slice;
  sm_Store : option secureStore;
  sm_Quota : option loc;
  sm_Health : option loc;
  sm_cursors : option loc;
  sm_byAuthID : option loc;
  sm_byIdentity : option loc;
  sm_Generation : Z;
}.

Inductive cell :=
| CAccounts (items : list account)
| CEvents (items : list creditEvent)
| CStrings (items : list string)
| CWindows (quota : quotaSnapshot)
| COwners (m : gmap string string)
| CIdentities (m : gmap string account)
| CHealth (m : gmap string accountHealthState)
| CCursors (m : gmap string Z)
| CQuota (m : gmap string quotaStruct).

Notation memory := (gmap loc cell) (only parsing).

(** The types of which there are cells. *)
Class Stored (A : Type) := {
  put : A → cell;
  get : cell → option A;
  get_put : ∀ a, get (put a) = Some a;
}.

#[export, refine] Instance stored_accounts : Stored (list account) :=
  {| put := CAccounts; get c := match c with CAccounts items => Some items | _ => None end |}.
Proof. done. Defined.

#[export, refine] Instance stored_events : Stored (list creditEvent) :=
  {| put := CEvents; get c := match c with CEvents items => Some items | _ => None end |}.
Proof. done. Defined.

#[export, refine] Instance stored_strings : Stored (list string) :=
  {| put := CStrings; get c := match c with CStrings items => Some items | _ => None end |}.
Proof. done. Defined.

#[export, refine] Instance stored_windows : Stored quotaSnapshot :=
  {| put := CWindows; get c := match c with CWindows quota => Some quota | _ => None end |}.
Proof. done. Defined.

#[export, refine] Instance stored_owners : Stored (gmap string string) :=
  {| put := COwners; get c := match c with COwners m => Some m | _ => None end |}.
Proof. done. Defined.

#[export, refine] Instance stored_identities : Stored (gmap string account) :=
  {| put := CIdentities; get c := match c with CIdentities m => Some m | _ => None end |}.
Proof. done. Defined.

#[export, refine] Instance stored_health : Stored (gmap string accountHealthState) :=
  {| put := CHealth; get c := match c with CHealth m => Some m | _ => None end |}.
Proof. done. Defined.

#[export, refine] Instance stored_cursors : Stored (gmap string Z) :=
  {| put := CCursors; get c := match c with CCursors m => Some m | _ => None end |}.
Proof. done. Defined.

#[export, refine] Instance stored_quota : Stored (gmap string quotaStruct) :=
  {| put := CQuota; get c := match c with CQuota m => Some m | _ => None end |}.
Proof. done. Defined.

Definition alloc (c : cell) (h : memory) : loc * memory := let l := fresh (dom h) in (l, <[l := c]> h).

Definition load {A} `{Stored A} (h : memory) (l : loc) : option A := h !! l ≫= get.

Definition read_slice {A} `{Stored (list A)} (h : memory) (s : option slice) : list A :=
  match s with
  | None => []
  | Some s => take (sl_len s) (drop (sl_from s) (default [] (load h (sl_array s))))
  end.

(** Ranging over a nil map does nothing. *)
Definition read_map {V} `{Stored (gmap string V)} (h : memory) (m : option loc) : gmap string V :=
  default ∅ (m ≫= load h).

(** ** The value of a snapshot *)

Definition read_quota (h : memory) (q : quotaStruct) : accountQuotaState := {|
  qs_Authoritative := qr_Authoritative q ≫= load h;
  qs_LastPollAttempt := qr_LastPollAttempt q;
  qs_LastPollError := qr_LastPollError q;
  qs_ConsecutiveFailures := qr_ConsecutiveFailures q;
  qs_Events := read_slice h (qr_Events q);
  qs_DedupHashes := read_slice h (qr_DedupHashes q);
  qs_CompleteSince := qr_CompleteSince q;
  qs_DeliveryWarning := qr_DeliveryWarning q;
  qs_PersistenceWarning := qr_PersistenceWarning q;
  qs_UnknownModelWarning := qr_UnknownModelWarning q;
  qs_DedupCollisionWarn := qr_DedupCollisionWarn q;
  qs_LastSourceTransition := qr_LastSourceTransition q;
  qs_LastDivergence := qr_LastDivergence q;
|}.

Definition read_snapshot (h : memory) (s : snapshotStruct) : runtimeSnapshot := {|
  rs_Config := sm_Config s;
  rs_BaseAccounts := read_slice h (sm_BaseAccounts s);
  rs_Accounts := read_slice h (sm_Accounts s);
  rs_Store := sm_Store s;
  rs_Quota := read_quota h <$> read_map h (sm_Quota s);
  rs_Health := read_map h (sm_Health s);
  rs_Routing := read_map h (sm_cursors s);
  rs_byAuthID := read_map h (sm_byAuthID s);
  rs_byIdentity := read_map h (sm_byIdentity s);
  rs_Generation := sm_Generation s;
|}.

(** The cells a snapshot leads to. *)
Definition slice_cells (s : option slice) : list loc := match s with Some s => [sl_array s] | None => [] end.

Definition quota_cells (q : quotaStruct) : list loc :=
  slice_cells (qr_Events q) ++ slice_cells (qr_DedupHashes q) ++ option_list (qr_Authoritative q).

Definition states_cells (m : gmap string quotaStruct) : list loc := map_to_list m ≫= λ '(_, q), quota_cells q.

Definition struct_cells (s : snapshotStruct) : list loc :=
  slice_cells (sm_BaseAccounts s) ++ slice_cells (sm_Accounts s) ++ option_list (sm_byAuthID s)
  ++ option_list (sm_byIdentity s) ++ option_list (sm_Health s) ++ option_list (sm_cursors s)
  ++ option_list (sm_Quota s).

Definition cells (h : memory) (s : snapshotStruct) : list loc :=
  struct_cells s ++ states_cells (read_map h (sm_Quota s)).

(** ** The copy *)

(** [append([]T(nil), items...)], which is nil when there are none. *)
Definition append_nil {A} `{Stored (list A)} (items : list A) (h : memory) : option slice * memory :=
  match items with
  | [] => (None, h)
  | _ => let '(l, h) := alloc (put items) h in (Some (Slice l 0 (length items)), h)
  end.

(** A map that is made, and filled in a loop over another one. *)
Definition copy_map {V} `{Stored (gmap string V)} (range : list (string * V)) (h : memory) : option loc * memory :=
  let '(l, h) := alloc (put (∅ : gmap string V)) h in
  (Some l, foldl (λ h '(k, v), <[l := put (<[k := v]> (read_map h (Some l)))]> h) h range).

(** [copyQuota := *state.Authoritative] *)
Definition copy_windows (a : option loc) (h : memory) : option loc * memory :=
  match a ≫= load h with
  | None => (None, h)
  | Some quota => let '(l, h) := alloc (put (quota : quotaSnapshot)) h in (Some l, h)
  end.

(** A turn of the loop over the states, whose copies go to the map at [l]. *)
Definition copy_state (l : loc) (h : memory) (entry : string * quotaStruct) : memory :=
  let '(identity, state) := entry in
  let '(events, h) := append_nil (read_slice h (qr_Events state) : list creditEvent) h in
  let '(hashes, h) := append_nil (read_slice h (qr_DedupHashes state) : list string) h in
  let '(authoritative, h) := copy_windows (qr_Authoritative state) h in
  let state := {|
    qr_Authoritative := authoritative;
    qr_LastPollAttempt := qr_LastPollAttempt state;
    qr_LastPollError := qr_LastPollError state;
    qr_ConsecutiveFailures := qr_ConsecutiveFailures state;
    qr_Events := events;
    qr_DedupHashes := hashes;
    qr_CompleteSince := qr_CompleteSince state;
    qr_DeliveryWarning := qr_DeliveryWarning state;
    qr_PersistenceWarning := qr_PersistenceWarning state;
    qr_UnknownModelWarning := qr_UnknownModelWarning state;
    qr_DedupCollisionWarn := qr_DedupCollisionWarn state;
    qr_LastSourceTransition := qr_LastSourceTransition state;
    qr_LastDivergence := qr_LastDivergence state |} in
  <[l := put (<[identity := state]> (read_map h (Some l)))]> h.

(** Go visits the entries of a map in any order; here it is that of [map_to_list], and
    only the places of the copies depend on it. *)
Definition cloneRuntimeSnapshot (source : snapshotStruct) (h : memory) : snapshotStruct * memory :=
  let '(base, h) := append_nil (read_slice h (sm_BaseAccounts source) : list account) h in
  let '(accounts, h) := append_nil (read_slice h (sm_Accounts source) : list account) h in
  let '(byAuthID, h) := copy_map (map_to_list (read_map h (sm_byAuthID source) : gmap string string)) h in
  let '(byIdentity, h) := copy_map (map_to_list (read_map h (sm_byIdentity source) : gmap string account)) h in
  let '(health, h) := copy_map (map_to_list (read_map h (sm_Health source) : gmap string accountHealthState)) h in
  let '(cursors, h) := copy_map (map_to_list (read_map h (sm_cursors source) : gmap string Z)) h in
  let '(quota, h) := alloc (put (∅ : gmap string quotaStruct)) h in
  let h := foldl (copy_state quota) h (map_to_list (read_map h (sm_Quota source) : gmap string quotaStruct)) in
  ({| sm_Config := sm_Config source;
      sm_BaseAccounts := base;
      sm_Accounts := accounts;
      sm_Store := sm_Store source;
      sm_Quota := Some quota;
      sm_Health := health;
      sm_cursors := cursors;
      sm_byAuthID := byAuthID;
      sm_byIdentity := byIdentity;
      sm_Generation := sm_Generation source |}, h).

(** ** What a copy adds to the memory *)

Definition agree (ls : list loc) (h h' : memory) : Prop := ∀ l, l ∈ ls → h' !! l = h !! l.

(** Every cell there was is kept, and those of the list are new, each once. *)
Record adds (h h' : memory) (ls : list loc) : Prop := {
  adds_kept : ∀ l, is_Some (h !! l) → h' !! l = h !! l;
  adds_unique : NoDup ls;
  adds_new : ∀ l, l ∈ ls → h !! l = None ∧ is_Some (h' !! l);
}.

Lemma adds_nil h : adds h h [].
Proof. split; [done|constructor|]. by intros l ?%not_elem_of_nil. Qed.

Lemma adds_trans h h1 h2 ls1 ls2 : adds h h1 ls1 → adds h1 h2 ls2 → adds h h2 (ls1 ++ ls2).
Proof.
  intros [Hk1 Hu1 Hn1] [Hk2 Hu2 Hn2]. split.
  - intros l Hl. rewrite Hk2; [by apply Hk1|]. by rewrite Hk1.
  - apply NoDup_app. split_and!; [done| |done]. intros l H1%Hn1 H2%Hn2.
    destruct H1 as [_ [c Hc]], H2 as [Hnone _]. congruence.
  - intros l [Hl|Hl]%elem_of_app.
    + destruct (Hn1 l Hl) as [? Hs]. split; [done|]. by rewrite Hk2.
    + destruct (Hn2 l Hl) as [Hnone Hs]. split; [|done]. destruct (h !! l) as [c|] eqn:Hc; [|done].
      rewrite Hk1 in Hnone by eauto. congruence.
Qed.

Lemma adds_perm h h' ls ls' : ls ≡ₚ ls' → adds h h' ls → adds h h' ls'.
Proof. intros Hp [Hk Hu Hn]. split; [done|by rewrite <- Hp|]. intros l Hl. apply Hn. by rewrite Hp. Qed.

Lemma adds_store h h' ls l c : l ∈ ls → adds h h' ls → adds h (<[l := c]> h') ls.
Proof.
  intros Hl [Hk Hu Hn]. split; [|done|].
  - intros l' Hs. rewrite lookup_insert_ne; [by apply Hk|]. intros <-. destruct (Hn l Hl) as [Hnone _].
    rewrite Hnone in Hs. by destruct Hs.
  - intros l' Hl'. destruct (Hn l' Hl') as [? Hs]. split; [done|].
    destruct (decide (l = l')) as [->|]; [by rewrite lookup_insert_eq|by rewrite lookup_insert_ne].
Qed.

Lemma adds_alloc h c l h' : alloc c h = (l, h') → adds h h' [l] ∧ h' !! l = Some c.
Proof.
  unfold alloc. intros [= <- <-]. assert (h !! fresh (dom h) = None) as Hf by apply not_elem_of_dom, is_fresh.
  split; [|apply lookup_insert_eq]. split.
  - intros l [x Hx]. rewrite lookup_insert_ne; [done|]. intros <-. congruence.
  - apply NoDup_singleton.
  - intros l ->%list_elem_of_singleton. by rewrite lookup_insert_eq.
Qed.

Lemma kept_agree h h' ls added : (∀ l, l ∈ ls → is_Some (h !! l)) → adds h h' added → agree ls h h'.
Proof. intros Hs [Hk _ _] l Hl. apply Hk. by apply Hs. Qed.

Lemma agree_app ls1 ls2 h h' : agree (ls1 ++ ls2) h h' → agree ls1 h h' ∧ agree ls2 h h'.
Proof. intros Ha. split; intros l Hl; apply Ha, elem_of_app; eauto. Qed.

(** ** Reading the same *)

Section Reading.
Context {h h' : memory}.

Lemma read_slice_agree {A} `{Stored (list A)} (s : option slice) :
  agree (slice_cells s) h h' → read_slice h' s = read_slice h s.
Proof. destruct s as [s|]; [|done]. intros Ha. unfold read_slice, load. by rewrite (Ha _ (list_elem_of_here _ _)). Qed.

Lemma load_agree {A} `{Stored A} (a : option loc) : agree (option_list a) h h' → a ≫= load h' = a ≫= load h.
Proof. destruct a as [l|]; [|done]. intros Ha. cbn. unfold load. by rewrite (Ha _ (list_elem_of_here _ _)). Qed.

Lemma read_map_agree {V} `{Stored (gmap string V)} (m : option loc) :
  agree (option_list m) h h' → read_map h' m = read_map h m.
Proof. intros Ha. unfold read_map. by rewrite load_agree. Qed.

Lemma read_quota_agree q : agree (quota_cells q) h h' → read_quota h' q = read_quota h q.
Proof.
  intros [He [Hd Ha]%agree_app]%agree_app. unfold read_quota.
  by rewrite (load_agree _ Ha), (read_slice_agree _ He), (read_slice_agree _ Hd).
Qed.

Lemma states_cells_lookup (m : gmap string quotaStruct) k q l :
  m !! k = Some q → l ∈ quota_cells q → l ∈ states_cells m.
Proof. intros Hk Hl. apply list_elem_of_bind. exists (k, q). split; [done|by apply elem_of_map_to_list]. Qed.

Lemma read_quotas_agree (m : gmap string quotaStruct) :
  agree (states_cells m) h h' → read_quota h' <$> m = read_quota h <$> m.
Proof.
  intros Ha. apply map_fmap_ext. intros k q Hk. apply read_quota_agree. intros l Hl. apply Ha. by eapply states_cells_lookup.
Qed.

Lemma read_snapshot_agree s : agree (cells h s) h h' → read_snapshot h' s = read_snapshot h s.
Proof.
  unfold cells, struct_cells. intros [Hall Hq]%agree_app. apply agree_app in Hall as [Hb [Ha [Ho [Hi [Hh [Hc Hm]%agree_app]
    %agree_app]%agree_app]%agree_app]%agree_app].
  unfold read_snapshot. by rewrite !read_slice_agree, !(read_map_agree (V := _)), (read_quotas_agree _ Hq).
Qed.
End Reading.

(** ** Each part of the copy *)

Lemma append_nil_spec {A} `{Stored (list A)} (items : list A) h s h' :
  append_nil items h = (s, h') → adds h h' (slice_cells s) ∧ read_slice h' s = items.
Proof.
  destruct items as [|x items]; [intros [= <- <-]; split; [apply adds_nil|done]|]. unfold append_nil.
  destruct (alloc (put (x :: items)) h) as [l h1] eqn:Hl. intros [= <- <-]. apply adds_alloc in Hl as [Ha Hc].
  split; [done|]. unfold read_slice, load. cbn [sl_array sl_from sl_len]. rewrite Hc. cbn [mbind option_bind].
  rewrite get_put. cbn [default]. by rewrite drop_0, take_ge.
Qed.

Lemma copy_windows_spec a h a' h' :
  copy_windows a h = (a', h') → adds h h' (option_list a') ∧ (a' ≫= load h') = (a ≫= load (A := quotaSnapshot) h).
Proof.
  unfold copy_windows. destruct (a ≫= load h) as [quota|]; [|intros [= <- <-]; split; [apply adds_nil|done]].
  destruct (alloc (put quota) h) as [l h1] eqn:Hl. intros [= <- <-]. apply adds_alloc in Hl as [Ha Hc].
  split; [done|]. cbn. unfold load. rewrite Hc. done.
Qed.

Lemma read_map_store {V} `{Stored (gmap string V)} h l m : read_map (<[l := put m]> h) (Some l) = m.
Proof. unfold read_map, load. cbn. by rewrite lookup_insert_eq; cbn; rewrite get_put. Qed.

(** Filling a map with entries of different keys. *)
Lemma copy_map_loop {V} `{Stored (gmap string V)} h0 ls l (range : list (string * V)) h :
  l ∈ ls → adds h0 h ls → NoDup range.*1 →
  let h' := foldl (λ h '(k, v), <[l := put (<[k := v]> (read_map h (Some l)))]> h) h range in
  adds h0 h' ls
  ∧ ∀ k, read_map h' (Some l) !! k
      = match list_to_map (M := gmap string V) range !! k with Some v => Some v | None => read_map h (Some l) !! k end.
Proof.
  intros Hl. revert h. induction range as [|[k v] range IH]; intros h Ha Hd; [done|]. cbn [foldl].
  cbn [fmap list_fmap fst] in Hd. apply NoDup_cons in Hd as [Hk Hd].
  destruct (IH (<[l := put (<[k := v]> (read_map h (Some l)))]> h)) as [Ha' Hm]; [by apply adds_store|done|].
  split; [done|]. intros k'. rewrite Hm, read_map_store. cbn [list_to_map foldr].
  destruct (decide (k = k')) as [<-|Hne].
  - rewrite lookup_insert_eq, (not_elem_of_list_to_map_1 _ k), lookup_insert_eq by done. done.
  - rewrite !lookup_insert_ne by done. done.
Qed.

Lemma copy_map_spec {V} `{Stored (gmap string V)} (m : gmap string V) h r h' :
  copy_map (map_to_list m) h = (r, h') → adds h h' (option_list r) ∧ read_map h' r = m.
Proof.
  unfold copy_map. destruct (alloc (put ∅) h) as [l h1] eqn:Hl. intros [= <- <-].
  apply adds_alloc in Hl as [Ha Hc].
  destruct (copy_map_loop h [l] l (map_to_list m) h1) as [Ha' Hm]; [left|done|apply NoDup_fst_map_to_list|].
  split; [done|]. apply map_eq. intros k. rewrite Hm, list_to_map_to_list. destruct (m !! k) as [v|]; [done|].
  unfold read_map, load. cbn. rewrite Hc. cbn. rewrite get_put. exact (lookup_empty k).
Qed.

Definition allocated (h : memory) (ls : list loc) : Prop := ∀ l, l ∈ ls → is_Some (h !! l).

Lemma adds_allocated h h' ls : adds h h' ls → allocated h' ls.
Proof. intros [_ _ Hn] l Hl. by apply Hn. Qed.

Lemma allocated_kept h h' ls added : allocated h ls → adds h h' added → allocated h' ls.
Proof. intros Hs [Hk _ _] l Hl. rewrite Hk by by apply Hs. by apply Hs. Qed.

Lemma allocated_app h ls1 ls2 : allocated h (ls1 ++ ls2) → allocated h ls1 ∧ allocated h ls2.
Proof. intros Ha. split; intros l Hl; apply Ha, elem_of_app; eauto. Qed.

(** The reads of a turn, each of what was there at the start. *)
Lemma copy_parts_spec h q events h1 hashes h2 authoritative h3 :
  allocated h (quota_cells q) →
  append_nil (read_slice h (qr_Events q) : list creditEvent) h = (events, h1) →
  append_nil (read_slice h1 (qr_DedupHashes q) : list string) h1 = (hashes, h2) →
  copy_windows (qr_Authoritative q) h2 = (authoritative, h3) →
  adds h h3 (slice_cells events ++ slice_cells hashes ++ option_list authoritative)
  ∧ read_slice h3 events = (read_slice h (qr_Events q) : list creditEvent)
  ∧ read_slice h3 hashes = (read_slice h (qr_DedupHashes q) : list string)
  ∧ authoritative ≫= load h3 = qr_Authoritative q ≫= load (A := quotaSnapshot) h.
Proof.
  intros [_ [Hd Hq]%allocated_app]%allocated_app He Hh Hw.
  apply append_nil_spec in He as [A1 R1]. apply append_nil_spec in Hh as [A2 R2]. apply copy_windows_spec in Hw as [A3 R3].
  pose proof (adds_trans _ _ _ _ _ A1 A2) as A12. pose proof (adds_trans _ _ _ _ _ A2 A3) as A23.
  split_and!.
  - by apply (adds_trans _ _ _ _ _ A1), (adds_trans _ _ _ _ _ A2).
  - rewrite <- R1. apply read_slice_agree. by apply (kept_agree _ _ _ _ (adds_allocated _ _ _ A1) A23).
  - transitivity (read_slice h2 hashes : list string).
    + apply read_slice_agree. by apply (kept_agree _ _ _ _ (adds_allocated _ _ _ A2) A3).
    + rewrite R2. apply read_slice_agree. by apply (kept_agree _ _ _ _ Hd A1).
  - rewrite R3. apply load_agree. by apply (kept_agree _ _ _ _ Hq A12).
Qed.

(** A turn of the loop over the states: the map at [l] has one more entry, whose cells
    are new and which reads as the state it copies. *)
Lemma copy_state_spec h0 ls l h k q :
  l ∈ ls → adds h0 h ls → allocated h (quota_cells q) →
  ∃ q', adds h0 (copy_state l h (k, q)) (ls ++ quota_cells q')
    ∧ read_map (copy_state l h (k, q)) (Some l) = <[k := q']> (read_map h (Some l))
    ∧ read_quota (copy_state l h (k, q)) q' = read_quota h q
    ∧ (∀ l', is_Some (h !! l') → l' ≠ l → copy_state l h (k, q) !! l' = h !! l').
Proof.
  intros Hl Ha Hq. cbn [copy_state].
  destruct (append_nil (read_slice h (qr_Events q)) h) as [events h1] eqn:He.
  destruct (append_nil (read_slice h1 (qr_DedupHashes q)) h1) as [hashes h2] eqn:Hh.
  destruct (copy_windows (qr_Authoritative q) h2) as [authoritative h3] eqn:Hw.
  destruct (copy_parts_spec _ _ _ _ _ _ _ _ Hq He Hh Hw) as (A & R1 & R2 & R3).
  set (q' := {| qr_Authoritative := authoritative |}). exists q'.
  assert (l ∉ quota_cells q') as Hnew.
  { intros Hin. destruct (adds_new _ _ _ A l Hin) as [Hnone _].
    destruct (adds_allocated _ _ _ Ha l Hl) as [c Hc]. congruence. }
  assert (read_map h3 (Some l) = (read_map h (Some l) : gmap string quotaStruct)) as ->.
  { apply read_map_agree. intros l' ->%list_elem_of_singleton. apply (adds_kept _ _ _ A). by apply (adds_allocated _ _ _ Ha). }
  split_and!.
  - apply adds_store; [apply elem_of_app; by left|]. exact (adds_trans _ _ _ _ _ Ha A).
  - apply read_map_store.
  - transitivity (read_quota h3 q').
    + apply read_quota_agree. intros l' Hl'. apply lookup_insert_ne. by intros <-.
    + unfold read_quota, q'. cbn. by rewrite R1, R2, R3.
  - intros l' Hs Hne. rewrite lookup_insert_ne by done. by apply (adds_kept _ _ _ A).
Qed.

Lemma states_cells_insert m k q :
  m !! k = None → states_cells (<[k := q]> m) ≡ₚ quota_cells q ++ states_cells m.
Proof. intros Hk. unfold states_cells. by rewrite map_to_list_insert. Qed.

Lemma copy_states_spec h0 l entries h :
  adds h0 h (l :: states_cells (read_map h (Some l))) → NoDup entries.*1 →
  (∀ k q, (k, q) ∈ entries → allocated h0 (quota_cells q) ∧ (read_map h (Some l) : gmap string quotaStruct) !! k = None) →
  let h' := foldl (copy_state l) h entries in
  adds h0 h' (l :: states_cells (read_map h' (Some l)))
  ∧ ∀ k, read_quota h' <$> (read_map h' (Some l) : gmap string quotaStruct) !! k
      = match list_to_map (M := gmap string quotaStruct) entries !! k with
        | Some q => Some (read_quota h0 q)
        | None => read_quota h <$> read_map h (Some l) !! k
        end.
Proof.
  revert h. induction entries as [|[k q] entries IH]; intros h Ha Hd He; [done|]. cbn [foldl].
  cbn [fmap list_fmap fst] in Hd. apply NoDup_cons in Hd as [Hk Hd].
  destruct (He k q) as [Hq Hnone]; [left|].
  destruct (copy_state_spec h0 _ l h k q (list_elem_of_here _ _) Ha (allocated_kept _ _ _ _ Hq Ha))
    as (q' & Ha1 & Hm1 & Hr1 & Hkept).
  set (h1 := copy_state l h (k, q)) in *. set (m := read_map h (Some l)) in *.
  apply (adds_perm _ _ _ (l :: states_cells (read_map h1 (Some l)))) in Ha1.
  2: { rewrite Hm1, states_cells_insert by done. cbn. by rewrite Permutation_app_comm. }
  destruct (IH h1 Ha1 Hd) as [Ha' Hr'].
  { intros k' q1 Hin. destruct (He k' q1) as [? Hn]; [by right|]. split; [done|]. rewrite Hm1.
    rewrite lookup_insert_ne; [done|]. intros <-. apply Hk. by apply (list_elem_of_fmap_2 fst _ (k, q1)). }
  split; [done|]. intros k'. rewrite Hr'. cbn [list_to_map foldr]. destruct (decide (k = k')) as [<-|Hne].
  - rewrite (not_elem_of_list_to_map_1 _ k) by done. rewrite Hm1, !lookup_insert_eq.
    change (Some (read_quota h1 q') = Some (read_quota h0 q)). rewrite Hr1. f_equal. apply read_quota_agree. by apply (kept_agree _ _ _ _ Hq Ha).
  - rewrite Hm1, !lookup_insert_ne by done. destruct (list_to_map entries !! k'); [done|].
    destruct (m !! k') as [q1|] eqn:Hq1; [|done].
    change (Some (read_quota h1 q1) = Some (read_quota h q1)). f_equal. apply read_quota_agree. intros l' Hl'.
    assert (l' ∈ states_cells m) as Hin by by eapply states_cells_lookup.
    apply Hkept; [apply (adds_allocated _ _ _ Ha); by right|]. intros ->.
    by destruct (NoDup_cons_1_1 _ _ (adds_unique _ _ _ Ha)).
Qed.

(** ** The whole copy *)

(** A part of the copy, made after others: it reads as the part of the source at the
    start, and goes on doing so. *)
Lemma slice_part {A} `{Stored (list A)} h h1 h2 (source s : option slice) added :
  allocated h (slice_cells source) → adds h h1 added →
  append_nil (read_slice h1 source) h1 = (s, h2) →
  adds h1 h2 (slice_cells s) ∧ adds h h2 (added ++ slice_cells s)
  ∧ ∀ h' more, adds h2 h' more → read_slice h' s = read_slice h source.
Proof.
  intros Hs Ha He. apply append_nil_spec in He as [A1 R]. split_and!; [done|by eapply adds_trans|].
  intros h' more Hm. rewrite <- (read_slice_agree source (kept_agree _ _ _ _ Hs Ha)), <- R. apply read_slice_agree.
  by apply (kept_agree _ _ _ _ (adds_allocated _ _ _ A1) Hm).
Qed.

Lemma map_part {V} `{Stored (gmap string V)} h h1 h2 (source r : option loc) added :
  allocated h (option_list source) → adds h h1 added →
  copy_map (map_to_list (read_map h1 source)) h1 = (r, h2) →
  adds h1 h2 (option_list r) ∧ adds h h2 (added ++ option_list r)
  ∧ ∀ h' more, adds h2 h' more → read_map h' r = read_map h source.
Proof.
  intros Hs Ha He. apply copy_map_spec in He as [A1 R]. split_and!; [done|by eapply adds_trans|].
  intros h' more Hm. rewrite <- (read_map_agree source (kept_agree _ _ _ _ Hs Ha)), <- R. apply read_map_agree.
  by apply (kept_agree _ _ _ _ (adds_allocated _ _ _ A1) Hm).
Qed.

Lemma states_part h h1 h2 (source : option loc) l added :
  allocated h (option_list source) → allocated h (states_cells (read_map h source)) → adds h h1 added →
  alloc (put (∅ : gmap string quotaStruct)) h1 = (l, h2) →
  let h' := foldl (copy_state l) h2 (map_to_list (read_map h2 source)) in
  adds h1 h' (l :: states_cells (read_map h' (Some l)))
  ∧ read_quota h' <$> read_map h' (Some l) = read_quota h <$> (read_map h source : gmap string quotaStruct).
Proof.
  intros Hs Hq Ha Hl. apply adds_alloc in Hl as [A1 Hc]. pose proof (adds_trans _ _ _ _ _ Ha A1) as Ha2.
  rewrite (read_map_agree source (kept_agree _ _ _ _ Hs Ha2)). set (m := read_map h source) in *.
  assert (read_map h2 (Some l) = (∅ : gmap string quotaStruct)) as Hempty.
  { unfold read_map, load. cbn. by rewrite Hc. }
  assert (∀ k q, (k, q) ∈ map_to_list m → allocated h (quota_cells q)) as Hcells.
  { intros k q Hin%elem_of_map_to_list l' Hl'. apply Hq. by eapply states_cells_lookup. }
  destruct (copy_states_spec h1 l (map_to_list m) h2) as [A2 R].
  - by rewrite Hempty.
  - apply NoDup_fst_map_to_list.
  - intros k q Hin. split; [by eapply allocated_kept; [eapply Hcells|]|]. by rewrite Hempty.
  - split; [done|]. apply map_eq. intros k. rewrite lookup_fmap, R, list_to_map_to_list, lookup_fmap, Hempty.
    destruct (m !! k) as [q|] eqn:Hk; [|done]. change (Some (read_quota h1 q) = Some (read_quota h q)). f_equal.
    apply read_quota_agree. eapply kept_agree; [|exact Ha]. by eapply Hcells, elem_of_map_to_list.
Qed.

Lemma clone_adds source h :
  allocated h (cells h source) →
  let '(copy, h') := cloneRuntimeSnapshot source h in
  adds h h' (cells h' copy) ∧ read_snapshot h' copy = read_snapshot h source.
Proof.
  unfold cells at 1, struct_cells. intros [Hall Hstates]%allocated_app.
  apply allocated_app in Hall as [Hbase [Hacc [Hown [Hid [Hhealth [Hcur Hquota]%allocated_app]%allocated_app]
    %allocated_app]%allocated_app]%allocated_app].
  unfold cloneRuntimeSnapshot.
  destruct (append_nil (read_slice h (sm_BaseAccounts source)) h) as [base h1] eqn:E1.
  apply (slice_part h _ _ _ _ [] Hbase (adds_nil h)) in E1 as (A1 & C1 & R1).
  destruct (append_nil (read_slice h1 (sm_Accounts source)) h1) as [accounts h2] eqn:E2.
  apply (slice_part h _ _ _ _ _ Hacc C1) in E2 as (A2 & C2 & R2).
  destruct (copy_map (map_to_list (read_map h2 (sm_byAuthID source))) h2) as [byAuthID h3] eqn:E3.
  apply (map_part h _ _ _ _ _ Hown C2) in E3 as (A3 & C3 & R3).
  destruct (copy_map (map_to_list (read_map h3 (sm_byIdentity source))) h3) as [byIdentity h4] eqn:E4.
  apply (map_part h _ _ _ _ _ Hid C3) in E4 as (A4 & C4 & R4).
  destruct (copy_map (map_to_list (read_map h4 (sm_Health source))) h4) as [health h5] eqn:E5.
  apply (map_part h _ _ _ _ _ Hhealth C4) in E5 as (A5 & C5 & R5).
  destruct (copy_map (map_to_list (read_map h5 (sm_cursors source))) h5) as [cursors h6] eqn:E6.
  apply (map_part h _ _ _ _ _ Hcur C5) in E6 as (A6 & C6 & R6).
  destruct (alloc (put ∅) h6) as [quota h7] eqn:E7.
  pose proof (states_part h _ _ _ _ _ Hquota Hstates C6 E7) as [B6 R7]. cbv zeta in B6, R7.
  set (h' := foldl (copy_state quota) h7 _) in *.
  pose proof (adds_trans _ _ _ _ _ A6 B6) as B5. pose proof (adds_trans _ _ _ _ _ A5 B5) as B4.
  pose proof (adds_trans _ _ _ _ _ A4 B4) as B3. pose proof (adds_trans _ _ _ _ _ A3 B3) as B2.
  pose proof (adds_trans _ _ _ _ _ A2 B2) as B1. pose proof (adds_trans _ _ _ _ _ A1 B1) as B0.
  split.
  - unfold cells, struct_cells. cbn [sm_BaseAccounts sm_Accounts sm_byAuthID sm_byIdentity sm_Health sm_cursors sm_Quota].
    rewrite <- !app_assoc. exact B0.
  - unfold read_snapshot. cbn [sm_Config sm_BaseAccounts sm_Accounts sm_Store sm_byAuthID sm_byIdentity sm_Health
      sm_cursors sm_Quota sm_Generation].
    by rewrite (R1 _ _ B1), (R2 _ _ B2), (R3 _ _ B3), (R4 _ _ B4), (R5 _ _ B5), (R6 _ _ B6), R7.
Qed.

(** What may have happened to the memory when only the cells of a list were written:
    cells that were not there may be. *)
Definition writes (ls : list loc) (h h' : memory) : Prop := ∀ l, l ∉ ls → is_Some (h !! l) → h' !! l = h !! l.

(** C15: a copy of the snapshot is the same and separate. In a memory that holds what the
    source leads to, it reads as the same value; each of its maps, slices and quotas is
    its own; whatever is written through it, the source reads as before; and whatever is
    written through the source, it does. *)
Theorem snapshot_copy_separate source h :
  allocated h (cells h source) →
  let '(copy, h') := cloneRuntimeSnapshot source h in
  read_snapshot h' copy = read_snapshot h source
  ∧ NoDup (cells h' copy)
  ∧ (∀ h2, writes (cells h' copy) h' h2 → read_snapshot h2 source = read_snapshot h source)
  ∧ (∀ h2, writes (cells h source) h' h2 → read_snapshot h2 copy = read_snapshot h source).
Proof.
  intros Hall. pose proof (clone_adds source h Hall) as Hc. destruct (cloneRuntimeSnapshot source h) as [copy h'].
  destruct Hc as [[Hkept Hunique Hnew] Hread]. split_and!; [done|done| |].
  - intros h2 Hw. apply read_snapshot_agree. intros l Hl. destruct (Hall l Hl) as [c Hcell].
    rewrite Hw; [apply Hkept; eauto| |rewrite Hkept; eauto]. intros [Hnone _]%Hnew. congruence.
  - intros h2 Hw. rewrite <- Hread. apply read_snapshot_agree. intros l Hl. destruct (Hnew l Hl) as [Hnone Hs].
    apply Hw; [|done]. intros [c Hcell]%Hall. congruence.
Qed.

(** ** An update of an account, in a copy (zai/management.go, updateAccountConfig) *)

(** [updated.Accounts[index] = candidate]; there is none when the index is out of range. *)
Definition set_account (h : memory) (s : option slice) (index : nat) (candidate : account) : option memory :=
  match s with
  | None => None
  | Some s =>
      items ← load (A := list account) h (sl_array s);
      if (index <? sl_len s)%nat then Some (<[sl_array s := put (<[(sl_from s + index)%nat := candidate]> items)]> h)
      else None
  end.

Definition with_identities (l : loc) (cfg : pluginConfig) (s : snapshotStruct) : snapshotStruct := {|
  sm_Config := cfg; sm_BaseAccounts := sm_BaseAccounts s; sm_Accounts := sm_Accounts s; sm_Store := sm_Store s;
  sm_Quota := sm_Quota s; sm_Health := sm_Health s; sm_cursors := sm_cursors s; sm_byAuthID := sm_byAuthID s;
  sm_byIdentity := Some l; sm_Generation := sm_Generation s |}.

Definition write_update (cfg : pluginConfig) (index : nat) (candidate : account) (updated : snapshotStruct)
    (h : memory) : option (snapshotStruct * memory) :=
  h ← set_account h (sm_Accounts updated) index candidate;
  let '(l, h) := match sm_byIdentity updated with
                 | Some l => (l, h)
                 | None => alloc (put (∅ : gmap string account)) h
                 end in
  Some (with_identities l cfg updated,
        <[l := put (<[ac_Identity candidate := candidate]> (read_map h (Some l)))]> h).

Lemma set_account_spec h s index candidate items :
  read_slice h s = items → (index < length items)%nat →
  ∃ l (a : list account), slice_cells s = [l] ∧ set_account h s index candidate = Some (<[l := put a]> h)
    ∧ read_slice (<[l := put a]> h) s = <[index := candidate]> items.
Proof.
  destruct s as [[l from n]|]; [|intros <-; cbn; lia]. unfold read_slice, load. cbn [sl_array sl_from sl_len].
  intros <-. destruct (h !! l ≫= get) as [items|] eqn:Hl; [|cbn; rewrite drop_nil, take_nil; cbn; lia].
  cbn [default]. intros Hi. rewrite length_take, length_drop in Hi.
  exists l, (<[(from + index)%nat := candidate]> items). split_and!; [done| |].
  - unfold set_account, load. cbn [sl_array sl_from sl_len]. rewrite Hl. cbn [mbind option_bind].
    destruct (Nat.ltb_spec index n); [done|lia].
  - rewrite lookup_insert_eq. cbn [mbind option_bind]. rewrite get_put. cbn [default]. unfold id.
    rewrite drop_insert_ge by lia. replace (from + index - from)%nat with index by lia. by rewrite take_insert_lt by lia.
Qed.

Lemma agree_insert ls h l c : l ∉ ls → agree ls h (<[l := c]> h).
Proof. intros Hn l' Hl'. apply lookup_insert_ne. by intros ->. Qed.

(** The cells of a snapshot but those of its accounts and its identities. *)
Definition other_cells (h : memory) (s : snapshotStruct) : list loc :=
  slice_cells (sm_BaseAccounts s) ++ option_list (sm_byAuthID s) ++ option_list (sm_Health s)
  ++ option_list (sm_cursors s) ++ option_list (sm_Quota s) ++ states_cells (read_map h (sm_Quota s)).

Lemma clone_identities source h copy h' :
  cloneRuntimeSnapshot source h = (copy, h') → ∃ l, sm_byIdentity copy = Some l.
Proof.
  unfold cloneRuntimeSnapshot, copy_map. repeat (destruct (append_nil _ _)). repeat (destruct (alloc _ _)).
  intros [= <- _]. eauto.
Qed.

(** Writing the accounts and the identities of a snapshot whose cells are its own changes
    these two parts of its value. *)
Lemma write_update_spec cfg index candidate s l h :
  NoDup (cells h s) → sm_byIdentity s = Some l → (index < length (rs_Accounts (read_snapshot h s)))%nat →
  ∃ h' s', write_update cfg index candidate s h = Some (s', h')
    ∧ (∀ x, x ∉ cells h s → h' !! x = h !! x)
    ∧ read_snapshot h' s'
      = set_config cfg (set_accounts (<[index := candidate]> (rs_Accounts (read_snapshot h s)))
          (<[ac_Identity candidate := candidate]> (rs_byIdentity (read_snapshot h s))) (read_snapshot h s)).
Proof.
  intros Hu Hl Hi. destruct (set_account_spec h (sm_Accounts s) index candidate _ eq_refl Hi) as (la & a & Hs & Hset & Hr).
  unfold write_update. rewrite Hset. cbn [mbind option_bind]. rewrite Hl. set (h1 := <[la := put a]> h) in *.
  assert (cells h s ≡ₚ la :: l :: other_cells h s) as Hp
    by (unfold cells, struct_cells, other_cells; rewrite Hs, Hl; cbn [option_list]; solve_Permutation).
  rewrite Hp in Hu. apply NoDup_cons in Hu as [[Hla Hno]%not_elem_of_cons [Hlo _]%NoDup_cons].
  set (h2 := <[l := _]> h1).
  assert (agree (other_cells h s) h h2) as Ho.
  { intros x Hx. unfold h2, h1. by rewrite (agree_insert _ _ _ _ Hlo), (agree_insert _ _ _ _ Hno). }
  exists h2, (with_identities l cfg s). split; [done|]. split.
  - intros x. rewrite Hp. intros [Hx1 [Hx2 _]%not_elem_of_cons]%not_elem_of_cons. unfold h2, h1. by rewrite !lookup_insert_ne.
  - unfold other_cells in Ho. apply agree_app in Ho as [Hb [Hown [Hhealth [Hcur [Hq Hst]%agree_app]%agree_app]%agree_app]%agree_app].
    unfold read_snapshot, with_identities, set_config, set_accounts.
    cbn [sm_Config sm_BaseAccounts sm_Accounts sm_Store sm_byAuthID sm_byIdentity sm_Health sm_cursors sm_Quota sm_Generation
      rs_Config rs_BaseAccounts rs_Accounts rs_Store rs_Quota rs_Health rs_Routing rs_byAuthID rs_byIdentity rs_Generation].
    rewrite (read_slice_agree _ Hb), (read_map_agree _ Hown), (read_map_agree _ Hhealth), (read_map_agree _ Hcur),
      (read_map_agree _ Hq), (read_quotas_agree _ Hst). f_equal.
    + rewrite <- Hr. apply read_slice_agree. rewrite Hs. apply agree_insert. by intros ?%list_elem_of_singleton.
    + unfold h2. rewrite read_map_store. f_equal. rewrite Hl. apply read_map_agree, agree_insert.
      by intros ?%list_elem_of_singleton.
Qed.

(** An update of an account is prepared in a copy: the live snapshot reads as before
    while it is, and the copy reads as the value that [plan_update] makes of it. *)
Theorem update_in_copy source h cfg index candidate :
  allocated h (cells h source) → (index < length (rs_Accounts (read_snapshot h source)))%nat →
  let '(copy, h1) := cloneRuntimeSnapshot source h in
  ∃ h2 updated, write_update cfg index candidate copy h1 = Some (updated, h2)
    ∧ read_snapshot h2 source = read_snapshot h source
    ∧ read_snapshot h2 updated
      = let live := read_snapshot h source in
        set_config cfg (set_accounts (<[index := candidate]> (rs_Accounts live))
          (<[ac_Identity candidate := candidate]> (rs_byIdentity live)) live).
Proof.
  intros Hall Hi. pose proof (clone_adds source h Hall) as Hc.
  destruct (cloneRuntimeSnapshot source h) as [copy h1] eqn:Hclone. destruct Hc as [Ha Hread].
  destruct (clone_identities _ _ _ _ Hclone) as [l Hl]. rewrite <- Hread in Hi |- *.
  destruct (write_update_spec cfg index candidate copy l h1 (adds_unique _ _ _ Ha) Hl Hi) as (h2 & s' & Hw & Hout & Hr).
  exists h2, s'. split; [done|]. split; [|done]. rewrite Hread. apply read_snapshot_agree. intros x Hx.
  rewrite Hout; [apply (adds_kept _ _ _ Ha); by apply Hall|]. intros Hin.
  destruct (adds_new _ _ _ Ha x Hin) as [Hnone _]. destruct (Hall x Hx). congruence.
Qed.

(** ** Witnesses *)

Definition demo_state : quotaStruct := {|
  qr_Authoritative := Some 9%positive; qr_LastPollAttempt := demo_now; qr_LastPollError := ""; qr_ConsecutiveFailures := 0;
  qr_Events := Some (Slice 7 1 1); qr_DedupHashes := Some (Slice 8 0 1); qr_CompleteSince := demo_now;
  qr_DeliveryWarning := false; qr_PersistenceWarning := false; qr_UnknownModelWarning := false;
  qr_DedupCollisionWarn := false; qr_LastSourceTransition := ""; qr_LastDivergence := "" |}.

Definition demo_event (credits : Z) : creditEvent :=
  {| ev_At := demo_now; ev_Microcredits := credits; ev_Model := "glm-5.3" |}.

Definition demo_memory : gmap loc cell := list_to_map [
  (1%positive, put [demo_account]);
  (2%positive, put ({["c" := "i"]} : gmap string string));
  (3%positive, put ({["i" := demo_account]} : gmap string account));
  (4%positive, put ({["i" := zero_health]} : gmap string accountHealthState));
  (6%positive, put ({["i" := demo_state]} : gmap string quotaStruct));
  (7%positive, put [demo_event 1; demo_event 2; demo_event 3]);
  (8%positive, put ["hash"]);
  (9%positive, put {| sn_Plan := "pro"; sn_FiveHour := zero_window; sn_FiveHourError := ""; sn_Weekly := zero_window;
                      sn_ObservedAt := demo_now |})].

(** The base accounts and the accounts are slices of one array, and there are no cursors. *)
Definition demo_source : snapshotStruct := {|
  sm_Config := demo_config; sm_BaseAccounts := Some (Slice 1 0 1); sm_Accounts := Some (Slice 1 0 1); sm_Store := None;
  sm_Quota := Some 6%positive; sm_Health := Some 4%positive; sm_cursors := None; sm_byAuthID := Some 2%positive;
  sm_byIdentity := Some 3%positive; sm_Generation := 7 |}.

Definition demo_copy : snapshotStruct * gmap loc cell := cloneRuntimeSnapshot demo_source demo_memory.

Lemma demo_allocated : allocated demo_memory (cells demo_memory demo_source).
Proof. unfold allocated. apply Forall_forall. vm_compute. repeat constructor; eexists; reflexivity. Qed.

Lemma snapshot_copy_separate_witness :
  read_snapshot demo_copy.2 demo_copy.1 = read_snapshot demo_memory demo_source
  ∧ read_snapshot (<[7%positive := put [demo_event 9]]> demo_copy.2) demo_copy.1 = read_snapshot demo_memory demo_source
  ∧ (qs_Events <$> rs_Quota (read_snapshot demo_memory demo_source) !! "i") = Some [demo_event 2].
Proof.
  pose proof (snapshot_copy_separate demo_source demo_memory demo_allocated) as H.
  unfold demo_copy. destruct (cloneRuntimeSnapshot demo_source demo_memory) as [copy h'].
  destruct H as (Hr & _ & _ & Hw). split; [exact Hr|]. split; [|vm_compute; reflexivity].
  apply Hw. intros l Hl _. apply lookup_insert_ne. intros <-. apply Hl.
  apply (bool_decide_eq_true_1 _). vm_compute. reflexivity.
Defined.
